(* ===== verification/_CoqProject ===== *)
-Q . S2P
Prelude.v
Types.v
Strings.v
Base64.v
OrderedMap.v
Hash.v
HashAccess.v
HashPaths.v
HashMerge.v
ValueString.v
HashCompare.v
SchemaAlias.v
BinaryWriter.v
BinaryReader.v
BufferSet.v
BinaryMulti.v
TimeDuration.v
Epochstamp.v
State.v
StateSignifier.v
Strand.v
Queues.v
TcpWriter.v
Memory.v
StdMap.v
Messages.v
OutputChannel.v
OutputResources.v
OutputUpdate.v
OutputRun.v
Effect.v
InputData.v
InputLinks.v
