(* ===== verification/Prelude.v ===== *)
(** * A verification of the data layer, the message queues and the pipelines of Karabo

    Karabo is the control system of the European XFEL.  Its C++ framework (src/src/karabo)
    exchanges everything, messages, configurations and data, as instances of one data
    structure, the Hash: a tree of named nodes with attributes whose values have one of a
    fixed set of types.  This library models three layers of the framework.

    - The data layer (src/src/karabo/data): the type system, the Hash with its operations by
      path, its binary serialisation, the time types that stamp the data, and the states of
      devices.
    - The ordering and queueing of the network layer (src/src/karabo/net): the strand, which
      runs tasks one after the other, the message queues, and the asynchronous writing of a
      TCP channel.
    - Pipelines (src/src/karabo/xms): the shared memory of chunks with usage counts, the
      output channel that distributes chunks to its inputs, and of the input channel what it
      offers to its handlers and its connections.

    The definitions are translations of the C++ functions of the same names; the theorems
    state what the rest of the framework relies on.

    ** How C++ is modelled

    A call that can fail is a function into [outcome] (this file): it returns, throws one of
    the exception classes that the code throws (message texts are left out), runs into
    behaviour that C++ does not define, or, for functions with fuel, does not end.  The last
    two are values of their own, so that a theorem "the call returns ..." or "the call is not
    out of fuel" says that they do not occur.  A call that changes an object returns the
    changed object together with its outcome ([effect] in HashAccess.v), so what an exception
    leaves half-done is visible, as in HashAccess.set_array_leaf.  Machine integers are
    integers in Z with their width written out ([wrap], [u64], [u32], [to_signed]); overflow
    of a signed type is undefined behaviour.  A character is an [ascii], a std::string a
    [string], a std::vector<char> a list of characters ([bytes]); numbers in a std::any are
    kept as the bits of their representation.  A std::any is the inductive type [Hash.value],
    whose last constructor stands for all types that no table names.  A shared pointer to a
    Hash is represented by its pointee, so sharing of one Hash by two pointers is not
    modelled, neither is a Hash that is merged into itself.

    Code that runs in several threads (Strand.v, TcpWriter.v, OutputChannel.v, InputLinks.v) is
    a transition system: a record [world] with the objects and everything that is under way
    (handlers posted to the event loop, functions between two of their locked regions, writes
    that the socket has not completed), a type [action] of the events that can come next, and
    an executable function [exec] that does one step, which is a region of the code that
    nothing can interleave with.  Theorems quantify over all lists of actions.  Fields
    that only record what has happened (the log of a strand, the wire of a channel with who
    was written to, the hellos of an output channel, ...) are there for the theorems; no
    definition reads them.

    ** The files

    - Prelude.v: outcomes with their monad, machine integers, bytes and strings.
    - Types.v: data/types/Types.hh and the conversion tables around it (ToType.hh,
      ToLiteral.hh, FromLiteral.cc, FromInt.cc, FromTypeInfo.cc, ...).
    - Strings.v: the helpers of data/types/StringTools.hh and .cc: tokenising a path, cropping
      the index of a key, printing of vectors and byte arrays.
    - Base64.v: data/types/Base64.cc.
    - OrderedMap.v: data/types/OrderedMap.hh, the container of nodes and of attributes, as the
      code has it (a std::map and a list of pointers) and as an association list in insertion
      order; the class [MappedType] is what it asks of its elements.  The Hash is built on the
      list, which the refinement theorem justifies.
    - Hash.v: data/types/Element.hh and the data of Hash.hh.
    - HashAccess.v, HashPaths.v, HashMerge.v, HashCompare.v: the operations of
      data/types/Hash.cc and Hash.hh: by path; listing paths and flattening; merging and
      subtracting; comparing and counting.
    - ValueString.v: values as text (Element.hh, operator<< of Hash), which fullyEquals
      compares.
    - SchemaAlias.v: what loading a Schema does beyond its Hash (data/types/Schema.cc).
    - BinaryWriter.v, BinaryReader.v: data/io/HashBinarySerializer.cc and .hh and
      SchemaBinarySerializer.cc, into and from one archive.
    - BufferSet.v, BinaryMulti.v: data/io/BufferSet.cc and .hh, and the serialiser's functions
      that keep byte arrays in buffers of their own.
    - TimeDuration.v, Epochstamp.v: data/time/TimeDuration, and Epochstamp, TimeId, Timestamp
      and TimePeriod, which store themselves in attributes and Hashes.
    - State.v, StateSignifier.v: data/types/State.cc and StateSignifier.cc.
    - Strand.v: net/Strand.cc, posting, the loop that runs tasks, and the destructor.
    - Queues.v: net/Queues.hh.  The class [Queue] is the code's interface, [QueueLaws] what a
      client may rely on, [CircularBuffer] with its laws boost::circular_buffer.
    - TcpWriter.v: the queued writing of net/TcpChannel.cc: dispatching by priority, doWrite
      and its completion handler, policies, queueInfo.
    - Memory.v: xms/Memory.cc and .hh, channels and chunks with their usage counts.
    - StdMap.v: a std::map as a sorted association list, whose iteration order the output
      channel depends on.
    - Messages.v: reading entries of the Hashes that input and output channels exchange.
    - OutputChannel.v: xms/OutputChannel.cc.  The registered inputs, the update in its three
      phases (start, the lock, the writes), availability and loss of inputs.
    - OutputResources.v: who is responsible for what: every use of a chunk, every flag of an
      update and every handler has one holder.  [sound] is the invariant, [serves] what a step
      has to keep of it, [balance] the hint database that settles the counting.
    - OutputUpdate.v: the update function keeps the balance and finishes, with the plan of
      what is sent, queued or waited for.
    - OutputRun.v: all steps together, and the theorems on runs.
    - InputData.v: what xms/InputChannel.cc prepares for its handlers, with std::multimap.
    - Effect.v, InputLinks.v: the connections of an input channel (connect, disconnect, the
      handlers of the network), as calls in a monad of state and exceptions.

    A Hash is the list of its nodes.  A pointer into a Hash ([Hash*], [Hash::Node*] in the code)
    is the list of keys and indices on the way to it, so that code which first finds a place
    and then changes it is modelled step by step.  The layers meet in values: queues and the
    TCP writer carry the BufferSets of BufferSet.v, the chunks of Memory.v are written with
    BinaryMulti.v, and the output channel calls the functions of Memory.v.

    ** What the theorems show

    Types and strings: the tables are inverse to each other and consistent; tokenising is the
    inverse of joining; index syntax and base64 round trip.  Container: the implementation
    refines the ordered list for every sequence of operations.  Hash: unique keys at every
    level are an invariant of all operations; set, setHash, get, has and erase fit together
    and do not touch what lies elsewhere; listed paths exist; flattening finds exactly the
    leaves; merging has its specification, down to the attributes; the comparisons are what
    their answers mean ([equal_hash] is equality as fullyEquals has it).
    Serialisation: the bytes written are those of the format, defined as a function of its own
    ([enc_hash]); reading gives back what was written, in one archive or in a set of buffers.
    Buffers: appending keeps all contents in order.  Time:
    arithmetic is exact in attoseconds modulo 2^64 seconds; storing round trips where it does,
    and exactly where it does not.  States: the hierarchy is an order; the most significant
    state is the one of the highest rank in the list; in completed lists every added state
    has its place.

    Strand: at most one task runs at a time and in the order of posting ([strand_fifo]); a
    posted task begins ([posted_task_begins]).  Queues: the implementations refine an abstract
    bounded queue, all but one answer as documented ([queue_refinement]), and none reorders
    ([queue_traffic]).  Writing: one
    write at a time, whole frames, nothing queued is forgotten ([writer_invariant]); priorities
    and the order within one ([writer_order]).  Memory: a chunk keeps what its owner wrote until
    its last user lets go, and it is read back ([memory_keeps_data]).  Output channel: no
    interleaving leads to a step that fails, except for one race, of finalSignal with an update
    that sleeps ([steps_defined], [final_signal_races]); the usage count of a chunk is the
    number of its holders ([chunk_uses]); the two handlers of an update are called once
    ([handlers_called]); what is sent goes to a registered input and is what the update had,
    for a local input as a reference to the chunk ([messages_faithful]); and there is one way
    only to lose uses of chunks ([only_rehello_leaks]).  Input channel: handlers find the items
    of a chunk by index, source and train id ([prepareData_spec]); every call of connect is
    answered once ([connect_answered]).

    Some theorems state deviations from what the code means to do, for instance
    [sub_days_assigns], [duration_hash], [hash_attribute_unreadable], [late_release],
    [only_rehello_leaks], [fullyEquals_misses_path_key], [called_twice].

    ** Fuel

    [writeHash] has the depth of the Hash as fuel, [readHash] the length of the archive plus
    one (every level of nesting reads four bytes for a size), [findSeparator] 257 rounds (there
    are 256 characters), [td_mul] 65 (each recursion at least halves the factor), the alias map
    the depth of the Hash, base64 decoding the length of the text, ensureValidChunkId of the
    output channel three rounds more than there are queued chunks (each round but the last
    drops one or ends the loop, [ensure_spec]).  That this is enough is part of [save_format],
    [save_load], [duration_arithmetic], [steps_defined] and of lemmas named [.._fuel].  On an
    archive that is cut off the code reads on with a size that was never written; the model
    ends with [Undef] there, so nothing is shown about the end of such a load.

    ** What is not modelled

    Parameters stand for boost::format of floating point numbers, for compiler-generated
    type names and for boost::to_upper_copy; no theorem assumes anything of them but, for
    loading a Schema, that building its alias map does not fail ([loadable]).  Not modelled
    are: allocation failure; the text of exceptions; what a load that throws leaves in its
    target; pointers that outlive their container (the list of pointers of an OrderedMap has
    keys in their place); a byte 0xff in tokenize, for which the code reads a bitset out of
    range; conversions between value types through strings; the rest of Schema and the schema
    elements, validation and configuration; dates as text; XML and files; the synchronous and
    the reading side of TcpChannel, boost::asio and the broker.  Of pipelines: two chunks
    that share one BufferSet (a BufferSet is a value), the validation of data against a
    schema in OutputChannel::write, the tables of connections and their statistics, the
    blocking versions of the calls, which wait for the handlers of the asynchronous ones; of the
    input channel, reading from the network and the exchange of its two chunks.
    SignalSlotable, devices and servers are built on top of all that and are left out.
*)

From Stdlib Require Import ZArith Lia Ascii String.
From stdpp Require Import base numbers list strings gmap.

Open Scope Z_scope.

(** ** Outcomes of C++ calls *)

(** The exception classes that the modelled code throws: Karabo's own ones
    (data/types/Exception.hh) and those of the C++ standard library.  Message
    texts are not modelled. *)
Inductive exn : Type :=
| ParameterException
| CastException
| LogicException
| IOException
| NotSupportedException
| NotImplementedException
| MemoryInitException
| PropagatedException  (** what KARABO_RETHROW throws in place of the exception it handles *)
| BadAnyCast        (** std::bad_any_cast *)
| LengthError       (** std::length_error *)
| OutOfRange        (** std::out_of_range *)
| BadFormat.        (** a thrown C string, see TimeDuration::format *)

#[export] Instance exn_eq_dec : EqDecision exn.
Proof. solve_decision. Defined.

(** Is the exception derived from karabo::data::Exception, that is caught by
    the handlers of the form [catch (const Exception& e)]? *)
Definition is_karabo_exception (e : exn) : bool :=
  match e with
  | ParameterException | CastException | LogicException | IOException
  | NotSupportedException | NotImplementedException | MemoryInitException | PropagatedException => true
  | BadAnyCast | LengthError | OutOfRange | BadFormat => false
  end.

(** [Ret]: normal return; [Throw]: an exception leaves the call; [Undef]: the
    C++ standard gives the execution no meaning (out-of-range element access,
    use of an indeterminate value, null dereference, ...); [OutOfFuel]: the
    recursion bound of the model was too small, which the termination theorems
    exclude. *)
Inductive outcome (A : Type) : Type :=
| Ret (a : A)
| Throw (e : exn)
| Undef
| OutOfFuel.
Arguments Ret {A} a.
Arguments Throw {A} e.
Arguments Undef {A}.
Arguments OutOfFuel {A}.

#[export] Instance outcome_ret : MRet outcome := fun A => @Ret A.
#[export] Instance outcome_bind : MBind outcome := fun A B f x =>
  match x with
  | Ret a => f a
  | Throw e => Throw e
  | Undef => Undef
  | OutOfFuel => OutOfFuel
  end.
#[export] Instance outcome_fmap : FMap outcome := fun A B f x =>
  match x with
  | Ret a => Ret (f a)
  | Throw e => Throw e
  | Undef => Undef
  | OutOfFuel => OutOfFuel
  end.

#[export] Instance outcome_eq_dec {A} `{EqDecision A} : EqDecision (outcome A).
Proof. solve_decision. Defined.

(** [catch (const Exception&) { throw <e>; }] around a computation. *)
Definition rethrow_as {A} (e : exn) (x : outcome A) : outcome A :=
  match x with
  | Throw e' => if is_karabo_exception e' then Throw e else Throw e'
  | _ => x
  end.

(** [catch (...) { throw <e>; }] around a computation. *)
Definition rethrow_all_as {A} (e : exn) (x : outcome A) : outcome A :=
  match x with
  | Throw _ => Throw e
  | _ => x
  end.

Section outcome_laws.
Context {A B C : Type}.
Implicit Types (x : outcome A) (f : A -> outcome B) (g : B -> outcome C).

Lemma outcome_bind_ret_l (a : A) f : (Ret a ≫= f) = f a.
Proof. done. Qed.

Lemma outcome_bind_ret_r x : (x ≫= Ret) = x.
Proof. by destruct x. Qed.

Lemma outcome_bind_assoc x f g : ((x ≫= f) ≫= g) = (x ≫= (fun a => f a ≫= g)).
Proof. by destruct x. Qed.

Lemma outcome_bind_inv x f (b : B) :
  (x ≫= f) = Ret b -> exists a, x = Ret a /\ f a = Ret b.
Proof. destruct x; naive_solver. Qed.

Lemma outcome_fmap_inv x (h : A -> B) (b : B) :
  h <$> x = Ret b -> exists a, x = Ret a /\ h a = b.
Proof. destruct x; naive_solver. Qed.

Lemma outcome_fmap_ret (h : A -> B) (a : A) : h <$> Ret a = Ret (h a).
Proof. done. Qed.

Lemma outcome_bind_fuel x f :
  x <> OutOfFuel -> (forall a, x = Ret a -> f a <> OutOfFuel) -> (x ≫= f) <> OutOfFuel.
Proof. destruct x; naive_solver. Qed.
End outcome_laws.

(** Splits every hypothesis of the form [x ≫= f = Ret b]. *)
Ltac outcome_inv :=
  repeat match goal with
  | H : (_ ≫= _) = Ret _ |- _ =>
      apply outcome_bind_inv in H;
      let a := fresh "a" in let Ha := fresh "Ha" in destruct H as (a & Ha & H)
  | H : (_ <$> _) = Ret _ |- _ =>
      apply outcome_fmap_inv in H;
      let a := fresh "a" in let Ha := fresh "Ha" in destruct H as (a & Ha & H)
  | H : Ret _ = Ret _ |- _ => injection H; clear H; intros; subst
  | H : Throw _ = Ret _ |- _ => discriminate H
  | H : Undef = Ret _ |- _ => discriminate H
  | H : OutOfFuel = Ret _ |- _ => discriminate H
  end.

(** [for (auto& x : l) st = f(x, st)] *)
Fixpoint foldM {A S : Type} (f : A -> S -> outcome S) (l : list A) (st : S) : outcome S :=
  match l with
  | [] => Ret st
  | x :: l' => st' ← f x st; foldM f l' st'
  end.

Lemma foldM_app {A S} (f : A -> S -> outcome S) l1 l2 st :
  foldM f (l1 ++ l2) st = (foldM f l1 st ≫= foldM f l2).
Proof.
  revert st; induction l1 as [|x l1 IH]; intros st; [done|].
  cbn; destruct (f x st); cbn; auto.
Qed.

(** ** Termination

    [x <> OutOfFuel] is proved along the binds and case distinctions of [x]; the
    lemmas for the calls in it are in the hint database [fuel]. *)

Create HintDb fuel.

Lemma foldM_fuel {A S} (f : A -> S -> outcome S) (l : list A) :
  (forall x st, In x l -> f x st <> OutOfFuel) -> forall st, foldM f l st <> OutOfFuel.
Proof.
  induction l as [|x l IH]; intros Hf st; cbn; [discriminate|].
  apply outcome_bind_fuel; [apply Hf; by left|]. intros a _. apply IH. intros; apply Hf; by right.
Qed.

Ltac no_fuel :=
  repeat first
    [ discriminate
    | solve [eauto 2 with fuel]
    | apply outcome_bind_fuel; [|intros ? _]
    | case_match ].

(** ** Machine integers *)

(** Value of a [w]-bit unsigned arithmetic result. *)
Definition wrap (w z : Z) : Z := z mod 2 ^ w.
Definition u32 (z : Z) : Z := wrap 32 z.
Definition u64 (z : Z) : Z := wrap 64 z.

(** The value of a [w]-bit two's complement integer with the bits of [z]. *)
Definition to_signed (w z : Z) : Z :=
  let m := z mod 2 ^ w in if m <? 2 ^ (w - 1) then m else m - 2 ^ w.

Lemma wrap_small w z : 0 <= z < 2 ^ w -> wrap w z = z.
Proof. intros; apply Z.mod_small; lia. Qed.

Lemma wrap_bound w z : 0 <= w -> 0 <= wrap w z < 2 ^ w.
Proof. intros; apply Z.mod_pos_bound; lia. Qed.

Lemma u64_small z : 0 <= z < 2 ^ 64 -> u64 z = z.
Proof. apply wrap_small. Qed.

Lemma u64_bound z : 0 <= u64 z < 2 ^ 64.
Proof. apply wrap_bound; lia. Qed.

Lemma to_signed_wrap w z :
  0 < w -> - 2 ^ (w - 1) <= z < 2 ^ (w - 1) -> to_signed w (z mod 2 ^ w) = z.
Proof.
  intros Hw Hz. unfold to_signed. rewrite Z.mod_mod by lia.
  assert (2 ^ w = 2 * 2 ^ (w - 1)) as E
    by (rewrite <- Z.pow_succ_r by lia; f_equal; lia).
  destruct (Z.le_gt_cases 0 z).
  - rewrite Z.mod_small by lia. destruct (Z.ltb_spec z (2 ^ (w - 1))); lia.
  - replace (z mod 2 ^ w) with (z + 2 ^ w).
    + destruct (Z.ltb_spec (z + 2 ^ w) (2 ^ (w - 1))); lia.
    + apply (Z.mod_unique _ _ (-1)); lia.
Qed.

(** ** Bytes and characters *)

(** A [char] is an 8-bit character; a byte string is a list of them. *)
Abbreviation bytes := (list ascii).

Definition byte_val (c : ascii) : Z := Z.of_N (N_of_ascii c).
Definition byte_of (z : Z) : ascii := ascii_of_N (Z.to_N (z mod 256)).
Definition NUL : ascii := "000"%char.

Abbreviation chars := list_ascii_of_string.
Abbreviation str := string_of_list_ascii.

Lemma byte_val_bound c : 0 <= byte_val c < 256.
Proof. unfold byte_val. pose proof (N_ascii_bounded c). lia. Qed.

Lemma byte_val_of z : byte_val (byte_of z) = z mod 256.
Proof.
  unfold byte_val, byte_of.
  pose proof (Z.mod_pos_bound z 256 ltac:(lia)).
  rewrite N_ascii_embedding; lia.
Qed.

Lemma byte_of_val c : byte_of (byte_val c) = c.
Proof.
  unfold byte_of. rewrite Z.mod_small by apply byte_val_bound.
  unfold byte_val. rewrite N2Z.id. apply ascii_N_embedding.
Qed.

(** Little-endian representation, the host byte order of the supported
    platforms: what [memcpy] of an integer of [n] bytes copies. *)
Fixpoint le_bytes (n : nat) (z : Z) : bytes :=
  match n with
  | O => []
  | S n' => byte_of z :: le_bytes n' (z / 256)
  end.

Fixpoint le_val (l : bytes) : Z :=
  match l with
  | [] => 0
  | c :: l' => byte_val c + 256 * le_val l'
  end.

Lemma le_bytes_length n z : length (le_bytes n z) = n.
Proof. revert z; induction n as [|n IH]; intros z; cbn; auto. Qed.

Lemma le_val_bytes_mod n z : le_val (le_bytes n z) = z mod 2 ^ (8 * Z.of_nat n).
Proof.
  revert z; induction n as [|n IH]; intros z.
  - cbn. by rewrite Z.mod_1_r.
  - cbn [le_bytes le_val]. rewrite byte_val_of, IH.
    replace (8 * Z.of_nat (S n)) with (8 + 8 * Z.of_nat n) by lia.
    rewrite Z.pow_add_r by lia. change (2 ^ 8) with 256.
    rewrite Z.rem_mul_r by lia. lia.
Qed.

Lemma le_val_bytes n z : 0 <= z < 2 ^ (8 * Z.of_nat n) -> le_val (le_bytes n z) = z.
Proof. intros H. rewrite le_val_bytes_mod. apply Z.mod_small; lia. Qed.

Lemma le_val_bound l : 0 <= le_val l < 2 ^ (8 * Z.of_nat (length l)).
Proof.
  induction l as [|c l IH]; cbn [le_val length]; [cbn; lia|].
  replace (8 * Z.of_nat (S (length l))) with (8 + 8 * Z.of_nat (length l)) by lia.
  rewrite Z.pow_add_r by lia. pose proof (byte_val_bound c). lia.
Qed.

(** ** Strings *)

Lemma chars_str l : chars (str l) = l.
Proof. apply list_ascii_of_string_of_list_ascii. Qed.

Lemma str_chars s : str (chars s) = s.
Proof. apply string_of_list_ascii_of_string. Qed.

Lemma chars_inj s1 s2 : chars s1 = chars s2 -> s1 = s2.
Proof. intros H. by rewrite <- (str_chars s1), H, str_chars. Qed.

Lemma chars_app s1 s2 : chars (s1 +:+ s2) = chars s1 ++ chars s2.
Proof. induction s1 as [|c s1 IH]; simpl; f_equal; auto. Qed.

Lemma str_app l1 l2 : str (l1 ++ l2) = str l1 +:+ str l2.
Proof. apply chars_inj. by rewrite chars_app, !chars_str. Qed.

Lemma length_chars s : length (chars s) = String.length s.
Proof. induction s; simpl; f_equal; auto. Qed.

Create HintDb karabo.
Create Rewrite HintDb karabo.
#[export] Hint Rewrite chars_str str_chars chars_app le_bytes_length byte_val_of
  byte_of_val : karabo.
#[export] Hint Resolve byte_val_bound u64_bound le_val_bound : karabo.
