(* ===== verification/Types.v ===== *)
(** The registry of value types: data/types/Types.hh with the conversions to
    and from other representations (ToType.hh, ToLiteral.hh, ToCppString.hh,
    ToSize.hh, FromLiteral, FromInt, FromTypeInfo). *)

From Stdlib Require Import ZArith Lia String.
From stdpp Require Import base numbers list strings gmap.
From S2P Require Import Prelude.

Open Scope Z_scope.

Module Types.

(** enum Types::ReferenceType *)
Inductive ReferenceType : Type :=
| BOOL | VECTOR_BOOL | CHAR | VECTOR_CHAR | INT8 | VECTOR_INT8 | UINT8 |
VECTOR_UINT8 | INT16 | VECTOR_INT16 | UINT16 | VECTOR_UINT16 | INT32 | VECTOR_INT32
| UINT32 | VECTOR_UINT32 | INT64 | VECTOR_INT64 | UINT64 | VECTOR_UINT64 | FLOAT |
VECTOR_FLOAT | DOUBLE | VECTOR_DOUBLE | COMPLEX_FLOAT | VECTOR_COMPLEX_FLOAT |
COMPLEX_DOUBLE | VECTOR_COMPLEX_DOUBLE | STRING | VECTOR_STRING | HASH | VECTOR_HASH
| SCHEMA | VECTOR_SCHEMA | NONE | VECTOR_NONE | BYTE_ARRAY | UNKNOWN | SIMPLE |
SEQUENCE | POINTER | HASH_POINTER | VECTOR_HASH_POINTER.

#[export] Instance ReferenceType_eq_dec : EqDecision ReferenceType.
Proof. solve_decision. Defined.

(** All enumerators, in the order of the declaration. *)
Definition all_types : list ReferenceType :=
  [BOOL; VECTOR_BOOL; CHAR; VECTOR_CHAR; INT8; VECTOR_INT8; UINT8; VECTOR_UINT8;
   INT16; VECTOR_INT16; UINT16; VECTOR_UINT16; INT32; VECTOR_INT32; UINT32;
   VECTOR_UINT32; INT64; VECTOR_INT64; UINT64; VECTOR_UINT64; FLOAT; VECTOR_FLOAT;
   DOUBLE; VECTOR_DOUBLE; COMPLEX_FLOAT; VECTOR_COMPLEX_FLOAT; COMPLEX_DOUBLE;
   VECTOR_COMPLEX_DOUBLE; STRING; VECTOR_STRING; HASH; VECTOR_HASH; SCHEMA;
   VECTOR_SCHEMA; NONE; VECTOR_NONE; BYTE_ARRAY; UNKNOWN; SIMPLE; SEQUENCE; POINTER;
   HASH_POINTER; VECTOR_HASH_POINTER].

(** static_cast<int>(type) *)
Definition code (type : ReferenceType) : Z :=
  match type with
  | BOOL => 0 | VECTOR_BOOL => 1 | CHAR => 2 | VECTOR_CHAR => 3
  | INT8 => 4 | VECTOR_INT8 => 5 | UINT8 => 6 | VECTOR_UINT8 => 7
  | INT16 => 8 | VECTOR_INT16 => 9 | UINT16 => 10 | VECTOR_UINT16 => 11
  | INT32 => 12 | VECTOR_INT32 => 13 | UINT32 => 14 | VECTOR_UINT32 => 15
  | INT64 => 16 | VECTOR_INT64 => 17 | UINT64 => 18 | VECTOR_UINT64 => 19
  | FLOAT => 20 | VECTOR_FLOAT => 21 | DOUBLE => 22 | VECTOR_DOUBLE => 23
  | COMPLEX_FLOAT => 24 | VECTOR_COMPLEX_FLOAT => 25 | COMPLEX_DOUBLE => 26 | VECTOR_COMPLEX_DOUBLE => 27
  | STRING => 28 | VECTOR_STRING => 29 | HASH => 30 | VECTOR_HASH => 31
  | SCHEMA => 32 | VECTOR_SCHEMA => 33 | NONE => 35 | VECTOR_NONE => 36
  | BYTE_ARRAY => 37 | UNKNOWN => 38 | SIMPLE => 39 | SEQUENCE => 40
  | POINTER => 41 | HASH_POINTER => 42 | VECTOR_HASH_POINTER => 43
  end.

(** Types::ReferenceType(code): the enumerator with that value, if there is one. *)
Definition of_code (c : Z) : option ReferenceType :=
  List.find (fun t => code t =? c) all_types.

Definition category (type : ReferenceType) : ReferenceType :=
  match type with
  | CHAR | INT8 | INT16 | INT32 | INT64 | UINT8 | UINT16 | UINT32 | UINT64
  | FLOAT | DOUBLE | BOOL | STRING | COMPLEX_FLOAT | COMPLEX_DOUBLE
  | BYTE_ARRAY | NONE => SIMPLE
  | VECTOR_STRING | VECTOR_CHAR | VECTOR_INT8 | VECTOR_INT16 | VECTOR_INT32
  | VECTOR_INT64 | VECTOR_UINT8 | VECTOR_UINT16 | VECTOR_UINT32 | VECTOR_UINT64
  | VECTOR_DOUBLE | VECTOR_FLOAT | VECTOR_BOOL | VECTOR_COMPLEX_FLOAT
  | VECTOR_COMPLEX_DOUBLE | VECTOR_NONE => SEQUENCE
  | VECTOR_HASH => VECTOR_HASH
  | VECTOR_HASH_POINTER => VECTOR_HASH_POINTER
  | HASH => HASH
  | HASH_POINTER => HASH_POINTER
  | SCHEMA => SCHEMA
  | _ => UNKNOWN
  end.

Definition isVector (type : ReferenceType) : bool :=
  match type with
  | VECTOR_STRING | VECTOR_CHAR | VECTOR_INT8 | VECTOR_INT16 | VECTOR_INT32
  | VECTOR_INT64 | VECTOR_UINT8 | VECTOR_UINT16 | VECTOR_UINT32 | VECTOR_UINT64
  | VECTOR_DOUBLE | VECTOR_FLOAT | VECTOR_BOOL | VECTOR_COMPLEX_FLOAT
  | VECTOR_COMPLEX_DOUBLE | VECTOR_HASH | VECTOR_NONE => true
  | _ => false
  end.

Definition isNumericPod (type : ReferenceType) : bool :=
  match type with
  | BOOL | INT8 | INT16 | INT32 | INT64 | UINT8 | UINT16 | UINT32 | UINT64
  | FLOAT | DOUBLE => true
  | _ => false
  end.

Definition isSimple (type : ReferenceType) : bool :=
  match type with
  | CHAR | INT8 | INT16 | INT32 | INT64 | UINT8 | UINT16 | UINT32 | UINT64
  | FLOAT | DOUBLE | BOOL | STRING | COMPLEX_FLOAT | COMPLEX_DOUBLE | NONE => true
  | _ => false
  end.

(** ** C++ types *)

(** The element types that the tables of the code name. *)
Inductive scalar : Type :=
| bool_ | char_ | signed_char | unsigned_char | short_ | unsigned_short | int_
| unsigned_int | long_long | unsigned_long_long | float_ | double_
| complex_float | complex_double | string_ | Hash_ | Schema_ | CppNone.

#[export] Instance scalar_eq_dec : EqDecision scalar.
Proof. solve_decision. Defined.

(** What a std::type_info tells apart: an element type, the std::vector of it,
    the shared pointers to Hash, ByteArray, and [other n] for any type that no
    table names ([other 0] is that of an empty std::any). *)
Inductive type_info : Type :=
| Tscalar (s : scalar)
| Tvector (s : scalar)
| THashPointer
| TvectorHashPointer
| TByteArray
| Tother (n : nat).

#[export] Instance type_info_eq_dec : EqDecision type_info.
Proof. solve_decision. Defined.

(** std::map<K, V>::find on a table given as its initializer list: of two
    entries with the same key std::map keeps the first. *)
Definition map_find {K V} `{EqDecision K} (key : K) (table : list (K * V)) : option V :=
  snd <$> List.find (fun p => bool_decide (p.1 = key)) table.

(** FromTypeInfo::FromTypeInfo: the macro adds the entry for a type and the one
    for the vector of it. *)
Definition helper_macro (r v : ReferenceType) (s : scalar) : list (type_info * ReferenceType) :=
  [(Tscalar s, r); (Tvector s, v)].

Definition typeInfoMap : list (type_info * ReferenceType) :=
  helper_macro BOOL VECTOR_BOOL bool_ ++
  helper_macro CHAR VECTOR_CHAR char_ ++
  helper_macro INT8 VECTOR_INT8 signed_char ++
  helper_macro UINT8 VECTOR_UINT8 unsigned_char ++
  helper_macro INT16 VECTOR_INT16 short_ ++
  helper_macro UINT16 VECTOR_UINT16 unsigned_short ++
  helper_macro INT32 VECTOR_INT32 int_ ++
  helper_macro UINT32 VECTOR_UINT32 unsigned_int ++
  helper_macro INT64 VECTOR_INT64 long_long ++
  helper_macro UINT64 VECTOR_UINT64 unsigned_long_long ++
  helper_macro FLOAT VECTOR_FLOAT float_ ++
  helper_macro DOUBLE VECTOR_DOUBLE double_ ++
  helper_macro COMPLEX_FLOAT VECTOR_COMPLEX_FLOAT complex_float ++
  helper_macro COMPLEX_DOUBLE VECTOR_COMPLEX_DOUBLE complex_double ++
  helper_macro STRING VECTOR_STRING string_ ++
  helper_macro HASH VECTOR_HASH Hash_ ++
  helper_macro SCHEMA VECTOR_SCHEMA Schema_ ++
  helper_macro NONE VECTOR_NONE CppNone ++
  [(THashPointer, HASH_POINTER);
   (TvectorHashPointer, VECTOR_HASH_POINTER);
   (TByteArray, BYTE_ARRAY)].

(** FromTypeInfo::from *)
Definition fromTypeInfo (type : type_info) : ReferenceType :=
  default UNKNOWN (map_find type typeInfoMap).

(** templatize: calls [processor] with (a null pointer of) the C++ type that
    belongs to [type]; [None] is the [return false] of the default branch. *)
Definition templatize {A} (type : ReferenceType) (processor : type_info -> A) : option A :=
  match type with
  | BOOL => Some (processor (Tscalar bool_))
  | CHAR => Some (processor (Tscalar char_))
  | INT8 => Some (processor (Tscalar signed_char))
  | UINT8 => Some (processor (Tscalar unsigned_char))
  | INT16 => Some (processor (Tscalar short_))
  | UINT16 => Some (processor (Tscalar unsigned_short))
  | INT32 => Some (processor (Tscalar int_))
  | UINT32 => Some (processor (Tscalar unsigned_int))
  | INT64 => Some (processor (Tscalar long_long))
  | UINT64 => Some (processor (Tscalar unsigned_long_long))
  | FLOAT => Some (processor (Tscalar float_))
  | DOUBLE => Some (processor (Tscalar double_))
  | COMPLEX_FLOAT => Some (processor (Tscalar complex_float))
  | COMPLEX_DOUBLE => Some (processor (Tscalar complex_double))
  | STRING => Some (processor (Tscalar string_))
  | VECTOR_BOOL => Some (processor (Tvector bool_))
  | VECTOR_CHAR => Some (processor (Tvector char_))
  | VECTOR_INT8 => Some (processor (Tvector signed_char))
  | VECTOR_UINT8 => Some (processor (Tvector unsigned_char))
  | VECTOR_INT16 => Some (processor (Tvector short_))
  | VECTOR_UINT16 => Some (processor (Tvector unsigned_short))
  | VECTOR_INT32 => Some (processor (Tvector int_))
  | VECTOR_UINT32 => Some (processor (Tvector unsigned_int))
  | VECTOR_INT64 => Some (processor (Tvector long_long))
  | VECTOR_UINT64 => Some (processor (Tvector unsigned_long_long))
  | VECTOR_FLOAT => Some (processor (Tvector float_))
  | VECTOR_DOUBLE => Some (processor (Tvector double_))
  | VECTOR_COMPLEX_FLOAT => Some (processor (Tvector complex_float))
  | VECTOR_COMPLEX_DOUBLE => Some (processor (Tvector complex_double))
  | VECTOR_STRING => Some (processor (Tvector string_))
  | _ => None
  end.

(** ** Conversions to other representations *)

(** ToType<Impl>::to(type): the switch knows these enumerators and hands over to
    the specialisation [impl] of the target representation. *)
Definition toType {A} (impl : ReferenceType -> outcome A) (type : ReferenceType) : outcome A :=
  match type with
  | BOOL | VECTOR_BOOL | CHAR | VECTOR_CHAR | INT8 | VECTOR_INT8 | UINT8 |
  VECTOR_UINT8 | INT16 | VECTOR_INT16 | UINT16 | VECTOR_UINT16 | INT32 |
  VECTOR_INT32 | UINT32 | VECTOR_UINT32 | INT64 | VECTOR_INT64 | UINT64 |
  VECTOR_UINT64 | FLOAT | VECTOR_FLOAT | DOUBLE | VECTOR_DOUBLE | COMPLEX_FLOAT |
  VECTOR_COMPLEX_FLOAT | COMPLEX_DOUBLE | VECTOR_COMPLEX_DOUBLE | STRING |
  VECTOR_STRING | HASH | VECTOR_HASH | SCHEMA | NONE | VECTOR_NONE | BYTE_ARRAY |
  UNKNOWN | HASH_POINTER | VECTOR_HASH_POINTER => impl type
  | _ => Throw NotImplementedException
  end.

(** The specialisations of ToLiteral::to<RefType>; the primary template throws. *)
Definition toLiteral_impl (type : ReferenceType) : outcome string :=
  match type with
  | BOOL => Ret "BOOL"
  | VECTOR_BOOL => Ret "VECTOR_BOOL"
  | CHAR => Ret "CHAR"
  | VECTOR_CHAR => Ret "VECTOR_CHAR"
  | INT8 => Ret "INT8"
  | VECTOR_INT8 => Ret "VECTOR_INT8"
  | UINT8 => Ret "UINT8"
  | VECTOR_UINT8 => Ret "VECTOR_UINT8"
  | INT16 => Ret "INT16"
  | VECTOR_INT16 => Ret "VECTOR_INT16"
  | UINT16 => Ret "UINT16"
  | VECTOR_UINT16 => Ret "VECTOR_UINT16"
  | INT32 => Ret "INT32"
  | VECTOR_INT32 => Ret "VECTOR_INT32"
  | UINT32 => Ret "UINT32"
  | VECTOR_UINT32 => Ret "VECTOR_UINT32"
  | INT64 => Ret "INT64"
  | VECTOR_INT64 => Ret "VECTOR_INT64"
  | UINT64 => Ret "UINT64"
  | VECTOR_UINT64 => Ret "VECTOR_UINT64"
  | FLOAT => Ret "FLOAT"
  | VECTOR_FLOAT => Ret "VECTOR_FLOAT"
  | DOUBLE => Ret "DOUBLE"
  | VECTOR_DOUBLE => Ret "VECTOR_DOUBLE"
  | COMPLEX_FLOAT => Ret "COMPLEX_FLOAT"
  | VECTOR_COMPLEX_FLOAT => Ret "VECTOR_COMPLEX_FLOAT"
  | COMPLEX_DOUBLE => Ret "COMPLEX_DOUBLE"
  | VECTOR_COMPLEX_DOUBLE => Ret "VECTOR_COMPLEX_DOUBLE"
  | STRING => Ret "STRING"
  | VECTOR_STRING => Ret "VECTOR_STRING"
  | HASH => Ret "HASH"
  | VECTOR_HASH => Ret "VECTOR_HASH"
  | SCHEMA => Ret "SCHEMA"
  | NONE => Ret "NONE"
  | VECTOR_NONE => Ret "VECTOR_NONE"
  | BYTE_ARRAY => Ret "BYTE_ARRAY"
  | UNKNOWN => Ret "UNKNOWN"
  | HASH_POINTER => Ret "HASH_POINTER"
  | VECTOR_HASH_POINTER => Ret "VECTOR_HASH_POINTER"
  | _ => Throw NotImplementedException
  end%string.

Definition toLiteral : ReferenceType -> outcome string := toType toLiteral_impl.

(** The specialisations of ToCppString::to<RefType>. *)
Definition toCppString_impl (type : ReferenceType) : outcome string :=
  match type with
  | BOOL => Ret "bool"
  | VECTOR_BOOL => Ret "vector<bool>"
  | CHAR => Ret "char"
  | VECTOR_CHAR => Ret "vector<char>"
  | INT8 => Ret "signed char"
  | VECTOR_INT8 => Ret "vector<signed char>"
  | UINT8 => Ret "unsigned char"
  | VECTOR_UINT8 => Ret "vector<unsigned char>"
  | INT16 => Ret "short"
  | VECTOR_INT16 => Ret "vector<short>"
  | UINT16 => Ret "unsigned short"
  | VECTOR_UINT16 => Ret "vector<unsigned short>"
  | INT32 => Ret "int"
  | VECTOR_INT32 => Ret "vector<int>"
  | UINT32 => Ret "unsigned int"
  | VECTOR_UINT32 => Ret "vector<unsigned int>"
  | INT64 => Ret "long long"
  | VECTOR_INT64 => Ret "vector<long long>"
  | UINT64 => Ret "unsigned long long"
  | VECTOR_UINT64 => Ret "vector<unsigned long long>"
  | FLOAT => Ret "float"
  | VECTOR_FLOAT => Ret "vector<float>"
  | DOUBLE => Ret "double"
  | VECTOR_DOUBLE => Ret "vector<double>"
  | COMPLEX_FLOAT => Ret "complex<float>"
  | VECTOR_COMPLEX_FLOAT => Ret "vector<complex<float> >"
  | COMPLEX_DOUBLE => Ret "complex<double>"
  | VECTOR_COMPLEX_DOUBLE => Ret "vector<complex<double> >"
  | STRING => Ret "string"
  | VECTOR_STRING => Ret "vector<string>"
  | HASH => Ret "Hash"
  | VECTOR_HASH => Ret "vector<Hash>"
  | SCHEMA => Ret "Schema"
  | NONE => Ret "None"
  | VECTOR_NONE => Ret "vector<None>"
  | BYTE_ARRAY => Ret "std::pair<std::shared_ptr<char>,size_t>"
  | UNKNOWN => Ret "unknown"
  | HASH_POINTER => Ret "Hash::Pointer"
  | VECTOR_HASH_POINTER => Ret "vector<Hash::Pointer>"
  | _ => Throw NotImplementedException
  end%string.

Definition toCppString : ReferenceType -> outcome string := toType toCppString_impl.

(** The specialisations of ToSize::to<RefType>, with the sizes of the x86-64 ABI. *)
Definition toSize_impl (type : ReferenceType) : outcome Z :=
  match type with
  | BOOL | CHAR | INT8 | UINT8 => Ret 1
  | INT16 | UINT16 => Ret 2
  | INT32 | UINT32 | FLOAT => Ret 4
  | INT64 | UINT64 | DOUBLE | COMPLEX_FLOAT => Ret 8
  | COMPLEX_DOUBLE => Ret 16
  | _ => Throw NotImplementedException
  end.

Definition toSize : ReferenceType -> outcome Z := toType toSize_impl.

(** ** Conversions from other representations *)

(** FromLiteral::FromLiteral: the macro pairs a type with its stringised name. *)
Definition literalMap : list (string * ReferenceType) :=
  [("BOOL", BOOL); ("VECTOR_BOOL", VECTOR_BOOL); ("CHAR", CHAR);
   ("VECTOR_CHAR", VECTOR_CHAR); ("INT8", INT8); ("VECTOR_INT8", VECTOR_INT8);
   ("UINT8", UINT8); ("VECTOR_UINT8", VECTOR_UINT8); ("INT16", INT16);
   ("VECTOR_INT16", VECTOR_INT16); ("UINT16", UINT16);
   ("VECTOR_UINT16", VECTOR_UINT16); ("INT32", INT32);
   ("VECTOR_INT32", VECTOR_INT32); ("UINT32", UINT32);
   ("VECTOR_UINT32", VECTOR_UINT32); ("INT64", INT64);
   ("VECTOR_INT64", VECTOR_INT64); ("UINT64", UINT64);
   ("VECTOR_UINT64", VECTOR_UINT64); ("FLOAT", FLOAT);
   ("VECTOR_FLOAT", VECTOR_FLOAT); ("DOUBLE", DOUBLE);
   ("VECTOR_DOUBLE", VECTOR_DOUBLE); ("STRING", STRING);
   ("VECTOR_STRING", VECTOR_STRING); ("HASH", HASH); ("VECTOR_HASH", VECTOR_HASH);
   ("SCHEMA", SCHEMA); ("COMPLEX_FLOAT", COMPLEX_FLOAT);
   ("VECTOR_COMPLEX_FLOAT", VECTOR_COMPLEX_FLOAT);
   ("COMPLEX_DOUBLE", COMPLEX_DOUBLE);
   ("VECTOR_COMPLEX_DOUBLE", VECTOR_COMPLEX_DOUBLE); ("NONE", NONE);
   ("VECTOR_NONE", VECTOR_NONE); ("BYTE_ARRAY", BYTE_ARRAY)]%string.

(** FromLiteral::from *)
Definition fromLiteral (type : string) : outcome ReferenceType :=
  match map_find type literalMap with
  | None => Throw ParameterException
  | Some r => Ret r
  end.

(** FromInt::FromInt *)
Definition intMap : list (Z * ReferenceType) :=
  (fun t => (code t, t)) <$>
  [BOOL; VECTOR_BOOL; CHAR; VECTOR_CHAR; INT8; VECTOR_INT8; UINT8; VECTOR_UINT8;
   INT16; VECTOR_INT16; UINT16; VECTOR_UINT16; INT32; VECTOR_INT32; UINT32;
   VECTOR_UINT32; INT64; VECTOR_INT64; UINT64; VECTOR_UINT64; FLOAT; VECTOR_FLOAT;
   DOUBLE; VECTOR_DOUBLE; STRING; VECTOR_STRING; HASH; VECTOR_HASH; SCHEMA;
   COMPLEX_FLOAT; VECTOR_COMPLEX_FLOAT; COMPLEX_DOUBLE; VECTOR_COMPLEX_DOUBLE; NONE;
   VECTOR_NONE; BYTE_ARRAY].

(** FromInt::from *)
Definition fromInt (type : Z) : outcome ReferenceType :=
  match map_find type intMap with
  | None => Throw ParameterException
  | Some r => Ret r
  end.

(** ** Properties *)

(** The types that have a name in both directions. *)
Definition registered (type : ReferenceType) : bool :=
  bool_decide (type ∈ literalMap.*2).

Lemma of_code_code (t : ReferenceType) : of_code (code t) = Some t.
Proof. by destruct t. Qed.

Lemma code_inj (t1 t2 : ReferenceType) : code t1 = code t2 -> t1 = t2.
Proof. intros H. apply (f_equal of_code) in H. rewrite !of_code_code in H. congruence. Qed.

Lemma of_code_Some (c : Z) (t : ReferenceType) : of_code c = Some t -> code t = c.
Proof. intros H%List.find_some. destruct H as [_ H]. by apply Z.eqb_eq. Qed.

Lemma map_find_Some {K V} `{EqDecision K} (k : K) (v : V) table :
  map_find k table = Some v -> (k, v) ∈ table.
Proof.
  unfold map_find. intros H. apply fmap_Some in H as ([k' v'] & Hf & ->).
  apply List.find_some in Hf as [Hin Hk]. apply bool_decide_eq_true in Hk.
  cbn in *; subst. by apply list_elem_of_In.
Qed.

(** The two name tables are inverse to each other: FromLiteral accepts exactly
    the literals that ToLiteral produces for the registered types, and gives back the
    type, so a type survives being written by name, and two types never share a name. *)
Theorem literal_roundtrip (type : ReferenceType) (literal : string) :
  (toLiteral type = Ret literal /\ registered type = true) <-> fromLiteral literal = Ret type.
Proof.
  split.
  - intros [Hl Hr]. destruct type; try discriminate Hr; injection Hl as <-; reflexivity.
  - unfold fromLiteral. destruct (map_find literal literalMap) eqn:E; [|done].
    intros [= <-]. apply map_find_Some in E.
    repeat (apply elem_of_cons in E as [E|E]; [injection E as -> ->; by split|]).
    by apply elem_of_nil in E.
Qed.

Lemma fromInt_code (c : Z) (type : ReferenceType) :
  fromInt c = Ret type <-> code type = c /\ registered type = true.
Proof.
  split.
  - unfold fromInt. destruct (map_find c intMap) eqn:E; [|done].
    intros [= <-]. apply map_find_Some in E. unfold intMap in E.
    apply list_elem_of_fmap in E as (t & E & Ht). injection E as -> ->.
    split; [done|]. repeat (apply elem_of_cons in Ht as [->|Ht]; [done|]).
    by apply elem_of_nil in Ht.
  - intros [<- Hr]. destruct type; try discriminate Hr; reflexivity.
Qed.

(** C34: What the consumers of the tables rely on.  For every element type the code
    of its vector type is one more than its own (Hash::counter finds the element type of a
    sequence that way); apart from vectors of Hash and of Schema the vector types are
    exactly of category SEQUENCE; [templatize] hands the processor the C++ type that
    FromTypeInfo maps back to the same enumerator; FromInt inverts the enumerator's
    number on the registered types and rejects every other number. *)
Theorem type_tables_consistent :
  (forall s, code (fromTypeInfo (Tvector s)) = code (fromTypeInfo (Tscalar s)) + 1) /\
  (forall s, category (fromTypeInfo (Tvector s)) = SEQUENCE <-> s <> Hash_ /\ s <> Schema_) /\
  (forall type ti, templatize type id = Some ti -> fromTypeInfo ti = type) /\
  (forall type c, fromInt c = Ret type <-> code type = c /\ registered type = true) /\
  (forall c, (forall type, registered type = true -> code type <> c) ->
     fromInt c = Throw ParameterException).
Proof.
  split; [by intros []|]. split.
  { intros s; destruct s; vm_compute; (split; [intros; split; congruence | intros [? ?]; congruence]). }
  split; [by intros [] ti [= <-]|]. split; [intros; apply fromInt_code|].
  intros c Hc. destruct (fromInt c) as [type| | |] eqn:E.
  { apply fromInt_code in E as [? ?]. naive_solver. }
  all: unfold fromInt in E; destruct (map_find c intMap); congruence.
Qed.

End Types.
