(* ===== verification/Strings.v ===== *)
(** String handling: data/types/StringTools.hh and StringTools.cc, with the parts
    of std::string, <cstdlib> and iostreams that they use. *)

From Stdlib Require Import ZArith Lia Ascii String.
From stdpp Require Import base numbers list strings gmap.
From S2P Require Import Prelude.

Open Scope Z_scope.

(** ** Standard library *)

(** Cuts at the last occurrence of [c], as [rfind] would find it. *)
Fixpoint split_last (c : ascii) (l : bytes) : option (bytes * bytes) :=
  match l with
  | [] => None
  | x :: l' =>
      match split_last c l' with
      | Some (a, b) => Some (x :: a, b)
      | None => if decide (x = c) then Some ([], l') else None
      end
  end.

(** Cuts at the first occurrence of [c], as [find_first_of] would find it. *)
Fixpoint split_first (c : ascii) (l : bytes) : option (bytes * bytes) :=
  match l with
  | [] => None
  | x :: l' =>
      if decide (x = c) then Some ([], l')
      else match split_first c l' with
           | Some (a, b) => Some (x :: a, b)
           | None => None
           end
  end.

(** The characters before the terminating NUL of a C string. *)
Fixpoint c_str (l : bytes) : bytes :=
  match l with
  | [] => []
  | c :: l' => if decide (c = NUL) then [] else c :: c_str l'
  end.

Definition is_digit (c : ascii) : bool := (48 <=? byte_val c) && (byte_val c <=? 57).
Definition is_space (c : ascii) : bool :=
  (byte_val c =? 32) || ((9 <=? byte_val c) && (byte_val c <=? 13)).

Fixpoint drop_while (p : ascii -> bool) (l : bytes) : bytes :=
  match l with
  | [] => []
  | c :: l' => if p c then drop_while p l' else l
  end.

(** The number read by the digits at the front of [l], after [v]. *)
Fixpoint scan_digits (v : Z) (l : bytes) : Z :=
  match l with
  | [] => v
  | c :: l' => if is_digit c then scan_digits (10 * v + (byte_val c - 48)) l' else v
  end.

(** [atoi]: white space, a sign, digits; a value that [int] cannot represent has
    no defined result. *)
Definition atoi (l : bytes) : option Z :=
  let v := match drop_while is_space l with
           | [] => 0
           | c :: l' =>
               if decide (c = "-"%char) then - scan_digits 0 l'
               else if decide (c = "+"%char) then scan_digits 0 l'
               else scan_digits 0 (c :: l')
           end in
  if (- 2 ^ 31 <=? v) && (v <? 2 ^ 31) then Some v else None.

(** What [os << n] prints for a non-negative integer. *)
Fixpoint dec_digits (fuel : nat) (n : Z) (acc : bytes) : bytes :=
  match fuel with
  | O => acc
  | S f => let acc' := byte_of (48 + n mod 10) :: acc in
           if n <? 10 then acc' else dec_digits f (n / 10) acc'
  end.
Definition decimal_nonneg (n : Z) : bytes := dec_digits (S (Z.to_nat (Z.log2 n))) n [].

(** What [os << n] prints for an integer. *)
Definition decimal (n : Z) : string :=
  str (if n <? 0 then "-"%char :: decimal_nonneg (- n) else decimal_nonneg n).

(** ** In-place conversions *)

Definition toLower_char (ch : ascii) : ascii :=
  if (65 <=? byte_val ch) && (byte_val ch <=? 90) then byte_of (byte_val ch + (97 - 65)) else ch.
Definition toLower (s : string) : string := str (toLower_char <$> chars s).

Definition toUpper_char (ch : ascii) : ascii :=
  if (97 <=? byte_val ch) && (byte_val ch <=? 122) then byte_of (byte_val ch - (97 - 65)) else ch.
Definition toUpper (s : string) : string := str (toUpper_char <$> chars s).

Definition trim_space (c : ascii) : bool :=
  bool_decide (c ∈ [" "%char; "010"%char; "013"%char; "009"%char]).

(** Erases from behind the last non-space, then up to the first one.  When there is
    none, [find_last_not_of] is npos and npos + 1 wraps to 0, so all is erased. *)
Definition trim (s : string) : string :=
  str (drop_while trim_space (rev (drop_while trim_space (rev (chars s))))).

(** ** Array syntax of keys *)

(** getAndCropIndex: the index of a key that ends in ']' and the key without it;
    -1 and the unchanged key when it does not.  Without a '[' the code writes to
    [str[npos]]. *)
Definition getAndCropIndex (s : string) : outcome (Z * string) :=
  match last (chars s) with
  | None => Ret (-1, s)
  | Some c =>
      if decide (c = "]"%char) then
        match split_last "["%char (removelast (chars s)) with
        | None => Undef
        | Some (pre, index) =>
            match atoi (c_str index) with
            | Some len => Ret (len, str pre)
            | None => Undef
            end
        end
      else Ret (-1, s)
  end.

(** ** Tokens *)

(** The loop of tokenize: [token] is the range from [beg] to [it].  (The bit set
    of the code has 255 bits and is asked for bit 255 when a character is 0xff;
    the standard library in use keeps that bit in the same word, which is what the
    membership test here says.) *)
Fixpoint tokenize_loop (delims : bytes) (input token : bytes) (output : list string)
  : list string :=
  match input with
  | [] => output ++ [str token]
  | c :: input' =>
      if decide (c ∈ delims) then tokenize_loop delims input' [] (output ++ [str token])
      else tokenize_loop delims input' (token ++ [c]) output
  end.

(** tokenize(inputString, tokens, const char* delimiters) *)
Definition tokenize_cstr (inputString : string) (delimiters : bytes) : list string :=
  tokenize_loop (c_str delimiters) (chars inputString) [] [].

(** tokenize(inputString, tokens, char delimiter) *)
Definition tokenize (inputString : string) (delimiter : ascii) : list string :=
  tokenize_cstr inputString [delimiter; NUL].

(** ** toString of containers *)

Section toString.
Context {T : Type} (toString : T -> string).

(** toString(const std::vector<T>&, maxElementsShown).  (No subtraction of the code's
    [size_t] arithmetic wraps: elements are skipped only when there are more than
    maxElementsShown, which is not less than twice numElementsBeginEnd but for 1.) *)
Definition numElementsBeginEnd (maxElementsShown : Z) : Z :=
  Z.max (maxElementsShown / 2) 6 - 5.

Fixpoint toString_vector_loop (fuel : nat) (value : list T) (maxElementsShown index : Z)
    (s : string) : outcome string :=
  let size := Z.of_nat (length value) in
  if index <? size then
    match fuel with
    | O => OutOfFuel
    | S f =>
        let n := numElementsBeginEnd maxElementsShown in
        let skip := (maxElementsShown <? size) && (index =? n) in
        let s := if skip then s +:+ ",...(skip " +:+ decimal (size - 2 * n) +:+ " values)..."
                 else s in
        let index := if skip then size - n else index in
        match value !! Z.to_nat index with
        | Some v => toString_vector_loop f value maxElementsShown (index + 1)
                      (s +:+ "," +:+ toString v)
        | None => Undef
        end
    end
  else Ret s.

Definition toString_vector (value : list T) (maxElementsShown : Z) : outcome string :=
  match value with
  | [] => Ret ""%string
  | v0 :: _ =>
      let maxElementsShown := if maxElementsShown =? 0 then 2 ^ 64 - 1 else maxElementsShown in
      toString_vector_loop (length value) value maxElementsShown 1 (toString v0)
  end.

(** toString(const std::pair<const T*, size_t>&), toString(const std::set<T>&) *)
Definition toString_sequence (value : list T) : string :=
  match value with
  | [] => ""%string
  | v0 :: rest => foldl (fun s v => s +:+ "," +:+ toString v) (toString v0) rest
  end.
End toString.

(** toString(const std::vector<std::string>&): only the first element is searched
    for the comma. *)
Definition toString_vector_string (value : list string) : outcome string :=
  match value with
  | [] => Ret ""%string
  | it :: rest =>
      if decide (","%char ∈ chars it) then Throw NotSupportedException
      else Ret (foldl (fun s v => s +:+ "," +:+ v) it rest)
  end.

(** Two lower-case hexadecimal digits at least, as [os << std::hex << setw(2) <<
    setfill('0') << int(c)] prints a char: a negative [int] is printed as the
    32-bit unsigned of the same bits. *)
Definition hex_digit (n : Z) : ascii := byte_of (if n <? 10 then 48 + n else 87 + n).
Fixpoint hex_digits (fuel : nat) (n : Z) (acc : bytes) : bytes :=
  match fuel with
  | O => acc
  | S f => let acc' := hex_digit (n mod 16) :: acc in
           if n <? 16 then acc' else hex_digits f (n / 16) acc'
  end.
Definition hex_char (c : ascii) : bytes :=
  let digits := hex_digits 8 (u32 (to_signed 8 (byte_val c))) [] in
  if (length digits <? 2)%nat then "0"%char :: digits else digits.

(** toString(const ByteArray&, maxBytesShown).  ([size - nBytes] wraps in the code when it
    is negative; then [i < nBytes] holds for all bytes anyway.) *)
Fixpoint toString_ByteArray_loop (fuel : nat) (value : bytes) (nBytes i : Z) (os : string)
  : outcome string :=
  let size := Z.of_nat (length value) in
  if i <? size then
    match fuel with
    | O => OutOfFuel
    | S f =>
        if (i <? nBytes) || (size - nBytes <=? i) then
          match value !! Z.to_nat i with
          | Some c => toString_ByteArray_loop f value nBytes (i + 1) (os +:+ str (hex_char c))
          | None => Undef
          end
        else
          toString_ByteArray_loop f value nBytes (size - nBytes)
            (os +:+ "...(skip " +:+ decimal (size - 2 * nBytes) +:+ " bytes)...")
    end
  else Ret os.

Definition toString_ByteArray (value : bytes) (maxBytesShown : Z) : outcome string :=
  match value with
  | [] => Ret ""%string
  | _ =>
      let maxBytesShown := if maxBytesShown =? 0 then 2 ^ 64 - 1 else maxBytesShown in
      toString_ByteArray_loop (S (length value)) value (maxBytesShown / 2) 0 "0x"
  end.

(** ** Lemmas *)

Lemma split_last_app (c : ascii) (a b : bytes) :
  c ∉ b -> split_last c (a ++ c :: b) = Some (a, b).
Proof.
  intros Hb.
  assert (split_last c b = None) as Hn.
  { induction b as [|x b IH]; [done|]. apply not_elem_of_cons in Hb as [Hx Hb].
    cbn. rewrite IH by done. by rewrite decide_False by congruence. }
  induction a as [|x a IH]; cbn.
  - rewrite Hn. by rewrite decide_True.
  - by rewrite IH.
Qed.

Lemma split_last_Some (c : ascii) (l a b : bytes) :
  split_last c l = Some (a, b) -> l = a ++ c :: b.
Proof.
  revert a b; induction l as [|x l IH]; intros a b; cbn; [done|].
  destruct (split_last c l) as [[a' b']|] eqn:E.
  - intros [= <- <-]. cbn. f_equal. auto.
  - case_decide; [|done]. intros [= <- <-]. by subst.
Qed.

Lemma c_str_id (l : bytes) : NUL ∉ l -> c_str l = l.
Proof.
  induction l as [|c l IH]; [done|]. intros [Hc Hl]%not_elem_of_cons. cbn.
  rewrite decide_False by congruence. f_equal. auto.
Qed.

Lemma digit_spec n : 0 <= n < 10 ->
  is_digit (byte_of (48 + n)) = true /\ byte_val (byte_of (48 + n)) = 48 + n /\
  is_space (byte_of (48 + n)) = false /\ byte_of (48 + n) <> "-"%char /\
  byte_of (48 + n) <> "+"%char /\ byte_of (48 + n) <> NUL /\
  byte_of (48 + n) <> "["%char /\ byte_of (48 + n) <> "]"%char.
Proof.
  intros H. rewrite <- (Z2Nat.id n) by lia.
  assert (Z.to_nat n < 10)%nat as Hk by lia. clear H. revert Hk. generalize (Z.to_nat n). clear n.
  do 10 (intros [|k]; [intros _; vm_compute; repeat split; discriminate|revert k]). lia.
Qed.

Definition digit_char (c : ascii) : Prop :=
  is_digit c = true /\ is_space c = false /\ c <> "-"%char /\ c <> "+"%char /\
  c <> NUL /\ c <> "["%char /\ c <> "]"%char.

Lemma dec_digits_spec (fuel : nat) (n : Z) (acc : bytes) :
  0 <= n < 2 ^ Z.of_nat fuel ->
  exists d : bytes, dec_digits fuel n acc = d ++ acc /\ (fuel <> 0%nat -> d <> []) /\
    Forall digit_char d /\ (forall rest, scan_digits 0 (d ++ rest) = scan_digits n rest).
Proof.
  revert n acc; induction fuel as [|f IH]; intros n acc Hn.
  - exists []. cbn in *. repeat split; [done|done|]. intros; f_equal; lia.
  - cbn [dec_digits].
    pose proof (digit_spec (n mod 10) (Z.mod_pos_bound n 10 ltac:(lia))) as D.
    set (c := byte_of (48 + n mod 10)) in *.
    assert (digit_char c) as Hc by (destruct D as (?&?&?&?&?&?&?&?); repeat split; done).
    destruct (Z.ltb_spec n 10) as [Hlt|Hge].
    + exists [c]. repeat split; [done|by apply Forall_singleton|].
      intros rest. cbn [scan_digits app]. destruct D as (-> & -> & _).
      f_equal. rewrite Z.mod_small by lia. lia.
    + destruct (IH (n / 10) (c :: acc)) as (d & Hd & Hne & Hall & Hscan).
      { rewrite Nat2Z.inj_succ, Z.pow_succ_r in Hn by lia.
        split; [apply Z.div_pos; lia|]. apply Z.div_lt_upper_bound; lia. }
      exists (d ++ [c]). rewrite Hd, <- app_assoc. repeat split; [by destruct d| |].
      * apply Forall_app; split; [done|by apply Forall_singleton].
      * intros rest. rewrite <- app_assoc, Hscan. cbn [scan_digits app].
        destruct D as (-> & -> & _). f_equal. pose proof (Z.div_mod n 10 ltac:(lia)). lia.
Qed.

Lemma decimal_nonneg_spec (n : Z) :
  0 <= n -> exists d, decimal_nonneg n = d /\ d <> [] /\ Forall digit_char d /\
    (forall rest, scan_digits 0 (d ++ rest) = scan_digits n rest).
Proof.
  intros Hn. unfold decimal_nonneg.
  destruct (dec_digits_spec (S (Z.to_nat (Z.log2 n))) n []) as (d & Hd & ? & ? & ?).
  { rewrite Nat2Z.inj_succ, Z2Nat.id by apply Z.log2_nonneg.
    destruct (Z.eq_dec n 0) as [->|]; [cbn; lia|]. pose proof (Z.log2_spec n ltac:(lia)). lia. }
  rewrite app_nil_r in Hd. exists d. naive_solver.
Qed.

(** The characters of a printed index are digits, and [atoi] reads it back. *)
Lemma atoi_decimal (n : Z) : 0 <= n < 2 ^ 31 -> atoi (chars (decimal n)) = Some n.
Proof.
  intros Hn. unfold decimal. rewrite chars_str.
  destruct (Z.ltb_spec n 0); [lia|].
  destruct (decimal_nonneg_spec n) as (d & -> & Hne & Hall & Hscan); [lia|].
  specialize (Hscan []). rewrite app_nil_r in Hscan. cbn [scan_digits] in Hscan.
  unfold atoi. destruct d as [|c d]; [done|].
  inversion_clear Hall as [|? ? (? & Hsp & Hm & Hp & _) _]. cbn [drop_while]. rewrite Hsp.
  rewrite !decide_False by done. rewrite Hscan.
  destruct (Z.leb_spec (- 2 ^ 31) n), (Z.ltb_spec n (2 ^ 31)); cbn; done || lia.
Qed.

Lemma decimal_digits (n : Z) : 0 <= n -> Forall digit_char (chars (decimal n)).
Proof.
  intros Hn. unfold decimal. rewrite chars_str. destruct (Z.ltb_spec n 0); [lia|].
  destruct (decimal_nonneg_spec n) as (d & -> & _ & Hall & _); done.
Qed.

Lemma digit_chars_notin (c : ascii) (l : bytes) :
  Forall digit_char l -> is_digit c = false -> c ∉ l.
Proof. rewrite Forall_forall. intros Hl Hc Hin. destruct (Hl c Hin) as [Hd _]. congruence. Qed.

(** The key of a hash with its array syntax, as Hash::getPaths and Hash::flatten print it. *)
Definition indexed (key : string) (i : Z) : string := key +:+ "[" +:+ decimal i +:+ "]".

Lemma chars_indexed key i : chars (indexed key i) = (chars key ++ "["%char :: chars (decimal i)) ++ ["]"%char].
Proof. unfold indexed. rewrite !chars_app. cbn. by rewrite <- app_assoc. Qed.

Lemma removelast_snoc {A} (l : list A) x : removelast (l ++ [x]) = l.
Proof. by rewrite removelast_app, app_nil_r by done. Qed.

Lemma crop_indexed (key : string) (i : Z) :
  0 <= i < 2 ^ 31 -> getAndCropIndex (indexed key i) = Ret (i, key).
Proof.
  intros Hi. unfold getAndCropIndex.
  rewrite chars_indexed, last_snoc, decide_True, removelast_snoc by done.
  pose proof (decimal_digits i ltac:(lia)) as Hd.
  rewrite split_last_app by (by apply (digit_chars_notin _ _ Hd)).
  rewrite c_str_id by (by apply (digit_chars_notin _ _ Hd)).
  by rewrite atoi_decimal, str_chars.
Qed.

Lemma crop_plain (key : string) :
  last (chars key) <> Some "]"%char -> getAndCropIndex key = Ret (-1, key).
Proof.
  unfold getAndCropIndex. intros H. destruct (last (chars key)) as [c|]; [|done].
  by rewrite decide_False by congruence.
Qed.

(** Array syntax round trip: for any key (whatever brackets it holds itself) and any
    index an [int] holds, the key written with its index in brackets is cropped back to the
    key and the index; a key that does not end in a closing bracket is left as it is, with
    the index -1 that stands for "no index". *)
Theorem getAndCropIndex_indexed (key : string) (i : Z) (Hi : 0 <= i < 2 ^ 31) :
  getAndCropIndex (indexed key i) = Ret (i, key) /\
  (last (chars key) <> Some "]"%char -> getAndCropIndex key = Ret (-1, key)).
Proof. split; [by apply crop_indexed|apply crop_plain]. Qed.

Lemma getAndCropIndex_indexed_witness :
  getAndCropIndex (indexed "table[2]" 17) = Ret (17, "table[2]"%string) /\
  (last (chars "table[2]") <> Some "]"%char -> getAndCropIndex "table[2]" = Ret (-1, "table[2]"%string)).
Proof. apply (getAndCropIndex_indexed "table[2]" 17). lia. Defined.

(** Strings put together with [sep] between them. *)
Fixpoint join (sep : string) (l : list string) : string :=
  match l with
  | [] => ""
  | [t] => t
  | t :: l' => t +:+ sep +:+ join sep l'
  end%string.

Lemma join_cons sep t l : l <> [] -> join sep (t :: l) = t +:+ sep +:+ join sep l.
Proof. by destruct l. Qed.

Definition free_of (c : ascii) (t : string) : Prop := c ∉ chars t.

#[export] Instance free_of_dec c t : Decision (free_of c t).
Proof. unfold free_of. apply _. Defined.

Lemma tokenize_loop_app (d : ascii) (t rest token : bytes) (out : list string) :
  d ∉ t -> tokenize_loop [d] (t ++ rest) token out = tokenize_loop [d] rest (token ++ t) out.
Proof.
  revert token; induction t as [|c t IH]; intros token Ht; cbn [app].
  - by rewrite app_nil_r.
  - apply not_elem_of_cons in Ht as [Hc Ht]. cbn [tokenize_loop].
    rewrite decide_False by (intros ?%list_elem_of_singleton; congruence).
    rewrite IH by done. by rewrite <- app_assoc.
Qed.

Lemma tokenize_loop_join (d : ascii) (toks : list string) (out : list string) :
  toks <> [] -> Forall (free_of d) toks ->
  tokenize_loop [d] (chars (join (str [d]) toks)) [] out = out ++ toks.
Proof.
  revert out; induction toks as [|t toks IH]; intros out Hne Hf; [done|].
  inversion_clear Hf as [|? ? Ht Hts]. destruct toks as [|t' toks].
  - cbn [join]. rewrite <- (app_nil_r (chars t)), tokenize_loop_app by done.
    cbn. by rewrite str_chars.
  - rewrite join_cons, !chars_app, tokenize_loop_app, chars_str by done.
    cbn [app tokenize_loop]. rewrite decide_True by (by apply list_elem_of_singleton).
    rewrite IH by done. rewrite str_chars. by rewrite <- app_assoc.
Qed.

Lemma tokenize_loop_sound (d : ascii) (input token : bytes) (out : list string) :
  d ∉ token -> exists toks, tokenize_loop [d] input token out = out ++ toks /\ toks <> [] /\
    Forall (free_of d) toks /\ chars (join (str [d]) toks) = token ++ input.
Proof.
  revert token out; induction input as [|c input IH]; intros token out Ht; cbn [tokenize_loop].
  - exists [str token]. unfold free_of. rewrite Forall_singleton. cbn [join].
    by rewrite chars_str, app_nil_r.
  - case_decide as Hc.
    + apply list_elem_of_singleton in Hc as ->.
      destruct (IH [] (out ++ [str token]) (not_elem_of_nil _)) as (toks & -> & Hne & Hf & Hj).
      exists (str token :: toks). rewrite <- app_assoc. repeat split; try done.
      * constructor; [|done]. unfold free_of. by rewrite chars_str.
      * rewrite join_cons, !chars_app, Hj, !chars_str by done. by cbn.
    + destruct (IH (token ++ [c]) out) as (toks & -> & Hne & Hf & Hj).
      { rewrite not_elem_of_app, list_elem_of_singleton in *. naive_solver. }
      exists toks. repeat split; try done. by rewrite Hj, <- app_assoc.
Qed.

Lemma tokenize_loop_spec (s : string) (d : ascii) :
  d <> NUL -> tokenize s d = tokenize_loop [d] (chars s) [] [].
Proof. intros Hd. unfold tokenize, tokenize_cstr. cbn. by rewrite decide_False. Qed.

Lemma tokenize_loop_nil (l token : bytes) (out : list string) :
  tokenize_loop [] l token out = out ++ [str (token ++ l)].
Proof.
  revert token; induction l as [|c l IH]; intros token; cbn [tokenize_loop].
  - by rewrite app_nil_r.
  - rewrite decide_False by (apply not_elem_of_nil). rewrite IH. by rewrite <- app_assoc.
Qed.

Lemma tokenize_NUL (s : string) : tokenize s NUL = [s].
Proof.
  unfold tokenize, tokenize_cstr. change (c_str [NUL; NUL]) with (@nil ascii).
  rewrite tokenize_loop_nil. cbn. by rewrite str_chars.
Qed.

(** C30: Path tokenising is exactly the inverse of joining: for a separator other than
    NUL the tokens of a string are the one non-empty list of separator-free strings that,
    joined by the separator, give the string (so no empty token is dropped); with the
    separator NUL, which Hash::flatten uses, the string is a single token. *)
Theorem tokenize_spec (s : string) (d : ascii) (toks : list string) :
  tokenize s NUL = [s] /\
  (d <> NUL -> (tokenize s d = toks <->
    toks <> [] /\ Forall (free_of d) toks /\ join (str [d]) toks = s)).
Proof.
  split.
  { apply tokenize_NUL. }
  intros Hd. rewrite tokenize_loop_spec by done. split.
  - intros <-.
    destruct (tokenize_loop_sound d (chars s) [] [] (not_elem_of_nil _))
      as (toks' & -> & Hne & Hf & Hj).
    repeat split; try done. by apply chars_inj.
  - intros (Hne & Hf & <-). by rewrite tokenize_loop_join.
Qed.

Lemma tokenize_spec_witness :
  tokenize "a..b" "." = ["a"%string; ""%string; "b"%string].
Proof.
  apply (tokenize_spec "a..b" "."); [discriminate|].
  split; [discriminate|]. split; [|reflexivity].
  repeat constructor; unfold free_of; cbn; rewrite ?not_elem_of_cons; repeat split;
    try discriminate; apply not_elem_of_nil.
Defined.

Lemma tokenize_join (d : ascii) (toks : list string) :
  d <> NUL -> toks <> [] -> Forall (free_of d) toks ->
  tokenize (join (str [d]) toks) d = toks.
Proof. intros. rewrite tokenize_loop_spec by done. by rewrite tokenize_loop_join. Qed.

Lemma tokenize_free (s : string) (d : ascii) : free_of d s -> tokenize s d = [s].
Proof.
  intros Hs. destruct (decide (d = NUL)) as [->|Hd].
  - apply tokenize_NUL.
  - apply (tokenize_join d [s]); [done|done|by apply Forall_singleton].
Qed.

(** The tokens of a string, as tokenize_spec has them. *)
Lemma tokenize_split (s : string) (d : ascii) :
  d <> NUL -> tokenize s d <> [] /\ Forall (free_of d) (tokenize s d) /\ join (str [d]) (tokenize s d) = s.
Proof.
  intros Hd. rewrite tokenize_loop_spec by done.
  destruct (tokenize_loop_sound d (chars s) [] [] (not_elem_of_nil _)) as (toks & -> & Hne & Hf & Hj).
  split_and!; [done|done|by apply chars_inj].
Qed.

Lemma join_app (sep : string) (l1 l2 : list string) :
  l1 <> [] -> l2 <> [] -> join sep (l1 ++ l2) = join sep l1 +:+ sep +:+ join sep l2.
Proof.
  intros H1 H2. induction l1 as [|t l1 IH]; [done|]. destruct l1 as [|t' l1].
  - cbn [app]. by rewrite join_cons.
  - change ((t :: t' :: l1) ++ l2) with (t :: ((t' :: l1) ++ l2)).
    rewrite (join_cons sep t (t' :: l1)), join_cons, IH by done. apply chars_inj.
    by rewrite !chars_app, <- !app_assoc.
Qed.

(** ** Termination *)

Lemma getAndCropIndex_fuel (s : string) : getAndCropIndex s <> OutOfFuel.
Proof. unfold getAndCropIndex. no_fuel. Qed.

Lemma numElementsBeginEnd_bounds (m size : Z) :
  0 < m < size -> 0 < numElementsBeginEnd m /\ 2 * numElementsBeginEnd m <= size.
Proof. unfold numElementsBeginEnd. pose proof (Z.div_mod m 2). pose proof (Z.mod_pos_bound m 2). lia. Qed.

Lemma toString_vector_fuel {T} (f : T -> string) (value : list T) (m : Z) :
  0 <= m -> toString_vector f value m <> OutOfFuel.
Proof.
  intros Hm. unfold toString_vector. destruct value as [|v0 value']; [discriminate|].
  set (value := v0 :: value'). set (m' := if m =? 0 then _ else m). assert (0 < m') as Hm'.
  { unfold m'. destruct (Z.eqb_spec m 0); lia. }
  assert (forall fuel i s, 1 <= i -> Z.of_nat (length value) < i + Z.of_nat (S fuel) ->
    toString_vector_loop f fuel value m' i s <> OutOfFuel) as H; [|apply H; lia].
  induction fuel as [|fuel IH]; intros i s Hi Hf; cbn [toString_vector_loop];
    (destruct (Z.ltb_spec i (Z.of_nat (length value))); [|discriminate]); [lia|].
  destruct ((m' <? Z.of_nat (length value)) && _) eqn:Es; case_match; try discriminate; apply IH; try lia.
  - apply andb_prop in Es as [Es%Z.ltb_lt Ei%Z.eqb_eq].
    pose proof (numElementsBeginEnd_bounds m' (Z.of_nat (length value)) ltac:(lia)). lia.
Qed.

Lemma toString_vector_string_fuel (value : list string) : toString_vector_string value <> OutOfFuel.
Proof. unfold toString_vector_string. no_fuel. Qed.

Lemma toString_ByteArray_fuel (value : bytes) (m : Z) :
  0 <= m -> toString_ByteArray value m <> OutOfFuel.
Proof.
  intros Hm. unfold toString_ByteArray. destruct value as [|c value']; [discriminate|].
  set (value := c :: value'). set (n := (if m =? 0 then _ else m) / 2). assert (0 <= n) as Hn.
  { apply Z.div_pos; [|lia]. destruct (Z.eqb_spec m 0); lia. }
  set (size := Z.of_nat (length value)).
  assert (forall fuel i s, 0 <= i -> size < i + Z.of_nat (S fuel) -> size - n <= i \/ i <= n ->
    (size - n <= i \/ size < i + Z.of_nat fuel) ->
    toString_ByteArray_loop fuel value n i s <> OutOfFuel) as H; [|apply H; lia].
  induction fuel as [|fuel IH]; intros i s Hi Hf Hc Hd; cbn [toString_ByteArray_loop]; fold size;
    (destruct (Z.ltb_spec i size); [|discriminate]); [lia|].
  destruct (Z.ltb_spec i n); cbn [orb]; [|destruct (Z.leb_spec (size - n) i)].
  - case_match; [|discriminate]. apply IH; lia.
  - case_match; [|discriminate]. apply IH; lia.
  - apply IH; lia.
Qed.

#[export] Hint Resolve getAndCropIndex_fuel toString_vector_string_fuel : fuel.
