(* ===== verification/Base64.v ===== *)
(** Base64 coding: data/types/Base64.cc. *)

From Stdlib Require Import ZArith Lia Ascii String.
From stdpp Require Import base numbers list strings gmap.
From S2P Require Import Prelude.

Open Scope Z_scope.

Definition b64_char : bytes :=
  chars "ABCDEFGHIJKLMNOPQRSTUVWXYZabcdefghijklmnopqrstuvwxyz0123456789+/".

(** b64_char.find(c): [None] is npos. *)
Fixpoint find_from (i : Z) (c : ascii) (l : bytes) : option Z :=
  match l with
  | [] => None
  | x :: l' => if decide (x = c) then Some i else find_from (i + 1) c l'
  end.
Definition b64_find (c : ascii) : option Z := find_from 0 c b64_char.

(** b64_char[o]; the callers only use 6-bit indices. *)
Definition b64_at (o : Z) : ascii := nth (Z.to_nat o) b64_char NUL.

(** The value of an arithmetic result assigned to an [unsigned char]. *)
Definition uchar (z : Z) : Z := wrap 8 z.

(** One iteration of the encoding loop: what it appends to [out]. *)
Definition encode_step (i0 i1 i2 : Z) (pad : Z) : bytes :=
  let o0 := uchar (Z.shiftr i0 2) in
  let o1 := uchar (Z.shiftl (Z.land i0 3) 4 + Z.shiftr (Z.land i1 240) 4) in
  let o2 := uchar (Z.shiftl (Z.land i1 15) 2 + Z.shiftr (Z.land i2 192) 6) in
  let o3 := uchar (Z.land i2 63) in
  [b64_at o0; b64_at o1;
   if pad <? 2 then b64_at o2 else "="%char;
   if pad <? 1 then b64_at o3 else "="%char].

(** The encoding loop: the argument is the input from index [i] on, so its length
    decides the padding. *)
Fixpoint base64Encode_loop (input out : bytes) : bytes :=
  match input with
  | [] => out
  | [b0] => out ++ encode_step (byte_val b0) 0 0 2
  | [b0; b1] => out ++ encode_step (byte_val b0) (byte_val b1) 0 1
  | b0 :: b1 :: b2 :: input' =>
      base64Encode_loop input' (out ++ encode_step (byte_val b0) (byte_val b1) (byte_val b2) 0)
  end.

Definition base64Encode (bytes_to_encode : bytes) : string :=
  match bytes_to_encode with
  | [] => ""%string
  | _ => str (base64Encode_loop bytes_to_encode [])
  end.

(** [i + k == len || in[i + k] == '='] where [rest] is the input from [i] on. *)
Definition ends_or_pad (rest : bytes) (k : nat) : bool :=
  match rest !! k with
  | None => true
  | Some c => bool_decide (c = "="%char)
  end.

Definition decode_pad (rest : bytes) : Z :=
  if ends_or_pad rest 1 then 3
  else if ends_or_pad rest 2 then 2
  else if ends_or_pad rest 3 then 1
  else 0.

(** [t_k = b64_char.find(in[i + k])] for a character that is there; 0 for a padded one. *)
Definition decode_char (rest : bytes) (k : nat) (padded : bool) : option Z :=
  if padded then Some 0
  else match rest !! k with
       | Some c => b64_find c
       | None => None
       end.

(** The exception that an invalid character at offset [k] of the quadruple at [i]
    raises.  Building its message takes [in.substr(i + k - 10, ...)] with unsigned
    arithmetic, and [substr] throws by itself for a start behind the end. *)
Definition decode_error (len i k : Z) : exn :=
  if len <? Z.max 0 (u64 (i + k - 10)) then OutOfRange else CastException.

(** One iteration of the decoding loop: what it appends to [out]. *)
Definition decode_step (len i : Z) (rest : bytes) : outcome bytes :=
  let pad := decode_pad rest in
  let t0 := decode_char rest 0 false in
  let t1 := decode_char rest 1 (3 <=? pad) in
  let t2 := decode_char rest 2 (2 <=? pad) in
  let t3 := decode_char rest 3 (1 <=? pad) in
  match t0, t1, t2, t3 with
  | None, _, _, _ => Throw (decode_error len i 0)
  | _, None, _, _ => Throw (decode_error len i 1)
  | _, _, None, _ => Throw (decode_error len i 2)
  | _, _, _, None => Throw (decode_error len i 3)
  | Some i0, Some i1, Some i2, Some i3 =>
      let o0 := uchar (Z.shiftl i0 2 + Z.shiftr i1 4) in
      let o1 := uchar (Z.shiftl (Z.land i1 15) 4 + Z.shiftr i2 2) in
      let o2 := uchar (Z.shiftl (Z.land i2 15) 6 + i3) in
      Ret (byte_of o0 :: (if pad <? 2 then [byte_of o1] else []) ++
           (if pad <? 1 then [byte_of o2] else []))
  end.

Fixpoint base64Decode_loop (fuel : nat) (len i : Z) (rest out : bytes) : outcome bytes :=
  match rest with
  | [] => Ret out
  | _ =>
      match fuel with
      | O => OutOfFuel
      | S f => o ← decode_step len i rest;
               base64Decode_loop f len (i + 4) (drop 4 rest) (out ++ o)
      end
  end.

(** base64Decode(in, out): appends to [out]. *)
Definition base64Decode (input : string) (out : bytes) : outcome bytes :=
  let l := chars input in
  base64Decode_loop (length l) (Z.of_nat (length l)) 0 l out.

(** ** Lemmas *)

Definition valid6 (o : Z) : bool :=
  bool_decide (b64_find (b64_at o) = Some o) && bool_decide (b64_at o <> "="%char).

Lemma valid6_all : forallb valid6 (seqZ 0 64) = true.
Proof. by vm_compute. Qed.

Lemma b64_find_at (o : Z) :
  0 <= o < 64 -> b64_find (b64_at o) = Some o /\ b64_at o <> "="%char.
Proof.
  intros Ho. pose proof valid6_all as H. rewrite forallb_forall in H.
  specialize (H o). rewrite <- list_elem_of_In, elem_of_seqZ in H.
  specialize (H ltac:(lia)). unfold valid6 in H.
  apply andb_prop in H as [H1%bool_decide_eq_true H2%bool_decide_eq_true]. done.
Qed.

(** The bit operations of one step as arithmetic. *)
Lemma land_low (n k : Z) : 0 <= k -> Z.land n (Z.ones k) = n mod 2 ^ k.
Proof. apply Z.land_ones. Qed.

Lemma land_high4 (n : Z) : 0 <= n < 256 -> Z.shiftr (Z.land n 240) 4 = n / 16.
Proof.
  intros Hn. rewrite Z.shiftr_land. change (Z.shiftr 240 4) with (Z.ones 4).
  rewrite Z.land_ones, Z.shiftr_div_pow2 by lia. apply Z.mod_small.
  split; [apply Z.div_pos; lia|]. apply Z.div_lt_upper_bound; cbn; lia.
Qed.

Lemma land_high2 (n : Z) : 0 <= n < 256 -> Z.shiftr (Z.land n 192) 6 = n / 64.
Proof.
  intros Hn. rewrite Z.shiftr_land. change (Z.shiftr 192 6) with (Z.ones 2).
  rewrite Z.land_ones, Z.shiftr_div_pow2 by lia. apply Z.mod_small.
  split; [apply Z.div_pos; lia|]. apply Z.div_lt_upper_bound; cbn; lia.
Qed.

Ltac b64_arith :=
  unfold uchar, wrap; change 3 with (Z.ones 2); change 15 with (Z.ones 4);
  change 63 with (Z.ones 6);
  rewrite ?land_high4, ?land_high2, ?Z.land_ones, ?Z.shiftl_mul_pow2, ?Z.shiftr_div_pow2 by lia;
  change (2 ^ 2) with 4; change (2 ^ 4) with 16; change (2 ^ 6) with 64;
  change (2 ^ 8) with 256.

(** The sextets of one step, and the octets got back from them. *)
Lemma sextets (i0 i1 i2 : Z) :
  0 <= i0 < 256 -> 0 <= i1 < 256 -> 0 <= i2 < 256 ->
  let o0 := uchar (Z.shiftr i0 2) in
  let o1 := uchar (Z.shiftl (Z.land i0 3) 4 + Z.shiftr (Z.land i1 240) 4) in
  let o2 := uchar (Z.shiftl (Z.land i1 15) 2 + Z.shiftr (Z.land i2 192) 6) in
  let o3 := uchar (Z.land i2 63) in
  (o0 = i0 / 4 /\ o1 = (i0 mod 4) * 16 + i1 / 16 /\ o2 = (i1 mod 16) * 4 + i2 / 64 /\ o3 = i2 mod 64)
  /\ (0 <= o0 < 64 /\ 0 <= o1 < 64 /\ 0 <= o2 < 64 /\ 0 <= o3 < 64).
Proof.
  intros H0 H1 H2. cbn zeta. b64_arith.
  Z.div_mod_to_equations. lia.
Qed.

(** The octets that the decoder makes of the sextets of [i0], [i1], [i2]. *)
Lemma octets (i0 i1 i2 : Z) :
  0 <= i0 < 256 -> 0 <= i1 < 256 -> 0 <= i2 < 256 ->
  uchar (Z.shiftl (i0 / 4) 2 + Z.shiftr ((i0 mod 4) * 16 + i1 / 16) 4) = i0 /\
  uchar (Z.shiftl (Z.land ((i0 mod 4) * 16 + i1 / 16) 15) 4
         + Z.shiftr ((i1 mod 16) * 4 + i2 / 64) 2) = i1 /\
  uchar (Z.shiftl (Z.land ((i1 mod 16) * 4 + i2 / 64) 15) 6 + i2 mod 64) = i2.
Proof.
  intros H0 H1 H2. b64_arith.
  repeat split; Z.div_mod_to_equations; lia.
Qed.

(** What the encoder appends for 3, 2 or 1 octets. *)
Lemma encode_step_eq (i0 i1 i2 pad : Z) :
  0 <= i0 < 256 -> 0 <= i1 < 256 -> 0 <= i2 < 256 ->
  encode_step i0 i1 i2 pad =
  [b64_at (i0 / 4); b64_at ((i0 mod 4) * 16 + i1 / 16);
   if pad <? 2 then b64_at ((i1 mod 16) * 4 + i2 / 64) else "="%char;
   if pad <? 1 then b64_at (i2 mod 64) else "="%char].
Proof.
  intros H0 H1 H2. destruct (sextets i0 i1 i2 H0 H1 H2) as [(E0 & E1 & E2 & E3) _].
  unfold encode_step. by rewrite E0, E1, E2, E3.
Qed.

(** One quadruple of the decoder undoes one step of the encoder. *)
Lemma decode_encode_step (len i i0 i1 i2 pad : Z) (rest : bytes) :
  0 <= i0 < 256 -> 0 <= i1 < 256 -> 0 <= i2 < 256 ->
  (pad = 0 \/ (pad = 1 /\ i2 = 0) \/ (pad = 2 /\ i1 = 0 /\ i2 = 0)) ->
  decode_step len i (encode_step i0 i1 i2 pad ++ rest) =
  Ret (byte_of i0 :: (if pad <? 2 then [byte_of i1] else []) ++
                     (if pad <? 1 then [byte_of i2] else [])).
Proof.
  intros H0 H1 H2 Hpad. rewrite encode_step_eq by done.
  destruct (sextets i0 i1 i2 H0 H1 H2) as [(E0 & E1 & E2 & E3) (B0 & B1 & B2 & B3)].
  destruct (octets i0 i1 i2 H0 H1 H2) as (O0 & O1 & O2).
  rewrite E0 in B0; rewrite E1 in B1; rewrite E2 in B2; rewrite E3 in B3.
  destruct (b64_find_at _ B0) as [F0 N0], (b64_find_at _ B1) as [F1 N1],
    (b64_find_at _ B2) as [F2 N2], (b64_find_at _ B3) as [F3 N3].
  unfold decode_step, decode_pad, decode_char, ends_or_pad.
  destruct Hpad as [-> | [[-> ->] | (-> & -> & ->)]]; cbn -[uchar b64_at b64_find Z.div Z.modulo];
    rewrite ?bool_decide_eq_false_2 by done;
    rewrite ?(bool_decide_eq_true_2 ("="%char = "="%char)) by done;
    cbn -[uchar b64_at b64_find Z.div Z.modulo Z.shiftl Z.shiftr Z.land]; rewrite ?F0, ?F1, ?F2, ?F3;
    cbn -[uchar b64_at b64_find Z.div Z.modulo Z.shiftl Z.shiftr Z.land];
    rewrite ?O0, ?O1, ?O2; done.
Qed.

(** The loop with [out] pulled out. *)
Lemma base64Encode_loop_out (input out : bytes) :
  base64Encode_loop input out = out ++ base64Encode_loop input [].
Proof.
  revert input out. fix IH 1. intros [|b0 [|b1 [|b2 input]]] out; cbn [base64Encode_loop].
  - by rewrite app_nil_r.
  - done.
  - done.
  - rewrite IH, (IH input ([] ++ _)). by rewrite <- app_assoc.
Qed.

Lemma base64Decode_loop_encode (input : bytes) :
  forall fuel len i out,
  (length (base64Encode_loop input []) <= fuel)%nat ->
  base64Decode_loop fuel len i (base64Encode_loop input []) out = Ret (out ++ input).
Proof.
  revert input. fix IH 1. intros [|b0 [|b1 [|b2 input]]] fuel len i out Hf.
  - cbn. rewrite app_nil_r. by destruct fuel.
  - cbn [base64Encode_loop] in *. destruct fuel as [|fuel]; [cbn in Hf; lia|].
    cbn [base64Decode_loop].
    pose proof (decode_encode_step len i (byte_val b0) 0 0 2 [] ltac:(auto with karabo)
      ltac:(lia) ltac:(lia) ltac:(lia)) as H. rewrite app_nil_r in H.
    cbn [app] in *. rewrite H. cbn. by destruct fuel; rewrite byte_of_val.
  - cbn [base64Encode_loop] in *. destruct fuel as [|fuel]; [cbn in Hf; lia|].
    pose proof (decode_encode_step len i (byte_val b0) (byte_val b1) 0 1 [] ltac:(auto with karabo)
      ltac:(auto with karabo) ltac:(lia) ltac:(lia)) as H. rewrite app_nil_r in H.
    cbn [base64Decode_loop app] in *. rewrite H. cbn. by destruct fuel; rewrite !byte_of_val.
  - cbn [base64Encode_loop] in *. rewrite base64Encode_loop_out in Hf |- *.
    destruct fuel as [|fuel]; [cbn in Hf; lia|].
    pose proof (decode_encode_step len i (byte_val b0) (byte_val b1) (byte_val b2) 0
      (base64Encode_loop input []) ltac:(auto with karabo)
      ltac:(auto with karabo) ltac:(auto with karabo) ltac:(lia)) as H.
    cbn [base64Decode_loop app] in *. rewrite H.
    cbn [mbind outcome_bind Z.ltb Z.compare app].
    change (drop 4 (encode_step ?a ?b ?c ?d ++ ?r)) with r.
    rewrite IH by (cbn in Hf; lia). rewrite !byte_of_val, <- app_assoc. done.
Qed.

(** C31: decoding what base64Encode produced gives the octets back, appended to
    whatever the output vector held, for every octet string. *)
Theorem base64_roundtrip (input out : bytes) :
  base64Decode (base64Encode input) out = Ret (out ++ input).
Proof.
  unfold base64Decode. destruct input as [|b input].
  - cbn. by rewrite app_nil_r.
  - unfold base64Encode. rewrite chars_str. by apply base64Decode_loop_encode.
Qed.

(** Whole triples leave no padding: the decoder reaches what follows them. *)
Lemma base64Decode_loop_triples (n : nat) :
  forall input fuel len i tail out,
  length input = (3 * n)%nat -> (4 * n <= fuel)%nat ->
  length (base64Encode_loop input []) = (4 * n)%nat /\
  base64Decode_loop fuel len i (base64Encode_loop input [] ++ tail) out =
  base64Decode_loop (fuel - n) len (i + 4 * Z.of_nat n) tail (out ++ input).
Proof.
  induction n as [|n IH]; intros input fuel len i tail out Hl Hf.
  - destruct input; [|discriminate]. cbn [base64Encode_loop app length].
    by rewrite Z.add_0_r, app_nil_r, Nat.sub_0_r.
  - destruct input as [|b0 [|b1 [|b2 input]]]; try (cbn in Hl; lia).
    cbn [base64Encode_loop]. rewrite base64Encode_loop_out.
    destruct fuel as [|fuel]; [lia|].
    destruct (IH input fuel len (i + 4) tail (out ++ [b0; b1; b2])) as [L E];
      [cbn in Hl; lia|lia|].
    split; [cbn [app length]; rewrite length_app, L; cbn; lia|].
    pose proof (decode_encode_step len i (byte_val b0) (byte_val b1) (byte_val b2) 0
      (base64Encode_loop input [] ++ tail) ltac:(auto with karabo)
      ltac:(auto with karabo) ltac:(auto with karabo) ltac:(lia)) as H.
    cbn [base64Decode_loop app] in *. rewrite <- app_assoc. rewrite H.
    cbn [mbind outcome_bind Z.ltb Z.compare app].
    change (drop 4 (encode_step ?a ?b ?c ?d ++ ?r)) with r.
    rewrite !byte_of_val, E, <- app_assoc. cbn [app Nat.sub]. f_equal; lia.
Qed.

(** A character that is not in the base64 alphabet, met at the start of a
    quadruple after [n] quadruples of coded data, ends the decoding with an
    exception: karabo's CastException from position 10 on, but the C++ library's
    out_of_range (raised while the message is built) at a position below 10. *)
Theorem base64_invalid_character (input : bytes) (c : ascii) (rest : bytes) (out : bytes) (n : nat) :
  length input = (3 * n)%nat ->
  b64_find c = None ->
  Z.of_nat (4 * n + S (length rest)) < 2 ^ 63 ->
  base64Decode (str (base64Encode_loop input [] ++ c :: rest)) out =
  Throw (if (4 * n <? 10)%nat then OutOfRange else CastException).
Proof.
  intros Hl Hc Hb. unfold base64Decode. rewrite chars_str.
  destruct (base64Decode_loop_triples n input (4 * n + S (length rest))
    (Z.of_nat (4 * n + S (length rest))) 0 (c :: rest) out Hl) as [L E]; [lia|].
  rewrite length_app, L. cbn [length]. rewrite E.
  replace (4 * n + S (length rest) - n)%nat with (S (3 * n + length rest)) by lia.
  cbn [base64Decode_loop]. unfold decode_step.
  change (decode_char (c :: rest) 0 false) with (b64_find c). rewrite Hc. cbn [mbind outcome_bind].
  f_equal. unfold decode_error, u64, wrap.
  destruct (Nat.ltb_spec (4 * n) 10) as [Hn|Hn].
  - rewrite <- (Z_mod_plus_full _ 1), Z.mod_small by lia.
    destruct (Z.ltb_spec (Z.of_nat (4 * n + S (length rest)))
      (Z.max 0 (0 + 4 * Z.of_nat n + 0 - 10 + 1 * 2 ^ 64))) as [?|Hge]; [done|].
    change (2 ^ 64) with (2 * 2 ^ 63) in Hge. lia.
  - rewrite Z.mod_small by lia.
    destruct (Z.ltb_spec (Z.of_nat (4 * n + S (length rest)))
      (Z.max 0 (0 + 4 * Z.of_nat n + 0 - 10))); [lia|done].
Qed.

Lemma base64_invalid_character_witness :
  base64Decode "YWJj!" [] = Throw OutOfRange /\
  base64Decode "YWJjYWJjYWJj-x" [] = Throw CastException.
Proof.
  split.
  - exact (base64_invalid_character (chars "abc") "!" [] [] 1 eq_refl eq_refl eq_refl).
  - exact (base64_invalid_character (chars "abcabcabc") "-" ["x"%char] [] 3 eq_refl eq_refl eq_refl).
Defined.
