(* ===== verification/OrderedMap.v ===== *)
(** The container karabo::data::OrderedMap (data/types/OrderedMap.hh).

    [alist] operations are the contract: an insertion-ordered list of elements with
    unique keys.  [OrderedMap] is the container as the code keeps it, a std::map of
    elements beside a std::list of pointers to them; the refinement theorems say that
    each operation of the latter implements the former.  The elements are abstract:
    the class [MappedType] states what the container uses of them, and Hash.v gives
    the two instances of the code, the nodes of a Hash and their attributes. *)

From Stdlib Require Import ZArith Lia Ascii String.
From stdpp Require Import base numbers list strings gmap.
From S2P Require Import Prelude Types.
Import Types.

(** What the container needs of [Element]: default construction followed by
    [setKey], and [setValue]. *)
Class MappedType (V N : Type) := {
  newElement : string -> N;
  getKey : N -> string;
  setValue : N -> V -> N;
  getKey_new k : getKey (newElement k) = k;
  getKey_setValue n v : getKey (setValue n v) = getKey n;
  setValue_setValue n v w : setValue (setValue n v) w = setValue n w
}.

Lemma filter_notin (k : string) (l : list string) : k ∉ l -> filter (fun x => x <> k) l = l.
Proof.
  induction l as [|x l IH]; [done|]. rewrite not_elem_of_cons. intros [Hx Hl].
  cbn. rewrite decide_True by congruence. f_equal. by apply IH.
Qed.

(** ** The contract: insertion-ordered lists *)

Section alist.
Context {V N : Type} `{MappedType V N}.
Implicit Types (l : list N) (k : string) (n : N) (v : V).

Definition keys l : list string := getKey <$> l.

Fixpoint afind k l : option N :=
  match l with
  | [] => None
  | n :: l' => if decide (getKey n = k) then Some n else afind k l'
  end.

Definition ahas k l : bool := match afind k l with Some _ => true | None => false end.

(** Changes the element of key [k] in place. *)
Fixpoint aalter k (f : N -> N) l : list N :=
  match l with
  | [] => []
  | n :: l' => if decide (getKey n = k) then f n :: l' else n :: aalter k f l'
  end.

Definition aset k v l : list N :=
  match afind k l with
  | Some _ => aalter k (fun n => setValue n v) l
  | None => l ++ [setValue (newElement k) v]
  end.

Fixpoint aerase k l : list N :=
  match l with
  | [] => []
  | n :: l' => if decide (getKey n = k) then l' else n :: aerase k l'
  end.

(** Unique keys. *)
Definition awf l : Prop := NoDup (keys l).

Lemma afind_key k l n : afind k l = Some n -> getKey n = k.
Proof. induction l as [|x l IH]; cbn; [done|]. case_decide; naive_solver. Qed.

Lemma afind_elem k l n : afind k l = Some n -> n ∈ l.
Proof.
  induction l as [|x l IH]; cbn; [done|]. case_decide.
  - intros [= ->]. apply list_elem_of_here.
  - intros. apply list_elem_of_further; auto.
Qed.

Lemma afind_None k l : afind k l = None <-> k ∉ keys l.
Proof.
  induction l as [|x l IH]; cbn; [split; [intros _; apply not_elem_of_nil|done]|].
  rewrite not_elem_of_cons. case_decide as D; [split; [done|intros [? _]; congruence]|].
  rewrite IH. split; [intros; split; [congruence|done]|by intros [_ ?]].
Qed.

Lemma afind_Some_keys k l n : afind k l = Some n -> k ∈ keys l.
Proof.
  intros E. destruct (decide (k ∈ keys l)) as [|C]; [done|].
  apply afind_None in C. congruence.
Qed.

Lemma afind_elem_wf l n : awf l -> n ∈ l -> afind (getKey n) l = Some n.
Proof.
  unfold awf. induction l as [|x l IH]; cbn; intros Hnd Hin; [by apply elem_of_nil in Hin|].
  apply NoDup_cons in Hnd as [Hx Hnd]. apply elem_of_cons in Hin as [->|Hin].
  - by rewrite decide_True.
  - rewrite decide_False; auto. intros E. apply Hx. rewrite E.
    by apply list_elem_of_fmap_2.
Qed.

Lemma afind_app k l1 l2 :
  afind k (l1 ++ l2) = match afind k l1 with Some n => Some n | None => afind k l2 end.
Proof. induction l1 as [|x l1 IH]; cbn; [done|]. by case_decide. Qed.

Lemma afind_alter k f l :
  (forall n, getKey (f n) = getKey n) ->
  forall k', afind k' (aalter k f l) = if decide (k' = k) then f <$> afind k l else afind k' l.
Proof.
  intros Hf k'. induction l as [|x l IH]; cbn; [by case_decide|].
  destruct (decide (getKey x = k)) as [E|E]; cbn; rewrite ?Hf;
    destruct (decide (getKey x = k')) as [E'|E'], (decide (k' = k)) as [E2|E2];
    congruence.
Qed.

Lemma keys_alter k f l : (forall n, getKey (f n) = getKey n) -> keys (aalter k f l) = keys l.
Proof.
  intros Hf. induction l as [|x l IH]; cbn; [done|].
  case_decide; cbn; rewrite ?Hf; unfold keys in IH; congruence.
Qed.

Lemma length_aalter k f l : length (aalter k f l) = length l.
Proof. induction l as [|x l IH]; cbn; [done|]. case_decide; cbn; auto. Qed.

(** Setting: the element found afterwards. *)
Lemma afind_set k v l k' :
  afind k' (aset k v l) =
  if decide (k' = k)
  then Some (setValue (default (newElement k) (afind k l)) v)
  else afind k' l.
Proof.
  unfold aset. destruct (afind k l) as [n|] eqn:E; cbn.
  - rewrite afind_alter by (intros; apply getKey_setValue). rewrite E. by case_decide.
  - rewrite afind_app. case_decide as D; subst.
    + rewrite E. cbn. rewrite getKey_setValue, getKey_new. by rewrite decide_True.
    + cbn. rewrite getKey_setValue, getKey_new, decide_False by done.
      by destruct (afind k' l).
Qed.

Lemma keys_set k v l :
  keys (aset k v l) = if decide (k ∈ keys l) then keys l else keys l ++ [k].
Proof.
  unfold aset. destruct (afind k l) as [n|] eqn:E.
  - rewrite decide_True by (by eapply afind_Some_keys).
    by rewrite keys_alter by (intros; apply getKey_setValue).
  - apply afind_None in E. rewrite decide_False by done.
    unfold keys. rewrite fmap_app. cbn. by rewrite getKey_setValue, getKey_new.
Qed.

Lemma awf_set k v l : awf l -> awf (aset k v l).
Proof.
  unfold awf. rewrite keys_set. intros Hl. case_decide; [done|].
  apply NoDup_app. split; [done|]. split; [|apply NoDup_singleton].
  intros x Hx ->%list_elem_of_singleton. done.
Qed.

Lemma awf_alter k f l : (forall n, getKey (f n) = getKey n) -> awf l -> awf (aalter k f l).
Proof. unfold awf. intros Hf. by rewrite keys_alter. Qed.

Lemma aerase_notin k l : k ∉ keys l -> aerase k l = l.
Proof.
  induction l as [|x l IH]; cbn; [done|]. rewrite not_elem_of_cons. intros [Hx Hl].
  rewrite decide_False by congruence. by rewrite IH.
Qed.

Lemma keys_erase k l : awf l -> keys (aerase k l) = filter (fun x => x <> k) (keys l).
Proof.
  unfold awf. induction l as [|x l IH]; [done|]. intros Hnd.
  apply NoDup_cons in Hnd as [Hx Hnd]. cbn [aerase]. case_decide as D.
  - cbn. rewrite decide_False by tauto. subst.
    symmetry. by apply filter_notin.
  - cbn. rewrite decide_True by done. f_equal. by apply IH.
Qed.

Lemma awf_erase k l : awf l -> awf (aerase k l).
Proof. intros Hl. unfold awf. rewrite keys_erase by done. by apply NoDup_filter. Qed.

Lemma afind_erase k l k' :
  awf l -> afind k' (aerase k l) = if decide (k' = k) then None else afind k' l.
Proof.
  unfold awf. induction l as [|x l IH]; intros Hnd; [by case_decide|].
  apply NoDup_cons in Hnd as [Hx Hnd]. specialize (IH Hnd). cbn.
  destruct (decide (getKey x = k)) as [E|E].
  - case_decide as D; subst; [by apply afind_None|]. rewrite decide_False by congruence. done.
  - cbn. rewrite IH. repeat (case_decide; subst; try congruence); done.
Qed.

Lemma aalter_compose k (f g : N -> N) l :
  (forall n, getKey (f n) = getKey n) -> aalter k g (aalter k f l) = aalter k (fun n => g (f n)) l.
Proof.
  intros Hf. induction l as [|x l IH]; cbn; [done|].
  destruct (decide (getKey x = k)) as [E|E]; cbn; rewrite ?Hf.
  - by rewrite decide_True.
  - rewrite decide_False by done. by rewrite IH.
Qed.

Lemma aalter_ext k (f g : N -> N) l :
  (forall n, f n = g n) -> aalter k f l = aalter k g l.
Proof. intros Hf. induction l as [|x l IH]; cbn; [done|]. by rewrite Hf, IH. Qed.

Lemma aalter_app_new k f l n :
  afind k l = None -> getKey n = k -> aalter k f (l ++ [n]) = l ++ [f n].
Proof.
  intros Hl Hn. induction l as [|x l IH]; cbn in *; [by rewrite decide_True|].
  destruct (decide (getKey x = k)); [done|]. by rewrite IH.
Qed.

(** The second of two assignments to a key wins. *)
Lemma aset_aset k v w l : aset k w (aset k v l) = aset k w l.
Proof.
  unfold aset at 1. rewrite afind_set, decide_True by done. unfold aset.
  destruct (afind k l) as [n|] eqn:E.
  - rewrite aalter_compose by (intros; apply getKey_setValue).
    apply aalter_ext. intros. apply setValue_setValue.
  - rewrite aalter_app_new; [|done|by rewrite getKey_setValue, getKey_new].
    by rewrite setValue_setValue.
Qed.

Lemma aset_unchanged k v n l :
  afind k l = Some n -> setValue n v = n -> aset k v l = l.
Proof.
  intros E Hv. unfold aset. rewrite E.
  induction l as [|x l IH]; cbn in *; [done|]. case_decide; [|by rewrite IH].
  injection E as ->. by rewrite Hv.
Qed.
End alist.

#[export] Hint Resolve awf_set awf_alter awf_erase : karabo.
#[export] Hint Rewrite @getKey_new @getKey_setValue : karabo.

(** ** The container of the code *)

(** The pointer to an element of the std::map is represented by the key under which
    the map holds it: std::map never moves its elements. *)
Record OrderedMap (N : Type) := mkOrderedMap {
  m_listNodes : list string;
  m_mapNodes : gmap string N
}.
Arguments mkOrderedMap {N} _ _.
Arguments m_listNodes {N} _.
Arguments m_mapNodes {N} _.

Section container.
Context {V N : Type} `{MappedType V N}.
Implicit Types (m : OrderedMap N) (k : string) (v : V).

Definition om_empty : OrderedMap N := mkOrderedMap [] ∅.

Definition om_find m k : option N := m_mapNodes m !! k.
Definition om_has m k : bool := match om_find m k with Some _ => true | None => false end.
Definition om_size m : nat := size (m_mapNodes m).
Definition om_isEmpty m : bool := bool_decide (m_mapNodes m = ∅).
Definition om_clear m : OrderedMap N := om_empty.

(** The elements as the list iterators visit them. *)
Definition om_contents m : list N := omap (fun k => m_mapNodes m !! k) (m_listNodes m).

Definition om_set m k v : OrderedMap N :=
  match om_find m k with
  | Some node => mkOrderedMap (m_listNodes m) (<[k := setValue node v]> (m_mapNodes m))
  | None =>
      mkOrderedMap (m_listNodes m ++ [k]) (<[k := setValue (newElement k) v]> (m_mapNodes m))
  end.

(** erase(key): the number of erased elements. *)
Definition om_erase m k : OrderedMap N * nat :=
  match om_find m k with
  | Some _ =>
      (mkOrderedMap (filter (fun p => p <> k) (m_listNodes m)) (delete k (m_mapNodes m)), 1%nat)
  | None => (m, 0%nat)
  end.

Definition om_getNode m k : outcome N :=
  match om_find m k with
  | None => Throw ParameterException
  | Some n => Ret n
  end.

Definition om_is (m : OrderedMap N) k (t : ReferenceType) : outcome bool :=
  Throw NotSupportedException.

(** One step of the loop in the copy assignment: [find] of a missing key gives the
    end iterator, whose dereferenciation has no meaning. *)
Definition om_copy_step (other copy : OrderedMap N) (p : string) : outcome (OrderedMap N) :=
  match m_mapNodes other !! p with
  | None => Undef
  | Some n =>
      match om_find copy (getKey n) with
      | None => Undef
      | Some _ => Ret (mkOrderedMap (m_listNodes copy ++ [getKey n]) (m_mapNodes copy))
      end
  end.

(** operator=(const OrderedMap&) *)
Definition om_assign m other : outcome (OrderedMap N) :=
  if om_isEmpty other then Ret (om_clear m)
  else foldM (fun p copy => om_copy_step other copy p) (m_listNodes other)
         (mkOrderedMap [] (m_mapNodes other)).

(** operator=(OrderedMap&&): the new value and what is left in [other]. *)
Definition om_move_assign m other : OrderedMap N * OrderedMap N := (other, om_empty).

(** List and map hold the same elements, each under its own key. *)
Record om_inv m : Prop := {
  om_nodup : NoDup (m_listNodes m);
  om_dom k : k ∈ m_listNodes m <-> is_Some (m_mapNodes m !! k);
  om_key k n : m_mapNodes m !! k = Some n -> getKey n = k
}.

Lemma om_inv_empty : om_inv om_empty.
Proof.
  split; cbn.
  - apply NoDup_nil_2.
  - intros k. rewrite lookup_empty. split; [by intros ?%elem_of_nil|by intros [? ?]].
  - intros k n. by rewrite lookup_empty.
Qed.

(** The elements that a list of pointers refers to. *)
Definition deref (M : gmap string N) (l : list string) : list N := omap (fun k => M !! k) l.

Lemma keys_deref (M : gmap string N) l :
  (forall k, k ∈ l -> is_Some (M !! k)) ->
  (forall k n, M !! k = Some n -> getKey n = k) ->
  keys (deref M l) = l.
Proof.
  intros Hl Hk. unfold keys, deref. induction l as [|p l IH]; [done|].
  destruct (Hl p) as [n E]; [apply list_elem_of_here|].
  cbn. rewrite E. cbn. f_equal; [by apply Hk|]. apply IH.
  intros; apply Hl. by apply list_elem_of_further.
Qed.

Lemma afind_deref (M : gmap string N) l k :
  (forall k', k' ∈ l -> is_Some (M !! k')) ->
  (forall k n, M !! k = Some n -> getKey n = k) ->
  afind k (deref M l) = if decide (k ∈ l) then M !! k else None.
Proof.
  intros Hl Hk. unfold deref. induction l as [|p l IH].
  - rewrite decide_False by apply not_elem_of_nil. done.
  - destruct (Hl p) as [n E]; [apply list_elem_of_here|].
    cbn. rewrite E. cbn. rewrite (Hk _ _ E).
    destruct (decide (p = k)) as [D|D].
    + subst. rewrite decide_True by apply list_elem_of_here. done.
    + rewrite IH by (intros; apply Hl; by apply list_elem_of_further).
      destruct (decide (k ∈ l)) as [D'|D'].
      * rewrite decide_True by (by apply list_elem_of_further). done.
      * rewrite decide_False; [done|]. rewrite not_elem_of_cons. split; congruence.
Qed.

Lemma deref_insert_notin (M : gmap string N) l k n :
  k ∉ l -> deref (<[k := n]> M) l = deref M l.
Proof.
  unfold deref. induction l as [|p l IH]; [done|]. rewrite not_elem_of_cons. intros [Hp Hl].
  cbn. rewrite lookup_insert_ne by done. by rewrite IH.
Qed.

Lemma deref_delete_notin (M : gmap string N) l k :
  k ∉ l -> deref (delete k M) l = deref M l.
Proof.
  unfold deref. induction l as [|p l IH]; [done|]. rewrite not_elem_of_cons. intros [Hp Hl].
  cbn. rewrite lookup_delete_ne by done. by rewrite IH.
Qed.

Lemma om_contents_deref m : om_contents m = deref (m_mapNodes m) (m_listNodes m).
Proof. done. Qed.

Lemma om_keys m : om_inv m -> keys (om_contents m) = m_listNodes m.
Proof. intros [Hnd Hd Hk]. apply keys_deref; [apply Hd|done]. Qed.

Lemma om_contents_wf m : om_inv m -> awf (om_contents m).
Proof. intros Hm. unfold awf. rewrite om_keys by done. apply Hm. Qed.

Lemma om_find_contents m k : om_inv m -> afind k (om_contents m) = om_find m k.
Proof.
  intros [Hnd Hd Hk]. rewrite om_contents_deref, afind_deref; [|apply Hd|done].
  unfold om_find. case_decide as D; [done|].
  destruct (m_mapNodes m !! k) eqn:E; [|done]. destruct D. apply Hd. eauto.
Qed.

Lemma om_size_contents m : om_inv m -> om_size m = length (om_contents m).
Proof.
  intros Hm. rewrite <- (length_fmap getKey). fold (keys (om_contents m)).
  rewrite om_keys by done. destruct Hm as [Hnd Hd Hk].
  unfold om_size. rewrite <- size_dom, <- (size_list_to_set (C := gset string)) by done.
  f_equal. apply set_eq. intros k. by rewrite elem_of_dom, elem_of_list_to_set, Hd.
Qed.

(** ** Refinement *)

Lemma om_set_refines m k v :
  om_inv m ->
  om_inv (om_set m k v) /\ om_contents (om_set m k v) = aset k v (om_contents m).
Proof.
  intros Hm. pose proof Hm as [Hnd Hd Hk]. unfold om_set.
  pose proof (om_find_contents m k Hm) as Hf. unfold aset. rewrite Hf. unfold om_find in *.
  destruct (m_mapNodes m !! k) as [n|] eqn:E; cbn [om_contents]; split.
  - split; cbn; [done| |].
    + intros k'. rewrite Hd. destruct (decide (k' = k)) as [->|D].
      * rewrite lookup_insert_eq, E. by split.
      * by rewrite lookup_insert_ne.
    + intros k' n'. destruct (decide (k' = k)) as [->|D].
      * rewrite lookup_insert_eq. intros [= <-]. rewrite getKey_setValue. auto.
      * rewrite lookup_insert_ne by done. auto.
  - rewrite !om_contents_deref. cbn [m_mapNodes m_listNodes].
    assert (forall p, p ∈ m_listNodes m -> is_Some (m_mapNodes m !! p)) as Hl by apply Hd.
    clear Hd Hf Hm. revert Hl Hnd. induction (m_listNodes m) as [|p l IH]; intros Hl Hnd; [done|].
    apply NoDup_cons in Hnd as [Hp Hnd].
    specialize (IH ltac:(intros; apply Hl; by apply list_elem_of_further) Hnd).
    destruct (Hl p) as [np Ep]; [apply list_elem_of_here|].
    unfold deref in *. cbn. rewrite Ep. cbn [aalter]. rewrite (Hk _ _ Ep).
    destruct (decide (p = k)) as [->|D].
    + rewrite lookup_insert_eq. rewrite E in Ep. injection Ep as ->. f_equal.
      by apply deref_insert_notin.
    + rewrite lookup_insert_ne, Ep by done. by f_equal.
  - assert (k ∉ m_listNodes m) as Hn by (rewrite Hd, E; by intros [? ?]).
    split; cbn.
    + apply NoDup_app. split; [done|]. split; [|apply NoDup_singleton].
      by intros x Hx ->%list_elem_of_singleton.
    + intros k'. rewrite elem_of_app, list_elem_of_singleton, Hd.
      destruct (decide (k' = k)) as [->|D].
      * rewrite lookup_insert_eq. split; [eauto|auto].
      * rewrite lookup_insert_ne by done. split; [by intros [?|?]|auto].
    + intros k' n'. destruct (decide (k' = k)) as [->|D].
      * rewrite lookup_insert_eq. intros [= <-]. by rewrite getKey_setValue, getKey_new.
      * rewrite lookup_insert_ne by done. auto.
  - assert (k ∉ m_listNodes m) as Hn by (rewrite Hd, E; by intros [? ?]).
    rewrite !om_contents_deref. cbn [m_mapNodes m_listNodes]. unfold deref.
    rewrite omap_app. fold (deref (<[k:=setValue (newElement k) v]> (m_mapNodes m)) (m_listNodes m)).
    rewrite deref_insert_notin by done. cbn. by rewrite lookup_insert_eq.
Qed.

Lemma om_erase_refines m k :
  om_inv m ->
  om_inv (om_erase m k).1 /\ om_contents (om_erase m k).1 = aerase k (om_contents m) /\
  (om_erase m k).2 = (if ahas k (om_contents m) then 1 else 0)%nat.
Proof.
  intros Hm. pose proof Hm as [Hnd Hd Hk]. unfold om_erase, ahas.
  rewrite (om_find_contents m k Hm). unfold om_find.
  destruct (m_mapNodes m !! k) as [n|] eqn:E; cbn [fst snd].
  2:{ split; [done|]. split; [|done]. symmetry. apply aerase_notin. apply afind_None.
      by rewrite om_find_contents. }
  split; [|split; [|done]].
  - split; cbn; [by apply NoDup_filter| |].
    + intros k'. rewrite list_elem_of_filter, Hd. destruct (decide (k' = k)) as [->|D].
      * rewrite lookup_delete_eq. split; [tauto|by intros [? ?]].
      * rewrite lookup_delete_ne by done. tauto.
    + intros k' n'. destruct (decide (k' = k)) as [->|D].
      * by rewrite lookup_delete_eq.
      * rewrite lookup_delete_ne by done. auto.
  - rewrite !om_contents_deref. cbn [m_mapNodes m_listNodes].
    assert (forall p, p ∈ m_listNodes m -> is_Some (m_mapNodes m !! p)) as Hl by apply Hd.
    clear Hd Hm. revert Hl Hnd. induction (m_listNodes m) as [|p l IH]; intros Hl Hnd; [done|].
    apply NoDup_cons in Hnd as [Hp Hnd].
    specialize (IH ltac:(intros; apply Hl; by apply list_elem_of_further) Hnd).
    destruct (Hl p) as [np Ep]; [apply list_elem_of_here|].
    unfold deref in *. cbn [omap list_omap]. rewrite Ep. cbn [aerase]. rewrite (Hk _ _ Ep).
    destruct (decide (p = k)) as [->|D].
    + rewrite filter_cons_False by tauto. rewrite filter_notin by done.
      by apply deref_delete_notin.
    + rewrite filter_cons_True by done. cbn. rewrite lookup_delete_ne, Ep by done.
      by f_equal.
Qed.

Lemma om_assign_copy m other : om_inv other -> om_assign m other = Ret other.
Proof.
  intros [Hnd Hd Hk]. unfold om_assign, om_isEmpty. case_bool_decide as E.
  - destruct other as [l M]. cbn in *. subst M. unfold om_clear, om_empty.
    destruct l as [|p l]; [done|].
    destruct (proj1 (Hd p)) as [? C]; [apply list_elem_of_here|]. by rewrite lookup_empty in C.
  - assert (forall done rest, m_listNodes other = done ++ rest ->
      foldM (fun p copy => om_copy_step other copy p) rest
        (mkOrderedMap done (m_mapNodes other)) = Ret other) as G.
    { intros dn rest. revert dn. induction rest as [|p rest IH]; intros dn Hl; cbn.
      - destruct other as [l M]; cbn in *. by rewrite Hl, app_nil_r.
      - destruct (proj1 (Hd p)) as [n En]; [rewrite Hl; apply elem_of_app; right; apply list_elem_of_here|].
        unfold om_copy_step, om_find. cbn [m_mapNodes]. rewrite En, (Hk _ _ En), En. cbn.
        apply IH. by rewrite <- app_assoc. }
    by apply (G [] (m_listNodes other)).
Qed.

(** ** Sequences of calls *)

Inductive om_op : Type :=
| OpSet (k : string) (v : V)
| OpErase (k : string)
| OpClear
| OpAssignCopy.       (** [OrderedMap tmp(m); m = tmp;] *)

Definition om_step (op : om_op) m : outcome (OrderedMap N) :=
  match op with
  | OpSet k v => Ret (om_set m k v)
  | OpErase k => Ret (om_erase m k).1
  | OpClear => Ret (om_clear m)
  | OpAssignCopy => tmp ← om_assign om_empty m; om_assign m tmp
  end.

Definition alist_step (op : om_op) (l : list N) : list N :=
  match op with
  | OpSet k v => aset k v l
  | OpErase k => aerase k l
  | OpClear => []
  | OpAssignCopy => l
  end.

Lemma om_step_refines op m :
  om_inv m ->
  exists m', om_step op m = Ret m' /\ om_inv m' /\ om_contents m' = alist_step op (om_contents m).
Proof.
  intros Hm. destruct op as [k v|k| |]; cbn [om_step alist_step].
  - eexists; split; [done|]. by apply om_set_refines.
  - eexists; split; [done|]. destruct (om_erase_refines m k Hm) as (? & ? & ?). done.
  - eexists; split; [done|]. split; [apply om_inv_empty|done].
  - rewrite om_assign_copy by done. cbn. rewrite om_assign_copy by done. eauto.
Qed.

(** C20: a container filled by any sequence of set, erase, clear and copy
    assignment behaves as an insertion-ordered list of elements with unique keys:
    no operation meets a dangling pointer, the elements and their order are those
    of the list, and [find], [has] and [size] on the std::map agree with it. *)
Theorem ordered_map_refines_list (ops : list om_op) :
  exists m, foldM om_step ops om_empty = Ret m /\
    let l := foldl (fun l op => alist_step op l) [] ops in
    om_contents m = l /\ awf l /\
    om_size m = length l /\
    (forall k, om_find m k = afind k l) /\
    (forall k, om_has m k = ahas k l) /\
    (forall k, (om_erase m k).2 = (if ahas k l then 1 else 0)%nat).
Proof.
  assert (forall ops m, om_inv m -> exists m', foldM om_step ops m = Ret m' /\ om_inv m' /\
    om_contents m' = foldl (fun l op => alist_step op l) (om_contents m) ops) as G.
  { clear ops. induction ops as [|op ops IH]; intros m Hm; cbn; [eauto|].
    destruct (om_step_refines op m Hm) as (m1 & -> & Hm1 & <-). cbn. auto. }
  destruct (G ops om_empty om_inv_empty) as (m & Em & Hm & Ec).
  change (om_contents om_empty) with (@nil N) in Ec.
  exists m. split; [done|]. cbn zeta. rewrite <- Ec.
  split; [done|]. split; [by apply om_contents_wf|]. split; [by apply om_size_contents|].
  split; [intros; by rewrite om_find_contents|].
  split; [intros k; unfold om_has, ahas; by rewrite om_find_contents|].
  intros k. by apply om_erase_refines.
Qed.
End container.
