(* ===== verification/Hash.v ===== *)
(** The data of a Hash: std::any values, attributes, nodes (data/types/Element.hh) and
    the Hash itself (data/types/Hash.hh), a container of nodes in insertion order. *)

From Stdlib Require Import ZArith Lia Ascii String.
From stdpp Require Import base numbers list strings gmap.
From S2P Require Import Prelude Types Strings OrderedMap.
Import Types.

Open Scope Z_scope.

(** ** Data *)

(** Plain numeric C++ types that a std::any may hold, and the complex ones. *)
Inductive pod : Type :=
| PChar | PInt8 | PUInt8 | PInt16 | PUInt16 | PInt32 | PUInt32 | PInt64 | PUInt64
| PFloat | PDouble.

Inductive cpx : Type := CFloat | CDouble.

#[export] Instance pod_eq_dec : EqDecision pod.
Proof. solve_decision. Defined.
#[export] Instance cpx_eq_dec : EqDecision cpx.
Proof. solve_decision. Defined.

(** Element<string, ...>: key, attributes and value.  The attributes are an
    OrderedMap<string, Element<string, bool>>, of which only key and value matter. *)
Record node_ (V : Type) := mkNode {
  nKey : string;
  nAttrs : list (string * V);
  nVal : V
}.
Arguments mkNode {V} _ _ _.
Arguments nKey {V} _.
Arguments nAttrs {V} _.
Arguments nVal {V} _.

(** The content of a std::any.  A number is kept as the unsigned integer of its object
    representation (so a float is its IEEE bit pattern).  A shared pointer to a Hash is
    represented by its pointee, [None] for a null pointer.  [VOther n] stands for
    the values of a type [Tother n], which the modelled code only asks for their type;
    [VOther 0] is the empty std::any. *)
#[warnings="-register-all"] Inductive value : Type :=
| VBool (b : bool)
| VPod (t : pod) (bits : Z)
| VComplex (t : cpx) (re im : Z)
| VString (s : string)
| VNone
| VByteArray (b : bytes)
| VVecBool (l : list bool)
| VVecPod (t : pod) (l : list Z)
| VVecComplex (t : cpx) (l : list (Z * Z))
| VVecString (l : list string)
| VVecNone (n : nat)
| VHash (h : list (node_ value))
| VVecHash (l : list (list (node_ value)))
| VHashPtr (p : option (list (node_ value)))
| VVecHashPtr (l : list (option (list (node_ value))))
| VSchema (rootName : string) (h : list (node_ value))
| VVecSchema (l : list (string * list (node_ value)))
| VOther (n : nat).

Abbreviation node := (node_ value).
Abbreviation attributes := (list (string * value)).
(** The Hash: its nodes in insertion order. *)
Abbreviation hash := (list node).

#[export] Instance node_mapped : MappedType value node := {
  newElement k := mkNode k [] (VOther 0);
  getKey := nKey;
  setValue n v := mkNode (nKey n) (nAttrs n) v;
  getKey_new _ := eq_refl;
  getKey_setValue _ _ := eq_refl;
  setValue_setValue _ _ _ := eq_refl
}.

#[export] Instance attribute_mapped : MappedType value (string * value) := {
  newElement k := (k, VOther 0);
  getKey := fst;
  setValue n v := (n.1, v);
  getKey_new _ := eq_refl;
  getKey_setValue _ _ := eq_refl;
  setValue_setValue _ _ _ := eq_refl
}.

(** ** Types of values: Element::getType, FromTypeInfo *)

Definition pod_scalar (t : pod) : scalar :=
  match t with
  | PChar => char_ | PInt8 => signed_char | PUInt8 => unsigned_char
  | PInt16 => short_ | PUInt16 => unsigned_short | PInt32 => int_ | PUInt32 => unsigned_int
  | PInt64 => long_long | PUInt64 => unsigned_long_long | PFloat => float_ | PDouble => double_
  end.
Definition cpx_scalar (t : cpx) : scalar :=
  match t with CFloat => complex_float | CDouble => complex_double end.

(** std::any::type() *)
Definition type (v : value) : type_info :=
  match v with
  | VBool _ => Tscalar bool_
  | VPod t _ => Tscalar (pod_scalar t)
  | VComplex t _ _ => Tscalar (cpx_scalar t)
  | VString _ => Tscalar string_
  | VNone => Tscalar CppNone
  | VByteArray _ => TByteArray
  | VVecBool _ => Tvector bool_
  | VVecPod t _ => Tvector (pod_scalar t)
  | VVecComplex t _ => Tvector (cpx_scalar t)
  | VVecString _ => Tvector string_
  | VVecNone _ => Tvector CppNone
  | VHash _ => Tscalar Hash_
  | VVecHash _ => Tvector Hash_
  | VHashPtr _ => THashPointer
  | VVecHashPtr _ => TvectorHashPointer
  | VSchema _ _ => Tscalar Schema_
  | VVecSchema _ => Tvector Schema_
  | VOther n => Tother n
  end.

Definition type_of (v : value) : ReferenceType := fromTypeInfo (type v).
Definition getType (n : node) : ReferenceType := type_of (nVal n).

(** Element::is<Hash>() and is<std::vector<Hash>>() *)
Definition is_Hash (v : value) : bool := match v with VHash _ => true | _ => false end.
Definition is_vector_Hash (v : value) : bool := match v with VVecHash _ => true | _ => false end.

(** Element::getValue<Hash>(), getValue<std::vector<Hash>>() and, for the type [t],
    getValue<T>(): the exception of a type mismatch is a CastException. *)
Definition getValue_Hash (v : value) : outcome hash :=
  match v with VHash h => Ret h | _ => Throw CastException end.
Definition getValue_vector_Hash (v : value) : outcome (list hash) :=
  match v with VVecHash l => Ret l | _ => Throw CastException end.
Definition getValue (t : type_info) (v : value) : outcome value :=
  if decide (type v = t) then Ret v else Throw CastException.
Definition is_type (t : type_info) (v : value) : bool := bool_decide (type v = t).

(** KARABO_HASH_CLASS_ID: marks a Hash value that was an instance of a class derived
    from Hash. *)
Definition KARABO_HASH_CLASS_ID : string := "__classId".

Definition setAttributes (a : attributes) (n : node) : node := mkNode (nKey n) a (nVal n).
Definition setAttribute (k : string) (v : value) (n : node) : node :=
  mkNode (nKey n) (aset k v (nAttrs n)) (nVal n).
Definition hasAttribute (k : string) (n : node) : bool := ahas k (nAttrs n).
Definition getAttributeAsAny (k : string) (n : node) : outcome value :=
  match afind k (nAttrs n) with Some a => Ret a.2 | None => Throw ParameterException end.
Definition getAttribute (t : type_info) (k : string) (n : node) : outcome value :=
  v ← getAttributeAsAny k n; getValue t v.

(** ** Induction *)

(** The values in the nodes of a Hash and in their attributes. *)
Definition node_values (n : node) : list value := nVal n :: map snd (nAttrs n).
Definition hash_values (h : hash) : list value := flat_map node_values h.

Definition children (v : value) : list value :=
  match v with
  | VHash h | VHashPtr (Some h) | VSchema _ h => hash_values h
  | VVecHash l => flat_map hash_values l
  | VVecHashPtr l => flat_map (fun p => match p with Some h => hash_values h | None => [] end) l
  | VVecSchema l => flat_map (fun s => hash_values s.2) l
  | _ => []
  end.

Section induction.
Context (P : value -> Prop).
Context (step : forall v, (forall c, In c (children v) -> P c) -> P v).

Lemma In_nil_P (c : value) : In c [] -> P c.
Proof. intros []. Qed.

Lemma In_app_P (l1 l2 : list value) :
  (forall c, In c l1 -> P c) -> (forall c, In c l2 -> P c) -> forall c, In c (l1 ++ l2) -> P c.
Proof. intros H1 H2 c Hc. apply in_app_or in Hc as [?|?]; auto. Qed.

Lemma In_cons_P (v : value) (l : list value) :
  P v -> (forall c, In c l -> P c) -> forall c, In c (v :: l) -> P c.
Proof. intros Hv Hl c [<-|?]; auto. Qed.

Fixpoint value_children_ind (v : value) : P v.
Proof.
  assert (forall h c, In c (hash_values h) -> P c) as Hh.
  { fix IHh 1. intros [|n h]; [exact In_nil_P|]. cbn [hash_values flat_map].
    apply In_app_P; [|exact (IHh h)]. destruct n as [k a x]. unfold node_values. cbn.
    apply In_cons_P; [apply value_children_ind|].
    induction a as [|[ak av] a IHa]; [exact In_nil_P|]. cbn.
    apply In_cons_P; [apply value_children_ind|exact IHa]. }
  apply step. destruct v; try exact In_nil_P; cbn [children].
  - apply Hh.
  - induction l as [|x l IHl]; [exact In_nil_P|]. cbn. apply In_app_P; [apply Hh|exact IHl].
  - destruct p; [apply Hh|exact In_nil_P].
  - induction l as [|x l IHl]; [exact In_nil_P|]. cbn.
    apply In_app_P; [|exact IHl]. destruct x; [apply Hh|exact In_nil_P].
  - apply Hh.
  - induction l as [|x l IHl]; [exact In_nil_P|]. cbn.
    apply In_app_P; [|exact IHl]. destruct x; apply Hh.
Defined.
End induction.
