(* ===== verification/HashAccess.v ===== *)
(** Access to a Hash by path (data/types/Hash.hh, Hash.cc): set, get, has, is, find,
    erase.  A call that changes the Hash returns the new Hash beside its outcome, since
    what was changed before an exception stays changed. *)

From Stdlib Require Import ZArith Lia Ascii String.
From stdpp Require Import base numbers list strings gmap.
From S2P Require Import Prelude Types Strings OrderedMap Hash.
Import Types.

Open Scope Z_scope.

(** k_defaultSep *)
Definition k_defaultSep : ascii := ".".

(** ** Pointers into a Hash *)

(** A [Hash*] into a Hash: for each level the key of a node, and the index when the
    node holds a vector of Hashes. *)
Abbreviation step := (string * option nat)%type.
Abbreviation hash_ptr := (list step).

(** The Hash that a value holds at an optional index. *)
Definition sub_hash (i : option nat) (v : value) : option hash :=
  match i, v with
  | None, VHash h => Some h
  | Some i, VVecHash l => l !! i
  | _, _ => None
  end.

Definition sub_alter (i : option nat) (f : hash -> hash) (v : value) : value :=
  match i, v with
  | None, VHash h => VHash (f h)
  | Some i, VVecHash l => VVecHash (alter f i l)
  | _, _ => v
  end.

(** [*p] for a pointer into the Hash [h]. *)
Fixpoint hash_at (p : hash_ptr) (h : hash) : option hash :=
  match p with
  | [] => Some h
  | (k, i) :: p' =>
      match afind k h with
      | Some n => match sub_hash i (nVal n) with
                  | Some h' => hash_at p' h'
                  | None => None
                  end
      | None => None
      end
  end.

(** Changes the Hash that [p] points to. *)
Fixpoint hash_alter (p : hash_ptr) (f : hash -> hash) (h : hash) : hash :=
  match p with
  | [] => f h
  | (k, i) :: p' =>
      aalter k (fun n => setValue n (sub_alter i (hash_alter p' f) (nVal n))) h
  end.

(** ** Looking up *)

(** [hashVec[index]] after the test [static_cast<unsigned int>(index) >= size], whose
    success is [None].  (A negative index passes the test when there are more than
    2^31 elements.) *)
Definition vector_at {A} (index : Z) (l : list A) : outcome (option A) :=
  if Z.of_nat (length l) <=? u32 index then Ret None
  else if index <? 0 then Undef
  else Ret (l !! Z.to_nat index).

Definition extend_ptr (s : step) (r : option (hash_ptr * string)) : option (hash_ptr * string) :=
  match r with Some (p, lastKey) => Some (s :: p, lastKey) | None => None end.

(** The Hash that a node with value [v] holds at a parsed index: itself, or an element
    of a vector. *)
Definition child (index : Z) (v : value) : outcome (option (option nat * hash)) :=
  if index =? -1 then
    match v with
    | VHash h => Ret (Some (None, h))
    | _ => Ret None
    end
  else
    match v with
    | VVecHash hashVec =>
        h ← vector_at index hashVec;
        Ret (match h with Some h => Some (Some (Z.to_nat index), h) | None => None end)
    | _ => Ret None
    end.

(** Hash::getLastHashPtr: [None] is the null pointer, the string is [lastKey]. *)
Fixpoint getLastHashPtr_loop (tokens : list string) (tmp : hash)
  : outcome (option (hash_ptr * string)) :=
  match tokens with
  | [] => Undef
  | [lastKey] => Ret (Some ([], lastKey))
  | token :: tokens' =>
      '(index, token) ← getAndCropIndex token;
      match afind token tmp with
      | None => Ret None
      | Some n =>
          c ← child index (nVal n);
          match c with
          | None => Ret None
          | Some (i, h) => r ← getLastHashPtr_loop tokens' h; Ret (extend_ptr (token, i) r)
          end
      end
  end.

Definition getLastHashPtr (path : string) (separator : ascii) (this : hash)
  : outcome (option (hash_ptr * string)) :=
  getLastHashPtr_loop (tokenize path separator) this.

(** [*p] where the code has just obtained [p]. *)
Definition deref_hash (p : hash_ptr) (this : hash) : outcome hash :=
  match hash_at p this with Some h => Ret h | None => Undef end.

(** Hash::getLastHash: the Hash and the last key. *)
Definition getLastHash (path : string) (separator : ascii) (this : hash) : outcome (hash * string) :=
  r ← getLastHashPtr path separator this;
  match r with
  | None => Throw ParameterException
  | Some (p, lastKey) => h ← deref_hash p this; Ret (h, lastKey)
  end.

(** OrderedMap::getNode, ::get<T> *)
Definition container_getNode (key : string) (h : hash) : outcome node :=
  match afind key h with None => Throw ParameterException | Some n => Ret n end.

Definition has (path : string) (separator : ascii) (this : hash) : outcome bool :=
  r ← getLastHashPtr path separator this;
  match r with
  | None => Ret false
  | Some (p, key) =>
      h ← deref_hash p this;
      '(index, key) ← getAndCropIndex key;
      if negb (ahas key h) then Ret false
      else if index =? -1 then Ret true
      else n ← container_getNode key h;
           l ← getValue_vector_Hash (nVal n);
           Ret (u32 index <? Z.of_nat (length l))
  end.

Definition getNode (path : string) (separator : ascii) (this : hash) : outcome node :=
  '(h, key) ← getLastHash path separator this;
  '(index, key) ← getAndCropIndex key;
  if index =? -1 then container_getNode key h else Throw LogicException.

Definition find (path : string) (separator : ascii) (this : hash)
  : outcome (option (hash_ptr * string)) :=
  r ← getLastHashPtr path separator this;
  match r with
  | None => Ret None
  | Some (p, key) =>
      h ← deref_hash p this;
      '(index, key) ← getAndCropIndex key;
      if index =? -1 then
        match afind key h with
        | Some _ => Ret (Some (p, key))
        | None => Ret None
        end
      else Ret None
  end.

(** Hash::getType(path) *)
Definition getType_path (path : string) (separator : ascii) (this : hash) : outcome ReferenceType :=
  '(index, tmp) ← getAndCropIndex path;
  if index =? -1 then n ← getNode tmp separator this; Ret (getType n)
  else Ret HASH.

(** Hash::is<T>(path) *)
Definition is_T (t : type_info) (path : string) (separator : ascii) (this : hash) : outcome bool :=
  '(index, tmp) ← getAndCropIndex path;
  if index =? -1 then n ← getNode tmp separator this; Ret (is_type t (nVal n))
  else
    n ← getNode tmp separator this;
    hashVec ← getValue_vector_Hash (nVal n);
    if Z.of_nat (length hashVec) <=? u64 index then Throw ParameterException
    else Ret (bool_decide (Tscalar Hash_ = t)).

(** Hash::is(path, ReferenceType) *)
Definition is_ReferenceType (path : string) (t : ReferenceType) (separator : ascii) (this : hash)
  : outcome bool :=
  '(h, key) ← getLastHash path separator this;
  '(index, key) ← getAndCropIndex key;
  if index =? -1 then Throw NotSupportedException
  else
    n ← container_getNode key h;
    hashVec ← getValue_vector_Hash (nVal n);
    if Z.of_nat (length hashVec) <=? u32 index then Throw ParameterException
    else Ret true.

(** Hash::get<T>(path) for a type other than Hash *)
Definition get (t : type_info) (path : string) (separator : ascii) (this : hash) : outcome value :=
  n ← getNode path separator this; getValue t (nVal n).

(** Hash::get<Hash>(path) *)
Definition get_Hash (path : string) (separator : ascii) (this : hash) : outcome hash :=
  '(h, key) ← getLastHash path separator this;
  '(index, key) ← getAndCropIndex key;
  n ← container_getNode key h;
  if index =? -1 then getValue_Hash (nVal n)
  else
    hashVec ← getValue_vector_Hash (nVal n);
    h ← vector_at index hashVec;
    match h with Some h => Ret h | None => Throw ParameterException end.

(** ** Changing *)

(** A new Hash with the outcome of the call. *)
Abbreviation effect A := (hash * outcome A)%type.

(** [std::vector<Hash>(index + 1)]: the argument is a [size_t]. *)
Definition new_vector (index : Z) : outcome (list hash) :=
  if 2 ^ 31 <=? index + 1 then Undef
  else if index + 1 <? 0 then Throw LengthError
  else Ret (replicate (Z.to_nat (index + 1)) []).

(** [if (static_cast<int>(hashes.size()) <= index) hashes.resize(index + 1);] and
    [&hashes[index]] (or [index >= ...] in setHash). *)
Definition grow_vector (index : Z) (hashes : list hash) : outcome (list hash) :=
  if to_signed 32 (Z.of_nat (length hashes)) <=? index then
    if 2 ^ 31 <=? index + 1 then Undef
    else if index + 1 <? 0 then Throw LengthError
    else Ret (take (Z.to_nat (index + 1)) hashes
              ++ replicate (Z.to_nat (index + 1) - length hashes) [])
  else if index <? 0 then Undef
  else Ret hashes.

(** Node [token] of [tmp], with [v] as value from now on (a new node if need be). *)
Definition container_set (token : string) (v : value) (tmp : hash) : hash := aset token v tmp.

(** Continues with the result of an evaluation that does not change the Hash. *)
Definition eval {A B} (x : outcome A) (tmp : hash) (f : A -> effect B) : effect B :=
  match x with
  | Ret a => f a
  | Throw e => (tmp, Throw e)
  | Undef => (tmp, Undef)
  | OutOfFuel => (tmp, OutOfFuel)
  end.

(** One token of Hash::setNodesAsNeeded: the node is there afterwards and holds a Hash
    (or a vector with an element [index]), to which the result points. *)
Definition setNodeAsNeeded (token : string) (tmp : hash) : effect step :=
  eval (getAndCropIndex token) tmp (fun '(index, token) =>
    if index =? -1 then
      match afind token tmp with
      | Some n =>
          if is_Hash (nVal n) then (tmp, Ret (token, None))
          else (container_set token (VHash []) tmp, Ret (token, None))
      | None => (container_set token (VHash []) tmp, Ret (token, None))
      end
    else
      match afind token tmp with
      | Some n =>
          match nVal n with
          | VVecHash hashes =>
              eval (grow_vector index hashes) tmp (fun hashes =>
                (container_set token (VVecHash hashes) tmp, Ret (token, Some (Z.to_nat index))))
          | _ =>
              eval (new_vector index) tmp (fun hashes =>
                let tmp' := container_set token (VVecHash hashes) tmp in
                eval (grow_vector index hashes) tmp' (fun hashes' =>
                  (container_set token (VVecHash hashes') tmp', Ret (token, Some (Z.to_nat index)))))
          end
      | None =>
          eval (new_vector index) tmp (fun hashes =>
            let tmp' := container_set token (VVecHash hashes) tmp in
            (tmp', if index <? 0 then Undef else Ret (token, Some (Z.to_nat index))))
      end).

(** Hash::setNodesAsNeeded: for all tokens but the last one. *)
Fixpoint setNodesAsNeeded (tokens : list string) (tmp : hash) : effect hash_ptr :=
  match tokens with
  | [] => (tmp, Undef)
  | [_] => (tmp, Ret [])
  | token :: tokens' =>
      let '(tmp, s) := setNodeAsNeeded token tmp in
      eval s tmp (fun s =>
        eval (deref_hash [s] tmp) tmp (fun h =>
          let '(h, p) := setNodesAsNeeded tokens' h in
          (hash_alter [s] (fun _ => h) tmp, cons s <$> p)))
  end.

(** Runs an operation on the Hash that [p] points to. *)
Definition on_hash {A} (p : hash_ptr) (this : hash) (f : hash -> effect A) : effect A :=
  eval (deref_hash p this) this (fun h =>
    let '(h, r) := f h in (hash_alter p (fun _ => h) this, r)).

(** [tokens.back()], the tokens being the result of tokenize. *)
Definition back (tokens : list string) : outcome string :=
  match last tokens with Some t => Ret t | None => Undef end.

(** A [Node*] into a Hash: where it is and its key. *)
Abbreviation node_ptr := (hash_ptr * string)%type.

(** Hash::set for a value that is not a Hash (or a std::any). *)
Definition set (path : string) (v : value) (separator : ascii) (this : hash) : effect node_ptr :=
  let tokens := tokenize path separator in
  let '(this, leaf) := setNodesAsNeeded tokens this in
  eval leaf this (fun leaf =>
    eval (back tokens) this (fun token =>
      eval (getAndCropIndex token) this (fun '(index, token) =>
        if index =? -1 then
          on_hash leaf this (fun h => (container_set token v h, Ret (leaf, token)))
        else (this, Throw NotSupportedException)))).

(** The leaf part of Hash::setHash. *)
Definition setHash_leaf (index : Z) (token : string) (hashValue : hash) (h : hash) : effect unit :=
  if index =? -1 then (container_set token (VHash hashValue) h, Ret tt)
  else
    match afind token h with
    | Some n =>
        match nVal n with
        | VVecHash hashes =>
            eval (grow_vector index hashes) h (fun hashes =>
              (container_set token (VVecHash (<[Z.to_nat index := hashValue]> hashes)) h, Ret tt))
        | _ =>
            eval (new_vector index) h (fun hashes =>
              if index <? 0 then (h, Undef)
              else (container_set token (VVecHash (<[Z.to_nat index := hashValue]> hashes)) h, Ret tt))
        end
    | None =>
        eval (new_vector index) h (fun hashes =>
          if index <? 0 then (h, Undef)
          else (container_set token (VVecHash (<[Z.to_nat index := hashValue]> hashes)) h, Ret tt))
    end.

(** Hash::setHash, which Hash::set is for a Hash. *)
Definition setHash (path : string) (hashValue : hash) (separator : ascii) (this : hash)
  : effect node_ptr :=
  let tokens := tokenize path separator in
  let '(this, leaf) := setNodesAsNeeded tokens this in
  eval leaf this (fun leaf =>
    eval (back tokens) this (fun token =>
      eval (getAndCropIndex token) this (fun '(index, token) =>
        on_hash leaf this (fun h =>
          let '(h, r) := setHash_leaf index token hashValue h in (h, (fun _ => (leaf, token)) <$> r))))).

(** Changes the node that [p] points to. *)
Definition node_alter (p : node_ptr) (f : node -> node) (this : hash) : hash :=
  hash_alter p.1 (aalter p.2 f) this.

Definition node_at (p : node_ptr) (this : hash) : option node :=
  match hash_at p.1 this with Some h => afind p.2 h | None => None end.

(** Hash::setNode *)
Definition setNode (srcElement : node) (this : hash) : effect node_ptr :=
  let '(this, el) := set (nKey srcElement) (nVal srcElement) k_defaultSep this in
  eval el this (fun el =>
    (node_alter el (setAttributes (nAttrs srcElement)) this, Ret el)).

(** Hash::setAttributes(path, attributes); the node is looked up as by getNode. *)
Definition setAttributes_path (path : string) (a : attributes) (separator : ascii) (this : hash)
  : effect unit :=
  eval (getLastHashPtr path separator this) this (fun r =>
    match r with
    | None => (this, Throw ParameterException)
    | Some (p, key) =>
        eval (getAndCropIndex key) this (fun '(index, key) =>
          if index =? -1 then
            match node_at (p, key) this with
            | Some _ => (node_alter (p, key) (setAttributes a) this, Ret tt)
            | None => (this, Throw ParameterException)
            end
          else (this, Throw LogicException))
    end).

(** Hash::erase(path): whether something was erased. *)
Definition erase (path : string) (separator : ascii) (this : hash) : effect bool :=
  eval (getLastHashPtr path separator this) this (fun r =>
    match r with
    | None => (this, Ret false)
    | Some (p, key) =>
        eval (getAndCropIndex key) this (fun '(index, key) =>
          on_hash p this (fun h =>
            if index =? -1 then (aerase key h, Ret (ahas key h))
            else
              match afind key h with
              | None => (h, Ret false)
              | Some n =>
                  eval (getValue_vector_Hash (nVal n)) h (fun vect =>
                    eval (vector_at index vect) h (fun e =>
                      match e with
                      | None => (h, Ret false)
                      | Some _ =>
                          (container_set key (VVecHash (delete (Z.to_nat index) vect)) h, Ret true)
                      end))
              end))
    end).

(** concat: the first [len] tokens joined; the test of the loop is [i < len - 1] on
    [size_t], with [i < len]. *)
Fixpoint concat_tokens (vec : list string) (len : nat) (sep : string) : string :=
  match len, vec with
  | O, _ | _, [] => ""
  | S O, t :: _ => t
  | S len', t :: vec' => t +:+ sep +:+ concat_tokens vec' len' sep
  end.

(** [(is<Hash>(thePath) && !get<Hash>(thePath).empty()) || (is<std::vector<Hash>>(thePath)
    && !get<std::vector<Hash>>(thePath).empty())] *)
Definition holds_hashes (thePath : string) (separator : ascii) (this : hash) : outcome bool :=
  isHash ← is_T (Tscalar Hash_) thePath separator this;
  full ← (if isHash : bool then h ← get_Hash thePath separator this; Ret (negb (bool_decide (h = [])))
          else Ret false);
  if full : bool then Ret true
  else
    isVec ← is_T (Tvector Hash_) thePath separator this;
    if isVec : bool then
      v ← get (Tvector Hash_) thePath separator this;
      l ← getValue_vector_Hash v;
      Ret (negb (bool_decide (l = [])))
    else Ret false.

(** The loop of Hash::erasePath; [length] counts the tokens of [thePath]. *)
Fixpoint erasePath_loop (tokens : list string) (length : nat) (thePath : string)
    (separator : ascii) (this : hash) : effect unit :=
  let sep := String separator "" in
  (* the end of one round: test whether something is left at [thePath] *)
  let continue (length : nat) (thePath : string) (this : hash)
      (loop : hash -> effect unit) : effect unit :=
    eval (holds_hashes thePath separator this) this (fun stop : bool =>
      if stop then (this, Ret tt) else loop this) in
  match length with
  | O => (this, Ret tt)
  | S length' =>
      eval (getLastHashPtr thePath separator this) this (fun r =>
        match r with
        | None => (this, Ret tt)
        | Some (p, key) =>
            eval (deref_hash p this) this (fun h =>
              eval (getAndCropIndex key) this (fun '(index, key) =>
                if index =? -1 then
                  let this := hash_alter p (aerase key) this in
                  let thePath := concat_tokens tokens length' sep in
                  match length' with
                  | O => (this, Ret tt)
                  | _ => continue length' thePath this
                           (erasePath_loop tokens length' thePath separator)
                  end
                else
                  match afind key h with
                  | None => (this, Ret tt)
                  | Some n =>
                      eval (getValue_vector_Hash (nVal n)) this (fun vect =>
                        eval (vector_at index vect) this (fun e =>
                          let vect := match e with
                                      | Some _ => delete (Z.to_nat index) vect
                                      | None => vect
                                      end in
                          let this := hash_alter p (container_set key (VVecHash vect)) this in
                          if negb (bool_decide (vect = [])) then (this, Ret tt)
                          else
                            let thePath := concat_tokens tokens length' sep in
                            match length' with
                            | O => let '(this, r) := erase key separator this in
                                   (this, (fun _ => tt) <$> r)
                            | _ =>
                                let '(this, r) := erase (thePath +:+ sep +:+ key) separator this in
                                eval r this (fun _ =>
                                  continue length' thePath this
                                    (erasePath_loop tokens length' thePath separator))
                            end))
                  end))
        end)
  end.

(** Hash::erasePath: exceptions of karabo come out as ParameterException. *)
Definition erasePath (path : string) (separator : ascii) (this : hash) : effect unit :=
  let tokens := tokenize path separator in
  let '(this, r) := erasePath_loop tokens (length tokens) path separator this in
  (this, rethrow_as ParameterException r).

(** ** Pointers *)

Lemma sub_hash_alter (i : option nat) (f : hash -> hash) (v : value) :
  sub_hash i (sub_alter i f v) = f <$> sub_hash i v.
Proof.
  destruct i as [i|], v; try done. cbn. rewrite list_lookup_alter_eq. done.
Qed.

Lemma type_sub_alter (i : option nat) (f : hash -> hash) (v : value) :
  type (sub_alter i f v) = type v.
Proof. by destruct i as [i|], v. Qed.

Lemma hash_at_alter (p : hash_ptr) (f : hash -> hash) (h : hash) :
  hash_at p (hash_alter p f h) = f <$> hash_at p h.
Proof.
  revert h. induction p as [|[k i] p IH]; intros h; [done|]. cbn [hash_at hash_alter].
  rewrite afind_alter by done. rewrite decide_True by done.
  destruct (afind k h) as [n|]; [|done]. cbn. rewrite sub_hash_alter.
  destruct (sub_hash i (nVal n)); cbn; auto.
Qed.

Lemma hash_at_app (p q : hash_ptr) (h : hash) :
  hash_at (p ++ q) h = (hash_at p h ≫= hash_at q).
Proof.
  revert h. induction p as [|[k i] p IH]; intros h; [done|]. cbn.
  destruct (afind k h) as [n|]; [|done]. destruct (sub_hash i (nVal n)); [apply IH|done].
Qed.

Lemma vector_at_Some {A} (index : Z) (l : list A) (x : A) :
  vector_at index l = Ret (Some x) -> 0 <= index /\ l !! Z.to_nat index = Some x.
Proof.
  unfold vector_at. destruct (Z.of_nat (length l) <=? u32 index); [done|].
  destruct (Z.ltb_spec index 0); [done|]. by intros [= ->].
Qed.

Lemma vector_at_lookup {A} (index : Z) (l : list A) (x : A) :
  0 <= index < 2 ^ 32 -> l !! Z.to_nat index = Some x -> vector_at index l = Ret (Some x).
Proof.
  intros Hi Hx. pose proof (lookup_lt_Some _ _ _ Hx). unfold vector_at, u32.
  rewrite wrap_small by lia. destruct (Z.leb_spec (Z.of_nat (length l)) index); [lia|].
  destruct (Z.ltb_spec index 0); [lia|]. by rewrite Hx.
Qed.

Definition step_index (index : Z) : option nat :=
  if index =? -1 then None else Some (Z.to_nat index).

Lemma child_Some (index : Z) (v : value) (i : option nat) (h : hash) :
  child index v = Ret (Some (i, h)) ->
  i = step_index index /\ sub_hash i v = Some h /\ (index = -1 \/ 0 <= index).
Proof.
  unfold child, step_index. destruct (Z.eqb_spec index (-1)) as [E|E].
  - destruct v; try done. intros [= <- <-]. auto.
  - destruct v; try done. intros Hc. outcome_inv. destruct a as [x|]; [|done].
    simplify_eq. apply vector_at_Some in Ha as [? ?]. auto.
Qed.

Lemma child_sub_hash (index : Z) (v : value) (h : hash) :
  index = -1 \/ 0 <= index < 2 ^ 32 ->
  sub_hash (step_index index) v = Some h -> child index v = Ret (Some (step_index index, h)).
Proof.
  unfold child, step_index. intros Hi. destruct (Z.eqb_spec index (-1)) as [E|E].
  - destruct v; try done. by intros [= ->].
  - destruct v; try done. cbn. intros Hl. by rewrite (vector_at_lookup index l h) by (done || lia).
Qed.

Lemma child_sub_hash_None (index : Z) (v : value) :
  index = -1 \/ 0 <= index < 2 ^ 32 ->
  sub_hash (step_index index) v = None -> child index v = Ret None.
Proof.
  unfold child, step_index. intros Hi. destruct (Z.eqb_spec index (-1)) as [E|E].
  - by destruct v.
  - destruct v; try done. cbn. intros Hl%lookup_ge_None. unfold vector_at, u32.
    rewrite wrap_small by lia. destruct (Z.leb_spec (Z.of_nat (length l)) index); [done|lia].
Qed.

(** The index of a key is -1 or, where the code goes on with it, an [int]. *)
Lemma getAndCropIndex_int (s : string) (index : Z) (key : string) :
  getAndCropIndex s = Ret (index, key) -> - 2 ^ 31 <= index < 2 ^ 31.
Proof.
  unfold getAndCropIndex. destruct (last (chars s)); [|intros [= <- _]; lia].
  case_decide; [|intros [= <- _]; lia]. destruct (split_last _ _) as [[pre idx]|]; [|done].
  destruct (atoi (c_str idx)) as [len|] eqn:E; [|done]. intros [= <- _].
  unfold atoi in E. destruct (_ && _) eqn:B in E; [|done]. injection E as <-.
  apply andb_prop in B as [?%Z.leb_le ?%Z.ltb_lt]. done.
Qed.

(** One level of getLastHashPtr. *)
Lemma getLastHashPtr_loop_cons (t t' : string) (tokens : list string) (h : hash) (p : hash_ptr)
    (key : string) :
  getLastHashPtr_loop (t :: t' :: tokens) h = Ret (Some (p, key)) <->
  exists index k n h' p',
    getAndCropIndex t = Ret (index, k) /\ afind k h = Some n /\
    (index = -1 \/ 0 <= index) /\ sub_hash (step_index index) (nVal n) = Some h' /\
    getLastHashPtr_loop (t' :: tokens) h' = Ret (Some (p', key)) /\
    p = (k, step_index index) :: p'.
Proof.
  change (getLastHashPtr_loop (t :: t' :: tokens) h) with
    ('(index, token) ← getAndCropIndex t;
     match afind token h with
     | None => Ret None
     | Some n =>
        c ← child index (nVal n);
        match c with
        | None => Ret None
        | Some (i, h) =>
            r ← getLastHashPtr_loop (t' :: tokens) h; Ret (extend_ptr (token, i) r)
        end
     end).
  split.
  - intros E. outcome_inv. destruct a as [index k]. destruct (afind k h) as [n|] eqn:En; [|done].
    outcome_inv. destruct a as [[i h']|]; [|discriminate]. outcome_inv.
    destruct a as [[p' key']|]; cbn in *; simplify_eq.
    apply child_Some in Ha0 as (-> & Hs & Hi). exists index, k, n, h', p'. done.
  - intros (index & k & n & h' & p' & Et & En & Hi & Hs & El & ->). rewrite Et. cbn [mbind outcome_bind].
    rewrite En. pose proof (getAndCropIndex_int _ _ _ Et).
    rewrite (child_sub_hash index (nVal n) h') by (done || lia). cbn [mbind outcome_bind].
    by rewrite El.
Qed.

(** The pointers that getLastHashPtr gives are valid. *)
Lemma getLastHashPtr_loop_valid (tokens : list string) :
  forall h p key, getLastHashPtr_loop tokens h = Ret (Some (p, key)) -> is_Some (hash_at p h).
Proof.
  induction tokens as [|t tokens IH]; intros h p key E; [discriminate|].
  destruct tokens as [|t' tokens]; [cbn in E; injection E as <- <-; eauto|].
  apply getLastHashPtr_loop_cons in E as (index & k & n & h' & p' & Et & En & Hi & Hs & El & ->).
  cbn. rewrite En, Hs. by apply IH in El.
Qed.

(** Changing the Hash behind the pointer does not change the way to it. *)
Lemma getLastHashPtr_loop_alter (tokens : list string) (f : hash -> hash) :
  forall h p key,
  getLastHashPtr_loop tokens h = Ret (Some (p, key)) ->
  getLastHashPtr_loop tokens (hash_alter p f h) = Ret (Some (p, key)).
Proof.
  induction tokens as [|t tokens IH]; intros h p key E; [discriminate|].
  destruct tokens as [|t' tokens]; [cbn in E; by injection E as <- <-|].
  apply getLastHashPtr_loop_cons in E as (index & k & n & h' & p' & Et & En & Hi & Hs & El & ->).
  apply getLastHashPtr_loop_cons. cbn [hash_alter].
  eexists index, k, _, (hash_alter p' f h'), p'. split; [done|]. split.
  { rewrite afind_alter by done. by rewrite decide_True, En. }
  split; [done|]. split; [|split; [|done]].
  - cbn. by rewrite sub_hash_alter, Hs.
  - by apply IH.
Qed.

(** ** set *)

Lemma eval_inv {A B} (x : outcome A) (tmp : hash) (f : A -> effect B) (h : hash) (b : B) :
  eval x tmp f = (h, Ret b) -> exists a, x = Ret a /\ f a = (h, Ret b).
Proof. destruct x; cbn; intros; simplify_eq; eauto. Qed.

(** Splits the successful evaluations in the hypotheses. *)
Ltac eval_inv :=
  repeat match goal with
  | H : eval _ _ _ = (_, Ret _) |- _ =>
      apply eval_inv in H;
      let a := fresh "a" in let Ha := fresh "Ha" in destruct H as (a & Ha & H)
  end.

Lemma grow_vector_Ret (index : Z) (l l' : list hash) :
  index <> -1 -> grow_vector index l = Ret l' ->
  0 <= index /\ l' !! Z.to_nat index = Some (default [] (l !! Z.to_nat index)).
Proof.
  unfold grow_vector. intros Hi.
  destruct (Z.leb_spec (to_signed 32 (Z.of_nat (length l))) index) as [Hs|Hs].
  - destruct (_ <=? _); [done|]. destruct (Z.ltb_spec (index + 1) 0); [done|].
    intros [= <-]. split; [lia|]. destruct (l !! Z.to_nat index) as [x|] eqn:Ex; cbn.
    + apply lookup_app_l_Some. rewrite lookup_take_lt by lia. done.
    + apply lookup_ge_None in Ex. rewrite lookup_app_r by (rewrite length_take; lia).
      apply lookup_replicate_2. rewrite length_take. lia.
  - destruct (Z.ltb_spec index 0); [done|]. intros [= <-]. split; [done|].
    assert (Z.to_nat index < length l)%nat as Hl.
    { unfold to_signed in Hs. pose proof (Z.mod_le (Z.of_nat (length l)) (2 ^ 32)) as Hm.
      destruct (_ <? _); lia. }
    apply lookup_lt_is_Some in Hl as [x ->]. done.
Qed.

Lemma new_vector_Ret (index : Z) (l : list hash) :
  new_vector index = Ret l -> -1 <= index /\ (0 <= index -> l !! Z.to_nat index = Some []).
Proof.
  unfold new_vector. destruct (_ <=? _); [done|]. destruct (Z.ltb_spec (index + 1) 0); [done|].
  intros [= <-]. split; [lia|]. intros Hi. apply lookup_replicate_2. lia.
Qed.

(** Case analysis on the two kinds of values that hold Hashes. *)
Lemma hash_cases (v : value) :
  (exists h, v = VHash h) \/ (is_Hash v = false /\ sub_hash None v = None).
Proof. destruct v; eauto. Qed.

Lemma vector_cases (v : value) :
  (exists l, v = VVecHash l) \/
  ((forall A (f : list hash -> A) (d : A), match v with VVecHash l => f l | _ => d end = d) /\
   forall i, sub_hash (Some i) v = None).
Proof. destruct v; eauto. Qed.

(** After setNodeAsNeeded the result points to a Hash: the one that was there before or
    an empty one; other nodes are unchanged. *)
Lemma setNodeAsNeeded_Ret (token : string) (tmp tmp' : hash) (s : step) :
  setNodeAsNeeded token tmp = (tmp', Ret s) ->
  exists index k v,
    getAndCropIndex token = Ret (index, k) /\ (index = -1 \/ 0 <= index) /\
    s = (k, step_index index) /\ tmp' = aset k v tmp /\
    sub_hash (step_index index) v = Some (default [] (hash_at [s] tmp)).
Proof.
  unfold setNodeAsNeeded, container_set, step_index. intros E. eval_inv.
  destruct a as [index k]. exists index, k.
  destruct (Z.eqb_spec index (-1)) as [Hi|Hi].
  - destruct (afind k tmp) as [n|] eqn:En.
    + destruct (hash_cases (nVal n)) as [[h Ev]|[Ev Es]].
      * rewrite Ev in E. simplify_eq/=. exists (VHash h). rewrite En, Ev.
        split_and!; [done|by left|done| |done].
        symmetry. eapply aset_unchanged; [done|]. destruct n; cbn in *; congruence.
      * rewrite Ev in E. simplify_eq. exists (VHash []).
        split_and!; [done|by left|done|done|]. cbn [hash_at]. by rewrite En, Es.
    + simplify_eq. exists (VHash []). split_and!; [done|by left|done|done|].
      cbn. by rewrite En.
  - destruct (afind k tmp) as [n|] eqn:En.
    + destruct (vector_cases (nVal n)) as [[l Ev]|[Ev Es]].
      * rewrite Ev in E. eval_inv. simplify_eq. apply grow_vector_Ret in Ha0 as [Hi0 Hl]; [|done].
        exists (VVecHash a). split_and!; [done|by right|done|done|].
        cbn. rewrite En, Ev. cbn. rewrite Hl. by destruct (l !! Z.to_nat index).
      * rewrite Ev in E. eval_inv. simplify_eq. apply grow_vector_Ret in Ha1 as [Hi0 Hl]; [|done].
        apply new_vector_Ret in Ha0 as [_ Hn]. rewrite Hn in Hl by done.
        exists (VVecHash a0). split_and!; [done|by right|done| |].
        -- by rewrite aset_aset.
        -- cbn [hash_at]. by rewrite En, Es.
    + eval_inv. destruct (Z.ltb_spec index 0); simplify_eq.
      apply new_vector_Ret in Ha0 as [_ Hl]. exists (VVecHash a).
      split_and!; [done|by right|done|done|]. cbn. rewrite En. by apply Hl.
Qed.

(** One level of setNodesAsNeeded. *)
Lemma setNodesAsNeeded_cons (t t' : string) (ts : list string) (tmp tmp' : hash) (p : hash_ptr) :
  setNodesAsNeeded (t :: t' :: ts) tmp = (tmp', Ret p) ->
  exists index k v h' p',
    getAndCropIndex t = Ret (index, k) /\ (index = -1 \/ 0 <= index) /\
    sub_hash (step_index index) v = Some (default [] (hash_at [(k, step_index index)] tmp)) /\
    setNodesAsNeeded (t' :: ts) (default [] (hash_at [(k, step_index index)] tmp)) = (h', Ret p') /\
    tmp' = hash_alter [(k, step_index index)] (fun _ => h') (aset k v tmp) /\
    p = (k, step_index index) :: p'.
Proof.
  intros E.
  change (setNodesAsNeeded (t :: t' :: ts) tmp) with
    (let '(tmp, s) := setNodeAsNeeded t tmp in
     eval s tmp (fun s => eval (deref_hash [s] tmp) tmp (fun h =>
       let '(h, p) := setNodesAsNeeded (t' :: ts) h in
       (hash_alter [s] (fun _ => h) tmp, cons s <$> p)))) in E.
  destruct (setNodeAsNeeded t tmp) as [tmp1 os] eqn:Es. eval_inv. subst os.
  destruct (setNodesAsNeeded (t' :: ts) a0) as [h1 op] eqn:Er.
  apply setNodeAsNeeded_Ret in Es as (index & k & v & Et & Hi & -> & -> & Hs).
  injection E as <- E. apply outcome_fmap_inv in E as (p' & -> & <-).
  unfold deref_hash in Ha0. cbn [hash_at] in Ha0. rewrite afind_set, decide_True in Ha0 by done.
  cbn [setValue node_mapped nVal] in Ha0. rewrite Hs in Ha0. injection Ha0 as <-.
  exists index, k, v, h1, p'. done.
Qed.

(** setNodesAsNeeded makes the way that getLastHashPtr goes. *)
Lemma setNodesAsNeeded_Ret (tokens : list string) :
  forall tmp tmp' p,
  setNodesAsNeeded tokens tmp = (tmp', Ret p) ->
  exists lastKey, last tokens = Some lastKey /\
    getLastHashPtr_loop tokens tmp' = Ret (Some (p, lastKey)) /\
    hash_at p tmp' = Some (default [] (hash_at p tmp)).
Proof.
  induction tokens as [|t tokens IH]; intros tmp tmp' p E; [discriminate|].
  destruct tokens as [|t' tokens]; [cbn in E; simplify_eq; exists t; by cbn|].
  apply setNodesAsNeeded_cons in E as (index & k & v & h1 & p' & Et & Hi & Hs & Er & -> & ->).
  apply IH in Er as (lastKey & El & Eg & Eh). exists lastKey. split; [done|].
  split.
  - apply getLastHashPtr_loop_cons. eexists index, k, _, h1, p'. split; [done|]. split.
    { cbn [hash_alter]. rewrite afind_alter by done. by rewrite decide_True, afind_set, decide_True. }
    split; [done|]. split; [|done]. cbn. by rewrite sub_hash_alter, Hs.
  - cbn [hash_alter hash_at]. rewrite afind_alter by done.
    rewrite decide_True, afind_set, decide_True by done. cbn. rewrite sub_hash_alter, Hs. cbn.
    rewrite Eh. cbn. destruct (afind k tmp) as [n|]; [|by destruct p' as [|[]]].
    destruct (sub_hash (step_index index) (nVal n)); [done|by destruct p' as [|[]]].
Qed.

(** A token that can name an inner level: a plain key, or one with a usable index. *)
Definition valid_token (t : string) : bool :=
  match getAndCropIndex t with
  | Ret (index, _) => (index =? -1) || ((0 <=? index) && (index <? 2 ^ 31 - 1))
  | _ => false
  end.

(** A token that can name a node. *)
Definition leaf_token (t : string) : bool :=
  match getAndCropIndex t with Ret (index, _) => index =? -1 | _ => false end.

Fixpoint valid_tokens (tokens : list string) : bool :=
  match tokens with
  | [] => false
  | [t] => leaf_token t
  | t :: tokens' => valid_token t && valid_tokens tokens'
  end.

(** A path of plain keys and keys with an index, ending in a plain key. *)
Definition valid_path (path : string) (separator : ascii) : bool :=
  valid_tokens (tokenize path separator).

Lemma setNodeAsNeeded_total (t : string) (tmp : hash) :
  valid_token t = true -> exists tmp' s, setNodeAsNeeded t tmp = (tmp', Ret s).
Proof.
  unfold valid_token, setNodeAsNeeded. destruct (getAndCropIndex t) as [[index k]| | |]; try done.
  cbn [eval]. intros Hv. destruct (Z.eqb_spec index (-1)) as [|Hi].
  - destruct (afind k tmp); [case_match|]; eauto.
  - cbn in Hv. apply andb_prop in Hv as [?%Z.leb_le ?%Z.ltb_lt].
    assert (forall l, exists l', grow_vector index l = Ret l') as Hg.
    { intros l. unfold grow_vector. destruct (Z.leb_spec (2 ^ 31) (index + 1)); [lia|].
      destruct (Z.ltb_spec (index + 1) 0); [lia|]. destruct (Z.ltb_spec index 0); [lia|].
      case_match; eauto. }
    assert (exists l, new_vector index = Ret l) as [l Hn].
    { unfold new_vector. destruct (Z.leb_spec (2 ^ 31) (index + 1)); [lia|].
      destruct (Z.ltb_spec (index + 1) 0); [lia|]. eauto. }
    destruct (afind k tmp) as [n|].
    + destruct (vector_cases (nVal n)) as [[l0 ->]|[-> _]].
      * destruct (Hg l0) as [l' ->]. cbn. eauto.
      * rewrite Hn. cbn. destruct (Hg l) as [l' ->]. cbn. eauto.
    + rewrite Hn. cbn. destruct (Z.ltb_spec index 0); [lia|]. eauto.
Qed.

Lemma setNodesAsNeeded_total (tokens : list string) :
  forall tmp, valid_tokens tokens = true ->
  exists tmp' p, setNodesAsNeeded tokens tmp = (tmp', Ret p).
Proof.
  induction tokens as [|t tokens IH]; intros tmp Hv; [discriminate|].
  destruct tokens as [|t' tokens]; [cbn; eauto|].
  change (valid_token t && valid_tokens (t' :: tokens) = true) in Hv.
  apply andb_prop in Hv as [Ht Hv].
  destruct (setNodeAsNeeded_total t tmp Ht) as (tmp1 & s & Es).
  change (setNodesAsNeeded (t :: t' :: tokens) tmp) with
    (let '(tmp, s) := setNodeAsNeeded t tmp in
     eval s tmp (fun s => eval (deref_hash [s] tmp) tmp (fun h =>
       let '(h, p) := setNodesAsNeeded (t' :: tokens) h in
       (hash_alter [s] (fun _ => h) tmp, cons s <$> p)))).
  rewrite Es. cbn [eval].
  apply setNodeAsNeeded_Ret in Es as (index & k & v & Et & Hi & -> & -> & Hs).
  unfold deref_hash. cbn [hash_at]. rewrite afind_set, decide_True by done.
  cbn [setValue node_mapped nVal]. rewrite Hs. cbn [eval].
  edestruct IH as (h' & p & ->); [done|]. cbn. eauto.
Qed.

Lemma valid_tokens_last (tokens : list string) (t : string) :
  valid_tokens tokens = true -> last tokens = Some t -> leaf_token t = true.
Proof.
  induction tokens as [|t0 tokens IH]; [done|]. destruct tokens as [|t1 tokens].
  - cbn. by intros ? [= ->].
  - intros Hv. change (valid_token t0 && valid_tokens (t1 :: tokens) = true) in Hv.
    apply andb_prop in Hv as [_ Hv]. auto.
Qed.

Lemma leaf_token_Ret (t : string) :
  leaf_token t = true -> exists k, getAndCropIndex t = Ret (-1, k).
Proof.
  unfold leaf_token. destruct (getAndCropIndex t) as [[index k]| | |]; try done.
  intros ->%Z.eqb_eq. eauto.
Qed.

(** getNode of a path that leads to the Hash at [p]. *)
Lemma getNode_at (path : string) (sep : ascii) (h leaf : hash) (p : hash_ptr) (lastKey k : string) :
  getLastHashPtr_loop (tokenize path sep) h = Ret (Some (p, lastKey)) ->
  hash_at p h = Some leaf ->
  getAndCropIndex lastKey = Ret (-1, k) ->
  getNode path sep h = container_getNode k leaf /\ has path sep h = Ret (ahas k leaf).
Proof.
  intros Hl Hp Hk. unfold getNode, has, getLastHash, getLastHashPtr, deref_hash.
  rewrite Hl. cbn. rewrite Hp. cbn. rewrite Hk. cbn. split; [done|].
  by destruct (ahas k leaf).
Qed.

(** What [set] does: the path is made, then the node is set in the Hash it leads to. *)
Lemma set_spec (path : string) (v : value) (sep : ascii) (this : hash) :
  valid_path path sep = true ->
  exists this1 p leaf lastKey k,
    setNodesAsNeeded (tokenize path sep) this = (this1, Ret p) /\
    last (tokenize path sep) = Some lastKey /\ getAndCropIndex lastKey = Ret (-1, k) /\
    hash_at p this1 = Some leaf /\ leaf = default [] (hash_at p this) /\
    getLastHashPtr_loop (tokenize path sep) this1 = Ret (Some (p, lastKey)) /\
    set path v sep this = (hash_alter p (fun _ => container_set k v leaf) this1, Ret (p, k)).
Proof.
  intros Hv. destruct (setNodesAsNeeded_total _ this Hv) as (this1 & p & Es).
  pose proof (setNodesAsNeeded_Ret _ _ _ _ Es) as (lastKey & El & Eg & Eh).
  destruct (leaf_token_Ret lastKey) as [k Ek]; [by eapply valid_tokens_last|].
  eexists this1, p, _, lastKey, k. do 6 (split; [done|]).
  unfold set. rewrite Es. cbn [eval]. unfold back. rewrite El. cbn [eval]. rewrite Ek.
  cbn [eval Z.eqb]. unfold on_hash, deref_hash. rewrite Eh. done.
Qed.

(** The attributes of the node at a path, none where there is no such node. *)
Definition attributes_at (path : string) (sep : ascii) (h : hash) : attributes :=
  match getNode path sep h with Ret n => nAttrs n | _ => [] end.

(** getNode as one walk along the path. *)
Fixpoint getNode_loop (tokens : list string) (h : hash) : outcome node :=
  match tokens with
  | [] => Undef
  | [t] => '(index, k) ← getAndCropIndex t;
           if index =? -1 then container_getNode k h else Throw LogicException
  | t :: tokens' =>
      '(index, k) ← getAndCropIndex t;
      match afind k h with
      | None => Throw ParameterException
      | Some n =>
          c ← child index (nVal n);
          match c with
          | None => Throw ParameterException
          | Some (_, h') => getNode_loop tokens' h'
          end
      end
  end.

Lemma getNode_walk (path : string) (sep : ascii) (h : hash) :
  getNode path sep h = getNode_loop (tokenize path sep) h.
Proof.
  unfold getNode, getLastHash, getLastHashPtr. generalize (tokenize path sep) as tokens.
  intros tokens. revert h. induction tokens as [|t tokens IH]; intros h; [done|].
  destruct tokens as [|t' tokens]; [done|].
  change (getNode_loop (t :: t' :: tokens) h) with
    ('(index, k) ← getAndCropIndex t;
     match afind k h with
     | None => Throw ParameterException
     | Some n =>
        c ← child index (nVal n);
        match c with
        | None => Throw ParameterException
        | Some (_, h') => getNode_loop (t' :: tokens) h'
        end
     end).
  change (getLastHashPtr_loop (t :: t' :: tokens) h) with
    ('(index, token) ← getAndCropIndex t;
     match afind token h with
     | None => Ret None
     | Some n =>
        c ← child index (nVal n);
        match c with
        | None => Ret None
        | Some (i, h) =>
            r ← getLastHashPtr_loop (t' :: tokens) h; Ret (extend_ptr (token, i) r)
        end
     end).
  destruct (getAndCropIndex t) as [[index k]| | |]; try done. cbn [mbind outcome_bind].
  destruct (afind k h) as [n|] eqn:En; [|done].
  destruct (child index (nVal n)) as [[[i h']|]| | |] eqn:Ec; try done. cbn [mbind outcome_bind].
  rewrite <- IH. destruct (getLastHashPtr_loop (t' :: tokens) h') as [[[p key]|]| | |]; try done.
  cbn [mbind outcome_bind extend_ptr]. apply child_Some in Ec as (-> & Hs & _).
  unfold deref_hash. cbn [hash_at]. by rewrite En, Hs.
Qed.

Lemma getNode_loop_empty (tokens : list string) :
  valid_tokens tokens = true -> getNode_loop tokens [] = Throw ParameterException.
Proof.
  destruct tokens as [|t [|t' tokens]]; [done| |].
  - intros [k E]%leaf_token_Ret. cbn. by rewrite E.
  - intros Hv. change (valid_token t && valid_tokens (t' :: tokens) = true) in Hv.
    apply andb_prop in Hv as [Ht _]. unfold valid_token in Ht. cbn.
    by destruct (getAndCropIndex t) as [[? ?]| | |].
Qed.

(** Two lists of tokens that go to different keys somewhere below a common beginning. *)
Fixpoint diverge (ts us : list string) : bool :=
  match ts, us with
  | t :: ts', u :: us' =>
      match getAndCropIndex t, getAndCropIndex u with
      | Ret (i, k), Ret (j, l) =>
          bool_decide (k <> l) || (bool_decide (i = j) && diverge ts' us')
      | _, _ => false
      end
  | _, _ => false
  end.

(** getNode only asks for one key of the Hash it starts from. *)
Lemma getNode_loop_head (u : string) (us : list string) (h h' : hash) (j : Z) (ku : string) :
  getAndCropIndex u = Ret (j, ku) -> afind ku h = afind ku h' ->
  getNode_loop (u :: us) h = getNode_loop (u :: us) h'.
Proof. intros Eu Eh. cbn. rewrite Eu. cbn. unfold container_getNode. by rewrite Eh. Qed.

(** One level of getNode. *)
Lemma getNode_loop_cons (t t' : string) (ts : list string) (h : hash) (index : Z) (k : string) :
  getAndCropIndex t = Ret (index, k) -> index = -1 \/ 0 <= index ->
  valid_tokens (t' :: ts) = true ->
  getNode_loop (t :: t' :: ts) h =
  getNode_loop (t' :: ts) (default [] (hash_at [(k, step_index index)] h)).
Proof.
  intros Et Hi Hv. pose proof (getAndCropIndex_int _ _ _ Et).
  change (getNode_loop (t :: t' :: ts) h) with
    ('(index, k) ← getAndCropIndex t;
     match afind k h with
     | None => Throw ParameterException
     | Some n =>
        c ← child index (nVal n);
        match c with
        | None => Throw ParameterException
        | Some (_, h') => getNode_loop (t' :: ts) h'
        end
     end).
  rewrite Et. cbn [mbind outcome_bind hash_at].
  destruct (afind k h) as [n|]; [|by rewrite getNode_loop_empty].
  destruct (sub_hash (step_index index) (nVal n)) as [h'|] eqn:Es.
  - by rewrite (child_sub_hash index (nVal n) h') by (done || lia).
  - rewrite (child_sub_hash_None index (nVal n)) by (done || lia).
    cbn [mbind outcome_bind default]. by rewrite getNode_loop_empty.
Qed.

(** Setting below [ts] does not change what is found below [us] when they diverge. *)
Lemma getNode_loop_frame (ts : list string) :
  forall us h h1 p leaf lastKey k v,
  valid_tokens ts = true -> valid_tokens us = true -> diverge ts us = true ->
  setNodesAsNeeded ts h = (h1, Ret p) ->
  last ts = Some lastKey -> getAndCropIndex lastKey = Ret (-1, k) ->
  hash_at p h1 = Some leaf ->
  getNode_loop us (hash_alter p (fun _ => container_set k v leaf) h1) = getNode_loop us h.
Proof.
  induction ts as [|t ts IH]; intros us h h1 p leaf lastKey k v Ht Hu Hd Es Hl Hk Hp; [done|].
  destruct us as [|u us]; [done|]. cbn [diverge] in Hd.
  destruct (getAndCropIndex t) as [[i kt]| | |] eqn:Et; try done.
  destruct (getAndCropIndex u) as [[j ku]| | |] eqn:Eu; try done.
  destruct ts as [|t' ts].
  - cbn in Es, Hl. simplify_eq. cbn in Hp. simplify_eq. cbn [hash_alter].
    rewrite andb_false_r, orb_false_r in Hd. apply bool_decide_eq_true in Hd.
    eapply getNode_loop_head; [done|]. unfold container_set.
    rewrite afind_set. by rewrite decide_False by congruence.
  - apply setNodesAsNeeded_cons in Es as (index & k1 & w & h2 & p' & Et' & Hi & Hs & Er & -> & ->).
    rewrite Et in Et'. injection Et' as -> ->.
    destruct (decide (k1 = ku)) as [->|Hne].
    + rewrite bool_decide_eq_false_2 in Hd by tauto. apply andb_prop in Hd as [Hij Hd].
      apply bool_decide_eq_true in Hij as ->. destruct us as [|u' us]; [done|].
      apply andb_prop in Ht as [Ht1 Ht]. apply andb_prop in Hu as [Hu1 Hu].
      rewrite !(getNode_loop_cons u u' us _ _ _ Eu) by done.
      change (hash_alter ((ku, step_index j) :: p') ?f ?x) with
        (hash_alter [(ku, step_index j)] (hash_alter p' f) x).
      rewrite hash_at_alter. cbn [hash_at hash_alter] in Hp |- *.
      rewrite afind_alter, decide_True, afind_set, decide_True in Hp |- * by done.
      cbn [setValue node_mapped nVal fmap option_fmap option_map] in Hp |- *.
      rewrite sub_hash_alter, Hs in Hp |- *. cbn [fmap option_fmap option_map default] in Hp |- *.
      by eapply IH.
    + eapply getNode_loop_head; [done|]. cbn [hash_alter].
      rewrite !afind_alter by done. rewrite !decide_False by congruence.
      by rewrite afind_set, decide_False by congruence.
Qed.

(** ** Properties of set *)

(** getNode before [set] looks at the Hash that setNodesAsNeeded will lead to. *)
Lemma setNodesAsNeeded_walk (ts : list string) :
  forall h h1 p lastKey k,
  valid_tokens ts = true -> setNodesAsNeeded ts h = (h1, Ret p) ->
  last ts = Some lastKey -> getAndCropIndex lastKey = Ret (-1, k) ->
  getNode_loop ts h = container_getNode k (default [] (hash_at p h)).
Proof.
  induction ts as [|t ts IH]; intros h h1 p lastKey k Hv Es El Ek; [done|].
  destruct ts as [|t' ts].
  - cbn in Es, El. simplify_eq. cbn. by rewrite Ek.
  - apply setNodesAsNeeded_cons in Es
      as (index & kt & w & h2 & p' & Et & Hi & Hs & Er & -> & ->).
    apply andb_prop in Hv as [_ Hv]. rewrite (getNode_loop_cons t t' ts h index kt) by done.
    rewrite (IH _ _ _ _ _ Hv Er El Ek). f_equal.
    cbn [hash_at]. destruct (afind kt h) as [n|]; [|by destruct p' as [|[]]].
    destruct (sub_hash (step_index index) (nVal n)); [done|by destruct p' as [|[]]].
Qed.

(** C2: [set] on a path of plain keys and of keys with an index that ends in a plain key
    always succeeds, whatever the Hash holds on the way (nodes of other types are
    replaced, vectors are grown); the node found under the path afterwards, to which
    the returned pointer points, has the new value and keeps the attributes that were
    there before. *)
Theorem set_get (path : string) (v : value) (sep : ascii) (this : hash) :
  valid_path path sep = true ->
  exists this' np n,
    set path v sep this = (this', Ret np) /\
    getNode path sep this' = Ret n /\ node_at np this' = Some n /\
    nVal n = v /\ nAttrs n = attributes_at path sep this /\
    has path sep this' = Ret true.
Proof.
  intros Hv. destruct (set_spec path v sep this Hv)
    as (this1 & p & leaf & lastKey & k & Es & El & Ek & Ep & Eleaf & Eg & E).
  rewrite E. set (this' := hash_alter p _ this1).
  assert (hash_at p this' = Some (container_set k v leaf)) as Ha
    by (unfold this'; by rewrite hash_at_alter, Ep).
  assert (getLastHashPtr_loop (tokenize path sep) this' = Ret (Some (p, lastKey))) as Hg
    by (by apply getLastHashPtr_loop_alter).
  destruct (getNode_at path sep this' _ p lastKey k Hg Ha Ek) as [Gn Gh].
  unfold container_getNode, container_set, ahas in Gn, Gh.
  rewrite afind_set, decide_True in Gn, Gh by done.
  eexists this', (p, k), _. split; [done|]. split; [done|].
  split. { unfold node_at. cbn. rewrite Ha. unfold container_set. by rewrite afind_set, decide_True. }
  split; [done|]. split; [|done]. cbn. unfold attributes_at. rewrite Eleaf.
  rewrite getNode_walk. pose proof (setNodesAsNeeded_walk _ _ _ _ lastKey k Hv Es El Ek) as W.
  rewrite W. unfold container_getNode. destruct (afind k (default [] (hash_at p this))); done.
Qed.

Lemma set_get_witness :
  valid_path "a[2].b.c" "." = true /\
  exists this' np n,
    set "a[2].b.c" (VBool true) "." [mkNode "a" [] (VString "x")] = (this', Ret np) /\
    getNode "a[2].b.c" "." this' = Ret n /\ node_at np this' = Some n /\
    nVal n = VBool true /\ nAttrs n = attributes_at "a[2].b.c" "." [mkNode "a" [] (VString "x")] /\
    has "a[2].b.c" "." this' = Ret true.
Proof.
  split; [vm_compute; reflexivity|].
  apply (set_get "a[2].b.c" (VBool true) "." [mkNode "a" [] (VString "x")]).
  vm_compute. reflexivity.
Defined.

(** Do two paths go to different keys somewhere below a common beginning? *)
Definition paths_diverge (p q : string) (sep : ascii) : bool :=
  diverge (tokenize p sep) (tokenize q sep).

(** C14: [set] changes nothing else: what is found under a path that goes to another key
    at some level (node, value and attributes, or the exception for a path that does
    not exist) is the same before and after. *)
Theorem set_frame (path other : string) (v : value) (sep : ascii) (this : hash) :
  valid_path path sep = true -> valid_path other sep = true ->
  paths_diverge path other sep = true ->
  getNode other sep (set path v sep this).1 = getNode other sep this.
Proof.
  intros Hv Ho Hd. destruct (set_spec path v sep this Hv)
    as (this1 & p & leaf & lastKey & k & Es & El & Ek & Ep & _ & Eg & ->).
  cbn [fst]. rewrite !getNode_walk.
  eapply getNode_loop_frame; [exact Hv|exact Ho|exact Hd|done|done|done|done].
Qed.

Lemma set_frame_witness :
  paths_diverge "a.b" "a.c[1].d" "." = true /\
  getNode "a.c[1].d" "." (set "a.b" VNone "." []).1 = Throw ParameterException.
Proof.
  split; [vm_compute; reflexivity|].
  rewrite (set_frame "a.b" "a.c[1].d" VNone "." [] eq_refl eq_refl eq_refl). reflexivity.
Defined.

(** A value that is not a Hash cannot be assigned to an array element; the call
    throws NotSupportedException, but the inner Hashes of the path have been made by
    then and stay. *)
Theorem set_array_leaf (path : string) (v : value) (sep : ascii) (this : hash)
    (lastKey k : string) (index : Z) :
  last (tokenize path sep) = Some lastKey -> getAndCropIndex lastKey = Ret (index, k) ->
  index <> -1 ->
  forall this1 p, setNodesAsNeeded (tokenize path sep) this = (this1, Ret p) ->
  set path v sep this = (this1, Throw NotSupportedException) /\ is_Some (hash_at p this1).
Proof.
  intros El Ek Hi this1 p Es. pose proof (setNodesAsNeeded_Ret _ _ _ _ Es) as (? & _ & _ & Eh).
  split; [|eauto]. unfold set. rewrite Es. cbn [eval]. unfold back. rewrite El. cbn [eval].
  rewrite Ek. cbn [eval]. by destruct (Z.eqb_spec index (-1)).
Qed.

Lemma set_array_leaf_witness :
  set "a.b[0]" VNone "." [] = ([mkNode "a" [] (VHash [])], Throw NotSupportedException).
Proof.
  destruct (set_array_leaf "a.b[0]" VNone "." [] "b[0]" "b" 0 eq_refl eq_refl ltac:(lia)
    [mkNode "a" [] (VHash [])] [("a"%string, None)] eq_refl) as [H _].
  exact H.
Defined.

(** ** Well-formed Hashes *)

(** The Hashes that a value holds itself. *)
Definition value_hashes (v : value) : list hash :=
  match v with
  | VHash h | VHashPtr (Some h) | VSchema _ h => [h]
  | VVecHash l => l
  | VVecHashPtr l => flat_map (fun p => match p with Some h => [h] | None => [] end) l
  | VVecSchema l => map snd l
  | _ => []
  end.

Lemma children_hash (v : value) (h : hash) :
  In h (value_hashes v) -> forall c, In c (hash_values h) -> In c (children v).
Proof.
  intros Hh c Hc. destruct v as [| | | | | | | | | | |x|l|[x|]|l|r x|l|]; cbn in *; try done.
  - by destruct Hh as [->|[]].
  - apply in_flat_map. eauto.
  - by destruct Hh as [->|[]].
  - apply in_flat_map in Hh as (p & Hp & Hh). apply in_flat_map. exists p. split; [done|].
    destruct p; [by destruct Hh as [->|[]]|done].
  - by destruct Hh as [->|[]].
  - apply in_map_iff in Hh as (s & <- & Hs). apply in_flat_map. eauto.
Qed.

(** Unique keys at every level, of nodes and of attributes. *)
Inductive wf_value (v : value) : Prop :=
| wf_value_intro :
    (forall h, In h (value_hashes v) -> awf h) ->
    (forall h n, In h (value_hashes v) -> In n h -> awf (nAttrs n)) ->
    (forall c, In c (children v) -> wf_value c) ->
    wf_value v.

Definition wf (h : hash) : Prop := wf_value (VHash h).

Definition wf_node (n : node) : Prop :=
  awf (nAttrs n) /\ wf_value (nVal n) /\ forall a, In a (nAttrs n) -> wf_value a.2.

Lemma wf_nodes (h : hash) : wf h <-> awf h /\ forall n, In n h -> wf_node n.
Proof.
  split.
  - intros [Hh Ha Hc]. cbn in *. split; [by apply Hh; left|].
    intros n Hn. split; [by apply (Ha h); [left|]|].
    assert (forall c, In c (node_values n) -> wf_value c) as G
      by (intros c ?; apply Hc, in_flat_map; eauto).
    split; [apply G; by left|]. intros a Hin. apply G. right. apply in_map_iff. eauto.
  - intros [Hw Hn]. constructor; cbn.
    + by intros ? [<-|[]].
    + intros ? n [<-|[]] Hin. by apply Hn.
    + intros c (n & Hin & Hc)%in_flat_map. destruct (Hn n Hin) as (_ & Hv & Ha).
      destruct Hc as [<-|(a & <- & ?)%in_map_iff]; auto.
Qed.

Lemma wf_vector (l : list hash) : wf_value (VVecHash l) <-> forall h, In h l -> wf h.
Proof.
  split.
  - intros [Hh Ha Hc] h Hin. cbn in *. constructor; cbn.
    + intros ? [<-|[]]. auto.
    + intros ? n [<-|[]]. eauto.
    + intros c Hcin. apply Hc, in_flat_map. eauto.
  - intros Hl. constructor; cbn.
    + intros h Hin. by apply wf_nodes, Hl.
    + intros h n Hin Hn. apply Hl, wf_nodes in Hin as [_ Hin]. by apply Hin.
    + intros c (h & Hin & Hc)%in_flat_map. destruct (Hl h Hin) as [_ _ Hcc]. by apply Hcc.
Qed.

Lemma wf_nil : wf [].
Proof. apply wf_nodes. split; [apply NoDup_nil_2|by intros ? []]. Qed.

Lemma wf_value_leaf (v : value) : value_hashes v = [] -> children v = [] -> wf_value v.
Proof. intros H1 H2. constructor; rewrite ?H1, ?H2; by intros ? ?. Qed.

Lemma aalter_In {V N} `{MappedType V N} (k : string) (f : N -> N) (l : list N) (n : N) :
  In n (aalter k f l) -> In n l \/ exists n0, In n0 l /\ n = f n0.
Proof.
  induction l as [|x l IH]; cbn; [done|]. destruct (decide (getKey x = k)); cbn.
  - intros [<-|Hn]; [right; exists x; split; [by left|done]|left; by right].
  - intros [<-|Hn]; [left; by left|].
    destruct (IH Hn) as [Hl|(m & Hm & E)]; [left; by right|right; exists m; split; [by right|done]].
Qed.

Lemma afind_In {V N} `{MappedType V N} (k : string) (l : list N) (n : N) :
  afind k l = Some n -> In n l.
Proof. intros E%afind_elem. by apply list_elem_of_In. Qed.

Lemma wf_aalter (k : string) (f : node -> node) (h : hash) :
  (forall n, nKey (f n) = nKey n) ->
  (forall n, wf_node n -> wf_node (f n)) -> wf h -> wf (aalter k f h).
Proof.
  intros Hk Hf [Hw Hn]%wf_nodes. apply wf_nodes. split; [by apply awf_alter|].
  intros n [Hin|(n0 & Hin & ->)]%aalter_In; auto.
Qed.

Lemma wf_aset (k : string) (v : value) (h : hash) : wf_value v -> wf h -> wf (aset k v h).
Proof.
  intros Hv Hh. pose proof Hh as [Hw Hn]%wf_nodes. unfold aset. destruct (afind k h) as [n1|] eqn:E.
  - apply wf_aalter; [done| |done]. intros n0 (Ha & _ & Hs). by split.
  - pose proof (awf_set k v h Hw) as Hw'. unfold aset in Hw'. rewrite E in Hw'.
    apply wf_nodes. split; [done|]. intros n [Hin|[<-|[]]]%in_app_or; [auto|].
    split; [apply NoDup_nil_2|]. split; [done|by intros ? []].
Qed.

Lemma wf_aerase (k : string) (h : hash) : wf h -> wf (aerase k h).
Proof.
  intros [Hw Hn]%wf_nodes. apply wf_nodes. split; [by apply awf_erase|].
  intros n Hin. apply Hn. clear Hw Hn. induction h as [|x h IH]; [done|]. cbn in *.
  destruct (decide (nKey x = k)); [by right|]. destruct Hin as [<-|?]; [by left|right; auto].
Qed.

Lemma wf_sub_hash (i : option nat) (v : value) (h : hash) :
  wf_value v -> sub_hash i v = Some h -> wf h.
Proof.
  intros Hv E. destruct i as [i|], v; try discriminate; cbn in E.
  - rewrite wf_vector in Hv. apply Hv. by apply list_elem_of_In, list_elem_of_lookup_2 with i.
  - by injection E as ->.
Qed.

Lemma wf_sub_alter (i : option nat) (f : hash -> hash) (v : value) :
  (forall h, wf h -> wf (f h)) -> wf_value v -> wf_value (sub_alter i f v).
Proof.
  intros Hf Hv. destruct i as [i|], v; try exact Hv; cbn.
  - rewrite wf_vector, <- List.Forall_forall in *. apply Forall_alter; [done|]. auto.
  - by apply Hf.
Qed.

Lemma wf_hash_alter (p : hash_ptr) (f : hash -> hash) :
  (forall h, wf h -> wf (f h)) -> forall h, wf h -> wf (hash_alter p f h).
Proof.
  intros Hf. induction p as [|[k i] p IH]; [done|]. intros h Hh. cbn.
  apply wf_aalter; [done| |done]. intros n (Ha & Hv & Hs). split; [done|]. split; [|done].
  by apply wf_sub_alter.
Qed.

Lemma wf_hash_at (p : hash_ptr) : forall h h', wf h -> hash_at p h = Some h' -> wf h'.
Proof.
  induction p as [|[k i] p IH]; intros h h' Hh; cbn; [by intros [= <-]|].
  destruct (afind k h) as [n|] eqn:E; [|done].
  destruct (sub_hash i (nVal n)) as [h0|] eqn:Es; [|done]. apply IH.
  eapply wf_sub_hash; [|done]. apply afind_In in E. apply wf_nodes in Hh as [_ Hh]. by apply Hh.
Qed.

Lemma wf_find_value (k : string) (h : hash) (n : node) :
  wf h -> afind k h = Some n -> wf_value (nVal n).
Proof. intros [_ Hh]%wf_nodes E%afind_In. by apply Hh. Qed.

(** What an operation on a Hash must leave, whatever its outcome. *)
Definition keeps_wf {A} (r : effect A) : Prop := wf r.1.

Lemma keeps_eval {A B} (x : outcome A) (tmp : hash) (f : A -> effect B) :
  wf tmp -> (forall a, x = Ret a -> keeps_wf (f a)) -> keeps_wf (eval x tmp f).
Proof. intros Ht Hf. destruct x; [by apply Hf|exact Ht|exact Ht|exact Ht]. Qed.

Lemma wf_In_vector (l l' : list hash) :
  (forall h, In h l' -> In h l \/ h = []) -> wf_value (VVecHash l) -> wf_value (VVecHash l').
Proof.
  rewrite !wf_vector. intros Hs Hl h Hin. destruct (Hs h Hin) as [?| ->]; [auto|apply wf_nil].
Qed.

Lemma grow_vector_In (index : Z) (l l' : list hash) :
  grow_vector index l = Ret l' -> forall h, In h l' -> In h l \/ h = [].
Proof.
  unfold grow_vector. destruct (_ <=? index).
  - destruct (_ <=? _); [done|]. destruct (_ <? 0); [done|]. intros [= <-] h.
    rewrite <- !list_elem_of_In, elem_of_app. intros [Hin|Hin].
    + left. apply elem_of_take in Hin as (j & Hj & _). by eapply list_elem_of_lookup_2.
    + right. by apply elem_of_replicate in Hin as [? _].
  - destruct (_ <? 0); [done|]. intros [= <-]. auto.
Qed.

Lemma wf_new_vector (index : Z) (l : list hash) : new_vector index = Ret l -> wf_value (VVecHash l).
Proof.
  unfold new_vector. destruct (_ <=? _); [done|]. destruct (_ <? 0); [done|]. intros [= <-].
  apply wf_vector. intros h [-> _]%list_elem_of_In%elem_of_replicate. apply wf_nil.
Qed.

Lemma keeps_setNodeAsNeeded (t : string) (tmp : hash) : wf tmp -> keeps_wf (setNodeAsNeeded t tmp).
Proof.
  intros Ht. unfold setNodeAsNeeded, container_set. apply keeps_eval; [done|].
  intros [index k] _. destruct (index =? -1).
  - destruct (afind k tmp) as [n|]; [destruct (is_Hash _); [exact Ht|]|];
      (apply wf_aset; [apply wf_nil|done]).
  - destruct (afind k tmp) as [n|] eqn:En.
    + destruct (vector_cases (nVal n)) as [[l Ev]|[-> _]].
      * rewrite Ev. apply keeps_eval; [done|]. intros l' El. apply wf_aset; [|done].
        eapply wf_In_vector; [by eapply grow_vector_In|]. rewrite <- Ev. by eapply wf_find_value.
      * apply keeps_eval; [done|]. intros l El%wf_new_vector. apply keeps_eval; [by apply wf_aset|].
        intros l' El'. apply wf_aset; [|by apply wf_aset].
        eapply wf_In_vector; [by eapply grow_vector_In|done].
    + apply keeps_eval; [done|]. intros l El%wf_new_vector. by apply wf_aset.
Qed.

Lemma keeps_setNodesAsNeeded (tokens : list string) :
  forall tmp, wf tmp -> keeps_wf (setNodesAsNeeded tokens tmp).
Proof.
  induction tokens as [|t tokens IH]; intros tmp Ht; [exact Ht|].
  destruct tokens as [|t' tokens]; [exact Ht|].
  change (setNodesAsNeeded (t :: t' :: tokens) tmp) with
    (let '(tmp, s) := setNodeAsNeeded t tmp in
     eval s tmp (fun s => eval (deref_hash [s] tmp) tmp (fun h =>
       let '(h, p) := setNodesAsNeeded (t' :: tokens) h in
       (hash_alter [s] (fun _ => h) tmp, cons s <$> p)))).
  pose proof (keeps_setNodeAsNeeded t tmp Ht) as H1. destruct (setNodeAsNeeded t tmp) as [tmp1 os].
  apply keeps_eval; [exact H1|]. intros s _. apply keeps_eval; [exact H1|]. intros h Eh.
  unfold deref_hash in Eh. destruct (hash_at [s] tmp1) as [h0|] eqn:E0; [|done].
  injection Eh as ->. pose proof (IH h (wf_hash_at _ _ _ H1 E0)) as H2.
  destruct (setNodesAsNeeded (t' :: tokens) h) as [h1 op]. by apply wf_hash_alter.
Qed.

Lemma keeps_on_hash {A} (p : hash_ptr) (this : hash) (f : hash -> effect A) :
  wf this -> (forall h, wf h -> keeps_wf (f h)) -> keeps_wf (on_hash p this f).
Proof.
  intros Ht Hf. unfold on_hash. apply keeps_eval; [done|]. intros h Eh.
  unfold deref_hash in Eh. destruct (hash_at p this) as [h0|] eqn:E0; [|done].
  injection Eh as ->. pose proof (Hf h (wf_hash_at _ _ _ Ht E0)) as H2.
  destruct (f h) as [h1 r]. by apply wf_hash_alter.
Qed.

Lemma keeps_set (path : string) (v : value) (sep : ascii) (this : hash) :
  wf_value v -> wf this -> keeps_wf (set path v sep this).
Proof.
  intros Hv Ht. unfold set. pose proof (keeps_setNodesAsNeeded (tokenize path sep) this Ht) as H1.
  destruct (setNodesAsNeeded _ _) as [this1 leaf]. do 3 (apply keeps_eval; [exact H1|]; intros ? _).
  destruct a1 as [index k]. destruct (_ =? _); [|exact H1].
  apply keeps_on_hash; [done|]. intros h Hh. by apply wf_aset.
Qed.

Lemma wf_insert_vector (i : nat) (h : hash) (l : list hash) :
  wf h -> wf_value (VVecHash l) -> wf_value (VVecHash (<[i := h]> l)).
Proof.
  rewrite !wf_vector, <- !List.Forall_forall. intros Hh Hl. by apply Forall_insert.
Qed.

Lemma keeps_setHash_leaf (index : Z) (k : string) (v h : hash) :
  wf v -> wf h -> keeps_wf (setHash_leaf index k v h).
Proof.
  intros Hv Hh. unfold setHash_leaf. destruct (_ =? _); [by apply wf_aset|].
  assert (keeps_wf (eval (new_vector index) h (fun hashes =>
    if index <? 0 then (h, Undef)
    else (container_set k (VVecHash (<[Z.to_nat index := v]> hashes)) h, Ret tt)))) as Hnew.
  { apply keeps_eval; [done|]. intros l El%wf_new_vector. destruct (_ <? _); [exact Hh|].
    apply wf_aset; [|done]. by apply wf_insert_vector. }
  destruct (afind k h) as [n|] eqn:En; [|exact Hnew].
  destruct (vector_cases (nVal n)) as [[l Ev]|[-> _]]; [|exact Hnew].
  rewrite Ev. apply keeps_eval; [done|]. intros l' El. apply wf_aset; [|done].
  apply wf_insert_vector; [done|]. eapply wf_In_vector; [by eapply grow_vector_In|].
  rewrite <- Ev. eapply wf_find_value; [exact Hh|exact En].
Qed.

Lemma keeps_setHash (path : string) (v : hash) (sep : ascii) (this : hash) :
  wf v -> wf this -> keeps_wf (setHash path v sep this).
Proof.
  intros Hv Ht. unfold setHash.
  pose proof (keeps_setNodesAsNeeded (tokenize path sep) this Ht) as H1.
  destruct (setNodesAsNeeded _ _) as [this1 leaf]. do 3 (apply keeps_eval; [exact H1|]; intros ? _).
  destruct a1 as [index k]. apply keeps_on_hash; [done|]. intros h Hh.
  pose proof (keeps_setHash_leaf index k v h Hv Hh) as H2.
  destruct (setHash_leaf index k v h) as [h1 r]. exact H2.
Qed.

Lemma wf_container_set_vector (key : string) (vect : list hash) (i : nat) (h : hash) (n : node) :
  wf h -> afind key h = Some n -> getValue_vector_Hash (nVal n) = Ret vect ->
  wf_value (VVecHash (delete i vect)) /\ wf_value (VVecHash vect).
Proof.
  intros Hh En Ev. pose proof (wf_find_value _ _ _ Hh En) as Hv.
  destruct (nVal n); try discriminate. injection Ev as ->. split; [|done].
  rewrite wf_vector, <- List.Forall_forall in *. by apply Forall_delete.
Qed.

Lemma keeps_erase (path : string) (sep : ascii) (this : hash) :
  wf this -> keeps_wf (erase path sep this).
Proof.
  intros Ht. unfold erase. apply keeps_eval; [done|]. intros [[p key]|] _; [|exact Ht].
  apply keeps_eval; [done|]. intros [index k] _. apply keeps_on_hash; [done|]. intros h Hh.
  destruct (_ =? _); [by apply wf_aerase|]. destruct (afind k h) as [n|] eqn:En; [|exact Hh].
  apply keeps_eval; [done|]. intros vect Ev. apply keeps_eval; [done|]. intros [e|] _; [|exact Hh].
  apply wf_aset; [|done]. exact (proj1 (wf_container_set_vector k vect _ h n Hh En Ev)).
Qed.

Lemma keeps_node_alter (np : node_ptr) (f : node -> node) (this : hash) :
  (forall n, nKey (f n) = nKey n) -> (forall n, wf_node n -> wf_node (f n)) ->
  wf this -> wf (node_alter np f this).
Proof. intros Hk Hf Ht. apply wf_hash_alter; [|done]. intros h Hh. by apply wf_aalter. Qed.

Lemma wf_setAttributes (a : attributes) (n : node) :
  awf a -> (forall x, In x a -> wf_value x.2) -> wf_node n -> wf_node (setAttributes a n).
Proof. intros Ha Hv (_ & Hn & _). by split. Qed.

Lemma keeps_setNode (n : node) (this : hash) : wf_node n -> wf this -> keeps_wf (setNode n this).
Proof.
  intros (Ha & Hv & Hs) Ht. unfold setNode.
  pose proof (keeps_set (nKey n) (nVal n) k_defaultSep this Hv Ht) as H1.
  destruct (set _ _ _ _) as [this1 el]. apply keeps_eval; [exact H1|]. intros np _.
  apply keeps_node_alter; [done| |exact H1]. intros; by apply wf_setAttributes.
Qed.

Lemma keeps_setAttributes_path (path : string) (a : attributes) (sep : ascii) (this : hash) :
  awf a -> (forall x, In x a -> wf_value x.2) -> wf this ->
  keeps_wf (setAttributes_path path a sep this).
Proof.
  intros Ha Hv Ht. unfold setAttributes_path. apply keeps_eval; [done|].
  intros [[p key]|] _; [|exact Ht]. apply keeps_eval; [done|]. intros [index k] _.
  destruct (_ =? _); [|exact Ht]. destruct (node_at _ _); [|exact Ht].
  apply keeps_node_alter; [done| |done]. intros; by apply wf_setAttributes.
Qed.

Lemma keeps_erasePath_loop (tokens : list string) (len : nat) :
  forall thePath sep this, wf this -> keeps_wf (erasePath_loop tokens len thePath sep this).
Proof.
  induction len as [|len IH]; intros thePath sep this Ht; [exact Ht|]. cbn [erasePath_loop].
  assert (forall this', wf this' -> keeps_wf (
    eval (holds_hashes (concat_tokens tokens len (String sep "")) sep this') this' (fun stop : bool =>
      if stop then (this', Ret tt)
      else erasePath_loop tokens len (concat_tokens tokens len (String sep "")) sep this'))) as Hc.
  { intros this' H1. apply keeps_eval; [done|]. intros [] _; [exact H1|by apply IH]. }
  apply keeps_eval; [done|]. intros [[p key]|] _; [|exact Ht].
  apply keeps_eval; [done|]. intros h Eh. unfold deref_hash in Eh.
  destruct (hash_at p this) as [h0|] eqn:E0; [|done]. injection Eh as ->.
  pose proof (wf_hash_at _ _ _ Ht E0) as Hh.
  apply keeps_eval; [done|]. intros [index k] _. destruct (_ =? _).
  - assert (wf (hash_alter p (aerase k) this)) as H1
      by (apply wf_hash_alter; [intros; by apply wf_aerase|done]).
    destruct len; [exact H1|]. by apply Hc.
  - destruct (afind k h) as [n|] eqn:En; [|exact Ht]. apply keeps_eval; [done|]. intros vect Ev.
    apply keeps_eval; [done|]. intros e _.
    set (vect' := match e with Some _ => _ | None => _ end).
    assert (wf (hash_alter p (container_set k (VVecHash vect')) this)) as H1.
    { apply wf_hash_alter; [|done]. intros; apply wf_aset; [|done].
      destruct (wf_container_set_vector k vect (Z.to_nat index) h n Hh En Ev). by destruct e. }
    destruct (negb _); [exact H1|]. destruct len.
    + pose proof (keeps_erase k sep _ H1) as H2. destruct (erase _ _ _). exact H2.
    + pose proof (keeps_erase (concat_tokens tokens (S len) (String sep "") +:+ String sep "" +:+ k)
        sep _ H1) as H2. destruct (erase _ _ _) as [this2 r]. apply keeps_eval; [exact H2|].
      intros _ _. by apply Hc.
Qed.

Lemma keeps_erasePath (path : string) (sep : ascii) (this : hash) :
  wf this -> keeps_wf (erasePath path sep this).
Proof.
  intros Ht. unfold erasePath.
  pose proof (keeps_erasePath_loop (tokenize path sep) (length (tokenize path sep)) path sep this Ht)
    as H1. destruct (erasePath_loop _ _ _ _ _). exact H1.
Qed.

(** C10: the invariant of the data: keys of nodes and of attributes are unique at every
    level.  Whatever their outcome, also when they throw half-way, the operations that
    change a Hash by path keep it. *)
Theorem operations_preserve_wf (path : string) (sep : ascii) (this : hash) :
  wf this ->
  (forall v, wf_value v -> wf (set path v sep this).1) /\
  (forall v, wf v -> wf (setHash path v sep this).1) /\
  (forall n, wf_node n -> wf (setNode n this).1) /\
  (forall a, awf a -> (forall x, In x a -> wf_value x.2) ->
     wf (setAttributes_path path a sep this).1) /\
  wf (erase path sep this).1 /\
  wf (erasePath path sep this).1.
Proof.
  intros Ht. split_and!.
  - intros; by apply keeps_set.
  - intros; by apply keeps_setHash.
  - intros; by apply keeps_setNode.
  - intros; by apply keeps_setAttributes_path.
  - by apply keeps_erase.
  - by apply keeps_erasePath.
Qed.

Lemma operations_preserve_wf_witness :
  wf [] /\ wf (set "a.b[2].c" VNone "." []).1.
Proof.
  split; [exact wf_nil|].
  destruct (operations_preserve_wf "a.b[2].c" "." [] wf_nil) as [Hset _].
  apply Hset. by apply wf_value_leaf.
Defined.

(** ** Properties of setHash and erase *)

Lemma setHash_leaf_Ret (index : Z) (k : string) (v leaf leaf' : hash) :
  setHash_leaf index k v leaf = (leaf', Ret tt) ->
  exists n, afind k leaf' = Some n /\ (index = -1 \/ 0 <= index) /\
    sub_hash (step_index index) (nVal n) = Some v.
Proof.
  assert (forall w, sub_hash (step_index index) w = Some v -> (index = -1 \/ 0 <= index) ->
    leaf' = aset k w leaf ->
    exists n, afind k leaf' = Some n /\ (index = -1 \/ 0 <= index) /\
      sub_hash (step_index index) (nVal n) = Some v) as Hset.
  { intros w Hw Hi ->. rewrite afind_set, decide_True by done. eauto. }
  assert (forall i (l : list hash), is_Some (l !! i) -> sub_hash (Some i) (VVecHash (<[i := v]> l)) = Some v)
    as Hins by (intros i l Hl%lookup_lt_is_Some; cbn; by apply list_lookup_insert_eq).
  unfold setHash_leaf, step_index in *. intros E. destruct (Z.eqb_spec index (-1)) as [Hi|Hi].
  { simplify_eq. by apply (Hset (VHash v)); [|left|]. }
  assert (forall l, new_vector index = Ret l -> 0 <= index ->
    sub_hash (Some (Z.to_nat index)) (VVecHash (<[Z.to_nat index := v]> l)) = Some v) as Hnew.
  { intros l [_ Hl]%new_vector_Ret Hi0. apply Hins. rewrite Hl by done. eauto. }
  destruct (afind k leaf) as [n|] eqn:En; [destruct (vector_cases (nVal n)) as [[l Ev]|[Ev _]];
    rewrite Ev in E|]; eval_inv.
  - apply grow_vector_Ret in Ha as [Hi0 Hl]; [|done]. simplify_eq.
    apply (Hset (VVecHash (<[Z.to_nat index := v]> a))); [|by right|done]. apply Hins. eauto.
  - destruct (Z.ltb_spec index 0); simplify_eq.
    apply (Hset (VVecHash (<[Z.to_nat index := v]> a))); [by apply Hnew|by right|done].
  - destruct (Z.ltb_spec index 0); simplify_eq.
    apply (Hset (VVecHash (<[Z.to_nat index := v]> a))); [by apply Hnew|by right|done].
Qed.

(** get<Hash> in a Hash whose node is known. *)
Lemma get_Hash_leaf (index : Z) (k lastKey : string) (v h : hash) (n : node) :
  getAndCropIndex lastKey = Ret (index, k) -> afind k h = Some n ->
  index = -1 \/ 0 <= index -> sub_hash (step_index index) (nVal n) = Some v ->
  (n ← container_getNode k h;
   if index =? -1 then getValue_Hash (nVal n)
   else hashVec ← getValue_vector_Hash (nVal n);
        h ← vector_at index hashVec;
        match h with Some h => Ret h | None => Throw ParameterException end) = Ret v.
Proof.
  intros Ek En Hi Hs. unfold container_getNode. rewrite En. cbn [mbind outcome_bind].
  pose proof (getAndCropIndex_int _ _ _ Ek). unfold step_index in Hs.
  destruct (Z.eqb_spec index (-1)); destruct (nVal n); try discriminate; cbn in *.
  - congruence.
  - by rewrite (vector_at_lookup index l v) by (done || lia).
Qed.

(** A Hash assigned to a plain key or to an element of an array, on any path on
    which the call succeeds, is what [get<Hash>] finds there afterwards. *)
Theorem setHash_get_Hash (path : string) (v : hash) (sep : ascii) (this this' : hash)
    (np : node_ptr) :
  setHash path v sep this = (this', Ret np) -> get_Hash path sep this' = Ret v.
Proof.
  unfold setHash. destruct (setNodesAsNeeded (tokenize path sep) this) as [this1 op] eqn:Es.
  intros E. eval_inv. subst op.
  pose proof (setNodesAsNeeded_Ret _ _ _ _ Es) as (lastKey & El & Eg & Eh).
  unfold back in Ha0. rewrite El in Ha0. simplify_eq. destruct a1 as [index k].
  unfold on_hash, deref_hash in E. rewrite Eh in E. cbn [eval] in E.
  set (leaf := default [] (hash_at a this)) in *.
  destruct (setHash_leaf index k v leaf) as [leaf' r] eqn:Ev. simplify_eq.
  unfold get_Hash, getLastHash, getLastHashPtr.
  rewrite (getLastHashPtr_loop_alter _ _ _ _ _ Eg). cbn [mbind outcome_bind].
  unfold deref_hash. rewrite hash_at_alter, Eh. cbn [fmap option_fmap option_map mbind outcome_bind].
  rewrite Ha1. cbn [mbind outcome_bind].
  assert (Ev' : setHash_leaf index k v leaf = (leaf', Ret tt))
    by (rewrite Ev; destruct r as [[]| | |]; simplify_eq; done).
  apply setHash_leaf_Ret in Ev' as (n & En & Hi & Hs). by eapply get_Hash_leaf.
Qed.

Lemma setHash_get_Hash_witness :
  exists this' np,
    setHash "a.rows[1]" [mkNode "x" [] (VBool true)] "." [] = (this', Ret np) /\
    get_Hash "a.rows[1]" "." this' = Ret [mkNode "x" [] (VBool true)].
Proof.
  eexists _, _. split; [vm_compute; reflexivity|].
  eapply (setHash_get_Hash "a.rows[1]" [mkNode "x" [] (VBool true)] "." []).
  vm_compute. reflexivity.
Defined.

Lemma aalter_ext_at {V N} `{MappedType V N} (k : string) (f g : N -> N) (l : list N) :
  (forall n, afind k l = Some n -> f n = g n) -> aalter k f l = aalter k g l.
Proof.
  induction l as [|x l IH]; cbn; [done|]. destruct (decide (getKey x = k)).
  - intros Hf. by rewrite Hf.
  - intros Hf. by rewrite IH.
Qed.

Lemma aalter_id {V N} `{MappedType V N} (k : string) (l : list N) : aalter k (fun n => n) l = l.
Proof. induction l as [|x l IH]; cbn; [done|]. rewrite IH. by case_decide. Qed.

Lemma sub_alter_ext (i : option nat) (f g : hash -> hash) (v : value) :
  (forall h, sub_hash i v = Some h -> f h = g h) -> sub_alter i f v = sub_alter i g v.
Proof.
  intros Hf. destruct i as [i|], v; try done; cbn in *; f_equal; [|by apply Hf].
  apply list_eq. intros j. rewrite !list_lookup_alter. case_decide as D; [|done].
  subst. destruct (l !! j) as [x|] eqn:E; [|done]. cbn. by rewrite (Hf x).
Qed.

Lemma sub_alter_id (i : option nat) (v : value) : sub_alter i (fun h => h) v = v.
Proof.
  destruct i as [i|], v; try done; cbn. f_equal.
  apply list_eq. intros j. rewrite !list_lookup_alter. case_decide as D; [|done].
  subst. by destruct (l !! j).
Qed.

(** Only the Hash that the pointer points to matters for the change. *)
Lemma hash_alter_ext (p : hash_ptr) (f g : hash -> hash) :
  forall this, (forall h, hash_at p this = Some h -> f h = g h) ->
  hash_alter p f this = hash_alter p g this.
Proof.
  induction p as [|[k i] p IH]; intros this Hf; cbn; [by apply Hf|].
  apply aalter_ext_at. intros n En. f_equal. apply sub_alter_ext. intros h Eh.
  apply IH. intros h' Eh'. apply Hf. cbn. by rewrite En, Eh.
Qed.

Lemma hash_alter_id (p : hash_ptr) (this : hash) : hash_alter p (fun h => h) this = this.
Proof.
  revert this. induction p as [|[k i] p IH]; intros this; [done|]. cbn [hash_alter].
  rewrite <- (aalter_id k this) at 2. apply aalter_ext_at. intros n _.
  destruct n as [nk na nv]. cbn. f_equal.
  rewrite <- (sub_alter_id i nv) at 2. apply sub_alter_ext. auto.
Qed.

Lemma hash_alter_same (p : hash_ptr) (this h : hash) :
  hash_at p this = Some h -> hash_alter p (fun _ => h) this = this.
Proof.
  intros E. rewrite <- (hash_alter_id p this) at 2. apply hash_alter_ext. congruence.
Qed.

Lemma child_total (index : Z) (v : value) :
  index = -1 \/ 0 <= index < 2 ^ 32 -> exists c, child index v = Ret c.
Proof.
  intros Hi. destruct (sub_hash (step_index index) v) as [h|] eqn:E.
  - rewrite (child_sub_hash _ _ _ Hi E). eauto.
  - rewrite (child_sub_hash_None _ _ Hi E). eauto.
Qed.

Lemma valid_token_Ret (t : string) :
  valid_token t = true -> exists index k, getAndCropIndex t = Ret (index, k) /\
    (index = -1 \/ 0 <= index < 2 ^ 32).
Proof.
  unfold valid_token. destruct (getAndCropIndex t) as [[index k]| | |]; try done.
  intros [->%Z.eqb_eq|[?%Z.leb_le ?%Z.ltb_lt]%andb_prop]%orb_prop; eauto 6.
  exists index, k. split; [done|]. lia.
Qed.

(** On a usable path getLastHashPtr gives a null pointer or a pointer. *)
Lemma getLastHashPtr_loop_total (ts : list string) :
  forall h, valid_tokens ts = true ->
  getLastHashPtr_loop ts h = Ret None \/
  exists p lastKey k, getLastHashPtr_loop ts h = Ret (Some (p, lastKey)) /\
    last ts = Some lastKey /\ getAndCropIndex lastKey = Ret (-1, k).
Proof.
  induction ts as [|t ts IH]; intros h Hv; [done|]. destruct ts as [|t' ts].
  - destruct (leaf_token_Ret t Hv) as [k Ek]. right. by exists [], t, k.
  - apply andb_prop in Hv as [Ht Hv]. apply valid_token_Ret in Ht as (index & k & Et & Hi).
    change (getLastHashPtr_loop (t :: t' :: ts) h) with
      ('(index, token) ← getAndCropIndex t;
       match afind token h with
       | None => Ret None
       | Some n =>
          c ← child index (nVal n);
          match c with
          | None => Ret None
          | Some (i, h) =>
              r ← getLastHashPtr_loop (t' :: ts) h; Ret (extend_ptr (token, i) r)
          end
       end).
    rewrite Et. cbn [mbind outcome_bind]. destruct (afind k h) as [n|]; [|by left].
    destruct (child_total index (nVal n) Hi) as [[[i h']|] ->]; cbn [mbind outcome_bind]; [|by left].
    destruct (IH h' Hv) as [->|(p & lastKey & k' & -> & El & Ek)]; [by left|right].
    by exists ((k, i) :: p), lastKey, k'.
Qed.

(** A change to one key of the Hash at the end of [ts] does not change what is found
    along tokens that diverge from [ts]. *)
Lemma getNode_loop_alter_frame (ts : list string) (f : hash -> hash) (k : string) :
  (forall h k', k' <> k -> afind k' (f h) = afind k' h) ->
  forall us h p lastKey,
  valid_tokens us = true -> diverge ts us = true ->
  getLastHashPtr_loop ts h = Ret (Some (p, lastKey)) ->
  getAndCropIndex lastKey = Ret (-1, k) ->
  getNode_loop us (hash_alter p f h) = getNode_loop us h.
Proof.
  intros Hf. induction ts as [|t ts IH]; intros us h p lastKey Hu Hd Ep Ek; [done|].
  destruct us as [|u us]; [done|]. cbn [diverge] in Hd.
  destruct (getAndCropIndex t) as [[i kt]| | |] eqn:Et; try done.
  destruct (getAndCropIndex u) as [[j ku]| | |] eqn:Eu; try done.
  destruct ts as [|t' ts].
  - cbn in Ep. simplify_eq. cbn [hash_alter].
    rewrite andb_false_r, orb_false_r in Hd. apply bool_decide_eq_true in Hd.
    eapply getNode_loop_head; [done|]. apply Hf. congruence.
  - apply getLastHashPtr_loop_cons in Ep
      as (index & k1 & n & h' & p' & Et' & En & Hi & Hs & El & ->).
    rewrite Et in Et'. injection Et' as -> ->. destruct (decide (k1 = ku)) as [->|Hne].
    + rewrite bool_decide_eq_false_2 in Hd by tauto. apply andb_prop in Hd as [Hij Hd].
      apply bool_decide_eq_true in Hij as ->. destruct us as [|u' us]; [done|].
      apply andb_prop in Hu as [Hu1 Hu]. rewrite !(getNode_loop_cons u u' us _ _ _ Eu) by done.
      cbn [hash_at hash_alter]. rewrite afind_alter, decide_True, En by done.
      cbn [setValue node_mapped nVal fmap option_fmap option_map].
      rewrite sub_hash_alter, Hs. cbn [fmap option_fmap option_map default]. by eapply IH.
    + eapply getNode_loop_head; [done|]. cbn [hash_alter].
      rewrite afind_alter by done. by rewrite decide_False by congruence.
Qed.

Lemma afind_erase_ne (k k' : string) (h : hash) : k' <> k -> afind k' (aerase k h) = afind k' h.
Proof.
  intros Hk. induction h as [|n h IH]; cbn; [done|]. destruct (decide (nKey n = k)); cbn.
  - by rewrite decide_False by congruence.
  - by rewrite IH.
Qed.

(** C17: [erase] on a well-formed Hash, for a path that ends in a plain key: it returns
    whether the path existed; after it the path does not exist; a Hash that did not
    have the path is unchanged; and what is found under a path that goes elsewhere is
    as before. *)
Theorem erase_spec (path : string) (sep : ascii) (this : hash) :
  wf this -> valid_path path sep = true ->
  exists this' b,
    erase path sep this = (this', Ret b) /\ has path sep this = Ret b /\
    has path sep this' = Ret false /\ (b = false -> this' = this) /\
    forall other, valid_path other sep = true -> paths_diverge path other sep = true ->
      getNode other sep this' = getNode other sep this.
Proof.
  intros Ht Hv. destruct (getLastHashPtr_loop_total (tokenize path sep) this Hv)
    as [E|(p & lastKey & k & E & El & Ek)].
  - exists this, false. unfold erase, has, getLastHashPtr. by rewrite E.
  - destruct (getLastHashPtr_loop_valid _ _ _ _ E) as [h Eh].
    exists (hash_alter p (fun _ => aerase k h) this), (ahas k h).
    assert (awf h) as Hh by (by apply wf_nodes, (wf_hash_at p this)).
    destruct (getNode_at path sep this h p lastKey k E Eh Ek) as [_ Hhas].
    assert (hash_at p (hash_alter p (fun _ => aerase k h) this) = Some (aerase k h)) as Eh'
      by (by rewrite hash_at_alter, Eh).
    destruct (getNode_at path sep _ _ p lastKey k
      (getLastHashPtr_loop_alter _ (fun _ => aerase k h) _ _ _ E) Eh' Ek) as [_ Hhas'].
    split_and!.
    + unfold erase, getLastHashPtr. rewrite E. cbn [eval]. rewrite Ek. cbn [eval].
      unfold on_hash, deref_hash. by rewrite Eh.
    + done.
    + rewrite Hhas'. unfold ahas. by rewrite afind_erase, decide_True.
    + intros Hb. rewrite aerase_notin; [by apply hash_alter_same|].
      apply afind_None. unfold ahas in Hb. by destruct (afind k h).
    + intros other Ho Hd. rewrite !getNode_walk.
      rewrite (hash_alter_ext p _ (aerase k) this) by congruence.
      eapply getNode_loop_alter_frame; try done. intros; by apply afind_erase_ne.
Qed.

Lemma erase_spec_witness :
  exists this' b, erase "a.b" "." [mkNode "a" [] (VHash [mkNode "b" [] VNone])] = (this', Ret b) /\
    has "a.b" "." this' = Ret false.
Proof.
  destruct (erase_spec "a.b" "." [mkNode "a" [] (VHash [mkNode "b" [] VNone])])
    as (this' & b & E & _ & Hb & _).
  - apply (wf_aset "a" (VHash [mkNode "b" [] VNone]) []); [|exact wf_nil].
    apply (wf_aset "b" VNone []); [by apply wf_value_leaf|exact wf_nil].
  - vm_compute. reflexivity.
  - exists this', b. split; [exact E|exact Hb].
Defined.

(** ** Termination of look-ups, and setting a key that is no path *)

Lemma child_fuel (index : Z) (v : value) : child index v <> OutOfFuel.
Proof. unfold child, vector_at. destruct v; no_fuel. Qed.
#[export] Hint Resolve child_fuel : fuel.

Lemma getLastHashPtr_loop_fuel (ts : list string) : forall h, getLastHashPtr_loop ts h <> OutOfFuel.
Proof.
  induction ts as [|t ts IH]; intros h; [discriminate|]. destruct ts as [|t' ts]; [discriminate|].
  change (getLastHashPtr_loop (t :: t' :: ts) h) with
    ('(index, token) ← getAndCropIndex t;
     match afind token h with
     | None => Ret None
     | Some n => c ← child index (nVal n);
         match c with
         | None => Ret None
         | Some (i, h) => r ← getLastHashPtr_loop (t' :: ts) h; Ret (extend_ptr (token, i) r)
         end
     end).
  pose proof (IH : forall h, getLastHashPtr_loop (t' :: ts) h <> OutOfFuel). no_fuel.
Qed.

Lemma getLastHash_fuel (path : string) (sep : ascii) (h : hash) : getLastHash path sep h <> OutOfFuel.
Proof.
  unfold getLastHash. apply outcome_bind_fuel; [apply getLastHashPtr_loop_fuel|].
  intros [[p k]|] _; [|discriminate]. unfold deref_hash. no_fuel.
Qed.
#[export] Hint Resolve getLastHash_fuel : fuel.

Lemma getNode_fuel (path : string) (sep : ascii) (h : hash) : getNode path sep h <> OutOfFuel.
Proof. unfold getNode, container_getNode. no_fuel. Qed.
#[export] Hint Resolve getNode_fuel : fuel.

Lemma is_T_fuel (t : type_info) (path : string) (sep : ascii) (h : hash) : is_T t path sep h <> OutOfFuel.
Proof. unfold is_T, getValue_vector_Hash. no_fuel. Qed.

Lemma get_Hash_fuel (path : string) (sep : ascii) (h : hash) : get_Hash path sep h <> OutOfFuel.
Proof. unfold get_Hash, container_getNode, getValue_Hash, getValue_vector_Hash, vector_at. no_fuel. Qed.
#[export] Hint Resolve is_T_fuel get_Hash_fuel : fuel.

(** A key in which the separator does not occur is one token. *)
Lemma set_single (key : string) (v : value) (sep : ascii) (h : hash) :
  free_of sep key ->
  set key v sep h =
    match getAndCropIndex key with
    | Ret (index, k) => if index =? -1 then (container_set k v h, Ret ([], k))
                        else (h, Throw NotSupportedException)
    | Throw e => (h, Throw e)
    | Undef => (h, Undef)
    | OutOfFuel => (h, OutOfFuel)
    end.
Proof. intros Hf. unfold set. rewrite tokenize_free by done. cbn. by destruct (getAndCropIndex key). Qed.
