(* ===== verification/HashPaths.v ===== *)
(** The paths of a Hash (data/types/Hash.cc): getKeys, getPaths, getDeepPaths, flatten
    and unflatten. *)

From Stdlib Require Import ZArith Lia Ascii String.
From stdpp Require Import base numbers list strings gmap.
From S2P Require Import Prelude Types Strings OrderedMap Hash HashAccess.
Import Types.

Open Scope Z_scope.

(** ** Definitions *)

(** getKeys, as a vector *)
Definition getKeys (h : hash) : list string := nKey <$> h.

(** [prefix + separators + key], [separators] being the separator as a C string. *)
Definition currentKey (prefix : string) (separator : ascii) (key : string) : string :=
  if bool_decide (prefix = "") then key
  else prefix +:+ str (c_str [separator; NUL]) +:+ key.

(** The elements of a vector, each with its index in brackets behind the key. *)
Fixpoint enumerate {A B} (f : A -> string -> list B) (key : string) (i : Z) (l : list A) : list B :=
  match l with
  | [] => []
  | x :: l' => f x (indexed key i) ++ enumerate f key (i + 1) l'
  end.

(** Hash::getPaths(hash, result, prefix, separator, fullPaths): what it appends to
    [result]; [node_paths] is one round of its loop, for the node's value. *)
Fixpoint node_paths (separator : ascii) (fullPaths : bool) (classId : bool) (v : value)
    (key : string) : list string :=
  let hash_paths (h : hash) (prefix : string) : list string :=
    match h with
    | [] => [prefix]
    | _ => flat_map (fun n => node_paths separator fullPaths (hasAttribute KARABO_HASH_CLASS_ID n)
                                (nVal n) (currentKey prefix separator (nKey n))) h
    end in
  match v with
  | VHash h => if fullPaths || negb classId then hash_paths h key else [key]
  | VVecHash l =>
      match l with
      | [] => [key]
      | _ => enumerate hash_paths key 0 l
      end
  | _ => [key]
  end.

Definition hash_paths (separator : ascii) (fullPaths : bool) (h : hash) (prefix : string)
  : list string :=
  match h with
  | [] => [prefix]
  | _ => flat_map (fun n => node_paths separator fullPaths (hasAttribute KARABO_HASH_CLASS_ID n)
                              (nVal n) (currentKey prefix separator (nKey n))) h
  end.

Definition getPaths (separator : ascii) (h : hash) : list string :=
  match h with [] => [] | _ => hash_paths separator false h "" end.
Definition getDeepPaths (separator : ascii) (h : hash) : list string :=
  match h with [] => [] | _ => hash_paths separator true h "" end.

(** Runs effects one after the other. *)
Definition seq {A B} (x : effect A) (f : hash -> effect B) : effect B :=
  let '(h, a) := x in eval a h (fun _ => f h).

Fixpoint seq_list {A} (f : A -> hash -> effect unit) (l : list A) (h : hash) : effect unit :=
  match l with
  | [] => (h, Ret tt)
  | x :: l' => seq (f x h) (seq_list f l')
  end.

(** The loop over the elements of a vector, with their printed indices. *)
Fixpoint seq_enumerate {A} (f : A -> string -> hash -> effect unit) (key : string) (i : Z)
    (l : list A) (h : hash) : effect unit :=
  match l with
  | [] => (h, Ret tt)
  | x :: l' => seq (f x (indexed key i) h) (seq_enumerate f key (i + 1) l')
  end.

(** One round of the loop of Hash::flatten(hash, flat, prefix, separator), for a node
    with the given attributes and value. *)
Fixpoint node_flatten (separator : ascii) (attrs : attributes) (v : value) (key : string)
    (flat : hash) : effect unit :=
  let hash_flatten (h : hash) (prefix : string) (flat : hash) : effect unit :=
    seq_list (fun n => node_flatten separator (nAttrs n) (nVal n)
                         (currentKey prefix separator (nKey n))) h flat in
  let leaf :=
    seq (set key v NUL flat) (fun flat => setAttributes_path key attrs NUL flat) in
  match v with
  | VHash h => if negb (ahas KARABO_HASH_CLASS_ID attrs) then hash_flatten h key flat else leaf
  | VVecHash l => seq_enumerate hash_flatten key 0 l flat
  | _ => leaf
  end.

Definition hash_flatten (separator : ascii) (h : hash) (prefix : string) (flat : hash) : effect unit :=
  seq_list (fun n => node_flatten separator (nAttrs n) (nVal n)
                       (currentKey prefix separator (nKey n))) h flat.

(** Hash::flatten(flat, separator) *)
Definition flatten (separator : ascii) (this flat : hash) : effect unit :=
  hash_flatten separator this "" flat.

(** Hash::unflatten(tree, separator) *)
Definition unflatten (separator : ascii) (this tree : hash) : effect unit :=
  seq_list (fun n tree =>
    seq (set (nKey n) (nVal n) separator tree)
      (fun tree => setAttributes_path (nKey n) (nAttrs n) separator tree)) this tree.

(** ** Joined paths *)

Lemma string_app_assoc (a b c : string) : (a +:+ b) +:+ c = a +:+ b +:+ c.
Proof. apply chars_inj. rewrite !chars_app. by rewrite app_assoc. Qed.

Lemma join_snoc (s : string) (pre : list string) (k : string) :
  pre <> [] -> join s (pre ++ [k]) = join s pre +:+ s +:+ k.
Proof.
  induction pre as [|t pre IH]; [done|]. intros _. destruct pre as [|t' pre]; [done|].
  change ((t :: t' :: pre) ++ [k]) with (t :: ((t' :: pre) ++ [k])).
  rewrite join_cons, IH, (join_cons s t (t' :: pre)) by done.
  by rewrite !string_app_assoc.
Qed.

Lemma indexed_app (a k : string) (i : Z) : indexed (a +:+ k) i = a +:+ indexed k i.
Proof. unfold indexed. by rewrite string_app_assoc. Qed.

Lemma indexed_join (s : string) (pre : list string) (k : string) (i : Z) :
  indexed (join s (pre ++ [k])) i = join s (pre ++ [indexed k i]).
Proof.
  destruct pre as [|t pre]; [done|]. rewrite !join_snoc by done.
  by rewrite !indexed_app.
Qed.

Lemma join_nonempty (s : string) (pre : list string) :
  pre <> [] -> Forall (fun t => t <> "") pre -> join s pre <> "".
Proof.
  destruct pre as [|t [|t' pre]]; [done| |]; intros _ Hf; inversion_clear Hf as [|? ? Ht _]; [done|].
  rewrite join_cons by done. by destruct t.
Qed.

Lemma currentKey_join (sep : ascii) (pre : list string) (k : string) :
  sep <> NUL -> Forall (fun t => t <> "") pre ->
  currentKey (join (str [sep]) pre) sep k = join (str [sep]) (pre ++ [k]).
Proof.
  intros Hs Hf. unfold currentKey. destruct pre as [|t pre]; [done|].
  rewrite bool_decide_eq_false_2 by (by apply join_nonempty).
  rewrite join_snoc by done. cbn [c_str]. rewrite decide_False by done.
  by rewrite decide_True.
Qed.

(** ** The way along a path *)

(** The tokens [toks] lead from [h] to the Hash [leaf], where [lastKey] is looked up. *)
Definition leads (toks : list string) (h leaf : hash) (lastKey : string) : Prop :=
  exists p, getLastHashPtr_loop toks h = Ret (Some (p, lastKey)) /\ hash_at p h = Some leaf.

Lemma leads_one (t : string) (h : hash) : leads [t] h h t.
Proof. by exists []. Qed.

Lemma leads_cons (t k lastKey : string) (toks : list string) (h h' leaf : hash) (n : node) (i : Z) :
  getAndCropIndex t = Ret (i, k) -> afind k h = Some n -> i = -1 \/ 0 <= i ->
  sub_hash (step_index i) (nVal n) = Some h' -> toks <> [] ->
  leads toks h' leaf lastKey -> leads (t :: toks) h leaf lastKey.
Proof.
  intros Et En Hi Hs Hne (p & El & Ep). destruct toks as [|t' toks]; [done|].
  exists ((k, step_index i) :: p). split.
  - apply getLastHashPtr_loop_cons. by exists i, k, n, h', p.
  - cbn. by rewrite En, Hs.
Qed.

(** The last key names a node of [leaf], or an element of a vector in it. *)
Definition hit (leaf : hash) (lastKey : string) : Prop :=
  exists i k n, getAndCropIndex lastKey = Ret (i, k) /\ afind k leaf = Some n /\
    (i = -1 \/ (0 <= i /\ exists l, nVal n = VVecHash l /\ i < Z.of_nat (length l))).

Lemma leads_has (path : string) (sep : ascii) (h leaf : hash) (lastKey : string) :
  leads (tokenize path sep) h leaf lastKey -> hit leaf lastKey -> has path sep h = Ret true.
Proof.
  intros (p & El & Ep) (i & k & n & Ek & En & Hi). unfold has, getLastHashPtr. rewrite El.
  cbn [mbind outcome_bind]. unfold deref_hash. rewrite Ep. cbn [mbind outcome_bind].
  rewrite Ek. cbn [mbind outcome_bind]. unfold ahas, container_getNode. rewrite En. cbn [negb].
  destruct Hi as [->|(H0 & l & El' & Hl)]; [done|].
  destruct (Z.eqb_spec i (-1)); [done|]. cbn [mbind outcome_bind]. rewrite El'.
  cbn [mbind outcome_bind getValue_vector_Hash]. pose proof (getAndCropIndex_int _ _ _ Ek).
  unfold u32. rewrite wrap_small by lia. f_equal. by apply Z.ltb_lt.
Qed.

(** ** Hashes with plain keys *)

(** A key that getPaths prints so that it can be read back. *)
Definition plain_key (sep : ascii) (k : string) : Prop :=
  k <> "" /\ free_of sep k /\ last (chars k) <> Some "]"%char.

(** Keys are plain at every level, and indices of vectors of Hashes are [int]s. *)
Inductive plain (sep : ascii) (v : value) : Prop :=
| plain_intro :
    (forall h n, In h (value_hashes v) -> In n h -> plain_key sep (nKey n)) ->
    (forall l, v = VVecHash l -> Z.of_nat (length l) < 2 ^ 31) ->
    (forall c, In c (children v) -> plain sep c) ->
    plain sep v.

(** A separator that does not occur in a printed index. *)
Definition plain_separator (sep : ascii) : Prop :=
  sep <> NUL /\ sep <> "["%char /\ sep <> "]"%char /\ is_digit sep = false.

Lemma free_of_indexed (sep : ascii) (k : string) (i : Z) :
  plain_separator sep -> 0 <= i -> free_of sep k -> free_of sep (indexed k i).
Proof.
  intros (_ & H1 & H2 & Hd) Hi Hk. unfold free_of in *. rewrite chars_indexed.
  rewrite !not_elem_of_app, not_elem_of_cons, list_elem_of_singleton. split_and!; try done.
  apply digit_chars_notin; [by apply decimal_digits|done].
Qed.

Lemma indexed_nonempty (k : string) (i : Z) : indexed k i <> "".
Proof. unfold indexed. by destruct k. Qed.

Lemma enumerate_In {A B} (f : A -> string -> list B) (key : string) (l : list A) (y : B) :
  forall i, In y (enumerate f key i l) ->
  exists j x, l !! j = Some x /\ In y (f x (indexed key (i + Z.of_nat j))).
Proof.
  induction l as [|x l IH]; intros i; cbn; [done|]. intros [Hy|Hy]%in_app_or.
  - exists 0%nat, x. split; [done|]. by rewrite Z.add_0_r.
  - destruct (IH (i + 1) Hy) as (j & x' & Hj & Hx'). exists (S j), x'. split; [done|].
    by replace (i + Z.of_nat (S j)) with (i + 1 + Z.of_nat j) by lia.
Qed.

Lemma plain_hash_node (sep : ascii) (h : hash) (v : value) (n : node) :
  plain sep v -> In h (value_hashes v) -> (forall c, In c (hash_values h) -> In c (children v)) ->
  In n h -> plain_key sep (nKey n) /\ plain sep (nVal n) /\ In (nVal n) (children v).
Proof.
  intros [Hk _ Hc] Hh Hs Hn.
  assert (In (nVal n) (children v)) as Hin by (apply Hs, in_flat_map; exists n; split; [done|by left]).
  split; [by apply (Hk h)|]. split; [by apply Hc|done].
Qed.

(** ** getPaths *)

Section paths.
Context (sep : ascii) (Hsep : plain_separator sep).

Abbreviation joined := (join (str [sep])).

(** Tokens [more] behind [pre] make the path [q] and lead from [h] to something. *)
Definition reached (h : hash) (pre : list string) (q : string)
    (found : hash -> string -> Prop) : Prop :=
  exists more leaf lastKey,
    q = joined (pre ++ more) /\ more <> [] /\ Forall (free_of sep) more /\
    leads more h leaf lastKey /\ found leaf lastKey.

Lemma reached_one (h : hash) (pre : list string) (t : string) (found : hash -> string -> Prop) :
  free_of sep t -> found h t -> reached h pre (joined (pre ++ [t])) found.
Proof.
  intros Ht Hf. exists [t], h, t. split_and!; try done; [by apply Forall_singleton|apply leads_one].
Qed.

Lemma reached_cons (h h' : hash) (pre : list string) (t k q : string) (i : Z) (n : node)
    (found : hash -> string -> Prop) :
  free_of sep t -> getAndCropIndex t = Ret (i, k) -> afind k h = Some n ->
  i = -1 \/ 0 <= i -> sub_hash (step_index i) (nVal n) = Some h' ->
  reached h' (pre ++ [t]) q found -> reached h pre q found.
Proof.
  intros Ht Et En Hi Hs (more & leaf & lastKey & -> & Hne & Hf & Hl & Hr).
  exists (t :: more), leaf, lastKey. split_and!; try done.
  - by rewrite <- app_assoc.
  - by constructor.
  - by eapply leads_cons.
Qed.

Lemma wf_afind (h : hash) (n : node) : wf h -> In n h -> afind (nKey n) h = Some n.
Proof.
  intros [Hw _]%wf_nodes Hn. apply (afind_elem_wf h n Hw). by apply list_elem_of_In.
Qed.

Lemma node_paths_reached (full : bool) (v : value) :
  plain sep v ->
  forall h n pre q c, wf h -> In n h -> nVal n = v -> plain_key sep (nKey n) ->
  Forall (fun t => t <> "") pre ->
  In q (node_paths sep full c v (joined (pre ++ [nKey n]))) ->
  reached h pre q hit.
Proof.
  revert v. refine (value_children_ind _ _). intros v IH Hv h n pre q c Hw Hn Ev Hk Hpre Hq.
  pose proof (wf_afind h n Hw Hn) as En. destruct Hk as (Hk0 & Hkf & Hk).
  pose proof (crop_plain _ Hk) as Ek.
  assert (wf_value v) as Hwv by (rewrite <- Ev; apply wf_nodes in Hw as [_ Hw]; by apply Hw).
  assert (reached h pre (joined (pre ++ [nKey n])) hit) as Hself.
  { apply reached_one; [done|]. exists (-1), (nKey n), n. auto. }
  (* the loop over a Hash below the node *)
  assert (forall h' t i, In h' (value_hashes v) ->
    (forall c, In c (hash_values h') -> In c (children v)) -> wf h' ->
    free_of sep t -> t <> "" -> getAndCropIndex t = Ret (i, nKey n) -> i = -1 \/ 0 <= i ->
    sub_hash (step_index i) v = Some h' -> (h' = [] -> hit h t) ->
    In q (hash_paths sep full h' (joined (pre ++ [t]))) -> reached h pre q hit) as Hloop.
  { intros h' t i Hin Hsub Hw' Htf Ht0 Et Hi Hs Hhit Hq'. destruct h' as [|m h'].
    - destruct Hq' as [<-|[]]. apply reached_one; auto.
    - apply in_flat_map in Hq' as (m' & Hm' & Hq').
      destruct (plain_hash_node sep _ v m' Hv Hin Hsub Hm') as (Hmk & Hmp & Hmc).
      apply (reached_cons h (m :: h') pre t (nKey n) q i n hit);
        [exact Htf|exact Et|exact En|exact Hi|rewrite Ev; exact Hs|].
      assert (Forall (fun t => t <> "") (pre ++ [t])) as Hpre'
        by (apply Forall_app; split; [done|by apply Forall_singleton]).
      rewrite currentKey_join in Hq' by (apply Hsep || done).
      by apply (IH (nVal m') Hmc Hmp _ m' _ _ _ Hw' Hm' eq_refl Hmk Hpre' Hq'). }
  destruct v; try (destruct Hq as [<-|[]]; exact Hself).
  - cbn [node_paths] in Hq. destruct (full || negb c); [|by destruct Hq as [<-|[]]].
    apply (Hloop h0 (nKey n) (-1)); [by left|exact (fun _ H => H)|exact Hwv|exact Hkf|exact Hk0
      |exact Ek|by left|reflexivity| |exact Hq].
    intros _. exists (-1), (nKey n), n. auto.
  - cbn [node_paths] in Hq. destruct l as [|x l]; [by destruct Hq as [<-|[]]|].
    apply enumerate_In in Hq as (j & h' & Hj & Hq). rewrite Z.add_0_l, indexed_join in Hq.
    assert (In h' (x :: l)) as Hin by (by apply list_elem_of_In, list_elem_of_lookup_2 with j).
    pose proof (lookup_lt_Some _ _ _ Hj) as Hlt. destruct Hv as [_ Hlen _].
    specialize (Hlen _ eq_refl).
    assert (getAndCropIndex (indexed (nKey n) (Z.of_nat j)) = Ret (Z.of_nat j, nKey n)) as Ei
      by (apply crop_indexed; lia).
    apply (Hloop h' (indexed (nKey n) (Z.of_nat j)) (Z.of_nat j));
      [exact Hin| | | | |exact Ei| | | |exact Hq].
    + intros y Hy. apply in_flat_map. eauto.
    + exact (proj1 (wf_vector (x :: l)) Hwv h' Hin).
    + apply free_of_indexed; [done|lia|done].
    + apply indexed_nonempty.
    + right. lia.
    + unfold step_index. destruct (Z.eqb_spec (Z.of_nat j) (-1)); [lia|]. cbn.
      by rewrite Nat2Z.id.
    + intros _. exists (Z.of_nat j), (nKey n), n. split_and!; [done|done|right].
      split; [lia|]. exists (x :: l). split; [done|]. lia.
Qed.
End paths.

(** C16: on a Hash with plain keys (not empty, without separator, not ending in a
    bracket) every path that getPaths or getDeepPaths lists exists in the Hash: [has]
    says so, also for the elements of vectors of Hashes and for empty Hashes. *)
Theorem getPaths_has (sep : ascii) (h : hash) (path : string) :
  plain_separator sep -> wf h -> plain sep (VHash h) ->
  path ∈ getPaths sep h ++ getDeepPaths sep h -> has path sep h = Ret true.
Proof.
  intros Hsep Hw Hp Hin.
  assert (exists full, In path (flat_map (fun n => node_paths sep full
    (hasAttribute KARABO_HASH_CLASS_ID n) (nVal n) (currentKey "" sep (nKey n))) h)) as (full & Hq).
  { rewrite list_elem_of_In in Hin. apply in_app_or in Hin.
    destruct h; [by destruct Hin as [[]|[]]|]. destruct Hin as [?|?]; [by exists false|by exists true]. }
  apply in_flat_map in Hq as (n & Hn & Hq).
  destruct (plain_hash_node sep h (VHash h) n Hp) as (Hk & Hv & _); [by left|done|done|].
  change (currentKey "" sep (nKey n)) with (join (str [sep]) ([] ++ [nKey n])) in Hq.
  destruct (node_paths_reached sep Hsep full (nVal n) Hv h n [] path _ Hw Hn eq_refl Hk
    (Forall_nil_2 _) Hq) as (more & leaf & lastKey & -> & Hne & Hf & Hl & Hhit).
  eapply leads_has; [|done]. cbn [app]. rewrite tokenize_join; [done|apply Hsep|done|done].
Qed.

Lemma getPaths_has_witness :
  has "a[1].b" "." [mkNode "a" [] (VVecHash [[]; [mkNode "b" [] VNone]])] = Ret true.
Proof.
  apply (getPaths_has "." [mkNode "a" [] (VVecHash [[]; [mkNode "b" [] VNone]])]).
  - repeat split; discriminate.
  - apply (wf_aset "a" (VVecHash [[]; [mkNode "b" [] VNone]]) []); [|exact wf_nil].
    apply wf_vector. intros h [<-|[<-|[]]]; [exact wf_nil|].
    apply (wf_aset "b" VNone []); [by apply wf_value_leaf|exact wf_nil].
  - assert (forall k, k ∈ ["a"; "b"]%string -> plain_key "." k) as Hk.
    { intros k [->|[->|[]%elem_of_nil]%elem_of_cons]%elem_of_cons;
        (split; [discriminate|split; [|discriminate]]; unfold free_of;
         apply not_elem_of_cons; split; [discriminate|apply not_elem_of_nil]). }
    assert (plain "." VNone) as Hn by (by constructor).
    constructor; cbn; [|done|].
    + intros h n [<-|[]] [<-|[]]. apply Hk. set_solver.
    + intros c [<-|[]]. constructor; cbn.
      * intros h n [<-|[<-|[]]] Hin; [done|]. destruct Hin as [<-|[]]. apply Hk. set_solver.
      * by intros l [= <-].
      * by intros c [<-|[]].
  - vm_compute. set_solver.
Defined.

(** ** flatten *)

(** The leaves of a node: all values that are not a Hash (a Hash that was an instance of
    another class is a leaf as well) with their paths as keys. *)
Fixpoint node_leaves (sep : ascii) (attrs : attributes) (v : value) (key : string) : list node :=
  let hash_leaves (h : hash) (prefix : string) : list node :=
    flat_map (fun n => node_leaves sep (nAttrs n) (nVal n) (currentKey prefix sep (nKey n))) h in
  match v with
  | VHash h => if negb (ahas KARABO_HASH_CLASS_ID attrs) then hash_leaves h key
               else [mkNode key attrs v]
  | VVecHash l => enumerate hash_leaves key 0 l
  | _ => [mkNode key attrs v]
  end.

Definition leaves (sep : ascii) (h : hash) : list node :=
  flat_map (fun n => node_leaves sep (nAttrs n) (nVal n) (currentKey "" sep (nKey n))) h.

(** Adds one leaf to the flat Hash. *)
Definition put (flat : hash) (n : node) : hash :=
  aalter (nKey n) (setAttributes (nAttrs n)) (aset (nKey n) (nVal n) flat).

Definition no_bracket (k : string) : Prop := last (chars k) <> Some "]"%char.

Lemma flatten_leaf (key : string) (v : value) (attrs : attributes) (flat : hash) :
  no_bracket key ->
  seq (set key v NUL flat) (fun flat => setAttributes_path key attrs NUL flat) =
  (put flat (mkNode key attrs v), Ret tt).
Proof.
  intros Hk. unfold set, setAttributes_path, getLastHashPtr, seq. rewrite tokenize_NUL.
  cbn [setNodesAsNeeded eval back last]. rewrite (crop_plain _ Hk). cbn [eval Z.eqb].
  unfold on_hash. cbn [deref_hash hash_at eval hash_alter getLastHashPtr_loop].
  rewrite (crop_plain _ Hk). cbn [eval Z.eqb]. unfold node_at. cbn [hash_at fst snd].
  unfold container_set.
  cbn [Pos.eqb eval]. by rewrite afind_set, decide_True.
Qed.

Lemma seq_list_put {A} (f : A -> hash -> effect unit) (g : A -> list node) (l : list A) :
  (forall x h, In x l -> f x h = (foldl put h (g x), Ret tt)) ->
  forall h, seq_list f l h = (foldl put h (flat_map g l), Ret tt).
Proof.
  induction l as [|x l IH]; intros Hf h; [done|]. cbn. unfold seq.
  rewrite Hf by (by left). cbn [eval]. rewrite IH by (intros; apply Hf; by right).
  by rewrite foldl_app.
Qed.

Lemma seq_enumerate_put {A} (f : A -> string -> hash -> effect unit)
    (g : A -> string -> list node) (key : string) (l : list A) :
  (forall x k h, In x l -> f x k h = (foldl put h (g x k), Ret tt)) ->
  forall i h, seq_enumerate f key i l h = (foldl put h (enumerate g key i l), Ret tt).
Proof.
  induction l as [|x l IH]; intros Hf i h; [done|]. cbn. unfold seq.
  rewrite Hf by (by left). cbn [eval]. rewrite IH by (intros; apply Hf; by right).
  by rewrite foldl_app.
Qed.

Lemma last_app_ne {A} (l l' : list A) : l' <> [] -> last (l ++ l') = last l'.
Proof. intros H. rewrite last_app. destruct (last l') eqn:E; [done|]. by apply last_None in E. Qed.

Lemma node_flatten_put (sep : ascii) (v : value) :
  forall attrs key flat,
  Forall (fun n => no_bracket (nKey n)) (node_leaves sep attrs v key) ->
  node_flatten sep attrs v key flat = (foldl put flat (node_leaves sep attrs v key), Ret tt).
Proof.
  revert v. refine (value_children_ind _ _). intros v IH attrs key flat Hl.
  assert (node_leaves sep attrs v key = [mkNode key attrs v] ->
    seq (set key v NUL flat) (fun flat => setAttributes_path key attrs NUL flat) =
    (foldl put flat (node_leaves sep attrs v key), Ret tt)) as Hleaf.
  { intros E. rewrite E in *. apply flatten_leaf. by inversion_clear Hl. }
  assert (forall h prefix flat, (forall c, In c (hash_values h) -> In c (children v)) ->
    Forall (fun n => no_bracket (nKey n)) (flat_map (fun n =>
      node_leaves sep (nAttrs n) (nVal n) (currentKey prefix sep (nKey n))) h) ->
    seq_list (fun n => node_flatten sep (nAttrs n) (nVal n) (currentKey prefix sep (nKey n))) h flat =
    (foldl put flat (flat_map (fun n =>
      node_leaves sep (nAttrs n) (nVal n) (currentKey prefix sep (nKey n))) h), Ret tt)) as Hloop.
  { intros h prefix flat' Hsub Hall. apply seq_list_put. intros n h' Hn. apply IH.
    - apply Hsub, in_flat_map. exists n. split; [done|by left].
    - rewrite List.Forall_forall in Hall |- *. intros m Hm. apply Hall, in_flat_map. eauto. }
  destruct v; try exact (Hleaf eq_refl).
  - cbn [node_flatten node_leaves] in *. destruct (negb _); [|exact (Hleaf eq_refl)].
    by apply Hloop.
  - cbn [node_flatten node_leaves] in *. clear Hleaf.
    assert (forall c h, In h l -> In c (hash_values h) -> In c (children (VVecHash l))) as Hsub
      by (intros c h Hh Hc; apply in_flat_map; eauto).
    set (g := fun (h : hash) (prefix : string) => flat_map (fun n =>
      node_leaves sep (nAttrs n) (nVal n) (currentKey prefix sep (nKey n))) h) in *.
    set (f := fun (h : hash) (prefix : string) flat => seq_list (fun n =>
      node_flatten sep (nAttrs n) (nVal n) (currentKey prefix sep (nKey n))) h flat).
    change (seq_enumerate f key 0 l flat = (foldl put flat (enumerate g key 0 l), Ret tt)).
    revert Hl flat. generalize 0 as i. clear IH. revert Hsub Hloop.
    generalize (children (VVecHash l)) as cs. intros cs Hsub Hloop.
    induction l as [|h l IHl]; intros i Hl flat; [done|]. cbn [seq_enumerate enumerate] in *.
    apply Forall_app in Hl as [Hh Hl]. unfold seq.
    assert (f h (indexed key i) flat = (foldl put flat (g h (indexed key i)), Ret tt)) as ->
      by (apply Hloop; [intros c Hc; apply (Hsub c h); [by left|exact Hc]|exact Hh]).
    cbn [eval].
    rewrite IHl; [by rewrite foldl_app|intros c h' ?; apply Hsub; by right|done].
Qed.

(** The last character of a path is that of its last key. *)
Lemma no_bracket_currentKey (sep : ascii) (prefix k : string) :
  plain_key sep k -> no_bracket (currentKey prefix sep k).
Proof.
  intros (Hk & _ & Hb). unfold no_bracket, currentKey. case_bool_decide; [done|].
  rewrite !chars_app, !last_app_ne; [done| |].
  - intros E. apply Hk. by apply chars_inj.
  - intros [_ E]%app_eq_nil. apply Hk. by apply chars_inj.
Qed.

Lemma enumerate_Forall {A B} (P : B -> Prop) (f : A -> string -> list B) (key : string) (l : list A) :
  (forall x k, In x l -> Forall P (f x k)) -> forall i, Forall P (enumerate f key i l).
Proof.
  induction l as [|x l IH]; intros Hf i; [by apply Forall_nil_2|]. cbn.
  apply Forall_app. split; [apply Hf; by left|]. apply IH. intros; apply Hf. by right.
Qed.

Lemma node_leaves_no_bracket (sep : ascii) (v : value) :
  plain sep v -> forall attrs key, no_bracket key ->
  Forall (fun n => no_bracket (nKey n)) (node_leaves sep attrs v key).
Proof.
  revert v. refine (value_children_ind _ _). intros v IH Hv attrs key Hk.
  assert (Forall (fun n => no_bracket (nKey n)) [mkNode key attrs v]) as Hself
    by (by apply Forall_singleton).
  assert (forall h prefix, In h (value_hashes v) ->
    (forall c, In c (hash_values h) -> In c (children v)) ->
    Forall (fun n => no_bracket (nKey n)) (flat_map (fun n =>
      node_leaves sep (nAttrs n) (nVal n) (currentKey prefix sep (nKey n))) h)) as Hloop.
  { intros h prefix Hin Hsub. apply List.Forall_forall. intros m (n & Hn & Hm)%in_flat_map.
    destruct (plain_hash_node sep h v n Hv Hin Hsub Hn) as (Hnk & Hnp & Hnc).
    pose proof (IH (nVal n) Hnc Hnp (nAttrs n) _ (no_bracket_currentKey sep prefix _ Hnk)) as Hall.
    rewrite List.Forall_forall in Hall. by apply Hall. }
  destruct v; try exact Hself; cbn [node_leaves].
  - destruct (negb _); [|exact Hself]. apply Hloop; [by left|done].
  - apply enumerate_Forall. intros h k Hin. apply Hloop; [exact Hin|].
    intros c Hc. apply in_flat_map. eauto.
Qed.

(** Each leaf is found under its path. *)
Definition is_leaf (m : node) (leaf : hash) (lastKey : string) : Prop :=
  exists k n, getAndCropIndex lastKey = Ret (-1, k) /\ afind k leaf = Some n /\
    nVal n = nVal m /\ nAttrs n = nAttrs m.

Section leaves.
Context (sep : ascii) (Hsep : plain_separator sep).

Lemma node_leaves_reached (v : value) :
  plain sep v ->
  forall h n pre m, wf h -> In n h -> nVal n = v -> plain_key sep (nKey n) ->
  Forall (fun t => t <> "") pre ->
  In m (node_leaves sep (nAttrs n) v (join (str [sep]) (pre ++ [nKey n]))) ->
  reached sep h pre (nKey m) (is_leaf m).
Proof.
  revert v. refine (value_children_ind _ _). intros v IH Hv h n pre m Hw Hn Ev Hk Hpre Hm.
  pose proof (wf_afind h n Hw Hn) as En. destruct Hk as (Hk0 & Hkf & Hk).
  pose proof (crop_plain _ Hk) as Ek.
  assert (wf_value v) as Hwv by (rewrite <- Ev; apply wf_nodes in Hw as [_ Hw]; by apply Hw).
  assert (In m [mkNode (join (str [sep]) (pre ++ [nKey n])) (nAttrs n) v] ->
    reached sep h pre (nKey m) (is_leaf m)) as Hself.
  { intros [<-|[]]. apply reached_one; [done|]. exists (nKey n), n. auto. }
  assert (forall h' t i, In h' (value_hashes v) ->
    (forall c, In c (hash_values h') -> In c (children v)) -> wf h' ->
    free_of sep t -> t <> "" -> getAndCropIndex t = Ret (i, nKey n) -> i = -1 \/ 0 <= i ->
    sub_hash (step_index i) v = Some h' ->
    In m (flat_map (fun n => node_leaves sep (nAttrs n) (nVal n)
      (currentKey (join (str [sep]) (pre ++ [t])) sep (nKey n))) h') ->
    reached sep h pre (nKey m) (is_leaf m)) as Hloop.
  { intros h' t i Hin Hsub Hw' Htf Ht0 Et Hi Hs Hm'. apply in_flat_map in Hm' as (n' & Hn' & Hm').
    destruct (plain_hash_node sep h' v n' Hv Hin Hsub Hn') as (Hmk & Hmp & Hmc).
    apply (reached_cons sep h h' pre t (nKey n) (nKey m) i n);
      [exact Htf|exact Et|exact En|exact Hi|rewrite Ev; exact Hs|].
    assert (Forall (fun t => t <> "") (pre ++ [t])) as Hpre'
      by (apply Forall_app; split; [done|by apply Forall_singleton]).
    rewrite currentKey_join in Hm' by (apply Hsep || done).
    exact (IH (nVal n') Hmc Hmp _ n' _ m Hw' Hn' eq_refl Hmk Hpre' Hm'). }
  destruct v; try exact (Hself Hm); cbn [node_leaves] in Hm.
  - destruct (negb _); [|exact (Hself Hm)].
    apply (Hloop h0 (nKey n) (-1)); [by left|exact (fun _ H => H)|exact Hwv|exact Hkf|exact Hk0
      |exact Ek|by left|reflexivity|exact Hm].
  - apply enumerate_In in Hm as (j & h' & Hj & Hm). rewrite Z.add_0_l, indexed_join in Hm.
    assert (In h' l) as Hin by (by apply list_elem_of_In, list_elem_of_lookup_2 with j).
    pose proof (lookup_lt_Some _ _ _ Hj) as Hlt. destruct Hv as [_ Hlen _].
    specialize (Hlen _ eq_refl).
    apply (Hloop h' (indexed (nKey n) (Z.of_nat j)) (Z.of_nat j));
      [exact Hin| | | | |apply crop_indexed; lia|right; lia| |exact Hm].
    + intros y Hy. apply in_flat_map. eauto.
    + exact (proj1 (wf_vector l) Hwv h' Hin).
    + apply free_of_indexed; [done|lia|done].
    + apply indexed_nonempty.
    + unfold step_index. destruct (Z.eqb_spec (Z.of_nat j) (-1)); [lia|]. cbn.
      by rewrite Nat2Z.id.
Qed.

(** A leaf under its path, as getNode finds it. *)
Lemma leaves_getNode (h : hash) (m : node) :
  wf h -> plain sep (VHash h) -> In m (leaves sep h) ->
  exists n, getNode (nKey m) sep h = Ret n /\ nVal n = nVal m /\ nAttrs n = nAttrs m.
Proof.
  intros Hw Hp (n & Hn & Hm)%in_flat_map.
  destruct (plain_hash_node sep h (VHash h) n Hp) as (Hk & Hv & _); [by left|done|done|].
  change (currentKey "" sep (nKey n)) with (join (str [sep]) ([] ++ [nKey n])) in Hm.
  destruct (node_leaves_reached (nVal n) Hv h n [] m Hw Hn eq_refl Hk (Forall_nil_2 _) Hm)
    as (more & leaf & lastKey & E & Hne & Hf & (p & El & Ep) & k & n' & Ek & En & Ev & Ea).
  exists n'. split; [|done]. rewrite E. cbn [app].
  destruct (getNode_at (join (str [sep]) more) sep h leaf p lastKey k) as [-> _]; [|done|done|].
  - rewrite tokenize_join; [done|apply Hsep|done|done].
  - unfold container_getNode. by rewrite En.
Qed.
End leaves.

Lemma awf_put (flat : hash) (n : node) : awf flat -> awf (put flat n).
Proof. intros Hf. unfold put. apply awf_alter; [done|]. by apply awf_set. Qed.

Lemma afind_put (flat : hash) (n : node) (k : string) :
  afind k (put flat n) = if decide (k = nKey n) then Some n else afind k flat.
Proof.
  unfold put. rewrite afind_alter by done. rewrite !afind_set.
  destruct (decide (k = nKey n)) as [->|Hk]; [|by rewrite ?decide_False by done].
  rewrite ?decide_True by done. cbn.
  destruct (afind (nKey n) flat) as [x|] eqn:E; cbn; [|by destruct n].
  apply afind_key in E. cbn in E. unfold setAttributes. cbn. rewrite E. by destruct n.
Qed.

(** The flat Hash holds, for each key, the last leaf with that key. *)
Lemma afind_foldl_put (l : list node) (flat : hash) (k : string) :
  afind k (foldl put flat l) =
  match afind k (rev l) with Some n => Some n | None => afind k flat end.
Proof.
  revert flat. induction l as [|n l IH]; intros flat; [done|]. cbn [foldl rev]. rewrite IH, afind_app.
  destruct (afind k (rev l)) as [x|]; [done|]. cbn [afind]. rewrite afind_put.
  change (getKey n) with (nKey n). destruct (decide (k = nKey n)) as [->|Hne].
  - by rewrite decide_True.
  - by rewrite decide_False by congruence.
Qed.

Lemma awf_foldl_put (l : list node) (flat : hash) : awf flat -> awf (foldl put flat l).
Proof. revert flat. induction l as [|n l IH]; intros flat Hf; [done|]. apply IH. by apply awf_put. Qed.

(** C15: flattening a Hash with plain keys into an empty one succeeds; the flat Hash has
    unique keys, each of its nodes is, under its key as a path, found in the Hash with
    the same value and the same attributes, and no leaf of the Hash is missing. *)
Theorem flatten_spec (sep : ascii) (h : hash) :
  plain_separator sep -> wf h -> plain sep (VHash h) ->
  exists flat,
    flatten sep h [] = (flat, Ret tt) /\ awf flat /\
    (forall n, In n flat -> exists n', getNode (nKey n) sep h = Ret n' /\
       nVal n' = nVal n /\ nAttrs n' = nAttrs n) /\
    (forall n, In n flat <-> In n (leaves sep h)).
Proof.
  intros Hsep Hw Hp. exists (foldl put [] (leaves sep h)).
  assert (awf (foldl put [] (leaves sep h))) as Hf by (apply awf_foldl_put, NoDup_nil_2).
  assert (forall n, In n (foldl put [] (leaves sep h)) <-> In n (leaves sep h)) as Hin.
  { intros n. split; intros Hn.
    - assert (afind (nKey n) (foldl put [] (leaves sep h)) = Some n) as E
        by (apply (afind_elem_wf _ n Hf); by apply list_elem_of_In).
      rewrite afind_foldl_put in E. destruct (afind (nKey n) (rev (leaves sep h))) eqn:E'; [|done].
      injection E as ->. by apply afind_In, in_rev in E'.
    - destruct (afind (nKey n) (foldl put [] (leaves sep h))) as [m|] eqn:E.
      + pose proof (afind_key _ _ _ E) as Ek. apply afind_In in E as Hm.
        rewrite afind_foldl_put in E.
        destruct (afind (nKey n) (rev (leaves sep h))) eqn:E'; [|done].
        injection E as ->. apply afind_In, in_rev in E'.
        destruct (leaves_getNode sep Hsep h n Hw Hp Hn) as (x & Ex & Evx & Eax).
        destruct (leaves_getNode sep Hsep h m Hw Hp E') as (y & Ey & Evy & Eay).
        cbn in Ek. rewrite Ek, Ex in Ey. injection Ey as <-.
        assert (n = m) as -> by (destruct n, m; cbn in *; congruence). done.
      + exfalso. rewrite afind_foldl_put in E.
        destruct (afind (nKey n) (rev (leaves sep h))) eqn:E'; [done|].
        apply afind_None in E'. apply E'. apply list_elem_of_fmap. exists n. split; [done|].
        apply list_elem_of_In. by apply in_rev in Hn. }
  split_and!; [|done| |exact Hin].
  - unfold flatten, hash_flatten. apply seq_list_put. intros n flat Hn.
    destruct (plain_hash_node sep h (VHash h) n Hp) as (Hk & Hv & _); [by left|done|done|].
    apply node_flatten_put, node_leaves_no_bracket; [done|]. by apply no_bracket_currentKey.
  - intros n Hn%Hin. by apply leaves_getNode.
Qed.

Lemma flatten_spec_witness :
  exists flat, flatten "." [mkNode "a" [] (VHash [])] [] = (flat, Ret tt) /\ awf flat.
Proof.
  destruct (flatten_spec "." [mkNode "a" [] (VHash [])]) as (flat & E & Hf & _).
  - repeat split; discriminate.
  - apply (wf_aset "a" (VHash []) []); exact wf_nil.
  - constructor; cbn; [|done|].
    + intros h n [<-|[]] [<-|[]]. split; [discriminate|split; [|discriminate]].
      unfold free_of. apply not_elem_of_cons. split; [discriminate|apply not_elem_of_nil].
    + intros c [<-|[]]. constructor; cbn; [by intros h n [<-|[]]|done|done].
  - exists flat. split; [exact E|exact Hf].
Defined.
