(* ===== verification/HashMerge.v ===== *)
(** Merging and subtracting Hashes (data/types/Hash.cc): merge with its policies and
    selections of paths, mergeTableElement, subtract. *)

From Stdlib Require Import ZArith Lia Ascii String.
From stdpp Require Import base numbers list strings gmap.
From S2P Require Import Prelude Types Strings OrderedMap Hash HashAccess HashPaths.
Import Types.

Open Scope Z_scope.

(** ** std::set *)

(** A std::set<std::string>: sorted by the (unsigned) characters, without duplicates. *)
Fixpoint sset_insert (x : string) (s : list string) : list string :=
  match s with
  | [] => [x]
  | y :: s' =>
      match String.compare x y with
      | Lt => x :: s
      | Eq => s
      | Gt => y :: sset_insert x s'
      end
  end.

(** A std::set<unsigned int>, of which only membership matters. *)
Definition uset_insert (x : Z) (s : list Z) : list Z := if decide (x ∈ s) then s else x :: s.

(** ** Selected paths *)

(** The key before the first separator and what is behind it; [path.find_first_of]. *)
Definition firstKeyOfPath (path : string) (separator : ascii) : string :=
  match split_first separator (chars path) with
  | None => path
  | Some (pre, _) => str pre
  end.

(** [firstKeyOfPath.compare(0, key.size(), key) == 0] *)
Definition begins_with (s key : string) : bool :=
  bool_decide (take (String.length key) (chars s) = chars key).

(** Hash::selectChildPaths *)
Definition selectChildPaths (paths : list string) (key : string) (separator : ascii) : list string :=
  foldl (fun result path =>
    match split_first separator (chars path) with
    | Some (pre, rest) =>
        if negb (bool_decide (rest = [])) && bool_decide (str pre = key)
        then sset_insert (str rest) result else result
    | None => result
    end) [] paths.

(** Hash::keyIsPrefixOfAnyPath *)
Fixpoint keyIsPrefixOfAnyPath (paths : list string) (key : string) (separator : ascii) (size : Z)
  : outcome bool :=
  match paths with
  | [] => Ret false
  | path :: paths' =>
      let firstKey := firstKeyOfPath path separator in
      if begins_with firstKey key then
        if (String.length firstKey =? String.length key)%nat then Ret true
        else
          '(index, croppedFirstKey) ← getAndCropIndex firstKey;
          if negb (index =? -1) && (u32 index <? size) && bool_decide (croppedFirstKey = key)
          then Ret true
          else keyIsPrefixOfAnyPath paths' key separator size
      else keyIsPrefixOfAnyPath paths' key separator size
  end.

(** Hash::selectIndicesOfKey *)
Fixpoint selectIndicesOfKey_loop (targetSize : Z) (paths : list string) (key : string)
    (separator : ascii) (result : list Z) : outcome (list Z) :=
  match paths with
  | [] => Ret result
  | path :: paths' =>
      let firstKey := firstKeyOfPath path separator in
      if begins_with firstKey key then
        if (String.length firstKey =? String.length key)%nat then Ret []
        else
          '(index, croppedFirstKey) ← getAndCropIndex firstKey;
          let result := if negb (index =? -1) && (index <? to_signed 32 targetSize)
                           && bool_decide (croppedFirstKey = key)
                        then uset_insert (u32 index) result else result in
          selectIndicesOfKey_loop targetSize paths' key separator result
      else selectIndicesOfKey_loop targetSize paths' key separator result
  end.
Definition selectIndicesOfKey (targetSize : Z) (paths : list string) (key : string)
    (separator : ascii) : outcome (list Z) :=
  selectIndicesOfKey_loop targetSize paths key separator [].

(** ** merge *)

Inductive MergePolicy : Type := MERGE_ATTRIBUTES | REPLACE_ATTRIBUTES.

(** The new attributes that Hash::mergeAttributes gives a node. *)
Definition merge_attributes (attrs : attributes) (policy : MergePolicy) (target : attributes)
  : attributes :=
  match policy with
  | MERGE_ATTRIBUTES => foldl (fun target a => aset a.1 a.2 target) target attrs
  | REPLACE_ATTRIBUTES => attrs
  end.
Definition mergeAttributes (attrs : attributes) (policy : MergePolicy) (targetNode : node) : node :=
  mkNode (nKey targetNode) (merge_attributes attrs policy (nAttrs targetNode)) (nVal targetNode).

(** The rows that Hash::mergeTableElement copies; [rowCounter] is an [unsigned int]. *)
Fixpoint selectedRows {A} (selectedIndices : list Z) (rowCounter : Z) (rows : list A) : list A :=
  match rows with
  | [] => []
  | row :: rows' =>
      let rest := selectedRows selectedIndices (u32 (rowCounter + 1)) rows' in
      if negb (bool_decide (selectedIndices = [])) && negb (bool_decide (rowCounter ∈ selectedIndices))
      then rest else row :: rest
  end.

Definition mergeTableElement (source : node) (np : node_ptr) (selectedPaths : list string)
    (separator : ascii) (this : hash) : effect unit :=
  match node_at np this with
  | None => (this, Undef)
  | Some target =>
      eval (getValue_vector_Hash (nVal target)) this (fun _ =>
        eval (getValue_vector_Hash (nVal source)) this (fun sourceVec =>
          eval (selectIndicesOfKey (u32 (Z.of_nat (length sourceVec))) selectedPaths (nKey source)
                  separator) this (fun selectedIndices =>
            (node_alter np (fun n => setValue n (VVecHash (selectedRows selectedIndices 0 sourceVec)))
               this, Ret tt))))
  end.

(** [size] in merge: an [unsigned int]. *)
Definition vector_size (v : value) : Z :=
  match v with VVecHash l => u32 (Z.of_nat (length l)) | _ => 0 end.

(** [thisNode], made to hold a Hash or a vector of Hashes; [None] when the node has been
    taken over completely. *)
Definition merge_target (otherNode : node) (policy : MergePolicy) (this : hash)
  : effect (option node_ptr) :=
  let key := nKey otherNode in
  let plainHash := is_Hash (nVal otherNode) && negb (hasAttribute KARABO_HASH_CLASS_ID otherNode) in
  eval (find key k_defaultSep this) this (fun thisNode =>
    match thisNode with
    | None =>
        if plainHash then
          let '(this, np) := setHash key [] k_defaultSep this in (this, Some <$> np)
        else if is_vector_Hash (nVal otherNode) then
          let '(this, np) := set key (VVecHash []) k_defaultSep this in (this, Some <$> np)
        else
          let '(this, np) := setNode otherNode this in (this, (fun _ => None) <$> np)
    | Some np =>
        let force (is_kind : value -> bool) (v : value) : hash :=
          match node_at np this with
          | Some n => if is_kind (nVal n) then this else node_alter np (fun n => setValue n v) this
          | None => this
          end in
        if plainHash then (force is_Hash (VHash []), Ret (Some np))
        else if is_vector_Hash (nVal otherNode) then (force is_vector_Hash (VVecHash []), Ret (Some np))
        else (node_alter np (fun n => setValue (mergeAttributes (nAttrs otherNode) policy n)
                                        (nVal otherNode)) this, Ret None)
    end).

(** Merges a Hash into the value of the node that [np] points to. *)
Definition on_node_hash (np : node_ptr) (this : hash) (f : hash -> effect unit) : effect unit :=
  match node_at np this with
  | None => (this, Undef)
  | Some n =>
      eval (getValue_Hash (nVal n)) this (fun h =>
        let '(h, r) := f h in (node_alter np (fun n => setValue n (VHash h)) this, r))
  end.

(** One round of the loop of Hash::merge, for a node of [other] with the given key,
    attributes and value. *)
Fixpoint merge_node (policy : MergePolicy) (sep : ascii) (key : string) (attrs : attributes)
    (v : value) (selectedPaths : list string) (this : hash) : effect unit :=
  let otherNode := mkNode key attrs v in
  eval (if bool_decide (selectedPaths = []) then Ret true
        else keyIsPrefixOfAnyPath selectedPaths key sep (vector_size v)) this (fun selected : bool =>
    if negb selected then (this, Ret tt)
    else
      let '(this, thisNode) := merge_target otherNode policy this in
      eval thisNode this (fun thisNode =>
        match thisNode with
        | None => (this, Ret tt)
        | Some np =>
            let this := node_alter np (mergeAttributes attrs policy) this in
            match v with
            | VHash other =>
                let subPaths := if bool_decide (selectedPaths = []) then selectedPaths
                                else selectChildPaths selectedPaths key sep in
                on_node_hash np this (fun h =>
                  if bool_decide (subPaths = []) && bool_decide (h = []) && negb (bool_decide (other = []))
                  then (other, Ret tt)
                  else seq_list (fun n => merge_node policy sep (nKey n) (nAttrs n) (nVal n) subPaths)
                         other h)
            | _ => mergeTableElement otherNode np selectedPaths sep this
            end
        end)).

(** Hash::merge *)
Definition merge (other : hash) (policy : MergePolicy) (selectedPaths : list string) (sep : ascii)
    (this : hash) : effect unit :=
  if bool_decide (selectedPaths = []) && bool_decide (this = []) && negb (bool_decide (other = []))
  then (other, Ret tt)
  else seq_list (fun n => merge_node policy sep (nKey n) (nAttrs n) (nVal n) selectedPaths) other this.

(** ** subtract *)

(** [hay.find(needle) != npos] *)
Fixpoint contains (needle hay : bytes) : bool :=
  bool_decide (take (length needle) hay = needle) ||
  match hay with [] => false | _ :: hay' => contains needle hay' end.

Definition sset_of (l : list string) : list string := foldl (fun s x => sset_insert x s) [] l.

(** The first loop of Hash::subtract, over the paths in reverse order; [back()] of an
    empty string has no meaning. *)
Definition subtract_step (myset : list string) (sep : ascii) (path : string) (this : hash) : effect unit :=
  if bool_decide (path ∈ myset) then
    match last (chars path) with
    | None => (this, Undef)
    | Some c =>
        if bool_decide (c = "]"%char) then (this, Ret tt)
        else let '(this, r) := erase path sep this in (this, (fun _ => tt) <$> r)
    end
  else (this, Ret tt).

(** The second loop: erases the empty tails of vectors. *)
Fixpoint subtract_tails (paths : list string) (lastPath : string) (sep : ascii) (this : hash)
  : effect unit :=
  match paths with
  | [] => (this, Ret tt)
  | it :: paths' =>
      match split_last "[" (chars it) with
      | None => subtract_tails paths' lastPath sep this
      | Some (path, _) =>
          if bool_decide (last (chars it) = Some "]"%char) then
            if contains path (chars lastPath) then subtract_tails paths' lastPath sep this
            else seq (erase it sep this) (subtract_tails paths' lastPath sep)
          else subtract_tails paths' (str path) sep this
      end
  end.

Definition subtract (other : hash) (sep : ascii) (this : hash) : effect unit :=
  if bool_decide (this = []) || bool_decide (other = []) then (this, Ret tt)
  else
    let candidates := hash_paths sep false other "" in
    let myset := sset_of (getPaths sep this) in
    seq (seq_list (subtract_step myset sep) (rev candidates) this) (fun this =>
      subtract_tails (rev (sset_of (getPaths sep this))) "" sep this).

(** ** Access with a plain key *)

Lemma aalter_compose_key (k : string) (f g : node -> node) (l : hash) :
  (forall n, nKey n = k -> nKey (f n) = k) ->
  aalter k g (aalter k f l) = aalter k (fun n => g (f n)) l.
Proof.
  intros Hf. induction l as [|n l IH]; cbn; [done|].
  destruct (decide (nKey n = k)) as [E|E]; cbn.
  - by rewrite decide_True by auto.
  - by rewrite decide_False, IH.
Qed.

(** [put] replaces the node with its key, or adds it. *)
Lemma put_Some (this : hash) (n m : node) :
  afind (nKey n) this = Some m -> put this n = aalter (nKey n) (fun _ => n) this.
Proof.
  intros E. unfold put, aset. rewrite E, aalter_compose by done. apply aalter_ext_at.
  intros x Ex%afind_key. cbn in Ex. unfold setAttributes. cbn. rewrite Ex. by destruct n.
Qed.

Lemma put_None (this : hash) (n : node) :
  afind (nKey n) this = None -> put this n = this ++ [n].
Proof.
  intros E. unfold put, aset. rewrite E, aalter_app_new by done. by destruct n.
Qed.

Lemma put_found (k : string) (f : node -> node) (this : hash) (m : node) :
  (forall n, nKey (f n) = nKey n) -> afind k this = Some m -> aalter k f this = put this (f m).
Proof.
  intros Hf E. pose proof (afind_key _ _ _ E) as Ek. cbn in Ek.
  rewrite (put_Some this (f m) m) by (by rewrite Hf, Ek). rewrite Hf, Ek.
  apply aalter_ext_at. congruence.
Qed.

Lemma put_aset (k : string) (v : value) (this : hash) :
  aset k v this = put this (mkNode k (match afind k this with Some m => nAttrs m | None => [] end) v).
Proof.
  destruct (afind k this) as [m|] eqn:E.
  - unfold aset. rewrite E. rewrite (put_found k _ this m) by done.
    cbn. apply afind_key in E. cbn in E. by rewrite E.
  - rewrite put_None by done. unfold aset. by rewrite E.
Qed.

Lemma put_aalter (f : node -> node) (this : hash) (n : node) (k : string) :
  (forall n, nKey (f n) = nKey n) -> nKey n = k -> aalter k f (put this n) = put this (f n).
Proof.
  intros Hf <-. destruct (afind (nKey n) this) as [m|] eqn:E.
  - rewrite (put_Some this n m E), (put_Some this (f n) m) by (by rewrite Hf).
    rewrite Hf. by apply aalter_compose_key.
  - rewrite !put_None by (by rewrite ?Hf). by rewrite aalter_app_new.
Qed.

Lemma put_same (this : hash) (n : node) : afind (nKey n) this = Some n -> put this n = this.
Proof.
  intros E. rewrite (put_Some this n n E). rewrite <- (aalter_id (nKey n) this) at 2.
  apply aalter_ext_at. congruence.
Qed.

(** A key that is not read as a path. *)
Definition single_key (k : string) : Prop := free_of k_defaultSep k /\ no_bracket k.

Section single.
Context (k : string) (Hk : single_key k).

Lemma single_tokens : tokenize k k_defaultSep = [k].
Proof. apply tokenize_free, Hk. Qed.

Lemma single_crop : getAndCropIndex k = Ret (-1, k).
Proof. apply crop_plain, Hk. Qed.

Lemma find_single (this : hash) :
  find k k_defaultSep this =
  Ret (match afind k this with Some _ => Some ([], k) | None => None end).
Proof.
  unfold find, getLastHashPtr. rewrite single_tokens. cbn. rewrite single_crop. cbn.
  by destruct (afind k this).
Qed.

Lemma set_single_key (v : value) (this : hash) :
  set k v k_defaultSep this = (aset k v this, Ret ([], k)).
Proof. unfold set. rewrite single_tokens. cbn. by rewrite single_crop. Qed.

Lemma setHash_single (h this : hash) :
  setHash k h k_defaultSep this = (aset k (VHash h) this, Ret ([], k)).
Proof. unfold setHash. rewrite single_tokens. cbn. by rewrite single_crop. Qed.

Lemma setNode_single (attrs : attributes) (v : value) (this : hash) :
  setNode (mkNode k attrs v) this = (put this (mkNode k attrs v), Ret ([], k)).
Proof. unfold setNode. cbn [nKey nVal nAttrs]. by rewrite set_single_key. Qed.
End single.

Lemma selectedRows_all {A} (rows : list A) : forall i, selectedRows [] i rows = rows.
Proof. induction rows as [|r rows IH]; intros i; [done|]. cbn. by rewrite IH. Qed.

(** The Hash below a node, to be merged into. *)
Definition old_hash (on : option node) : hash :=
  match on with Some (mkNode _ _ (VHash h)) => h | _ => [] end.
Definition old_attrs (on : option node) : attributes :=
  match on with Some n => nAttrs n | None => [] end.

(** The node that merge continues with, for a single key. *)
Lemma merge_target_single (policy : MergePolicy) (key : string) (attrs : attributes) (v : value)
    (this : hash) :
  single_key key ->
  merge_target (mkNode key attrs v) policy this =
  (if is_Hash v && negb (ahas KARABO_HASH_CLASS_ID attrs) then
     (put this (mkNode key (old_attrs (afind key this)) (VHash (old_hash (afind key this)))),
      Ret (Some ([], key)))
   else if is_vector_Hash v then
     (put this (mkNode key (old_attrs (afind key this))
        (match afind key this with Some (mkNode _ _ (VVecHash l)) => VVecHash l | _ => VVecHash [] end)),
      Ret (Some ([], key)))
   else
     (put this (mkNode key (match afind key this with
                            | Some n => merge_attributes attrs policy (nAttrs n)
                            | None => attrs end) v), Ret None)).
Proof.
  intros Hk. unfold merge_target. cbn [nKey nVal].
  rewrite (find_single key Hk). cbn [eval]. unfold hasAttribute. cbn [nAttrs].
  destruct (afind key this) as [[nk na nv]|] eqn:En.
  - pose proof (afind_key _ _ _ En) as E. cbn in E. subst nk.
    assert (node_at ([], key) this = Some (mkNode key na nv)) as -> by exact En.
    unfold node_alter. cbn [hash_alter fst snd nVal old_attrs nAttrs].
    destruct (_ && _); [|destruct (is_vector_Hash v)].
    + destruct nv as [| | | | | | | | | | |h0| | | | | |]; cbn [is_Hash];
        try (by rewrite (fun f H => put_found key f this _ H En) by done).
      cbn [old_hash]. by rewrite (put_same this (mkNode key na (VHash h0))) by exact En.
    + destruct nv as [| | | | | | | | | | | |l0| | | | |]; cbn [is_vector_Hash];
        try (by rewrite (fun f H => put_found key f this _ H En) by done).
      by rewrite (put_same this (mkNode key na (VVecHash l0))) by exact En.
    + by rewrite (fun f H => put_found key f this _ H En) by done.
  - rewrite setHash_single, set_single_key, setNode_single by done. rewrite !put_aset, En.
    destruct (_ && _); [done|]. by destruct (is_vector_Hash v).
Qed.

(** One round of merge for a single key, without selection: a Hash, ... *)
Lemma merge_node_single_hash (policy : MergePolicy) (sep : ascii) (key : string) (attrs : attributes)
    (other this : hash) :
  single_key key ->
  merge_node policy sep key attrs (VHash other) [] this =
  (if negb (ahas KARABO_HASH_CLASS_ID attrs) then
     let '(h, r) := merge other policy [] sep (old_hash (afind key this)) in
     (put this (mkNode key (merge_attributes attrs policy (old_attrs (afind key this))) (VHash h)), r)
   else
     (put this (mkNode key (match afind key this with
                            | Some n => merge_attributes attrs policy (nAttrs n)
                            | None => attrs end) (VHash other)), Ret tt)).
Proof.
  intros Hk. cbn [merge_node]. rewrite bool_decide_eq_true_2 by done. cbn [eval negb].
  rewrite merge_target_single by done. cbn [is_Hash is_vector_Hash andb].
  destruct (negb (ahas _ _)); [|done]. cbn [eval].
  unfold node_alter, on_node_hash, node_at. cbn [hash_alter hash_at fst snd].
  rewrite put_aalter by done. rewrite afind_put, decide_True by done.
  cbn [eval getValue_Hash nVal mergeAttributes nAttrs old_hash].
  unfold merge. rewrite bool_decide_eq_true_2 by done.
  set (r := if _ && _ then _ else _). change (bool_decide ([] = [])) with true.
  fold r. destruct r as [h' r']. unfold node_alter. cbn [hash_alter fst snd].
  by rewrite put_aalter.
Qed.

(** ... a vector of Hashes, ... *)
Lemma merge_node_single_vector (policy : MergePolicy) (sep : ascii) (key : string) (attrs : attributes)
    (l : list hash) (this : hash) :
  single_key key ->
  merge_node policy sep key attrs (VVecHash l) [] this =
  (put this (mkNode key (merge_attributes attrs policy (old_attrs (afind key this))) (VVecHash l)), Ret tt).
Proof.
  intros Hk. cbn [merge_node]. rewrite bool_decide_eq_true_2 by done. cbn [eval negb].
  rewrite merge_target_single by done. cbn [is_Hash is_vector_Hash andb eval].
  set (v0 := match afind key this with Some _ => _ | None => _ end).
  assert (exists l, v0 = VVecHash l) as [l0 Ev0]
    by (unfold v0; destruct (afind key this) as [[? ? []]|]; eauto).
  rewrite Ev0. unfold mergeTableElement, node_at, node_alter. cbn [hash_alter hash_at fst snd].
  rewrite put_aalter by done. rewrite afind_put, decide_True by done.
  cbn [eval getValue_vector_Hash nVal mergeAttributes nAttrs selectIndicesOfKey
    selectIndicesOfKey_loop]. rewrite selectedRows_all. by rewrite put_aalter.
Qed.

(** ... and any value. *)
Lemma merge_node_single (policy : MergePolicy) (sep : ascii) (key : string) (attrs : attributes)
    (v : value) (this : hash) :
  single_key key ->
  merge_node policy sep key attrs v [] this =
  (if is_Hash v && negb (ahas KARABO_HASH_CLASS_ID attrs) then
     let '(h, r) := merge (old_hash (Some (mkNode key attrs v))) policy [] sep
                      (old_hash (afind key this)) in
     (put this (mkNode key (merge_attributes attrs policy (old_attrs (afind key this))) (VHash h)), r)
   else if is_vector_Hash v then
     (put this (mkNode key (merge_attributes attrs policy (old_attrs (afind key this))) v), Ret tt)
   else
     (put this (mkNode key (match afind key this with
                            | Some n => merge_attributes attrs policy (nAttrs n)
                            | None => attrs end) v), Ret tt)).
Proof.
  intros Hk. destruct (is_Hash v) eqn:Eh; [destruct v; try discriminate|].
  - rewrite merge_node_single_hash by done. cbn [is_Hash is_vector_Hash andb old_hash].
    by destruct (negb (ahas _ _)).
  - destruct (is_vector_Hash v) eqn:El; [destruct v; try discriminate|].
    + by rewrite merge_node_single_vector.
    + pose proof (merge_target_single policy key attrs v this Hk) as Hmt. rewrite Eh, El in Hmt.
      cbn [andb] in *. destruct v; try discriminate; cbn [merge_node];
        rewrite bool_decide_eq_true_2 by done; cbn [eval negb]; by rewrite Hmt.
Qed.

(** The attributes of a node that was there ([old]) after merging those of the source into
    them: replaced by the source's, or joined, where an attribute that both have is the
    source's, and the attributes that only the source has come behind the old ones. *)
Definition merged_attributes (policy : MergePolicy) (source old attrs : attributes) : Prop :=
  match policy with
  | REPLACE_ATTRIBUTES => attrs = source
  | MERGE_ATTRIBUTES =>
      keys attrs = keys old ++ filter (fun k => k ∉ keys old) (keys source) /\
      forall k, afind k attrs = match afind k source with
                                | Some a => Some a
                                | None => afind k old
                                end
  end.

(** What a node of the merged Hash is: attributes by the policy, a Hash merged into the
    Hash that was there (into an empty one if there was none), any other value taken
    over from [n]. *)
Definition merged_node (policy : MergePolicy) (sep : ascii) (n : node) (old : option node) (m : node)
  : Prop :=
  nKey m = nKey n /\
  match old with
  | Some o => merged_attributes policy (nAttrs n) (nAttrs o) (nAttrs m)
  | None => nAttrs m = nAttrs n
  end /\
  if is_Hash (nVal n) && negb (hasAttribute KARABO_HASH_CLASS_ID n) then
    exists h, nVal m = VHash h /\
      merge (old_hash (Some n)) policy [] sep (old_hash old) = (h, Ret tt)
  else nVal m = nVal n.

(** Keys that are not read as paths, at every level of merged Hashes. *)
Inductive single_keys (v : value) : Prop :=
| single_keys_intro :
    (forall h n, In h (value_hashes v) -> In n h -> single_key (nKey n)) ->
    (forall c, In c (children v) -> single_keys c) ->
    single_keys v.

Lemma foldl_aset_app (attrs pre : attributes) :
  awf (pre ++ attrs) -> foldl (fun (target : attributes) a => aset a.1 a.2 target) pre attrs = pre ++ attrs.
Proof.
  revert pre. induction attrs as [|[k v] attrs IH]; intros pre Hw; cbn; [by rewrite app_nil_r|].
  unfold aset at 2. assert (afind k pre = None) as ->.
  { apply afind_None. unfold awf, keys in Hw. rewrite fmap_app in Hw.
    apply NoDup_app in Hw as (_ & Hd & _). intros Hin. apply (Hd _ Hin). apply list_elem_of_here. }
  cbn. rewrite IH by (by rewrite <- app_assoc). by rewrite <- app_assoc.
Qed.

(** Merging the attributes of a node into none. *)
Lemma merge_attributes_nil (attrs : attributes) (policy : MergePolicy) :
  awf attrs -> merge_attributes attrs policy [] = attrs.
Proof. intros Hw. destruct policy; [|done]. by apply (foldl_aset_app attrs []). Qed.

Lemma filter_snoc_notin (K l : list string) (k : string) :
  k ∉ l -> filter (fun x => x ∉ K ++ [k]) l = filter (fun x => x ∉ K) l.
Proof.
  induction l as [|x l IH]; [done|]. rewrite not_elem_of_cons. intros [Hx Hl].
  specialize (IH Hl). destruct (decide (x ∈ K)) as [HK|HK].
  - rewrite !filter_cons_False; [done|tauto|]. rewrite elem_of_app. tauto.
  - rewrite !filter_cons_True; [by f_equal|done|].
    rewrite elem_of_app, list_elem_of_singleton. intros [?|?]; congruence.
Qed.

Lemma filter_notin_nil (l : list string) : filter (fun x => x ∉ []) l = l.
Proof.
  induction l as [|x l IH]; [done|]. rewrite filter_cons_True by apply not_elem_of_nil.
  by f_equal.
Qed.

Lemma keys_put (this : hash) (n : node) :
  keys (put this n) = if decide (nKey n ∈ keys this) then keys this else keys this ++ [nKey n].
Proof. unfold put. rewrite keys_alter by done. apply keys_set. Qed.

(** Setting the attributes of the source one after the other joins them with the old ones. *)
Lemma foldl_aset_spec (source old : attributes) :
  awf source ->
  let r := foldl (fun (target : attributes) a => aset a.1 a.2 target) old source in
  keys r = keys old ++ filter (fun k => k ∉ keys old) (keys source) /\
  forall k, afind k r = match afind k source with Some a => Some a | None => afind k old end.
Proof.
  revert old. induction source as [|[k v] source IH]; intros old Hw; cbn zeta.
  - split; [cbn; by rewrite app_nil_r|done].
  - apply NoDup_cons in Hw as [Hk Hw]. change (getKey (k, v)) with k in Hk.
    change (getKey <$> source) with (keys source) in Hk.
    cbn [foldl fst snd]. destruct (IH (aset k v old) Hw) as [Ek El]. split.
    + rewrite Ek, keys_set. change (keys ((k, v) :: source)) with (k :: keys source).
      destruct (decide (k ∈ keys old)) as [Hin|Hin].
      * by rewrite filter_cons_False by tauto.
      * rewrite filter_cons_True by done. rewrite filter_snoc_notin by done.
        by rewrite <- app_assoc.
    + intros x. rewrite El, afind_set. cbn [afind]. change (getKey (k, v)) with k.
      destruct (decide (k = x)) as [<-|Hx].
      * apply afind_None in Hk. rewrite Hk, decide_True by done.
        destruct (afind k old) as [[k' v']|] eqn:E; cbn; [|done].
        by apply afind_key in E as <-.
      * by rewrite decide_False by congruence.
Qed.

Lemma merge_attributes_spec (policy : MergePolicy) (source old : attributes) :
  awf source -> merged_attributes policy source old (merge_attributes source policy old).
Proof. intros Hw. destruct policy; [by apply foldl_aset_spec|done]. Qed.

Section merge_loop.
Context (policy : MergePolicy) (sep : ascii).

(** What merge does with the nodes of [other], in lookups and in the order of keys. *)
Definition merged (other this this' : hash) : Prop :=
  (forall k, match afind k other with
             | Some n => exists m, afind k this' = Some m /\
                           merged_node policy sep n (afind k this) m
             | None => afind k this' = afind k this
             end) /\
  keys this' = keys this ++ filter (fun k => k ∉ keys this) (keys other).

Lemma merge_round (n : node) (this : hash) :
  single_key (nKey n) ->
  (forall h, nVal n = VHash h -> forall old, exists h', merge h policy [] sep old = (h', Ret tt)) ->
  awf (nAttrs n) ->
  exists x, merge_node policy sep (nKey n) (nAttrs n) (nVal n) [] this = (put this x, Ret tt) /\
    merged_node policy sep n (afind (nKey n) this) x.
Proof.
  intros Hk Hh Ha. rewrite merge_node_single by done. destruct n as [key attrs v]. cbn in *.
  unfold merged_node, hasAttribute. cbn [nKey nAttrs nVal].
  pose proof (merge_attributes_spec policy attrs) as Hm.
  assert (forall a, a = merge_attributes attrs policy (old_attrs (afind key this)) \/
      a = match afind key this with
          | Some o => merge_attributes attrs policy (nAttrs o) | None => attrs end ->
    match afind key this with
    | Some o => merged_attributes policy attrs (nAttrs o) a | None => a = attrs end) as Hr.
  { intros a Ea. destruct (afind key this) as [o|]; [destruct Ea as [-> | ->]; by apply Hm|].
    destruct Ea as [-> | ->]; [by apply merge_attributes_nil|done]. }
  destruct (is_Hash v && _) eqn:E.
  - destruct v as [| | | | | | | | | | |h| | | | | |]; try discriminate. cbn [old_hash].
    destruct (Hh h eq_refl (old_hash (afind key this))) as [h' Em]. rewrite Em.
    eexists. split; [done|]. cbn [nKey nAttrs nVal]. split_and!; [done|apply Hr; by left|eauto].
  - destruct (is_vector_Hash v); eexists; (split; [done|]); cbn [nKey nAttrs nVal];
      (split_and!; [done|apply Hr; auto|done]).
Qed.

Lemma merge_loop (l : hash) :
  awf l ->
  (forall n, In n l -> single_key (nKey n) /\ awf (nAttrs n) /\
     forall h, nVal n = VHash h -> forall old, exists h', merge h policy [] sep old = (h', Ret tt)) ->
  forall this, exists this',
    seq_list (fun n => merge_node policy sep (nKey n) (nAttrs n) (nVal n) []) l this = (this', Ret tt) /\
    merged l this this'.
Proof.
  induction l as [|n l IH]; intros Hw Hl this.
  - exists this. split; [done|]. split; [done|]. cbn. by rewrite app_nil_r.
  - apply NoDup_cons in Hw as [Hn Hw].
    destruct (Hl n) as (Hk & Ha & Hh); [by left|].
    destruct (merge_round n this Hk Hh Ha) as (x & Ex & Hx).
    destruct (IH Hw (fun m Hm => Hl m (or_intror Hm)) (put this x)) as (this' & E & Hlook & Hkeys).
    pose proof Hx as (Hxk & _ & _).
    exists this'. split; [cbn [seq_list]; unfold seq; by rewrite Ex|]. split.
    + intros k. specialize (Hlook k). rewrite afind_put, Hxk in Hlook. cbn [afind].
      change (getKey n) with (nKey n). destruct (decide (nKey n = k)) as [<-|Hne].
      * apply afind_None in Hn. change (getKey n) with (nKey n) in Hn. rewrite Hn in Hlook.
        rewrite decide_True in Hlook by done. eauto.
      * by rewrite decide_False in Hlook by congruence.
    + rewrite Hkeys, keys_put, Hxk. change (keys (n :: l)) with (nKey n :: keys l).
      change (getKey <$> l) with (keys l) in Hn. destruct (decide (nKey n ∈ keys this)) as [Hin|Hin].
      * by rewrite filter_cons_False by tauto.
      * rewrite filter_cons_True by done. rewrite filter_snoc_notin by done.
        by rewrite <- app_assoc.
Qed.

Lemma merge_hash (v : value) :
  wf_value v -> single_keys v -> forall other, v = VHash other ->
  forall this, exists this',
    merge other policy [] sep this = (this', Ret tt) /\ merged other this this'.
Proof.
  revert v. refine (value_children_ind _ _). intros v IH Hw Hs other -> this.
  pose proof Hw as [Hwo Hwn]%wf_nodes.
  assert (forall n, In n other -> In (nVal n) (children (VHash other))) as Hc
    by (intros n Hn; apply in_flat_map; exists n; split; [done|by left]).
  assert (forall n, In n other -> single_key (nKey n) /\ awf (nAttrs n) /\
    forall h, nVal n = VHash h -> forall old, exists h', merge h policy [] sep old = (h', Ret tt))
    as Hl.
  { intros n Hn. destruct Hs as [Hk Hs]. split; [by apply (Hk other); [left|]|].
    destruct (Hwn n Hn) as (Ha & Hv & _). split; [done|]. intros h Eh old.
    destruct (IH (nVal n) (Hc n Hn) Hv (Hs _ (Hc n Hn)) h Eh old) as (h' & Em & _). eauto. }
  unfold merge. rewrite bool_decide_eq_true_2 by done. cbn [andb].
  destruct (bool_decide (this = []) && negb (bool_decide (other = []))) eqn:E.
  - apply andb_prop in E as [->%bool_decide_eq_true _]. exists other. split; [done|]. split.
    + intros k. cbn [afind]. destruct (afind k other) as [n|] eqn:En; [|done]. exists n.
      split; [done|]. split; [done|]. split; [done|].
      destruct (is_Hash (nVal n)) eqn:Eh; [|done].
      destruct n as [nk na nv]. cbn in Eh |- *. unfold hasAttribute. cbn [nAttrs].
      destruct nv as [| | | | | | | | | | |h| | | | | |]; try discriminate. cbn.
      destruct (negb _); [|done]. exists h. split; [done|]. unfold merge.
      rewrite !bool_decide_eq_true_2 by done. cbn [andb]. destruct h; [done|].
      by rewrite bool_decide_eq_false_2 by done.
    + symmetry. apply filter_notin_nil.
  - apply merge_loop; [done|exact Hl].
Qed.
End merge_loop.

(** C11: merging without a selection of paths, for keys without separator: it succeeds on
    any Hash; a key that only the target has is untouched; a key of the source has
    afterwards its value taken over, and for a Hash the merge of the two Hashes; its
    attributes are those of the source if the key is new or the policy is
    REPLACE_ATTRIBUTES, and with MERGE_ATTRIBUTES the old ones joined with those of the
    source, which win; the new keys come behind the old ones, in their order. *)
Theorem merge_spec (policy : MergePolicy) (sep : ascii) (other this : hash) :
  wf other -> single_keys (VHash other) ->
  exists this', merge other policy [] sep this = (this', Ret tt) /\
    merged policy sep other this this'.
Proof. intros Hw Hs. by eapply merge_hash. Qed.

Lemma merge_spec_witness :
  exists this', merge [mkNode "a" [] (VHash [mkNode "b" [] VNone])] MERGE_ATTRIBUTES [] "."
    [mkNode "a" [("u"%string, VBool true)] (VString "x"); mkNode "c" [] VNone] = (this', Ret tt) /\
    afind "c"%string this' = Some (mkNode "c" [] VNone) /\
    exists n, afind "a"%string this' = Some n /\ keys (nAttrs n) = ["u"%string].
Proof.
  destruct (merge_spec MERGE_ATTRIBUTES "." [mkNode "a" [] (VHash [mkNode "b" [] VNone])]
    [mkNode "a" [("u"%string, VBool true)] (VString "x"); mkNode "c" [] VNone])
    as (this' & E & Hl & _).
  - apply (wf_aset "a" (VHash [mkNode "b" [] VNone]) []); [|exact wf_nil].
    apply (wf_aset "b" VNone []); [by apply wf_value_leaf|exact wf_nil].
  - assert (forall k, k ∈ ["a"; "b"]%string -> single_key k) as Hk.
    { intros k [->|[->|[]%elem_of_nil]%elem_of_cons]%elem_of_cons; (split; [|discriminate]);
        unfold free_of; apply not_elem_of_cons; (split; [discriminate|apply not_elem_of_nil]). }
    constructor; cbn; [intros h n [<-|[]] [<-|[]]; apply Hk; set_solver|].
    intros c [<-|[]]. constructor; cbn; [intros h n [<-|[]] [<-|[]]; apply Hk; set_solver|].
    intros c [<-|[]]. by constructor.
  - exists this'. split; [exact E|]. split; [exact (Hl "c"%string)|].
    destruct (Hl "a"%string) as (n & En & _ & [Ek _] & _). exists n. split; [exact En|exact Ek].
Defined.
