(* ===== verification/ValueString.v ===== *)
(** Values as strings: Element::getValueAsString, getValueAs<std::string> and
    getValueAsShortString (data/types/Element.hh), the toString overloads that they use
    (data/types/StringTools.hh) and the output operator of Hash (data/types/Hash.cc).

    What boost::format and std::type_info print is not code of the repository: it is a
    parameter of the definitions. *)

From Stdlib Require Import ZArith Lia Ascii String.
From stdpp Require Import base numbers list strings gmap.
From S2P Require Import Prelude Types Strings Base64 OrderedMap Hash HashAccess.
Import Types.

Open Scope Z_scope.

(** Which of the member functions is asked for the text of a value. *)
Inductive rendering : Type :=
| AsString            (** getValueAs<std::string>() *)
| Short (max : Z)     (** getValueAsShortString(max) *)
| InStream (depth : nat).  (** what Hash::toStream prints behind the attributes *)

Definition quote : string := String "034" EmptyString.
Definition endl : string := String "010" EmptyString.

Section value_string.
(** boost::format("%.7g") and ("%.15g") of a float, double or complex number, given by
    its bits, and std::type_info::name() of an unregistered type. *)
Context (format_float : pod -> Z -> string).
Context (format_complex : cpx -> Z * Z -> string).
Context (type_name : nat -> string).

(** toString of one number. *)
Definition toString_bool (b : bool) : string := if b then "1" else "0".

Definition toString_pod (t : pod) (bits : Z) : string :=
  match t with
  | PChar => str [byte_of bits]
  | PInt8 => decimal (to_signed 8 bits)
  | PInt16 => decimal (to_signed 16 bits)
  | PInt32 => decimal (to_signed 32 bits)
  | PInt64 => decimal (to_signed 64 bits)
  | PUInt8 | PUInt16 | PUInt32 | PUInt64 => decimal bits
  | PFloat | PDouble => format_float t bits
  end.

(** toString(vector): for char the data is base64 coded, strings may hold no comma. *)
Definition toString_vector_pod (t : pod) (l : list Z) : outcome string :=
  match t with
  | PChar => Ret (base64Encode (byte_of <$> l))
  | _ => toString_vector (toString_pod t) l 0
  end.

(** toString of a Hash goes through the output operator, which replaces any exception. *)
Definition propagated {A} (x : outcome A) : outcome A := rethrow_all_as PropagatedException x.

(** Appends the texts of a list. *)
Definition concatM {A} (f : A -> outcome string) (l : list A) : outcome string :=
  foldM (fun x s => t ← f x; Ret (s +:+ t)) l "".

Fixpoint strings {A} (f : A -> outcome string) (l : list A) : outcome (list string) :=
  match l with
  | [] => Ret []
  | x :: l' => s ← f x; r ← strings f l'; Ret (s :: r)
  end.

(** [os << fill << "[" << i << "]" << std::endl] before each element of a vector. *)
Fixpoint stream_elements {A} (f : A -> outcome string) (fill : string) (i : Z) (l : list A)
  : outcome string :=
  match l with
  | [] => Ret ""
  | x :: l' => t ← f x; r ← stream_elements f fill (i + 1) l';
               Ret (fill +:+ "[" +:+ decimal i +:+ "]" +:+ endl +:+ t +:+ r)
  end.

Definition fill_of (depth : nat) : string := str (replicate (depth * 2) " "%char).

Fixpoint render (m : rendering) (v : value) : outcome string :=
  let toStream (h : hash) (depth : nat) : outcome string :=
    concatM (fun n =>
      attrs ← concatM (fun a : string * value =>
                s ← render (Short 30) a.2;
                Ret (" " +:+ a.1 +:+ "=" +:+ quote +:+ s +:+ quote)) (nAttrs n);
      rest ← render (InStream depth) (nVal n);
      Ret (fill_of depth +:+ "'" +:+ nKey n +:+ "'" +:+ attrs +:+ rest)) h in
  let as_string : outcome string :=
    match v with
    | VString s => Ret s
    | VBool b => Ret (toString_bool b)
    | VPod t z => Ret (toString_pod t z)
    | VComplex t re im => Ret (format_complex t (re, im))
    | VNone => Ret "None"
    | VByteArray b => Ret (base64Encode b)
    | VVecBool l => toString_vector toString_bool l 0
    | VVecPod t l => toString_vector_pod t l
    | VVecComplex t l => toString_vector (format_complex t) l 0
    | VVecString l => toString_vector_string l
    | VVecNone n => toString_vector (fun _ : unit => "None"%string) (replicate n tt) 0
    | VHash h => propagated (toStream h 0%nat)
    | VVecHash l => ss ← strings (fun h => propagated (toStream h 0%nat)) l;
                    toString_vector id ss 0
    | VSchema _ _ => Ret "<a schema>"
    | VHashPtr _ | VVecHashPtr _ | VVecSchema _ | VOther _ => Throw CastException
    end in
  let short (max : Z) : outcome string :=
    match v with
    | VVecBool l => toString_vector toString_bool l max
    | VVecPod PChar l => as_string
    | VVecPod t l => toString_vector (toString_pod t) l max
    | VVecComplex t l => toString_vector (format_complex t) l max
    | VVecString l => toString_vector id l max
    | VVecNone n => toString_vector (fun _ : unit => "None"%string) (replicate n tt) max
    | VByteArray b => toString_ByteArray b max
    | _ => as_string
    end in
  match m with
  | AsString => as_string
  | Short max => short max
  | InStream depth =>
      match v with
      | VHash h => t ← toStream h (S depth); Ret (" +" +:+ endl +:+ t)
      | VHashPtr (Some h) => t ← toStream h (S depth); Ret (" + (Pointer)" +:+ endl +:+ t)
      | VHashPtr None => Undef
      | VVecHash l =>
          t ← stream_elements (fun h => toStream h (S depth)) (fill_of depth) 0 l;
          Ret (" @" +:+ endl +:+ t)
      | VVecHashPtr l =>
          t ← stream_elements (fun p => match p with Some h => toStream h (S depth) | None => Undef end)
                (fill_of depth) 0 l;
          Ret (" @ (Pointer)" +:+ endl +:+ t)
      | VSchema _ _ => Ret (" => <...> SCHEMA" +:+ endl)
      | VOther n => Ret (" => " +:+ type_name n +:+ " UNKNOWN" +:+ endl)
      | _ => s ← short 100; t ← toLiteral (type_of v);
             Ret (" => " +:+ s +:+ " " +:+ t +:+ endl)
      end
  end.

(** Hash::toStream, operator<< *)
Definition toStream (h : hash) (depth : nat) : outcome string :=
  concatM (fun n =>
    attrs ← concatM (fun a : string * value =>
              s ← render (Short 30) a.2;
              Ret (" " +:+ a.1 +:+ "=" +:+ quote +:+ s +:+ quote)) (nAttrs n);
    rest ← render (InStream depth) (nVal n);
    Ret (fill_of depth +:+ "'" +:+ nKey n +:+ "'" +:+ attrs +:+ rest)) h.

Definition getValueAs_string (v : value) : outcome string := render AsString v.
Definition getValueAsShortString (max : Z) (v : value) : outcome string := render (Short max) v.
Definition hash_toString (h : hash) : outcome string := propagated (toStream h 0%nat).

(** ** Termination *)

Definition max_ok (m : rendering) : Prop := match m with Short max => 0 <= max | _ => True end.

Lemma propagated_fuel {A} (x : outcome A) : x <> OutOfFuel -> propagated x <> OutOfFuel.
Proof. by destruct x. Qed.

Lemma strings_fuel {A} (f : A -> outcome string) (l : list A) :
  (forall x, In x l -> f x <> OutOfFuel) -> strings f l <> OutOfFuel.
Proof.
  induction l as [|x l IH]; intros Hf; cbn; [discriminate|].
  apply outcome_bind_fuel; [apply Hf; by left|]. intros s _.
  apply outcome_bind_fuel; [apply IH; intros; apply Hf; by right|discriminate].
Qed.

Lemma stream_elements_fuel {A} (f : A -> outcome string) (fill : string) (l : list A) :
  (forall x, In x l -> f x <> OutOfFuel) -> forall i, stream_elements f fill i l <> OutOfFuel.
Proof.
  induction l as [|x l IH]; intros Hf i; cbn; [discriminate|].
  apply outcome_bind_fuel; [apply Hf; by left|]. intros s _.
  apply outcome_bind_fuel; [apply IH; intros; apply Hf; by right|discriminate].
Qed.

Lemma toString_vector_pod_fuel (t : pod) (l : list Z) : toString_vector_pod t l <> OutOfFuel.
Proof. destruct t; try (by apply toString_vector_fuel); discriminate. Qed.

Lemma toStream_fuel (h : hash) (d : nat) :
  (forall c, In c (hash_values h) -> forall m, max_ok m -> render m c <> OutOfFuel) ->
  toStream h d <> OutOfFuel.
Proof.
  intros Hc. apply foldM_fuel. intros n s Hn.
  assert (forall c, In c (node_values n) -> forall m, max_ok m -> render m c <> OutOfFuel) as Hn'
    by (intros c ?; apply Hc, in_flat_map; eauto).
  apply outcome_bind_fuel; [|discriminate]. apply outcome_bind_fuel; [|intros attrs _].
  - apply foldM_fuel. intros a s' Ha. apply outcome_bind_fuel; [|discriminate].
    apply outcome_bind_fuel; [|discriminate]. apply Hn'; [right; by apply in_map|cbn; lia].
  - apply outcome_bind_fuel; [|discriminate]. apply Hn'; [by left|exact I].
Qed.

Lemma render_fuel (v : value) : forall m, max_ok m -> render m v <> OutOfFuel.
Proof.
  revert v. refine (value_children_ind _ _). intros v IH.
  assert (forall h, In h (value_hashes v) -> forall d, toStream h d <> OutOfFuel) as Hh.
  { intros h Hin d. apply toStream_fuel. intros c Hc. apply IH. by eapply children_hash. }
  assert (forall max, 0 <= max -> render (Short max) v <> OutOfFuel) as Hshort.
  { intros max Hmax. destruct v; try discriminate; try (by apply toString_vector_fuel);
      try (by apply toString_ByteArray_fuel).
    - destruct t; try (by apply toString_vector_fuel). discriminate.
    - apply propagated_fuel, Hh. by left.
    - change (render (Short max) (VVecHash l)) with
        (ss ← strings (fun h => propagated (toStream h 0%nat)) l; toString_vector id ss 0).
      apply outcome_bind_fuel; [apply strings_fuel|].
      + intros h Hin. by apply propagated_fuel, Hh.
      + intros ss _. by apply toString_vector_fuel. }
  assert (render AsString v <> OutOfFuel) as Hstring.
  { destruct v; try exact (Hshort 0 (Z.le_refl 0)); try discriminate.
    - apply toString_vector_pod_fuel.
    - apply toString_vector_string_fuel. }
  intros [|max|d] Hm; [exact Hstring|by apply Hshort|].
  assert (forall s : string, (s' ← render (Short 100) v; t ← toLiteral (type_of v);
    Ret (" => " +:+ s' +:+ " " +:+ t +:+ endl)) <> OutOfFuel) as Hgen.
  { intros _. apply outcome_bind_fuel; [apply Hshort; lia|]. intros s' _.
    apply outcome_bind_fuel; [by destruct (type_of v)|discriminate]. }
  destruct v; try exact (Hgen EmptyString); try discriminate.
  - apply outcome_bind_fuel; [apply Hh; by left|discriminate].
  - apply outcome_bind_fuel; [|discriminate]. apply stream_elements_fuel. intros h Hin. by apply Hh.
  - destruct p as [h|]; [|discriminate]. apply outcome_bind_fuel; [apply Hh; by left|discriminate].
  - apply outcome_bind_fuel; [|discriminate]. apply stream_elements_fuel. intros [h|] Hin; [|discriminate].
    apply Hh. apply in_flat_map. exists (Some h). split; [done|by left].
Qed.

Lemma getValueAs_string_fuel (v : value) : getValueAs_string v <> OutOfFuel.
Proof. by apply render_fuel. Qed.

End value_string.

#[export] Hint Resolve getValueAs_string_fuel : fuel.
