(* ===== verification/HashCompare.v ===== *)
(** Comparing and counting (data/types/Hash.cc, Hash.hh): similar (which is operator==),
    fullyEquals, the counters. *)

From Stdlib Require Import ZArith Lia Ascii String.
From stdpp Require Import base numbers list strings gmap.
From S2P Require Import Prelude Types Strings OrderedMap Hash HashAccess HashMerge ValueString.
Import Types.

Open Scope Z_scope.

(** The loop over two sequences in step; it ends with the first difference, and with
    the shorter of the two. *)
Fixpoint all_pairs {A} (f : A -> A -> outcome bool) (l r : list A) : outcome bool :=
  match l, r with
  | x :: l', y :: r' => b ← f x y; if b : bool then all_pairs f l' r' else Ret false
  | _, _ => Ret true
  end.

Fixpoint all_pairs_b {A} (f : A -> A -> bool) (l r : list A) : bool :=
  match l, r with
  | x :: l', y :: r' => if f x y then all_pairs_b f l' r' else false
  | _, _ => true
  end.

(** ** similar *)

(** similar(const Hash::Node&, const Hash::Node&), with the two overloads for Hash and
    vector of Hashes inside. *)
Fixpoint similar_value (left right : value) : bool :=
  let similar_hash (l r : hash) : bool :=
    if (length l =? length r)%nat then all_pairs_b (fun n m => similar_value (nVal n) (nVal m)) l r
    else false in
  if decide (type_of left = type_of right) then
    match left, right with
    | VHash l, VHash r => similar_hash l r
    | VVecHash l, VVecHash r =>
        if (length l =? length r)%nat then all_pairs_b similar_hash l r else false
    | _, _ => true
    end
  else false.

(** similar(const Hash&, const Hash&) *)
Definition similar (l r : hash) : bool :=
  if (length l =? length r)%nat then all_pairs_b (fun n m => similar_value (nVal n) (nVal m)) l r
  else false.

(** ** fullyEquals *)

Section fullyEquals.
Context (format_float : pod -> Z -> string).
Context (format_complex : cpx -> Z * Z -> string).
Context (type_name : nat -> string).
Abbreviation as_string := (getValueAs_string format_float format_complex type_name).

(** The element of the right container to compare with: the one at the same position
    when the keys agree, else what [find] gives for the key if order does not matter. *)
Definition counterpart {N} `{MappedType value N} (find : string -> outcome (option N))
    (orderMatters : bool) (l r : N) : outcome (option N) :=
  if decide (getKey l = getKey r) then Ret (Some r)
  else if orderMatters then Ret None else find (getKey l).

(** [other.find(key)]: a node is looked up by path, with the default separator; ... *)
Definition find_node (other : hash) (key : string) : outcome (option node) :=
  p ← find key k_defaultSep other; Ret (p ≫= fun p => node_at p other).

(** ... an attribute by its key. *)
Definition find_attribute (ra : attributes) (key : string) : outcome (option (string * value)) :=
  Ret (afind key ra).

(** The comparison of two values of the same type, of nodes or of attributes. *)
Fixpoint value_equals (orderMatters : bool) (left right : value) : outcome bool :=
  let attr_equals (ra : attributes) (a b : string * value) : outcome bool :=
    c ← counterpart (find_attribute ra) orderMatters a b;
    match c with
    | None => Ret false
    | Some b => if decide (type_of a.2 = type_of b.2) then value_equals orderMatters a.2 b.2
                else Ret false
    end in
  let node_equals (right : hash) (n m : node) : outcome bool :=
    c ← counterpart (find_node right) orderMatters n m;
    match c with
    | None => Ret false
    | Some m =>
        if decide (getType n = getType m) then
          if (length (nAttrs n) =? length (nAttrs m))%nat then
            b ← all_pairs (attr_equals (nAttrs m)) (nAttrs n) (nAttrs m);
            if b : bool then value_equals orderMatters (nVal n) (nVal m) else Ret false
          else Ret false
        else Ret false
    end in
  let fullyEquals (l r : hash) : outcome bool :=
    if (length l =? length r)%nat then all_pairs (node_equals r) l r else Ret false in
  match left, right with
  | VHash l, VHash r => fullyEquals l r
  | VVecHash l, VVecHash r =>
      if (length l =? length r)%nat then all_pairs fullyEquals l r else Ret false
  | VVecHashPtr _, _ => Throw NotImplementedException
  | VVecString l, VVecString r => Ret (bool_decide (l = r))
  | _, _ => a ← as_string left; b ← as_string right; Ret (bool_decide (a = b))
  end.

Definition attr_equals (orderMatters : bool) (ra : attributes) (a b : string * value) : outcome bool :=
  c ← counterpart (find_attribute ra) orderMatters a b;
  match c with
  | None => Ret false
  | Some b => if decide (type_of a.2 = type_of b.2) then value_equals orderMatters a.2 b.2
              else Ret false
  end.

Definition node_equals (orderMatters : bool) (right : hash) (n m : node) : outcome bool :=
  c ← counterpart (find_node right) orderMatters n m;
  match c with
  | None => Ret false
  | Some m =>
      if decide (getType n = getType m) then
        if (length (nAttrs n) =? length (nAttrs m))%nat then
          b ← all_pairs (attr_equals orderMatters (nAttrs m)) (nAttrs n) (nAttrs m);
          if b : bool then value_equals orderMatters (nVal n) (nVal m) else Ret false
        else Ret false
      else Ret false
  end.

(** Hash::fullyEquals(other, orderMatters) *)
Definition fullyEquals (orderMatters : bool) (this other : hash) : outcome bool :=
  if (length this =? length other)%nat then all_pairs (node_equals orderMatters other) this other
  else Ret false.
End fullyEquals.

(** ** Counters *)

(** counter(const Hash::Node&): the length of a vector; no case for the other types. *)
Definition counter_node (v : value) : Z :=
  match v with
  | VVecBool l => Z.of_nat (length l)
  | VVecString l => Z.of_nat (length l)
  | VVecPod _ l => Z.of_nat (length l)
  | VVecComplex _ l => Z.of_nat (length l)
  | VVecHash l => Z.of_nat (length l)
  | _ => 0
  end.

Definition sum (l : list Z) : Z := foldr Z.add 0 l.

(** What one node adds in counter(const Hash&); [size_t] sums, which stay far below 2^64. *)
Fixpoint count_node (classId : bool) (v : value) : Z :=
  let counter (h : hash) : Z :=
    sum (map (fun n => count_node (hasAttribute KARABO_HASH_CLASS_ID n) (nVal n)) h) in
  1 + match v with
      | VHash h => if negb classId then counter h else counter_node v
      | VVecHash l => Z.of_nat (length l) + sum (map counter l)
      | _ => counter_node v
      end.
Definition counter (h : hash) : Z :=
  sum (map (fun n => count_node (hasAttribute KARABO_HASH_CLASS_ID n) (nVal n)) h).

(** counter(const Hash&, Types::ReferenceType) *)
Fixpoint count_type_node (type : ReferenceType) (classId : bool) (v : value) : Z :=
  let counter (h : hash) : Z :=
    sum (map (fun n => count_type_node type (hasAttribute KARABO_HASH_CLASS_ID n) (nVal n)) h) in
  let eleType := type_of v in
  let sequence : Z :=
    if decide (category eleType = SEQUENCE)
    then if code type =? code eleType - 1 then counter_node v else 0
    else 0 in
  (if decide (eleType = type) then 1 else 0) +
  match v with
  | VHash h => if negb classId then counter h else sequence
  | VVecHash l => (if decide (type = HASH) then Z.of_nat (length l) else 0) + sum (map counter l)
  | _ => sequence
  end.
Definition counter_type (type : ReferenceType) (h : hash) : Z :=
  sum (map (fun n => count_type_node type (hasAttribute KARABO_HASH_CLASS_ID n) (nVal n)) h).

(** counter<ValueType>(const Hash&): [type] is the typeid of ValueType and [vec] that
    of std::vector<ValueType>. *)
Fixpoint count_T_node (ty vec : type_info) (v : value) : Z :=
  let counter (h : hash) : Z := sum (map (fun n => count_T_node ty vec (nVal n)) h) in
  (if is_type ty v then 1 else 0) +
  match v with
  | VHash h => counter h
  | VVecHash l => (if decide (ty = Tscalar Hash_) then Z.of_nat (length l) else 0) + sum (map counter l)
  | _ => if decide (category (type_of v) = SEQUENCE)
         then if decide (vec = type v) then counter_node v else 0 else 0
  end.
Definition counter_T (ty vec : type_info) (h : hash) : Z :=
  sum (map (fun n => count_T_node ty vec (nVal n)) h).

(** ** Comparing in step *)

Lemma all_pairs_b_spec {A} (f : A -> A -> bool) (l r : list A) :
  (if (length l =? length r)%nat then all_pairs_b f l r else false) = true <->
  Forall2 (fun x y => f x y = true) l r.
Proof.
  revert r. induction l as [|x l IH]; intros [|y r]; cbn.
  - split; [intros; constructor|reflexivity].
  - split; [discriminate|inversion 1].
  - split; [discriminate|inversion 1].
  - specialize (IH r). destruct (f x y) eqn:E.
    + rewrite IH. split; [by constructor|by inversion_clear 1].
    + split; [by case_match|]. inversion_clear 1. congruence.
Qed.

Lemma all_pairs_Ret {A} (f : A -> A -> outcome bool) (l r : list A) :
  length l = length r ->
  all_pairs f l r = Ret true <-> Forall2 (fun x y => f x y = Ret true) l r.
Proof.
  revert r. induction l as [|x l IH]; intros [|y r]; cbn; intros Hl; try discriminate Hl.
  - split; [intros; constructor|reflexivity].
  - injection Hl as Hl. specialize (IH r Hl). split.
    + intros E. outcome_inv. destruct a; [|done]. constructor; tauto.
    + inversion_clear 1 as [|? ? ? ? Hf Hr]. rewrite Hf. cbn. tauto.
Qed.

Lemma Forall2_map_eq {A B} (g : A -> B) (R : A -> A -> Prop) (l r : list A) :
  (forall x y, In x l -> R x y <-> g x = g y) -> Forall2 R l r <-> map g l = map g r.
Proof.
  revert r. induction l as [|x l IH]; intros [|y r] HR; cbn.
  - split; [reflexivity|constructor].
  - split; [inversion 1|discriminate].
  - split; [inversion 1|discriminate].
  - specialize (IH r (fun a b Ha => HR a b (or_intror Ha))). split.
    + inversion_clear 1. f_equal; [apply HR; [by left|done]|tauto].
    + intros [= E1 E2]. constructor; [apply HR; [by left|done]|tauto].
Qed.

(** ** similar compares the trees of types *)

#[warnings="-register-all"] Inductive shape : Type :=
| SLeaf (t : ReferenceType)
| SHash (l : list shape)
| SVector (l : list (list shape)).

Fixpoint shape_value (v : value) : shape :=
  match v with
  | VHash h => SHash (map (fun n => shape_value (nVal n)) h)
  | VVecHash l => SVector (map (map (fun n => shape_value (nVal n))) l)
  | _ => SLeaf (type_of v)
  end.

Definition shape_hash (h : hash) : list shape := map (fun n => shape_value (nVal n)) h.

(** The reference type tells Hashes and vectors of Hashes from all other values. *)
Lemma is_Hash_type (v : value) : is_Hash v = bool_decide (type_of v = HASH).
Proof. destruct v as [|[]|[]| | | | |[]|[]| | | | | | | | |]; reflexivity. Qed.

Lemma is_vector_Hash_type (v : value) : is_vector_Hash v = bool_decide (type_of v = VECTOR_HASH).
Proof. destruct v as [|[]|[]| | | | |[]|[]| | | | | | | | |]; reflexivity. Qed.

Definition is_leaf_value (v : value) : bool := negb (is_Hash v) && negb (is_vector_Hash v).

Lemma is_leaf_value_type (v w : value) :
  type_of v = type_of w -> is_leaf_value v = is_leaf_value w.
Proof.
  intros E. unfold is_leaf_value. by rewrite !is_Hash_type, !is_vector_Hash_type, E.
Qed.

Lemma shape_leaf (v : value) : is_leaf_value v = true -> shape_value v = SLeaf (type_of v).
Proof. by destruct v. Qed.

Lemma similar_leaf (v w : value) :
  is_leaf_value v = true -> similar_value v w = bool_decide (type_of v = type_of w).
Proof.
  intros Hv. destruct v; try discriminate Hv; cbn [similar_value]; case_decide as D;
    solve [by rewrite bool_decide_eq_true_2|by rewrite bool_decide_eq_false_2].
Qed.

Lemma shape_leaf_inv (v w : value) :
  is_leaf_value v = true -> shape_value v = shape_value w -> type_of v = type_of w.
Proof.
  intros Hv. rewrite (shape_leaf v Hv). destruct w; cbn [shape_value]; congruence.
Qed.

Lemma similar_value_shape (left : value) :
  forall right, similar_value left right = true <-> shape_value left = shape_value right.
Proof.
  revert left. refine (value_children_ind _ _). intros l IH r.
  assert (forall (hl hr : hash), (forall n, In n hl -> In (nVal n) (children l)) ->
    (if (length hl =? length hr)%nat then all_pairs_b (fun n m => similar_value (nVal n) (nVal m)) hl hr
     else false) = true <-> shape_hash hl = shape_hash hr) as Hh.
  { intros hl hr Hc. rewrite all_pairs_b_spec.
    apply (Forall2_map_eq (fun n => shape_value (nVal n))). intros n m Hn. by apply IH, Hc. }
  destruct (is_leaf_value l) eqn:Hl.
  { rewrite (similar_leaf l r Hl), bool_decide_eq_true. split; [|by apply shape_leaf_inv].
    intros E. rewrite (shape_leaf l Hl), (is_leaf_value_type l r E) in *.
    by rewrite (shape_leaf r Hl), E. }
  destruct l; try discriminate Hl.
  - destruct (is_Hash r) eqn:Hr.
    + destruct r; try discriminate Hr. cbn [similar_value shape_value]. rewrite decide_True by done.
      rewrite Hh; [unfold shape_hash; split; congruence|].
      intros n Hn. apply in_flat_map. exists n. split; [done|by left].
    + cbn [similar_value]. rewrite decide_False.
      * split; [done|]. intros E. destruct r; cbn [shape_value is_Hash is_vector_Hash] in E, Hr; congruence.
      * rewrite is_Hash_type in Hr. apply bool_decide_eq_false in Hr. intros C. apply Hr.
        by rewrite <- C.
  - destruct (is_vector_Hash r) eqn:Hr.
    + destruct r; try discriminate Hr. cbn [similar_value shape_value]. rewrite decide_True by done.
      rewrite all_pairs_b_spec. rewrite (Forall2_map_eq shape_hash);
        [split; [intros Em; exact (f_equal SVector Em)|intros Em; injection Em; done]|].
      intros hl hr Hhl. apply Hh. intros n Hn. apply in_flat_map. exists hl. split; [done|].
      apply in_flat_map. exists n. split; [done|by left].
    + cbn [similar_value]. rewrite decide_False.
      * split; [done|]. intros E. destruct r; cbn [shape_value is_Hash is_vector_Hash] in E, Hr; congruence.
      * rewrite is_vector_Hash_type in Hr. apply bool_decide_eq_false in Hr. intros C. apply Hr.
        by rewrite <- C.
Qed.

Lemma similar_shape (l r : hash) : similar l r = true <-> shape_hash l = shape_hash r.
Proof.
  unfold similar. rewrite all_pairs_b_spec.
  apply (Forall2_map_eq (fun n => shape_value (nVal n))). intros n m _. apply similar_value_shape.
Qed.

(** C29: operator== of Hash (similar) holds exactly when the two Hashes are the same tree
    of types: as many nodes, in this order of the same types, and so on for the Hashes
    and vectors of Hashes below.  So it is an equivalence relation, and neither keys nor
    attributes nor values matter for it. *)
Theorem similar_spec :
  (forall l r, similar l r = true <-> shape_hash l = shape_hash r) /\
  Equivalence (fun l r => similar l r = true).
Proof.
  split; [apply similar_shape|]. split.
  - intros h. by apply similar_shape.
  - intros l r H. apply similar_shape. by apply similar_shape in H.
  - intros l m r H1 H2. apply similar_shape in H1, H2. apply similar_shape. congruence.
Qed.

(** ** fullyEquals *)

Section fullyEquals_laws.
Context (format_float : pod -> Z -> string).
Context (format_complex : cpx -> Z * Z -> string).
Context (type_name : nat -> string).
Abbreviation as_string := (getValueAs_string format_float format_complex type_name).
Abbreviation value_equals := (value_equals format_float format_complex type_name).
Abbreviation attr_equals := (attr_equals format_float format_complex type_name).
Abbreviation node_equals := (node_equals format_float format_complex type_name).
Abbreviation fullyEquals := (fullyEquals format_float format_complex type_name).

Lemma value_equals_hash (om : bool) (l r : hash) :
  value_equals om (VHash l) (VHash r) = fullyEquals om l r.
Proof. reflexivity. Qed.

Lemma value_equals_vector (om : bool) (l r : list hash) :
  value_equals om (VVecHash l) (VVecHash r) =
  if (length l =? length r)%nat then all_pairs (fullyEquals om) l r else Ret false.
Proof. reflexivity. Qed.

Lemma all_pairs_length {A} (f : A -> A -> outcome bool) (l r : list A) :
  (if (length l =? length r)%nat then all_pairs f l r else Ret false) = Ret true <->
  Forall2 (fun x y => f x y = Ret true) l r.
Proof.
  destruct (Nat.eqb_spec (length l) (length r)) as [E|E]; [by apply all_pairs_Ret|].
  split; [discriminate|]. intros H%Forall2_length. done.
Qed.

(** With the order of keys mattering: the counterpart has the same key. *)
Lemma counterpart_true {N} `{MappedType value N} (find : string -> outcome (option N)) (l r : N) :
  counterpart find true l r = Ret (if decide (getKey l = getKey r) then Some r else None).
Proof. unfold counterpart. by case_decide. Qed.

Lemma counterpart_same {N} `{MappedType value N} (find : string -> outcome (option N)) (om : bool)
    (l r : N) :
  getKey l = getKey r -> counterpart find om l r = Ret (Some r).
Proof. intros E. unfold counterpart. by rewrite decide_True. Qed.

Lemma attr_equals_true (om : bool) (ra : attributes) (a b : string * value) :
  attr_equals true ra a b = Ret true ->
  (value_equals true a.2 b.2 = Ret true -> value_equals om a.2 b.2 = Ret true) ->
  a.1 = b.1 /\ attr_equals om ra a b = Ret true.
Proof.
  unfold HashCompare.attr_equals. rewrite counterpart_true. cbn [mbind outcome_bind].
  case_decide as Ek; [|done]. intros Hv Hm. split; [exact Ek|].
  rewrite (counterpart_same _ om a b Ek). cbn [mbind outcome_bind]. case_decide; [auto|done].
Qed.

Lemma attrs_equal_true (om : bool) (ra l r : attributes) (P : value -> Prop) :
  Forall2 (fun a b => attr_equals true ra a b = Ret true) l r ->
  (forall a, In a l -> P a.2) ->
  (forall x y, P x -> value_equals true x y = Ret true -> value_equals om x y = Ret true) ->
  Forall2 (fun a b => attr_equals om ra a b = Ret true) l r.
Proof.
  intros Hall Hin Hm. induction Hall as [|a b l r Hab _ IH]; constructor.
  - apply (attr_equals_true om _ a b Hab). apply Hm, Hin. by left.
  - apply IH. intros; apply Hin. by right.
Qed.

(** Two nodes that fullyEquals has found equal, with the order of keys mattering. *)
Lemma node_equals_true (om : bool) (right : hash) (n m : node) :
  node_equals true right n m = Ret true ->
  (forall x y, In x (node_values n) -> value_equals true x y = Ret true ->
     value_equals om x y = Ret true) ->
  nKey n = nKey m /\ getType n = getType m /\ value_equals true (nVal n) (nVal m) = Ret true /\
  node_equals om right n m = Ret true.
Proof.
  unfold HashCompare.node_equals. rewrite counterpart_true. cbn [mbind outcome_bind].
  case_decide as Ek; [|done]. rewrite (counterpart_same _ om n m Ek). cbn [mbind outcome_bind].
  destruct (decide _) as [Et|]; [|done]. destruct (Nat.eqb_spec (length (nAttrs n)) (length (nAttrs m)))
    as [El|]; [|done].
  intros Ha Hm. outcome_inv. destruct a; [|done]. split_and!; try done.
  apply (all_pairs_Ret _ _ _ El) in Ha0.
  assert (all_pairs (attr_equals om (nAttrs m)) (nAttrs n) (nAttrs m) = Ret true) as ->.
  { apply (all_pairs_Ret _ _ _ El).
    apply (attrs_equal_true om _ _ _ (fun x => In x (node_values n))); [done| |exact Hm].
    intros a Hin. right. by apply in_map. }
  cbn. apply Hm; [by left|done].
Qed.

Lemma nodes_equal_true (om : bool) (right l r : hash) :
  Forall2 (fun n m => node_equals true right n m = Ret true) l r ->
  (forall n, In n l -> forall x y, In x (node_values n) -> value_equals true x y = Ret true ->
     value_equals om x y = Ret true) ->
  (forall n, In n l -> forall y, type_of (nVal n) = type_of y ->
     value_equals true (nVal n) y = Ret true -> shape_value (nVal n) = shape_value y) ->
  keys l = keys r /\ shape_hash l = shape_hash r /\
  Forall2 (fun n m => node_equals om right n m = Ret true) l r.
Proof.
  intros Hall Hm Hs. induction Hall as [|n m l r Hnm _ IH]; [by repeat split|].
  destruct (node_equals_true om right n m Hnm) as (Ek & Et & Ev & En); [apply Hm; by left|].
  destruct (IH (fun n Hn => Hm n (or_intror Hn)) (fun n Hn => Hs n (or_intror Hn)))
    as (IHk & IHs & IHe).
  split_and!.
  - unfold keys in *. cbn. f_equal; [exact Ek|exact IHk].
  - unfold shape_hash in *. cbn. f_equal; [|exact IHs]. apply Hs; [by left|exact Et|exact Ev].
  - by constructor.
Qed.

Lemma value_equals_true (left : value) :
  forall right, value_equals true left right = Ret true ->
  (forall om, value_equals om left right = Ret true) /\
  (type_of left = type_of right -> shape_value left = shape_value right).
Proof.
  revert left. refine (value_children_ind _ _). intros l IH r E.
  assert (forall hl hr om, (forall n, In n hl -> forall x, In x (node_values n) -> In x (children l)) ->
    fullyEquals true hl hr = Ret true ->
    keys hl = keys hr /\ shape_hash hl = shape_hash hr /\ fullyEquals om hl hr = Ret true) as Hh.
  { intros hl hr om Hc He. unfold HashCompare.fullyEquals in *. rewrite all_pairs_length in *.
    apply (nodes_equal_true om hr hl hr He).
    - intros n Hn x y Hx Hxy. by apply (IH x (Hc n Hn x Hx) y Hxy).
    - intros n Hn y Ht Hy. by apply (IH (nVal n) (Hc n Hn _ (or_introl eq_refl)) y Hy). }
  destruct (is_leaf_value l) eqn:Hl.
  { split; [intros om; rewrite <- E; by destruct l, r|].
    intros Et. rewrite (shape_leaf l Hl), (shape_leaf r); [by rewrite Et|].
    by rewrite <- (is_leaf_value_type l r Et). }
  destruct l; try discriminate Hl.
  - assert (forall n, In n h -> forall x, In x (node_values n) -> In x (children (VHash h))) as Hc
      by (intros n Hn x Hx; apply in_flat_map; eauto).
    destruct (is_Hash r) eqn:Hr.
    + destruct r as [| | | | | | | | | | |hr| | | | | |]; try discriminate Hr. split.
      * intros om. by apply (Hh h hr om Hc).
      * intros _. cbn. f_equal. by apply (Hh h hr true Hc).
    + split; [intros om; rewrite <- E; by destruct r|]. rewrite is_Hash_type in Hr.
      apply bool_decide_eq_false in Hr. intros C. exfalso. apply Hr. by rewrite <- C.
  - destruct (is_vector_Hash r) eqn:Hr.
    + destruct r as [| | | | | | | | | | | |lr| | | | |]; try discriminate Hr.
      rewrite value_equals_vector, all_pairs_length in E.
      assert (forall h, In h l -> forall n, In n h -> forall x, In x (node_values n) ->
        In x (children (VVecHash l))) as Hc.
      { intros h Hh' n Hn x Hx. apply in_flat_map. exists h. split; [done|].
        apply in_flat_map. eauto. }
      assert (forall om, Forall2 (fun x y => shape_hash x = shape_hash y /\
        fullyEquals om x y = Ret true) l lr) as Hall.
      { intros om. revert Hc Hh. generalize (children (VVecHash l)) as cs. intros cs Hc Hh.
        clear IH Hl Hr. induction E as [|x y l lr Hxy _ IHE]; constructor.
        - apply (Hh x y om); [apply Hc; by left|exact Hxy].
        - apply IHE. intros h Hin. apply Hc. by right. }
      split.
      * intros om. rewrite value_equals_vector, all_pairs_length.
        eapply Forall2_impl; [exact (Hall om)|]. by intros ? ? [_ ?].
      * intros _. cbn. f_equal.
        refine (proj1 (Forall2_map_eq shape_hash (fun x y => shape_hash x = shape_hash y) l lr _) _).
        -- done.
        -- eapply Forall2_impl; [exact (Hall true)|]. by intros ? ? [? _].
    + split; [intros om; rewrite <- E; by destruct r|]. rewrite is_vector_Hash_type in Hr.
      apply bool_decide_eq_false in Hr. intros C. exfalso. apply Hr. by rewrite <- C.
Qed.

(** Values that fullyEquals can compare: no vectors of Hash pointers, and a text for
    every value that is compared by its text. *)
Inductive comparable (v : value) : Prop :=
| comparable_intro :
    match v with
    | VHash _ | VVecHash _ | VVecString _ => True
    | VVecHashPtr _ => False
    | _ => exists s, as_string v = Ret s
    end ->
    (forall c, In c (children v) -> comparable c) ->
    comparable v.

Lemma Forall2_same {A} (R : A -> A -> Prop) (l : list A) :
  (forall x, In x l -> R x x) -> Forall2 R l l.
Proof.
  induction l as [|x l IH]; intros HR; constructor; [apply HR; by left|].
  apply IH. intros; apply HR. by right.
Qed.

Lemma hash_equals_refl (om : bool) (h : hash) :
  (forall n, In n h -> forall x, In x (node_values n) -> value_equals om x x = Ret true) ->
  fullyEquals om h h = Ret true.
Proof.
  intros Hh. unfold HashCompare.fullyEquals. rewrite all_pairs_length. apply Forall2_same.
  intros n Hn. unfold HashCompare.node_equals. rewrite counterpart_same by done.
  cbn [mbind outcome_bind]. rewrite decide_True by done. rewrite Nat.eqb_refl.
  rewrite (proj2 (all_pairs_Ret _ (nAttrs n) (nAttrs n) eq_refl)).
  - cbn. apply (Hh n Hn). by left.
  - apply Forall2_same. intros a Ha. unfold HashCompare.attr_equals.
    rewrite counterpart_same by done. cbn [mbind outcome_bind]. rewrite decide_True by done.
    apply (Hh n Hn). right. by apply in_map.
Qed.

Lemma value_equals_refl (om : bool) (v : value) : comparable v -> value_equals om v v = Ret true.
Proof.
  revert v. refine (value_children_ind _ _). intros v IH [Hv Hc].
  destruct v; try (match type of Hv with exists _, _ => destruct Hv as [s' Hs] end;
    change (value_equals om ?x ?x) with
      (a ← as_string x; b ← as_string x; Ret (bool_decide (a = b)));
    rewrite Hs; cbn; by rewrite bool_decide_eq_true_2).
  - cbn. by rewrite bool_decide_eq_true_2.
  - apply hash_equals_refl. intros n Hn x Hx.
    assert (In x (children (VHash h))) as Hin by (apply in_flat_map; eauto). auto.
  - rewrite value_equals_vector, all_pairs_length. apply Forall2_same. intros h Hh.
    apply hash_equals_refl. intros n Hn x Hx.
    assert (In x (children (VVecHash l))) as Hin
      by (apply in_flat_map; exists h; split; [done|apply in_flat_map; eauto]). auto.
  - done.
Qed.
(** *** What it means to be fully equal *)

(** The element of the right container that belongs to [x], at position [i] of the left
    one: that at the same position, or that with the same key if order does not matter. *)
Definition partner {N} `{MappedType value N} (om : bool) (r : list N) (i : nat) (x : N) : option N :=
  if om then r !! i else afind (getKey x) r.

Definition compared_by_text (v : value) : bool :=
  match v with
  | VHash _ | VVecHash _ | VVecString _ | VVecHashPtr _ => false
  | _ => true
  end.

(** Equal values: Hashes with equal nodes, vectors of these, the same vectors of strings,
    and otherwise values that print alike. *)
Inductive equal_value (om : bool) : value -> value -> Prop :=
| equal_VHash l r : equal_hash om l r -> equal_value om (VHash l) (VHash r)
| equal_VVecHash l r : Forall2 (equal_hash om) l r -> equal_value om (VVecHash l) (VVecHash r)
| equal_VVecString l : equal_value om (VVecString l) (VVecString l)
| equal_text v w s :
    compared_by_text v = true -> as_string v = Ret s -> as_string w = Ret s -> equal_value om v w
with equal_hash (om : bool) : hash -> hash -> Prop :=
| equal_nodes l r :
    length l = length r ->
    (forall i n, l !! i = Some n -> exists m, partner om r i n = Some m /\ equal_node om n m) ->
    equal_hash om l r
with equal_node (om : bool) : node -> node -> Prop :=
| equal_node_intro n m :
    nKey n = nKey m -> type_of (nVal n) = type_of (nVal m) ->
    length (nAttrs n) = length (nAttrs m) ->
    (forall i a, nAttrs n !! i = Some a -> exists b, partner om (nAttrs m) i a = Some b /\
       a.1 = b.1 /\ type_of a.2 = type_of b.2 /\ equal_value om a.2 b.2) ->
    equal_value om (nVal n) (nVal m) ->
    equal_node om n m.

(** The lookups of [find] are those by key. *)
Definition finds {N} `{MappedType value N} (find : string -> outcome (option N)) (r : list N) (x : N)
  : Prop := awf r /\ find (getKey x) = Ret (afind (getKey x) r).

Lemma counterpart_partner {N} `{MappedType value N} (find : string -> outcome (option N)) (om : bool)
    (r : list N) (i : nat) (x y z : N) :
  r !! i = Some y -> (om = false -> finds find r x) ->
  counterpart find om x y = Ret (Some z) <-> partner om r i x = Some z /\ getKey x = getKey z.
Proof.
  intros Hy Hf. unfold counterpart, partner. destruct om.
  - rewrite Hy. case_decide as D; [|split; [discriminate|intros [[= <-] E]; congruence]].
    split; [by intros [= <-]|by intros [[= <-] _]].
  - destruct (Hf eq_refl) as [Hw ->]. case_decide as D.
    + rewrite D, (afind_elem_wf r y Hw) by (by eapply list_elem_of_lookup_2).
      split; [by intros [= <-]|by intros [[= <-] _]].
    + split; [intros [= E]|by intros [-> _]]. split; [done|]. by apply afind_key in E.
Qed.

Lemma counterpart_total {N} `{MappedType value N} (find : string -> outcome (option N)) (om : bool)
    (x y : N) :
  (om = false -> exists c, find (getKey x) = Ret c) -> exists c, counterpart find om x y = Ret c.
Proof.
  intros Hf. unfold counterpart. case_decide; [by eauto|]. destruct om; [by eauto|auto].
Qed.

(** Comparing in step, as lookups. *)
Lemma all_pairs_lookup {A} (f : A -> A -> outcome bool) (P : nat -> A -> Prop) (l r : list A) :
  (forall i x y, l !! i = Some x -> r !! i = Some y -> f x y = Ret true <-> P i x) ->
  (if (length l =? length r)%nat then all_pairs f l r else Ret false) = Ret true <->
  length l = length r /\ forall i x, l !! i = Some x -> P i x.
Proof.
  intros HP. rewrite all_pairs_length. split.
  - intros Hall. split; [by eapply Forall2_length|]. intros i x Hx.
    destruct (Forall2_lookup_l _ _ _ _ _ Hall Hx) as (y & Hy & Hf). by eapply HP.
  - intros [Hl Hall]. apply Forall2_same_length_lookup. split; [done|].
    intros i x y Hx Hy. by eapply HP; eauto.
Qed.

Lemma bind_true (x y : outcome bool) :
  (b ← x; if b : bool then y else Ret false) = Ret true <-> x = Ret true /\ y = Ret true.
Proof.
  destruct x as [[]|?| |]; cbn; split; intros H; [by split|by apply H|done|by destruct H|..];
    solve [done|by destruct H].
Qed.

Lemma attr_equals_iff (om : bool) (ra : attributes) (i : nat) (a b : string * value) :
  ra !! i = Some b -> (om = false -> awf ra) ->
  (forall c, c ∈ ra -> type_of a.2 = type_of c.2 ->
     value_equals om a.2 c.2 = Ret true <-> equal_value om a.2 c.2) ->
  attr_equals om ra a b = Ret true <->
  exists c, partner om ra i a = Some c /\ a.1 = c.1 /\ type_of a.2 = type_of c.2 /\
    equal_value om a.2 c.2.
Proof.
  intros Hb Hw IH. unfold HashCompare.attr_equals.
  pose proof (fun z => counterpart_partner (find_attribute ra) om ra i a b z Hb
                (fun E => conj (Hw E) eq_refl)) as Hc.
  assert (forall c, partner om ra i a = Some c -> c ∈ ra) as Hin.
  { unfold partner. intros c. destruct om; [apply list_elem_of_lookup_2|apply afind_elem]. }
  split.
  - intros E. outcome_inv. destruct a0 as [c|]; [|done]. apply Hc in Ha as [Hp Hk].
    case_decide as Ht; [|done]. exists c. split_and!; try done. by apply IH; auto.
  - intros (c & Hp & Hk & Ht & He). rewrite (proj2 (Hc c) (conj Hp Hk)). cbn [mbind outcome_bind].
    rewrite decide_True by done. by apply IH; auto.
Qed.

Lemma find_node_single (r : hash) (k : string) :
  single_key k -> find_node r k = Ret (afind k r).
Proof.
  intros Hk. unfold find_node. rewrite find_single by done. cbn [mbind outcome_bind].
  destruct (afind k r) eqn:E; [|done]. cbn. by rewrite E.
Qed.

(** Lookups by key are the right ones in [w] for what the Hash or vector [v] has. *)
Definition plain (om : bool) (v w : value) : Prop := om = false -> single_keys v /\ wf_value w.

Lemma node_equals_iff (om : bool) (r : hash) (i : nat) (n m : node) :
  r !! i = Some m ->
  (om = false -> single_key (nKey n) /\ awf r /\ forall m', m' ∈ r -> awf (nAttrs m')) ->
  (forall x m' y, In x (node_values n) -> m' ∈ r -> In y (node_values m') -> type_of x = type_of y ->
     value_equals om x y = Ret true <-> equal_value om x y) ->
  node_equals om r n m = Ret true <->
  exists m', partner om r i n = Some m' /\ equal_node om n m'.
Proof.
  intros Hm Hp IH. unfold HashCompare.node_equals.
  pose proof (fun z => counterpart_partner (find_node r) om r i n m z Hm
    (fun E => conj (proj1 (proj2 (Hp E))) (find_node_single r _ (proj1 (Hp E))))) as Hc.
  assert (forall c, partner om r i n = Some c -> c ∈ r) as Hin.
  { unfold partner. intros c. destruct om; [apply list_elem_of_lookup_2|apply afind_elem]. }
  assert (forall c, c ∈ r ->
    (if (length (nAttrs n) =? length (nAttrs c))%nat
     then all_pairs (attr_equals om (nAttrs c)) (nAttrs n) (nAttrs c) else Ret false) = Ret true <->
    length (nAttrs n) = length (nAttrs c) /\ forall j a, nAttrs n !! j = Some a ->
      exists b, partner om (nAttrs c) j a = Some b /\
       a.1 = b.1 /\ type_of a.2 = type_of b.2 /\ equal_value om a.2 b.2) as Ha.
  { intros c Hcr. apply all_pairs_lookup. intros j a b Haj Hbj. apply attr_equals_iff; [done| |].
    - intros E. by apply Hp.
    - intros d Hd Ht. apply (IH _ c); [|done| |done]; right; apply in_map, list_elem_of_In; [|done].
      by eapply list_elem_of_lookup_2. }
  split.
  - intros E. outcome_inv. destruct a as [c|]; [|done]. apply Hc in Ha0 as [Hpc Hk].
    case_decide as Ht; [|done]. exists c. split; [done|]. pose proof (Hin c Hpc) as Hcr.
    destruct (Nat.eqb_spec (length (nAttrs n)) (length (nAttrs c))) as [El|]; [|done].
    apply bind_true in E as [Eat Ev].
    destruct (proj1 (Ha c Hcr)) as [_ Hat]; [by rewrite El, Nat.eqb_refl|].
    constructor; try done. apply (IH _ c); [by left|done|by left|done|done].
  - intros (c & Hpc & He). inversion He as [? ? Hk Ht El Hat Hv]; subst.
    pose proof (Hin c Hpc) as Hcr. rewrite (proj2 (Hc c) (conj Hpc Hk)). cbn [mbind outcome_bind].
    unfold getType. rewrite decide_True by done. pose proof (proj2 (Ha c Hcr) (conj El Hat)) as Eat.
    rewrite El, Nat.eqb_refl in *. apply bind_true. split; [done|].
    apply (IH _ c); [by left|done|by left|done|done].
Qed.
Lemma single_keys_hash (h : hash) :
  single_keys (VHash h) ->
  forall n, In n h -> single_key (nKey n) /\ forall x, In x (node_values n) -> single_keys x.
Proof.
  intros [Hk Hc] n Hn. split; [by apply (Hk h); [left|]|].
  intros x Hx. apply Hc, in_flat_map. eauto.
Qed.

Lemma wf_node_value (h : hash) (n : node) (x : value) :
  wf h -> In n h -> In x (node_values n) -> wf_value x.
Proof. intros [_ _ Hc] Hn Hx. apply Hc, in_flat_map. eauto. Qed.

Lemma hash_equals_iff (om : bool) (l r : hash) :
  plain om (VHash l) (VHash r) ->
  (forall n x, In n l -> In x (node_values n) -> forall y, type_of x = type_of y -> plain om x y ->
     value_equals om x y = Ret true <-> equal_value om x y) ->
  fullyEquals om l r = Ret true <-> equal_hash om l r.
Proof.
  intros Hp IH. unfold HashCompare.fullyEquals.
  rewrite (all_pairs_lookup _ (fun i n => exists m, partner om r i n = Some m /\ equal_node om n m)).
  - split; [by intros [? ?]|by inversion 1].
  - intros i n m Hn Hm. apply list_elem_of_lookup_2, list_elem_of_In in Hn.
    apply node_equals_iff; [done| |].
    + intros E. destruct (Hp E) as [Hs Hw]. apply wf_nodes in Hw as [Hw Hwn].
      split_and!; [by apply (single_keys_hash l)|done|].
      intros m' Hm'%list_elem_of_In. by apply Hwn.
    + intros x m' y Hx Hm'%list_elem_of_In Hy Ht. apply (IH n x Hn Hx y Ht). intros E.
      destruct (Hp E) as [Hs Hw].
      exact (conj (proj2 (single_keys_hash l Hs n Hn) x Hx) (wf_node_value r m' y Hw Hm' Hy)).
Qed.

Lemma is_vector_string_type (v : value) :
  match v with VVecString _ => true | _ => false end = bool_decide (type_of v = VECTOR_STRING).
Proof. destruct v as [|[]|[]| | | | |[]|[]| | | | | | | | |]; reflexivity. Qed.

Lemma single_keys_vector (l : list hash) (h : hash) :
  single_keys (VVecHash l) -> In h l -> single_keys (VHash h).
Proof.
  intros [Hk Hc] Hh. constructor.
  - intros h' n [<-|[]] Hn. by apply (Hk h).
  - intros c Hin. apply Hc. by apply (children_hash (VVecHash l) h).
Qed.

Lemma value_equals_text (om : bool) (v w : value) :
  compared_by_text v = true -> type_of v = type_of w ->
  value_equals om v w = (a ← as_string v; b ← as_string w; Ret (bool_decide (a = b))).
Proof.
  intros Hv _. by destruct v.
Qed.

Lemma value_equals_iff (om : bool) (v : value) :
  forall w, type_of v = type_of w -> plain om v w ->
  value_equals om v w = Ret true <-> equal_value om v w.
Proof.
  revert v. refine (value_children_ind _ _). intros v IH w Ht Hp.
  destruct (compared_by_text v) eqn:Hc.
  { rewrite value_equals_text by done. split.
    - destruct (as_string v) as [a| | |] eqn:Ev; try discriminate.
      destruct (as_string w) as [b| | |] eqn:Ew; try discriminate. cbn.
      case_bool_decide; [|discriminate]. intros _. subst. by eapply equal_text.
    - intros He. destruct He; try discriminate Hc. rewrite H0, H1. cbn.
      by rewrite bool_decide_eq_true_2. }
  assert (forall l r, In l (value_hashes v) -> plain om (VHash l) (VHash r) ->
    fullyEquals om l r = Ret true <-> equal_hash om l r) as Hh.
  { intros l r Hl Hlr. apply hash_equals_iff; [done|]. intros n x Hn Hx y Hty Hxy.
    apply IH; [|done..]. apply (children_hash v l Hl). apply in_flat_map. eauto. }
  destruct v; try discriminate Hc.
  - pose proof (is_vector_string_type w) as Es. rewrite <- Ht, bool_decide_eq_true_2 in Es by done.
    destruct w; try discriminate Es.
    split.
    + cbn. case_bool_decide as E; [|discriminate]. intros _. rewrite E. constructor.
    + intros He. inversion He as [| |l'|? ? ? Hv]; subst; [|discriminate Hv]. cbn.
      f_equal. by apply bool_decide_eq_true_2.
  - pose proof (is_Hash_type w) as Eh. rewrite <- Ht, bool_decide_eq_true_2 in Eh by done.
    destruct w; try discriminate Eh.
    rewrite value_equals_hash, Hh by (by left || done). split; [by constructor|].
    inversion 1; subst; done.
  - pose proof (is_vector_Hash_type w) as Eh. rewrite <- Ht, bool_decide_eq_true_2 in Eh by done.
    destruct w; try discriminate Eh.
    rewrite value_equals_vector, all_pairs_length.
    assert (Forall2 (fun x y => fullyEquals om x y = Ret true) l l0 <-> Forall2 (equal_hash om) l l0) as ->.
    { assert (forall x y, x ∈ l -> y ∈ l0 -> fullyEquals om x y = Ret true <-> equal_hash om x y) as G.
      { intros x y Hx%list_elem_of_In Hy%list_elem_of_In. apply Hh; [done|]. intros E.
        destruct (Hp E) as [Hs Hw]. exact (conj (single_keys_vector l x Hs Hx) (proj1 (wf_vector l0) Hw y Hy)). }
      rewrite !Forall2_same_length_lookup. split; intros [El Ha]; (split; [done|]); intros i x y Hx Hy;
        (apply G; [by eapply list_elem_of_lookup_2..|by eapply Ha]). }
    split; [by constructor|]. inversion 1; subst; done.
  - split; [done|]. inversion 1; subst; discriminate.
Qed.

(** *** Comparing gives an answer *)

Lemma all_pairs_total {A} (f : A -> A -> outcome bool) (l r : list A) :
  (forall x y, In x l -> In y r -> exists b, f x y = Ret b) -> exists b, all_pairs f l r = Ret b.
Proof.
  revert r. induction l as [|x l IH]; intros [|y r] Hf; cbn; eauto.
  destruct (Hf x y) as [[] ->]; [by left..| |]; cbn; [|eauto].
  apply IH. intros; apply Hf; by right.
Qed.

Lemma pairs_total {A} (f : A -> A -> outcome bool) (l r : list A) :
  (forall x y, In x l -> In y r -> exists b, f x y = Ret b) ->
  exists b, (if (length l =? length r)%nat then all_pairs f l r else Ret false) = Ret b.
Proof. intros Hf. destruct (_ =? _)%nat; [by apply all_pairs_total|eauto]. Qed.

Lemma find_node_in (r : hash) (k : string) :
  single_key k -> exists c, find_node r k = Ret c /\ forall m, c = Some m -> In m r.
Proof.
  intros Hk. rewrite find_node_single by done. eexists. split; [done|].
  intros m Hm%afind_elem. by apply list_elem_of_In.
Qed.
Lemma node_equals_total (om : bool) (r : hash) (n m : node) :
  In m r -> (om = false -> single_key (nKey n)) ->
  (forall x m' y, In x (node_values n) -> In m' r -> In y (node_values m') -> type_of x = type_of y ->
     exists b, value_equals om x y = Ret b) ->
  exists b, node_equals om r n m = Ret b.
Proof.
  intros Hm Hk IH. unfold HashCompare.node_equals.
  assert (exists c, counterpart (find_node r) om n m = Ret c /\ forall m', c = Some m' -> In m' r)
    as (c & -> & Hc).
  { unfold counterpart. case_decide.
    - eexists. split; [done|]. by intros ? [= <-].
    - destruct om; [eexists; split; [done|discriminate]|]. by apply find_node_in, Hk. }
  cbn [mbind outcome_bind]. destruct c as [m'|]; [|eauto]. specialize (Hc m' eq_refl).
  case_decide as Ht; [|eauto]. destruct (_ =? _)%nat; [|eauto].
  destruct (all_pairs_total (attr_equals om (nAttrs m')) (nAttrs n) (nAttrs m')) as [[] ->];
    [|cbn; apply (IH _ m'); [by left|done|by left|exact Ht]|cbn; eauto].
  intros a b Ha Hb. unfold HashCompare.attr_equals.
  destruct (counterpart_total (find_attribute (nAttrs m')) om a b) as [c Ec]; [unfold find_attribute; eauto|].
  rewrite Ec. cbn [mbind outcome_bind]. destruct c as [b'|]; [|eauto]. case_decide; [|eauto].
  apply (IH _ m'); [right; by apply in_map|done|right; apply in_map|done].
  revert Ec. unfold counterpart, find_attribute. case_decide; [by intros [= <-]|].
  destruct om; [discriminate|]. intros [= E%afind_elem]. by apply list_elem_of_In.
Qed.

Lemma hash_equals_total (om : bool) (l r : hash) :
  (om = false -> single_keys (VHash l)) ->
  (forall x y, In x (hash_values l) -> In y (hash_values r) -> (om = false -> single_keys x) ->
     type_of x = type_of y -> exists b, value_equals om x y = Ret b) ->
  exists b, fullyEquals om l r = Ret b.
Proof.
  intros Hs IH. apply pairs_total. intros n m Hn Hm. apply node_equals_total; [done| |].
  - intros E. by apply (single_keys_hash l (Hs E)).
  - intros x m' y Hx Hm' Hy Ht. apply IH; [apply in_flat_map; eauto|apply in_flat_map; eauto| |exact Ht].
    intros E. exact (proj2 (single_keys_hash l (Hs E) n Hn) x Hx).
Qed.

Lemma value_equals_total (om : bool) (v : value) :
  comparable v -> (om = false -> single_keys v) ->
  forall w, type_of v = type_of w -> comparable w -> exists b, value_equals om v w = Ret b.
Proof.
  revert v. refine (value_children_ind _ _). intros v IH [Hv Hcv] Hs w Ht [Hw Hcw].
  assert (forall l r, In l (value_hashes v) -> In r (value_hashes w) ->
    (om = false -> single_keys (VHash l)) -> exists b, fullyEquals om l r = Ret b) as Hh.
  { intros l r Hl Hr Hsl. apply hash_equals_total; [done|]. intros x y Hx Hy Hsx Hxy.
    assert (In x (children v)) by (by apply (children_hash v l)).
    assert (In y (children w)) by (by apply (children_hash w r)).
    apply IH; auto. }
  destruct (compared_by_text v) eqn:Hc.
  { rewrite value_equals_text by done.
    assert (exists s, as_string v = Ret s) as [s ->] by (destruct v; try discriminate Hc; exact Hv).
    assert (exists s, as_string w = Ret s) as [t ->]; [|cbn; eauto].
    assert (is_Hash w = is_Hash v /\ is_vector_Hash w = is_vector_Hash v /\
      match w with VVecString _ => true | _ => false end =
      match v with VVecString _ => true | _ => false end) as (E1 & E2 & E3)
      by (by rewrite !is_Hash_type, !is_vector_Hash_type, !is_vector_string_type, Ht).
    destruct w; try exact Hw; exfalso; cbn in E1, E2, E3;
      first [destruct v; discriminate|exact Hw]. }
  destruct v; try discriminate Hc.
  - pose proof (is_vector_string_type w) as Es. rewrite <- Ht, bool_decide_eq_true_2 in Es by done.
    destruct w; try discriminate Es. cbn. eauto.
  - pose proof (is_Hash_type w) as Eh. rewrite <- Ht, bool_decide_eq_true_2 in Eh by done.
    destruct w; try discriminate Eh. rewrite value_equals_hash. apply Hh; [by left|by left|done].
  - pose proof (is_vector_Hash_type w) as Eh. rewrite <- Ht, bool_decide_eq_true_2 in Eh by done.
    destruct w; try discriminate Eh. rewrite value_equals_vector. apply pairs_total.
    intros x y Hx Hy. apply Hh; [done|done|]. intros E. by apply (single_keys_vector l); [apply Hs|].
  - destruct Hv.
Qed.
End fullyEquals_laws.

(** C28: what fullyEquals answers.  A positive answer means that the Hashes are equal: as
    many nodes, and each node has the key, the type, the attributes and the value of the
    node it belongs to, at the same position or, if the order does not matter, of the same
    key; vectors of strings are compared by their elements, Hashes inside in the same way,
    all other values by their printed texts.  (Without order this needs keys that are not
    read as paths, and unique keys.)  It has an answer whenever the values can be compared
    at all.  With the order of keys mattering, equal Hashes have the same keys in the same
    order, are similar, and equal when the order does not matter, too; and every Hash whose
    values can be compared equals itself. *)
Theorem fullyEquals_spec (ff : pod -> Z -> string) (fc : cpx -> Z * Z -> string) (tn : nat -> string) :
  (forall om l r, plain om (VHash l) (VHash r) ->
     fullyEquals ff fc tn om l r = Ret true <-> equal_hash ff fc tn om l r) /\
  (forall om l r, (om = false -> single_keys (VHash l)) ->
     comparable ff fc tn (VHash l) -> comparable ff fc tn (VHash r) ->
     exists b, fullyEquals ff fc tn om l r = Ret b) /\
  (forall l r, fullyEquals ff fc tn true l r = Ret true ->
     keys l = keys r /\ similar l r = true /\ fullyEquals ff fc tn false l r = Ret true) /\
  (forall om h, comparable ff fc tn (VHash h) -> fullyEquals ff fc tn om h h = Ret true).
Proof.
  split_and!.
  - intros om l r Hp. pose proof (value_equals_iff ff fc tn om (VHash l) (VHash r) eq_refl Hp) as E.
    rewrite value_equals_hash in E. rewrite E. split; [by inversion 1; subst|by constructor].
  - intros om l r Hs Hl Hr.
    by apply (value_equals_total ff fc tn om (VHash l) Hl Hs (VHash r)).
  - intros l r E. rewrite similar_shape. unfold fullyEquals in *. rewrite all_pairs_length in *.
    apply (nodes_equal_true ff fc tn false r l r E).
    + intros n _ x y _ Hxy. by apply (value_equals_true ff fc tn x y Hxy).
    + intros n _ y Ht Hy. by apply (value_equals_true ff fc tn (nVal n) y Hy).
  - intros om h Hh. by apply (value_equals_refl ff fc tn om (VHash h)).
Qed.

Definition two_keys (first second : string) (a b : Z) : hash :=
  [mkNode first [] (VPod PUInt32 a); mkNode second [] (VPod PUInt32 b)].

Lemma fullyEquals_spec_witness :
  let ff := fun (_ : pod) (_ : Z) => ""%string in
  let fc := fun (_ : cpx) (_ : Z * Z) => ""%string in
  let tn := fun _ : nat => ""%string in
  fullyEquals ff fc tn false (two_keys "x" "y" 1 2) (two_keys "x" "y" 1 2) = Ret true /\
  equal_hash ff fc tn true (two_keys "x" "y" 1 2) (two_keys "x" "y" 1 2) /\
  ~ equal_hash ff fc tn true (two_keys "x" "y" 1 2) (two_keys "x" "y" 1 3).
Proof.
  cbn zeta.
  destruct (fullyEquals_spec (fun _ _ => ""%string) (fun _ _ => ""%string) (fun _ => ""%string))
    as (Heq & _ & Htrue & _).
  assert (forall l r, plain true (VHash l) (VHash r)) as Hp by (intros l r; discriminate).
  split; [apply (Htrue (two_keys "x" "y" 1 2)); vm_compute; reflexivity|].
  split; [apply Heq; [apply Hp|vm_compute; reflexivity]|].
  intros E. apply Heq in E; [|apply Hp]. vm_compute in E. discriminate.
Defined.

(** Without order, the keys of the left Hash are looked up as paths in the right one: a
    key with a separator is not found where it is, ... *)
Lemma fullyEquals_misses_path_key :
  fullyEquals (fun _ _ => ""%string) (fun _ _ => ""%string) (fun _ => ""%string) false
    (two_keys "a.b" "c" 1 2) (two_keys "c" "a.b" 2 1) = Ret false.
Proof. vm_compute. reflexivity. Qed.

(** ... and found where it is not: two Hashes with different keys are equal then. *)
Lemma fullyEquals_finds_path :
  fullyEquals (fun _ _ => ""%string) (fun _ _ => ""%string) (fun _ => ""%string) false
    [mkNode "a.b" [] (VPod PUInt32 1); mkNode "a" [] (VHash [mkNode "b" [] (VPod PUInt32 1)])]
    [mkNode "a" [] (VHash [mkNode "b" [] (VPod PUInt32 1)]); mkNode "z" [] VNone] = Ret true.
Proof. vm_compute. reflexivity. Qed.

(** FullyEquals compares the values that are not Hashes or vectors of strings by
    their printed texts.  So it is exact on integers, but two floating point numbers are
    equal for it as soon as boost::format prints them alike with 7 (or 15) digits. *)
Theorem fullyEquals_by_text (ff : pod -> Z -> string) (fc : cpx -> Z * Z -> string)
    (tn : nat -> string) (om : bool) (k : string) (a b : Z) :
  (forall t, t = PFloat \/ t = PDouble ->
     fullyEquals ff fc tn om [mkNode k [] (VPod t a)] [mkNode k [] (VPod t b)] =
     Ret (bool_decide (ff t a = ff t b))) /\
  (0 <= a < 2 ^ 31 -> 0 <= b < 2 ^ 31 ->
     fullyEquals ff fc tn om [mkNode k [] (VPod PUInt32 a)] [mkNode k [] (VPod PUInt32 b)] =
     Ret (bool_decide (a = b))).
Proof.
  assert (forall t, fullyEquals ff fc tn om [mkNode k [] (VPod t a)] [mkNode k [] (VPod t b)] =
    Ret (bool_decide (toString_pod ff t a = toString_pod ff t b))) as G.
  { intros t. unfold fullyEquals. cbn [length Nat.eqb all_pairs]. unfold node_equals.
    rewrite counterpart_same by done. cbn [mbind outcome_bind]. unfold getType.
    cbn [nVal nAttrs length Nat.eqb all_pairs].
    rewrite decide_True by done. cbn. by destruct (bool_decide _). }
  split; [intros t [->| ->]; apply G|].
  intros Ha Hb. rewrite G. f_equal. apply bool_decide_ext. cbn [toString_pod].
  split; [|by intros ->]. intros E. apply (f_equal (fun s => atoi (chars s))) in E.
  rewrite !atoi_decimal in E by done. congruence.
Qed.

Lemma fullyEquals_by_text_witness :
  fullyEquals (fun _ _ => "0.1"%string) (fun _ _ => ""%string) (fun _ => ""%string) true
    [mkNode "x" [] (VPod PFloat 1036831949)] [mkNode "x" [] (VPod PFloat 1036831950)] = Ret true.
Proof.
  destruct (fullyEquals_by_text (fun _ _ => "0.1"%string) (fun _ _ => ""%string) (fun _ => ""%string)
    true "x" 1036831949 1036831950) as [H _].
  rewrite (H PFloat (or_introl eq_refl)). reflexivity.
Defined.
