(* ===== verification/SchemaAlias.v ===== *)
(** The alias map of a Schema (data/types/Schema.cc), which is rebuilt whenever a Schema
    is read from an archive: updateAliasMap and what it uses. *)

From Stdlib Require Import ZArith Lia Ascii String.
From stdpp Require Import base numbers list strings gmap.
From S2P Require Import Prelude Types Strings OrderedMap Hash HashAccess ValueString.
Import Types.

Open Scope Z_scope.

Definition KARABO_SCHEMA_ALIAS : string := "alias".
Definition KARABO_SCHEMA_NODE_TYPE : string := "nodeType".

(** enum Schema::NodeType *)
Definition LEAF : Z := 0.
Definition NODE : Z := 1.

(** Schema::getKeys(path) *)
Definition schema_getKeys (path : string) (m_hash : hash) : outcome (list string) :=
  if bool_decide (path = "") then Ret (map nKey m_hash)
  else
    b ← is_T (Tscalar Hash_) path k_defaultSep m_hash;
    if b : bool then h ← get_Hash path k_defaultSep m_hash; Ret (map nKey h) else Ret [].

(** Schema::keyHasAlias *)
Definition keyHasAlias (path : string) (m_hash : hash) : outcome bool :=
  n ← getNode path k_defaultSep m_hash; Ret (hasAttribute KARABO_SCHEMA_ALIAS n).

(** Schema::getNodeType: the [int] of the attribute. *)
Definition getNodeType (path : string) (m_hash : hash) : outcome Z :=
  n ← getNode path k_defaultSep m_hash;
  v ← getAttribute (Tscalar int_) KARABO_SCHEMA_NODE_TYPE n;
  match v with VPod PInt32 z => Ret (to_signed 32 z) | _ => Undef end.

Section alias.
Context (format_float : pod -> Z -> string).
Context (format_complex : cpx -> Z * Z -> string).
Context (type_name : nat -> string).

(** Schema::getAliasAsString *)
Definition getAliasAsString (path : string) (m_hash : hash) : outcome string :=
  n ← getNode path k_defaultSep m_hash;
  v ← getAttributeAsAny KARABO_SCHEMA_ALIAS n;
  getValueAs_string format_float format_complex type_name v.

(** The node type, -1 if asking for it throws. *)
Definition nodeType_or (path : string) (m_hash : hash) : outcome Z :=
  match getNodeType path m_hash with Throw _ => Ret (-1) | r => r end.

(** Schema::r_updateAliasMap; the result is the list of assignments to m_aliasToKey.  For
    an empty path that is a NODE, which only an empty key gives, the code asks for the
    keys of the root again and recurses without end: its stack overflows. *)
Fixpoint r_updateAliasMap (fuel : nat) (m_hash : hash) (keys : list string) (oldPath : string)
  : outcome (list (string * string)) :=
  match fuel with
  | O => OutOfFuel
  | S f =>
      foldM (fun key m =>
        let newPath := if bool_decide (oldPath = "") then key else oldPath +:+ "." +:+ key in
        b ← keyHasAlias newPath m_hash;
        m ← (if b : bool then a ← getAliasAsString newPath m_hash; Ret (m ++ [(a, newPath)])
             else Ret m);
        nodeType ← nodeType_or newPath m_hash;
        if nodeType =? NODE then
          if bool_decide (newPath = "") then Undef
          else
            ks ← schema_getKeys newPath m_hash;
            m' ← r_updateAliasMap f m_hash ks newPath;
            Ret (m ++ m')
        else Ret m) keys []
  end.

(** The nesting of Hashes below a Hash, as far as paths reach. *)
Fixpoint path_depth (v : value) : nat :=
  let hash_depth (h : hash) : nat := S (list_max (map (fun n => path_depth (nVal n)) h)) in
  match v with
  | VHash h => hash_depth h
  | VVecHash l => list_max (map hash_depth l)
  | _ => 0
  end.

(** Schema::updateAliasMap, after m_aliasToKey.clear(). *)
Definition updateAliasMap (m_hash : hash) : outcome (list (string * string)) :=
  r_updateAliasMap (S (path_depth (VHash m_hash))) m_hash (map nKey m_hash) "".

(** ** Termination *)

Lemma getLastHashPtr_loop_depth (ts : list string) :
  forall h p key, getLastHashPtr_loop ts h = Ret (Some (p, key)) ->
  (length ts <= path_depth (VHash h))%nat.
Proof.
  induction ts as [|t ts IH]; intros h p key E; [discriminate|].
  destruct ts as [|t' ts]; [cbn; lia|].
  apply getLastHashPtr_loop_cons in E as (index & k & n & h' & p' & _ & En & _ & Hs & El & _).
  apply IH in El. apply afind_In in En.
  assert (path_depth (VHash h') <= path_depth (nVal n))%nat as Hd.
  { destruct (step_index index) as [i|], (nVal n) as [| | | | | | | | | | |x|l| | | | |];
      try discriminate Hs; cbn [sub_hash] in Hs.
    - cbn [path_depth]. pose proof (proj1 (list_max_le _ _) (le_n (list_max (map (fun h : hash =>
        S (list_max (map (fun n => path_depth (nVal n)) h))) l)))) as Hm.
      rewrite List.Forall_forall in Hm. apply Hm. apply in_map_iff. exists h'. split; [done|].
      apply list_elem_of_In. by eapply list_elem_of_lookup_2.
    - injection Hs as ->. done. }
  assert (path_depth (nVal n) < path_depth (VHash h))%nat as Hn.
  { cbn [path_depth]. apply Nat.lt_succ_r. 
    pose proof (proj1 (list_max_le _ _) (le_n (list_max (map (fun n => path_depth (nVal n)) h)))) as Hm.
    rewrite List.Forall_forall in Hm. apply Hm. apply in_map_iff. eauto. }
  cbn [length] in *. lia.
Qed.

Lemma getNode_depth (path : string) (h : hash) (n : node) :
  getNode path k_defaultSep h = Ret n ->
  (length (tokenize path k_defaultSep) <= path_depth (VHash h))%nat.
Proof.
  intros E. unfold getNode, getLastHash in E. outcome_inv.
  destruct a0 as [[p key]|]; [|discriminate]. by eapply getLastHashPtr_loop_depth.
Qed.

Lemma tokenize_extend (path key : string) :
  (length (tokenize path k_defaultSep) < length (tokenize (path +:+ "." +:+ key) k_defaultSep))%nat.
Proof.
  destruct (tokenize_split path k_defaultSep) as (H1 & H2 & H3), (tokenize_split key k_defaultSep) as (K1 & K2 & K3); [done..|].
  rewrite <- H3 at 2. rewrite <- K3 at 1.
  change "."%string with (str [k_defaultSep]). rewrite <- join_app by done.
  rewrite tokenize_join; [|done|by destruct (tokenize path k_defaultSep)|by apply Forall_app_2].
  rewrite length_app. destruct (tokenize key k_defaultSep); [done|cbn; lia].
Qed.

Lemma tokenize_pos (path : string) : (0 < length (tokenize path k_defaultSep))%nat.
Proof. destruct (tokenize_split path k_defaultSep) as (H1 & _); [done|]. destruct (tokenize _ _); [done|cbn; lia]. Qed.

Lemma getNodeType_fuel (path : string) (h : hash) : nodeType_or path h <> OutOfFuel.
Proof.
  unfold nodeType_or. assert (getNodeType path h <> OutOfFuel) as Hn; [|by destruct (getNodeType path h)].
  unfold getNodeType, getAttribute, getAttributeAsAny, getValue. no_fuel.
Qed.

Lemma schema_getKeys_fuel (path : string) (h : hash) : schema_getKeys path h <> OutOfFuel.
Proof. unfold schema_getKeys. no_fuel. Qed.

Lemma getAliasAsString_fuel (path : string) (h : hash) : getAliasAsString path h <> OutOfFuel.
Proof. unfold getAliasAsString, getAttributeAsAny. no_fuel. Qed.

Lemma r_updateAliasMap_fuel (h : hash) (fuel : nat) :
  forall keys oldPath,
  let t := if bool_decide (oldPath = "") then O else length (tokenize oldPath k_defaultSep) in
  (t <= path_depth (VHash h))%nat -> (path_depth (VHash h) < fuel + t)%nat ->
  r_updateAliasMap fuel h keys oldPath <> OutOfFuel.
Proof.
  induction fuel as [|f IH]; intros keys oldPath t Ht Hf; [lia|]. cbn [r_updateAliasMap].
  apply foldM_fuel. intros key m _. set (newPath := if bool_decide (oldPath = "") then key else _).
  unfold keyHasAlias. destruct (getNode newPath k_defaultSep h) as [n| | |] eqn:En; try discriminate.
  2: by destruct (getNode_fuel newPath k_defaultSep h).
  assert (t < length (tokenize newPath k_defaultSep))%nat as Hlt.
  { unfold t, newPath. case_bool_decide; [apply tokenize_pos|apply tokenize_extend]. }
  apply getNode_depth in En. cbn [mbind outcome_bind].
  apply outcome_bind_fuel.
  { destruct (hasAttribute _ n); [|discriminate]. apply outcome_bind_fuel; [apply getAliasAsString_fuel|discriminate]. }
  intros m' _. apply outcome_bind_fuel; [apply getNodeType_fuel|]. intros ty _.
  destruct (ty =? NODE); [|discriminate]. case_bool_decide as Hp; [discriminate|].
  apply outcome_bind_fuel; [apply schema_getKeys_fuel|]. intros ks _.
  apply outcome_bind_fuel; [|discriminate]. apply IH; rewrite bool_decide_false by done; lia.
Qed.

Lemma updateAliasMap_fuel (h : hash) : updateAliasMap h <> OutOfFuel.
Proof. apply r_updateAliasMap_fuel; rewrite bool_decide_true by done; lia. Qed.

End alias.

#[export] Hint Resolve updateAliasMap_fuel : fuel.
