(* ===== verification/BinaryWriter.v ===== *)
(** Writing Hashes to the binary format (data/io/HashBinarySerializer.cc and .hh, and
    the save part of data/io/SchemaBinarySerializer.cc).

    The functions take the archive written so far and return it with the new bytes
    behind, as the code appends to a std::vector<char>.  The recursive call to writeHash
    is a variable of the section and is tied at its end, with the depth of nesting as
    fuel. *)

From Stdlib Require Import ZArith Lia Ascii String.
From stdpp Require Import base numbers list strings gmap.
From S2P Require Import Prelude Types Strings OrderedMap Hash HashAccess.
Import Types.

Open Scope Z_scope.

(** sizeof of the plain types. *)
Definition pod_size (t : pod) : nat :=
  match t with
  | PChar | PInt8 | PUInt8 => 1
  | PInt16 | PUInt16 => 2
  | PInt32 | PUInt32 | PFloat => 4
  | PInt64 | PUInt64 | PDouble => 8
  end.
Definition cpx_part (t : cpx) : pod := match t with CFloat => PFloat | CDouble => PDouble end.

(** std::any_cast<const T&>, for the plain types, complex numbers and vectors of them. *)
Definition cast_pod (t : pod) (v : value) : outcome Z :=
  match v with
  | VPod t' z => if decide (t' = t) then Ret z else Throw BadAnyCast
  | _ => Throw BadAnyCast
  end.
Definition cast_complex (t : cpx) (v : value) : outcome (Z * Z) :=
  match v with
  | VComplex t' re im => if decide (t' = t) then Ret (re, im) else Throw BadAnyCast
  | _ => Throw BadAnyCast
  end.
Definition cast_vector_pod (t : pod) (v : value) : outcome (list Z) :=
  match v with
  | VVecPod t' l => if decide (t' = t) then Ret l else Throw BadAnyCast
  | _ => Throw BadAnyCast
  end.
Definition cast_vector_complex (t : cpx) (v : value) : outcome (list (Z * Z)) :=
  match v with
  | VVecComplex t' l => if decide (t' = t) then Ret l else Throw BadAnyCast
  | _ => Throw BadAnyCast
  end.

(** writeSingleValue<T> of a plain value: [memcpy] of its bytes. *)
Definition write_pod (t : pod) (z : Z) (buffer : bytes) : bytes := buffer ++ le_bytes (pod_size t) z.

(** writeSize: a size becomes an [unsigned int]. *)
Definition writeSize (size : Z) (buffer : bytes) : bytes := write_pod PUInt32 (u32 size) buffer.

Definition writeType (type : ReferenceType) (buffer : bytes) : bytes :=
  write_pod PUInt32 (u32 (code type)) buffer.

Definition write_bool (b : bool) (buffer : bytes) : bytes := buffer ++ le_bytes 1 (if b then 1 else 0).

Definition writeComplexValue (t : cpx) (v : Z * Z) (buffer : bytes) : bytes :=
  write_pod (cpx_part t) v.2 (write_pod (cpx_part t) v.1 buffer).

Definition writeKey (s : string) (buffer : bytes) : outcome bytes :=
  if 255 <? Z.of_nat (String.length s) then Throw IOException
  else Ret (write_pod PUInt8 (Z.of_nat (String.length s)) buffer ++ chars s).

(** writeRawArray of the characters of a string. *)
Definition write_string (s : string) (buffer : bytes) : bytes :=
  writeSize (Z.of_nat (String.length s)) buffer ++ chars s.

Definition write_none (buffer : bytes) : bytes := writeSize 0 buffer.

Definition write_ByteArray (b : bytes) (buffer : bytes) : bytes :=
  writeSize (Z.of_nat (length b)) buffer ++ b.

(** writeSequenceBulk *)
Definition writeSequenceBulk (t : pod) (vect : list Z) (buffer : bytes) : bytes :=
  writeSize (Z.of_nat (length vect)) buffer ++ flat_map (le_bytes (pod_size t)) vect.

(** writeSequence<T>: the size, then one element after the other. *)
Definition writeSequence_of {A} (write : A -> bytes -> outcome bytes) (vect : list A) (buffer : bytes)
  : outcome bytes :=
  foldM write vect (writeSize (Z.of_nat (length vect)) buffer).

Section writer.
Context (writeHash : hash -> bytes -> outcome bytes).

(** SchemaBinarySerializer::save2, which appends: the length of the root name is an
    [unsigned char]. *)
Definition save2_schema (rootName : string) (h : hash) (archive : bytes) : outcome bytes :=
  let size := wrap 8 (Z.of_nat (String.length rootName)) in
  writeHash h (archive ++ le_bytes 1 size ++ take (Z.to_nat size) (chars rootName)).

(** writeSingleValue for a Schema: room for the size, the Schema, then the size. *)
Definition write_schema (rootName : string) (h : hash) (buffer : bytes) : outcome bytes :=
  let oldSize := length buffer in
  archive ← save2_schema rootName h (buffer ++ le_bytes 4 0);
  let rawSchemaSize := u32 (Z.of_nat (length archive) - (Z.of_nat oldSize + 4)) in
  Ret (take oldSize archive ++ le_bytes 4 rawSchemaSize ++ drop (oldSize + 4) archive).

(** writeSingleValue(buffer, const std::any&, type) *)
Definition writeSingleValue (v : value) (type : ReferenceType) (buffer : bytes) : outcome bytes :=
  let write (t : pod) := z ← cast_pod t v; Ret (write_pod t z buffer) in
  match type with
  | CHAR => write PChar
  | INT8 => write PInt8
  | INT16 => write PInt16
  | INT32 => write PInt32
  | INT64 => write PInt64
  | UINT8 => write PUInt8
  | UINT16 => write PUInt16
  | UINT32 => write PUInt32
  | UINT64 => write PUInt64
  | FLOAT => write PFloat
  | DOUBLE => write PDouble
  | BOOL => match v with VBool b => Ret (write_bool b buffer) | _ => Throw BadAnyCast end
  | COMPLEX_FLOAT => z ← cast_complex CFloat v; Ret (writeComplexValue CFloat z buffer)
  | COMPLEX_DOUBLE => z ← cast_complex CDouble v; Ret (writeComplexValue CDouble z buffer)
  | STRING => match v with VString s => Ret (write_string s buffer) | _ => Throw BadAnyCast end
  | SCHEMA => match v with VSchema r h => write_schema r h buffer | _ => Throw BadAnyCast end
  | HASH => match v with VHash h => writeHash h buffer | _ => Throw BadAnyCast end
  | NONE => match v with VNone => Ret (write_none buffer) | _ => Throw BadAnyCast end
  | BYTE_ARRAY => match v with VByteArray b => Ret (write_ByteArray b buffer) | _ => Throw BadAnyCast end
  | _ => Throw IOException
  end.

(** writeSequence(buffer, const std::any&, type) *)
Definition writeSequence (v : value) (type : ReferenceType) (buffer : bytes) : outcome bytes :=
  let bulk (t : pod) := l ← cast_vector_pod t v; Ret (writeSequenceBulk t l buffer) in
  let complex (t : cpx) :=
    l ← cast_vector_complex t v;
    writeSequence_of (fun z b => Ret (writeComplexValue t z b)) l buffer in
  match type with
  | VECTOR_CHAR => bulk PChar
  | VECTOR_INT8 => bulk PInt8
  | VECTOR_INT16 => bulk PInt16
  | VECTOR_INT32 => bulk PInt32
  | VECTOR_INT64 => bulk PInt64
  | VECTOR_UINT8 => bulk PUInt8
  | VECTOR_UINT16 => bulk PUInt16
  | VECTOR_UINT32 => bulk PUInt32
  | VECTOR_UINT64 => bulk PUInt64
  | VECTOR_FLOAT => bulk PFloat
  | VECTOR_DOUBLE => bulk PDouble
  | VECTOR_COMPLEX_FLOAT => complex CFloat
  | VECTOR_COMPLEX_DOUBLE => complex CDouble
  | VECTOR_STRING =>
      match v with
      | VVecString l => writeSequence_of (fun s b => Ret (write_string s b)) l buffer
      | _ => Throw BadAnyCast
      end
  | VECTOR_BOOL =>
      match v with
      | VVecBool l => writeSequence_of (fun x b => Ret (write_bool x b)) l buffer
      | _ => Throw BadAnyCast
      end
  | VECTOR_HASH =>
      match v with VVecHash l => writeSequence_of writeHash l buffer | _ => Throw BadAnyCast end
  | VECTOR_NONE =>
      match v with
      | VVecNone n => writeSequence_of (fun _ b => Ret (write_none b)) (replicate n tt) buffer
      | _ => Throw BadAnyCast
      end
  | _ => Throw IOException
  end.

(** writeAny: the exception's message is made with ToLiteral, which may throw first. *)
Definition writeAny (v : value) (type : ReferenceType) (buffer : bytes) : outcome bytes :=
  match category type with
  | SCHEMA | HASH | SIMPLE => writeSingleValue v type buffer
  | VECTOR_HASH | SEQUENCE => writeSequence v type buffer
  | _ => _ ← toLiteral type; Throw IOException
  end.

Definition writeAttribute (attr : string * value) (buffer : bytes) : outcome bytes :=
  buffer ← writeKey attr.1 buffer;
  let type := type_of attr.2 in
  writeAny attr.2 type (writeType type buffer).

Definition writeAttributes (a : attributes) (buffer : bytes) : outcome bytes :=
  foldM writeAttribute a (writeSize (Z.of_nat (length a)) buffer).

(** writeHash behind a shared pointer; a null pointer is dereferenced. *)
Definition write_pointee (p : option hash) (buffer : bytes) : outcome bytes :=
  match p with Some h => writeHash h buffer | None => Undef end.

(** writeNode *)
Definition writeNode (element : node) (buffer : bytes) : outcome bytes :=
  buffer ← writeKey (nKey element) buffer;
  let start (type : ReferenceType) := writeAttributes (nAttrs element) (writeType type buffer) in
  match nVal element with
  | VHash h => buffer ← start HASH; writeHash h buffer
  | VHashPtr p => buffer ← start HASH_POINTER; write_pointee p buffer
  | VVecHash tmp => buffer ← start VECTOR_HASH; writeSequence_of writeHash tmp buffer
  | VVecHashPtr tmp => buffer ← start VECTOR_HASH_POINTER; writeSequence_of write_pointee tmp buffer
  | v => buffer ← start (getType element); writeAny v (getType element) buffer
  end.
End writer.

(** writeHash, for a nesting of Hashes not deeper than [fuel]. *)
Fixpoint writeHash (fuel : nat) (h : hash) (buffer : bytes) : outcome bytes :=
  match fuel with
  | O => OutOfFuel
  | S f => foldM (writeNode (writeHash f)) h (writeSize (Z.of_nat (length h)) buffer)
  end.

(** The nesting of Hashes in a value. *)
Fixpoint depth (v : value) : nat :=
  let hash_depth (h : hash) : nat :=
    S (list_max (map (fun n => Nat.max (depth (nVal n))
                                 (list_max (map (fun a : string * value => depth a.2) (nAttrs n)))) h)) in
  match v with
  | VHash h | VHashPtr (Some h) | VSchema _ h => hash_depth h
  | VVecHash l => list_max (map hash_depth l)
  | VVecHashPtr l => list_max (map (fun p => match p with Some h => hash_depth h | None => 0%nat end) l)
  | VVecSchema l => list_max (map (fun s : string * hash => hash_depth s.2) l)
  | _ => 0
  end.

(** HashBinarySerializer::save(object, buffer), after [buffer.resize(0)], and save2 *)
Definition save (object : hash) : outcome bytes := writeHash (depth (VHash object)) object [].
Definition save2 (object : hash) (buffer : bytes) : outcome bytes :=
  writeHash (depth (VHash object)) object buffer.

(** save(const std::vector<Hash>&, archive): the vector under the key KRB_Sequence. *)
Definition save_vector (objects : list hash) : outcome bytes :=
  let '(tmp, r) := set "KRB_Sequence" (VVecHash objects) k_defaultSep [] in
  r ← r; save tmp.

(** ** The format *)

Definition enc_size (n : nat) : bytes := le_bytes 4 (Z.of_nat n).
Definition enc_key (s : string) : bytes := le_bytes 1 (Z.of_nat (String.length s)) ++ chars s.
Definition enc_string (s : string) : bytes := enc_size (String.length s) ++ chars s.
Definition enc_complex (t : cpx) (z : Z * Z) : bytes :=
  le_bytes (pod_size (cpx_part t)) z.1 ++ le_bytes (pod_size (cpx_part t)) z.2.
Definition enc_bool (b : bool) : bytes := le_bytes 1 (if b then 1 else 0).
Definition enc_type (t : ReferenceType) : bytes := le_bytes 4 (code t).
Definition enc_list {A} (enc : A -> bytes) (l : list A) : bytes := enc_size (length l) ++ flat_map enc l.
Definition enc_prefixed (b : bytes) : bytes := enc_size (length b) ++ b.
Definition enc_root (rootName : string) : bytes :=
  le_bytes 1 (Z.of_nat (String.length rootName)) ++ chars rootName.

(** What the archive holds for a value, behind its type and attributes. *)
Fixpoint enc_body (v : value) : bytes :=
  let enc_attr (a : string * value) : bytes :=
    enc_key a.1 ++ enc_type (type_of a.2) ++ enc_body a.2 in
  let enc_node (n : node) : bytes :=
    enc_key (nKey n) ++ enc_type (type_of (nVal n)) ++ enc_list enc_attr (nAttrs n) ++ enc_body (nVal n) in
  match v with
  | VBool b => enc_bool b
  | VPod t z => le_bytes (pod_size t) z
  | VComplex t re im => enc_complex t (re, im)
  | VString s => enc_string s
  | VNone => enc_size 0
  | VByteArray b => enc_prefixed b
  | VVecBool l => enc_list enc_bool l
  | VVecPod t l => enc_list (le_bytes (pod_size t)) l
  | VVecComplex t l => enc_list (enc_complex t) l
  | VVecString l => enc_list enc_string l
  | VVecNone n => enc_list (fun _ : unit => enc_size 0) (replicate n tt)
  | VHash h | VHashPtr (Some h) => enc_list enc_node h
  | VHashPtr None => []
  | VVecHash l => enc_list (enc_list enc_node) l
  | VVecHashPtr l => enc_list (fun p => match p with Some h => enc_list enc_node h | None => [] end) l
  | VSchema r h => enc_prefixed (enc_root r ++ enc_list enc_node h)
  | VVecSchema _ | VOther _ => []
  end.

Definition enc_attr (a : string * value) : bytes :=
  enc_key a.1 ++ enc_type (type_of a.2) ++ enc_body a.2.
Definition enc_node (n : node) : bytes :=
  enc_key (nKey n) ++ enc_type (type_of (nVal n)) ++ enc_list enc_attr (nAttrs n) ++ enc_body (nVal n).
Definition enc_hash (h : hash) : bytes := enc_list enc_node h.

(** ** What can be serialised *)

Definition size_ok (n : nat) : Prop := Z.of_nat n < 2 ^ 32.
Definition bits_ok (t : pod) (z : Z) : Prop := 0 <= z < 2 ^ (8 * Z.of_nat (pod_size t)).

(** A key in the archive: at most 255 characters, none of them NUL. *)
Definition key_ok (s : string) : Prop := Z.of_nat (String.length s) <= 255 /\ NUL ∉ chars s.

(** The ranges of the values themselves. *)
Definition local_ok (v : value) : Prop :=
  match v with
  | VBool _ | VNone | VHash _ => True
  | VPod t z => bits_ok t z
  | VComplex t re im => bits_ok (cpx_part t) re /\ bits_ok (cpx_part t) im
  | VString s => size_ok (String.length s)
  | VByteArray b => size_ok (length b)
  | VVecBool l => size_ok (length l)
  | VVecPod t l => size_ok (length l) /\ Forall (bits_ok t) l
  | VVecComplex t l =>
      size_ok (length l) /\ Forall (fun z => bits_ok (cpx_part t) z.1 /\ bits_ok (cpx_part t) z.2) l
  | VVecString l => size_ok (length l) /\ Forall (fun s => size_ok (String.length s)) l
  | VVecNone n => size_ok n
  | VHashPtr p => p <> None
  | VVecHash l => size_ok (length l)
  | VVecHashPtr l => size_ok (length l) /\ Forall (fun p => p <> None) l
  | VSchema r h => key_ok r /\ size_ok (length (enc_root r ++ enc_hash h))
  | VVecSchema _ | VOther _ => False
  end.

(** Values that an attribute may hold in the archive: no Hash (it could not be read back)
    and no pointers. *)
Definition attribute_value (v : value) : bool :=
  match v with VHash _ | VHashPtr _ | VVecHashPtr _ => false | _ => true end.

(** Values that can be written as an attribute. *)
Definition no_pointer (v : value) : bool :=
  match v with VHashPtr _ | VVecHashPtr _ => false | _ => true end.

Lemma attribute_no_pointer (v : value) : attribute_value v = true -> no_pointer v = true.
Proof. by destruct v. Qed.

Definition hash_ok (h : hash) : Prop :=
  size_ok (length h) /\ awf h /\
  forall n, In n h ->
    key_ok (nKey n) /\ last (chars (nKey n)) <> Some "]"%char /\
    size_ok (length (nAttrs n)) /\ awf (nAttrs n) /\
    forall a, In a (nAttrs n) -> key_ok a.1 /\ attribute_value a.2 = true.

Inductive serializable (v : value) : Prop :=
| serializable_intro :
    local_ok v ->
    (forall h, In h (value_hashes v) -> hash_ok h) ->
    (forall c, In c (children v) -> serializable c) ->
    serializable v.

Lemma serializable_hash (h : hash) :
  serializable (VHash h) ->
  hash_ok h /\ forall n, In n h -> serializable (nVal n) /\
    forall a, In a (nAttrs n) -> serializable a.2.
Proof.
  intros [_ Hh Hc]. split; [apply Hh; by left|]. intros n Hn.
  assert (forall c, In c (node_values n) -> serializable c) as G
    by (intros c ?; apply Hc, in_flat_map; eauto).
  split; [apply G; by left|]. intros a Ha. apply G. right. by apply in_map.
Qed.

(** The Hashes in a value are serialisable, and less deep than it. *)
Lemma serializable_inner (v : value) (h : hash) :
  serializable v -> In h (value_hashes v) -> serializable (VHash h).
Proof.
  intros [_ Hh Hc] Hin. constructor; [done| |].
  - intros h' [<-|[]]. by apply Hh.
  - intros c Hcin. apply Hc. by eapply children_hash.
Qed.

Lemma list_max_In (n : nat) (l : list nat) : In n l -> (n <= list_max l)%nat.
Proof. intros Hn. pose proof (proj1 (list_max_le l (list_max l)) (le_n _)) as H.
  rewrite List.Forall_forall in H. auto. Qed.

Lemma depth_inner (v : value) (h : hash) :
  In h (value_hashes v) -> (depth (VHash h) <= depth v)%nat.
Proof.
  intros Hh. destruct v as [| | | | | | | | | | |x|l|[x|]|l|r x|l|]; try done.
  - by destruct Hh as [->|[]].
  - apply list_max_In. apply in_map_iff. by exists h.
  - by destruct Hh as [->|[]].
  - apply in_flat_map in Hh as (p & Hp & Hh). destruct p as [x|]; [|done].
    destruct Hh as [->|[]]. apply list_max_In. apply in_map_iff. by exists (Some h).
  - by destruct Hh as [->|[]].
  - apply in_map_iff in Hh as (s & <- & Hs). apply list_max_In. apply in_map_iff. by exists s.
Qed.

Lemma depth_node (h : hash) (n : node) (v : value) :
  In n h -> In v (node_values n) -> (S (depth v) <= depth (VHash h))%nat.
Proof.
  intros Hn Hv. cbn [depth]. apply le_n_S.
  etransitivity; [|apply list_max_In, in_map, Hn]. destruct Hv as [<-|Hv]; [lia|].
  etransitivity; [|apply Nat.le_max_r]. apply in_map_iff in Hv as (a & <- & Ha).
  apply list_max_In. apply in_map_iff. eauto.
Qed.

(** ** The writer produces the format *)

Lemma writeSize_enc (n : nat) (b : bytes) :
  size_ok n -> writeSize (Z.of_nat n) b = b ++ enc_size n.
Proof.
  unfold size_ok, writeSize, write_pod, enc_size, u32. intros Hn. by rewrite wrap_small by lia.
Qed.

Lemma code_range (t : ReferenceType) : 0 <= code t < 2 ^ 32.
Proof. by destruct t. Qed.

Lemma writeType_enc (t : ReferenceType) (b : bytes) : writeType t b = b ++ enc_type t.
Proof.
  unfold writeType, write_pod, enc_type, u32. by rewrite wrap_small by apply code_range.
Qed.

Lemma writeKey_enc (s : string) (b : bytes) : key_ok s -> writeKey s b = Ret (b ++ enc_key s).
Proof.
  intros [Hl _]. unfold writeKey, write_pod, enc_key. destruct (Z.ltb_spec 255 (Z.of_nat (String.length s))); [lia|].
  by rewrite <- app_assoc.
Qed.

Lemma write_string_enc (s : string) (b : bytes) :
  size_ok (String.length s) -> write_string s b = b ++ enc_string s.
Proof. intros Hs. unfold write_string, enc_string. by rewrite writeSize_enc, app_assoc. Qed.

Lemma writeComplexValue_enc (t : cpx) (z : Z * Z) (b : bytes) :
  writeComplexValue t z b = b ++ enc_complex t z.
Proof. unfold writeComplexValue, write_pod, enc_complex. by rewrite <- app_assoc. Qed.

Lemma foldM_write {A} (write : A -> bytes -> outcome bytes) (enc : A -> bytes) (l : list A) :
  (forall x b, In x l -> write x b = Ret (b ++ enc x)) ->
  forall b, foldM write l b = Ret (b ++ flat_map enc l).
Proof.
  induction l as [|x l IH]; intros Hw b; cbn; [by rewrite app_nil_r|].
  rewrite Hw by (by left). cbn. rewrite IH by (intros; apply Hw; by right).
  by rewrite <- app_assoc.
Qed.

Lemma writeSequence_of_enc {A} (write : A -> bytes -> outcome bytes) (enc : A -> bytes) (l : list A)
    (b : bytes) :
  size_ok (length l) -> (forall x b, In x l -> write x b = Ret (b ++ enc x)) ->
  writeSequence_of write l b = Ret (b ++ enc_list enc l).
Proof.
  intros Hl Hw. unfold writeSequence_of, enc_list. rewrite (foldM_write write enc) by done.
  by rewrite writeSize_enc, app_assoc.
Qed.

Section writer_enc.
Context (wh : hash -> bytes -> outcome bytes).

(** [wh] writes the format of the Hashes in [v]. *)
Definition writes (v : value) : Prop :=
  forall h b, In h (value_hashes v) -> wh h b = Ret (b ++ enc_hash h).

Lemma write_schema_enc (r : string) (h : hash) (b : bytes) :
  key_ok r -> size_ok (length (enc_root r ++ enc_hash h)) ->
  (forall b, wh h b = Ret (b ++ enc_hash h)) ->
  write_schema wh r h b = Ret (b ++ enc_prefixed (enc_root r ++ enc_hash h)).
Proof.
  intros [Hr _] Hs Hw. unfold write_schema, save2_schema. rewrite Hw. cbn [mbind outcome_bind].
  f_equal. unfold wrap. rewrite Z.mod_small by (cbn; lia). rewrite Nat2Z.id.
  rewrite (take_ge (chars r)) by (by rewrite length_chars). rewrite <- !app_assoc.
  rewrite take_app_length. f_equal. unfold enc_prefixed. f_equal.
  - unfold enc_size, u32. f_equal. rewrite !length_app, !le_bytes_length.
    unfold size_ok, enc_root in Hs. rewrite !length_app, le_bytes_length in Hs.
    unfold enc_root. rewrite !length_app, !le_bytes_length. rewrite wrap_small by lia. lia.
  - rewrite drop_app_ge by lia. replace (length b + 4 - length b)%nat with 4%nat by lia.
    unfold enc_root. by rewrite <- app_assoc.
Qed.

Lemma writeAny_enc (v : value) (b : bytes) :
  serializable v -> writes v -> (forall p, v <> VHashPtr p) -> (forall l, v <> VVecHashPtr l) ->
  writeAny wh v (type_of v) b = Ret (b ++ enc_body v).
Proof.
  intros Hs Hw Hp1 Hp2. destruct Hs as [Hl _ _].
  destruct v as [x|t z|t re im|s| |x|l|t l|t l|l|n|h|l|p|l|r h|l|n]; cbn [local_ok] in Hl.
  - done.
  - destruct t; reflexivity.
  - destruct t; exact (f_equal Ret (writeComplexValue_enc _ (re, im) b)).
  - exact (f_equal Ret (write_string_enc s b Hl)).
  - reflexivity.
  - assert (write_ByteArray x b = b ++ enc_prefixed x) as E
      by (unfold write_ByteArray; by rewrite writeSize_enc, <- app_assoc).
    exact (f_equal Ret E).
  - exact (writeSequence_of_enc _ enc_bool l b Hl (fun _ _ _ => eq_refl)).
  - destruct Hl as [Hl _].
    assert (writeSequenceBulk t l b = b ++ enc_list (le_bytes (pod_size t)) l) as E.
    { unfold writeSequenceBulk. by rewrite writeSize_enc, <- app_assoc. }
    destruct t; exact (f_equal Ret E).
  - destruct Hl as [Hl _].
    pose proof (writeSequence_of_enc (fun z b => Ret (writeComplexValue t z b)) (enc_complex t) l b Hl
      (fun z b _ => f_equal Ret (writeComplexValue_enc t z b))) as E.
    destruct t; exact E.
  - destruct Hl as [Hl Hall]. rewrite List.Forall_forall in Hall.
    exact (writeSequence_of_enc _ enc_string l b Hl
      (fun s b' Hin => f_equal Ret (write_string_enc s b' (Hall s Hin)))).
  - apply (writeSequence_of_enc (fun _ b => Ret (write_none b)) (fun _ : unit => enc_size 0)
      (replicate n tt) b); [by rewrite length_replicate|]. intros [] b' _. reflexivity.
  - apply Hw. by left.
  - apply (writeSequence_of_enc wh enc_hash l b Hl). intros h b' Hin. by apply Hw.
  - by destruct (Hp1 p).
  - by destruct (Hp2 l).
  - destruct Hl as [Hr Hsz]. apply (write_schema_enc r h b Hr Hsz). intros b'. apply Hw. by left.
  - done.
  - done.
Qed.

Lemma writeAttributes_enc (a : attributes) (b : bytes) :
  size_ok (length a) ->
  (forall x, In x a -> key_ok x.1 /\ no_pointer x.2 = true /\ serializable x.2 /\ writes x.2) ->
  writeAttributes wh a b = Ret (b ++ enc_list enc_attr a).
Proof.
  intros Hsz Ha. unfold writeAttributes.
  apply (writeSequence_of_enc (writeAttribute wh) enc_attr a b Hsz).
  intros x b' Hin. destruct (Ha x Hin) as (Hk & Hv & Hs & Hw).
  unfold writeAttribute, enc_attr. rewrite writeKey_enc by done. cbn [mbind outcome_bind].
  rewrite writeType_enc, writeAny_enc; [by rewrite <- !app_assoc|done|done| |];
    intros ? E; by rewrite E in Hv.
Qed.

Lemma write_pointee_enc (p : option hash) (b : bytes) (h : hash) :
  p = Some h -> wh h b = Ret (b ++ enc_hash h) -> write_pointee wh p b = Ret (b ++ enc_hash h).
Proof. by intros ->. Qed.

Lemma writeNode_enc (n : node) (b : bytes) :
  key_ok (nKey n) -> size_ok (length (nAttrs n)) ->
  (forall x, In x (nAttrs n) ->
     key_ok x.1 /\ no_pointer x.2 = true /\ serializable x.2 /\ writes x.2) ->
  serializable (nVal n) -> writes (nVal n) ->
  writeNode wh n b = Ret (b ++ enc_node n).
Proof.
  intros Hk Hsz Ha Hs Hw. unfold writeNode, enc_node. rewrite writeKey_enc by done.
  cbn [mbind outcome_bind].
  assert (forall t b, writeAttributes wh (nAttrs n) (writeType t b) =
    Ret (b ++ enc_type t ++ enc_list enc_attr (nAttrs n))) as Hstart.
  { intros t b'. by rewrite writeType_enc, writeAttributes_enc, <- app_assoc. }
  assert ((forall p, nVal n <> VHashPtr p) -> (forall l, nVal n <> VVecHashPtr l) ->
    (buffer ← writeAttributes wh (nAttrs n) (writeType (getType n) (b ++ enc_key (nKey n)));
     writeAny wh (nVal n) (getType n) buffer) =
    Ret (b ++ enc_key (nKey n) ++ enc_type (type_of (nVal n)) ++
      enc_list enc_attr (nAttrs n) ++ enc_body (nVal n))) as Hgen.
  { intros H1 H2. rewrite Hstart. cbn [mbind outcome_bind]. unfold getType.
    rewrite writeAny_enc by done. by rewrite <- !app_assoc. }
  destruct (nVal n) as [x|t z|t re im|s| |x|l|t l|t l|l|k|h|l|p|l|r h|l|k] eqn:Ev;
    try (by apply Hgen).
  - rewrite Hstart. cbn [mbind outcome_bind]. rewrite Hw by (by left). by rewrite <- !app_assoc.
  - rewrite Hstart. cbn [mbind outcome_bind].
    rewrite (writeSequence_of_enc wh enc_hash); [by rewrite <- !app_assoc|by destruct Hs|].
    intros h b' Hin. by apply Hw.
  - rewrite Hstart. cbn [mbind outcome_bind]. destruct Hs as [Hp _ _]. destruct p as [h|]; [|done].
    cbn [write_pointee]. rewrite Hw by (by left). by rewrite <- !app_assoc.
  - rewrite Hstart. cbn [mbind outcome_bind]. destruct Hs as [[Hl Hall] _ _].
    rewrite (writeSequence_of_enc (write_pointee wh)
      (fun p => match p with Some h => enc_hash h | None => [] end)); [by rewrite <- !app_assoc|done|].
    intros p b' Hin. rewrite List.Forall_forall in Hall. destruct p as [h|]; [|by destruct (Hall None Hin)].
    apply Hw. apply in_flat_map. exists (Some h). split; [done|by left].
Qed.
End writer_enc.

(** The nodes of a Hash, if those less deep can be written. *)
Lemma writeNodes_enc (f : nat) (h : hash) (b : bytes) :
  (forall h b, serializable (VHash h) -> (depth (VHash h) <= f)%nat ->
     writeHash f h b = Ret (b ++ enc_hash h)) ->
  serializable (VHash h) ->
  (forall n v, In n h -> In v (node_values n) -> (depth v <= f)%nat) ->
  foldM (writeNode (writeHash f)) h b = Ret (b ++ flat_map enc_node h).
Proof.
  intros IH Hs Hd. destruct (serializable_hash h Hs) as [(_ & _ & Hn) Hsn].
  apply foldM_write. intros n b' Hin.
  destruct (Hn n Hin) as (Hk & _ & Hal & _ & Ha). destruct (Hsn n Hin) as [Hsv Hsa].
  assert (forall v, In v (node_values n) -> serializable v -> writes (writeHash f) v) as Hwr.
  { intros v Hv Hsv' h' b'' Hh'. apply IH; [by eapply serializable_inner|].
    pose proof (depth_inner v h' Hh'). pose proof (Hd n v Hin Hv). lia. }
  apply writeNode_enc; [exact Hk|exact Hal| |exact Hsv|apply Hwr; [by left|exact Hsv]].
  intros x Hx. destruct (Ha x Hx) as [Hxk Hxv]. split_and!; [exact Hxk|by apply attribute_no_pointer|by apply Hsa|].
  apply Hwr; [right; apply in_map, Hx|by apply Hsa].
Qed.

Lemma writeHash_enc (fuel : nat) :
  forall h b, serializable (VHash h) -> (depth (VHash h) <= fuel)%nat ->
  writeHash fuel h b = Ret (b ++ enc_hash h).
Proof.
  induction fuel as [|f IH]; intros h b Hs Hd; [cbn in Hd; lia|]. cbn [writeHash].
  rewrite writeNodes_enc; [|exact IH|exact Hs|].
  - unfold enc_hash, enc_list. destruct (serializable_hash h Hs) as [(Hl & _) _].
    by rewrite writeSize_enc, <- app_assoc.
  - intros n v Hn Hv. pose proof (depth_node h n v Hn Hv). lia.
Qed.

(** ** The nesting is less than the number of bytes *)

Lemma list_max_flat_map {A} (f : A -> nat) (enc : A -> bytes) (l : list A) :
  (forall x, In x l -> (f x <= length (enc x))%nat) ->
  (list_max (map f l) <= length (flat_map enc l))%nat.
Proof.
  intros Hf. apply list_max_le, List.Forall_forall. intros k Hk. apply in_map_iff in Hk as (x & <- & Hx).
  etransitivity; [by apply Hf|]. apply in_split in Hx as (l1 & l2 & ->).
  rewrite flat_map_app, length_app. cbn. rewrite length_app. lia.
Qed.

Lemma depth_enc_hash (h : hash) :
  (forall n v, In n h -> In v (node_values n) -> (depth v <= length (enc_body v))%nat) ->
  (depth (VHash h) <= length (enc_hash h))%nat.
Proof.
  intros Hd. cbn [depth]. unfold enc_hash, enc_list, enc_size. rewrite length_app, le_bytes_length.
  assert (list_max (map (fun n => Nat.max (depth (nVal n))
    (list_max (map (fun a : string * value => depth a.2) (nAttrs n)))) h) <= length (flat_map enc_node h))%nat;
    [|lia].
  apply list_max_flat_map. intros n Hn. unfold enc_node, enc_list. rewrite !length_app.
  pose proof (Hd n (nVal n) Hn (or_introl eq_refl)).
  assert (list_max (map (fun a : string * value => depth a.2) (nAttrs n)) <=
    length (flat_map enc_attr (nAttrs n)))%nat; [|lia].
  apply list_max_flat_map. intros a Ha. unfold enc_attr. rewrite !length_app.
  pose proof (Hd n a.2 Hn (or_intror (in_map snd _ _ Ha))). lia.
Qed.

Lemma depth_enc (v : value) : serializable v -> (depth v <= length (enc_body v))%nat.
Proof.
  revert v. refine (value_children_ind _ _). intros v IH [Hl _ Hc].
  assert (forall h, In h (value_hashes v) -> (depth (VHash h) <= length (enc_hash h))%nat) as Hh.
  { intros h Hin. apply depth_enc_hash. intros n c Hn Hcn.
    assert (In c (children v)) as Hcv by (apply (children_hash v h Hin), in_flat_map; eauto).
    apply IH; [done|by apply Hc]. }
  destruct v as [x|t z|t re im|s| |x|l|t l|t l|l|n|h|l|p|l|r h|l|n]; try apply Nat.le_0_l.
  - apply Hh. by left.
  - change (list_max (map (fun h => depth (VHash h)) l) <= length (enc_list enc_hash l))%nat.
    unfold enc_list. rewrite length_app. pose proof (list_max_flat_map (fun h => depth (VHash h)) enc_hash l Hh). lia.
  - destruct p as [h|]; [|apply Nat.le_0_l]. apply Hh. by left.
  - change (list_max (map (fun p : option hash => match p with Some h => depth (VHash h) | None => O end) l) <=
      length (enc_list (fun p : option hash => match p with Some h => enc_hash h | None => [] end) l))%nat.
    unfold enc_list. rewrite length_app.
    match goal with |- (list_max (map ?f l) <= _ + length (flat_map ?g l))%nat =>
      pose proof (list_max_flat_map f g l) as Hm end.
    etransitivity; [apply Hm|lia]. intros [h|] Hin; [|apply Nat.le_0_l].
    apply Hh. apply in_flat_map. exists (Some h). split; [done|by left].
  - change (depth (VHash h) <= length (enc_prefixed (enc_root r ++ enc_hash h)))%nat.
    unfold enc_prefixed. rewrite !length_app. pose proof (Hh h (or_introl eq_refl)). lia.
  - destruct Hl.
Qed.

(** C21: What HashBinarySerializer::save writes, for every Hash that fits the format (keys
    of at most 255 characters without NUL and not ending in ']', sizes below 2^32, no Hash
    or pointer as attribute value, no null pointer, no value of an unregistered type): the
    bytes are those of the format, the number of nodes and per node its key, type,
    attributes and value, recursively, with the size that is patched into the archive in
    front of a Schema; save2 puts them behind what the archive holds already. *)
Theorem save_format (h : hash) (archive : bytes) :
  serializable (VHash h) ->
  save h = Ret (enc_hash h) /\ save2 h archive = Ret (archive ++ enc_hash h).
Proof. intros Hs. split; by apply writeHash_enc. Qed.

(** A proof of [serializable] for a concrete value. *)
Ltac serializable :=
  repeat match goal with
  | |- serializable _ => constructor
  | H : _ = _ |- _ => subst
  | H : In _ _ |- _ => cbn in H
  | H : _ \/ _ |- _ => destruct H
  | H : False |- _ => destruct H
  | |- forall _, _ => intros
  | |- _ /\ _ => split
  | |- awf _ => apply (bool_decide_unpack _); vm_compute; exact I
  | |- _ ∉ _ => apply (bool_decide_unpack _); vm_compute; exact I
  | |- bits_ok _ _ => unfold bits_ok; cbn; lia
  | |- size_ok _ => unfold size_ok; cbn; lia
  | |- key_ok _ => unfold key_ok
  | |- Forall _ _ => constructor
  | |- _ = _ => reflexivity
  | |- _ <> _ => discriminate
  | |- (_ <= _)%Z => cbn; lia
  | |- hash_ok _ => unfold hash_ok
  | |- local_ok _ => cbn
  | |- True => exact I
  end.

(** A Hash with a Hash, a vector of Hashes and a Schema in it, and attributes. *)
Definition example_hash : hash :=
  [mkNode "a.b" [("unit"%string, VPod PInt32 7); ("tags"%string, VVecString ["x"; "y"]%string)]
     (VHash [mkNode "c" [] (VString "text"); mkNode "d" [] (VVecPod PUInt16 [1; 65535])]);
   mkNode "rows" [] (VVecHash [[mkNode "e" [] (VBool true)]; []]);
   mkNode "schema" [] (VSchema "Root" [mkNode "f" [("alias"%string, VString "0x1")] VNone])].

Lemma save_format_witness :
  serializable (VHash example_hash) /\
  save example_hash = Ret (enc_hash example_hash) /\
  save2 example_hash [NUL] = Ret (NUL :: enc_hash example_hash).
Proof.
  assert (serializable (VHash example_hash)) as Hs by serializable.
  split; [exact Hs|]. exact (save_format example_hash [NUL] Hs).
Defined.

(** A key of more than 255 characters, whose length does not fit the byte that the
    format has for it, is refused with an IOException: the nodes before it in the Hash are
    written, then the exception leaves the save. *)
Theorem save_long_key (n : node) (before after : hash) (archive : bytes) :
  serializable (VHash before) -> 255 < Z.of_nat (String.length (nKey n)) ->
  save2 (before ++ n :: after) archive = Throw IOException.
Proof.
  intros Hs Hk. unfold save2.
  destruct (depth (VHash (before ++ n :: after))) as [|f] eqn:Ed; [discriminate|]. cbn [writeHash].
  rewrite foldM_app, writeNodes_enc; [|intros; by apply writeHash_enc|exact Hs|].
  - cbn. unfold writeNode, writeKey. destruct (Z.ltb_spec 255 (Z.of_nat (String.length (nKey n)))); [done|lia].
  - intros m v Hm Hv.
    pose proof (depth_node (before ++ n :: after) m v (in_or_app _ _ _ (or_introl Hm)) Hv). lia.
Qed.

Lemma save_long_key_witness :
  save2 [mkNode "a" [] VNone; mkNode (str (replicate 256 "k"%char)) [] VNone] [] = Throw IOException.
Proof.
  apply (save_long_key (mkNode (str (replicate 256 "k"%char)) [] VNone) [mkNode "a" [] VNone] [] []);
    [serializable|vm_compute; reflexivity].
Defined.
