(* ===== verification/BinaryReader.v ===== *)
(** Reading Hashes from the binary format (data/io/HashBinarySerializer.cc and .hh, and
    the load part of data/io/SchemaBinarySerializer.cc).

    A reader takes the stream and returns it behind its result.  What the code has put
    into its output argument before an exception is not kept.  The recursive call to
    readHash is a variable of the section and is tied at its end; every level reads the
    four bytes of a size, so the length of the archive is fuel enough. *)

From Stdlib Require Import ZArith Lia Ascii String.
From stdpp Require Import base numbers list strings gmap.
From S2P Require Import Prelude Types Strings OrderedMap Hash HashAccess SchemaAlias BinaryWriter.
Import Types.

Open Scope Z_scope.

(** ** The stream *)

(** std::stringstream over the archive: the characters not yet read, the number of those
    read, and whether a read has failed. *)
Record istream := mkStream { s_rest : bytes; s_pos : nat; s_fail : bool }.

Definition stream_of (archive : bytes) : istream := mkStream archive 0 false.

(** [is.read(p, n)]: the characters that arrive in the memory at [p].  A stream that has
    failed reads nothing; one that has less than [n] characters gives them and fails. *)
Definition read (n : Z) (st : istream) : bytes * istream :=
  if s_fail st then ([], st)
  else
    let got := take (Z.to_nat (Z.min n (Z.of_nat (length (s_rest st))))) (s_rest st) in
    (got, mkStream (drop (length got) (s_rest st)) (s_pos st + length got) (Z.of_nat (length got) <? n)).

(** [size_t(is.tellg())] *)
Definition tellg (st : istream) : Z := if s_fail st then 2 ^ 64 - 1 else u64 (Z.of_nat (s_pos st)).

Abbreviation reader A := (istream -> outcome (A * istream)).

(** n times, in order *)
Fixpoint read_list {A} (n : nat) (f : reader A) (st : istream) : outcome (list A * istream) :=
  match n with
  | O => Ret ([], st)
  | S n' => '(x, st) ← f st; '(l, st) ← read_list n' f st; Ret (x :: l, st)
  end.

(** ** Values *)

(** readSize: the variable that is read into has no initial value. *)
Definition readSize (st : istream) : outcome (Z * istream) :=
  let '(got, st) := read 4 st in
  if (length got =? 4)%nat then Ret (le_val got, st) else Undef.

(** readKey: [size] is 0 to begin with, the 256 characters of [buffer] have no initial
    value; the string ends at the first NUL. *)
Definition readKey (st : istream) : outcome (string * istream) :=
  let '(got, st) := read 1 st in
  let size := le_val got in
  let '(got, st) := read size st in
  if bool_decide (NUL ∈ got) || (Z.of_nat (length got) =? size) then Ret (str (c_str got), st)
  else Undef.

(** readType: the enumerator is not checked, [None] is a number that is none. *)
Definition readType (st : istream) : outcome (option ReferenceType * istream) :=
  '(size, st) ← readSize st; Ret (of_code size, st).

(** findSeparator: [char] arithmetic wraps around. *)
Fixpoint findSeparator_loop (fuel : nat) (key : string) (separator : ascii) : outcome ascii :=
  match fuel with
  | O => OutOfFuel
  | S f =>
      if decide (separator ∈ chars key) then
        let separator := byte_of (byte_val separator + 1) in
        if decide (separator = k_defaultSep) then Throw IOException
        else findSeparator_loop f key separator
      else Ret separator
  end.
Definition findSeparator (key : string) : outcome ascii := findSeparator_loop 257 key k_defaultSep.

(** readSingleValue<T> of a plain type: the bytes that are missing are zero. *)
Definition read_pod (t : pod) (st : istream) : outcome (Z * istream) :=
  let '(got, st) := read (Z.of_nat (pod_size t)) st in Ret (le_val got, st).

(** readSingleValue<bool>: a byte other than 0 and 1 is no bool. *)
Definition read_bool (st : istream) : outcome (bool * istream) :=
  let '(got, st) := read 1 st in
  if le_val got =? 0 then Ret (false, st) else if le_val got =? 1 then Ret (true, st) else Undef.

Definition readComplexValue (t : cpx) (st : istream) : outcome ((Z * Z) * istream) :=
  '(real, st) ← read_pod (cpx_part t) st;
  '(imag, st) ← read_pod (cpx_part t) st;
  Ret ((real, imag), st).

(** readSingleValue<std::string>: the characters that are missing are NUL. *)
Definition read_string (st : istream) : outcome (string * istream) :=
  '(size, st) ← readSize st;
  let '(got, st) := read size st in
  Ret (str (got ++ replicate (Z.to_nat size - length got) NUL), st).

(** readSingleValue<CppNone> *)
Definition read_none (st : istream) : outcome (unit * istream) :=
  '(size, st) ← readSize st;
  if size =? 0 then Ret (tt, st) else Throw IOException.

(** readSingleValue<ByteArray>: the memory is not initialised. *)
Definition read_ByteArray (st : istream) : outcome (bytes * istream) :=
  '(size, st) ← readSize st;
  let '(got, st) := read size st in
  if Z.of_nat (length got) =? size then Ret (got, st) else Undef.

(** The elements of a vector from its memory, [w] bytes each. *)
Fixpoint elements (n w : nat) (l : bytes) : list Z :=
  match n with
  | O => []
  | S n' => le_val (take w l) :: elements n' w (drop w l)
  end.

(** readSequenceBulk<T>: the elements that are missing are zero. *)
Definition readSequenceBulk (t : pod) (size : Z) (st : istream) : outcome (list Z * istream) :=
  let '(got, st) := read (size * Z.of_nat (pod_size t)) st in
  Ret (elements (Z.to_nat size) (pod_size t) got, st).

Section reader.
Context (format_float : pod -> Z -> string).
Context (format_complex : cpx -> Z * Z -> string).
Context (type_name : nat -> string).
Context (readHash : hash -> reader hash).

(** SchemaBinarySerializer::load on an archive of its own; [archive + 1 + size] is
    outside of it when it is shorter.  (The second component of a VSchema is the
    parameter Hash, the aliases are a function of it.) *)
Definition load_schema (archive : bytes) : outcome value :=
  let '(got, st) := read 1 (stream_of archive) in
  let size := le_val got in
  let '(rootName, _) := read size st in
  if (length got =? 1)%nat && (Z.of_nat (length rootName) =? size) then
    '(h, _) ← readHash [] (stream_of (drop (1 + Z.to_nat size) archive));
    _ ← updateAliasMap format_float format_complex type_name h;
    Ret (VSchema (str (c_str rootName)) h)
  else Undef.

(** readSingleValue<Schema> *)
Definition read_schema (st : istream) : outcome (value * istream) :=
  '(size, st) ← readSize st;
  if size =? 0 then Ret (VSchema "" [], st)
  else
    let '(buffer, st) := read size st in
    if Z.of_nat (length buffer) =? size then
      v ← load_schema buffer; Ret (v, st)
    else Undef.

(** readSingleValue(is, value, type) *)
Definition readSingleValue (type : ReferenceType) (st : istream) : outcome (value * istream) :=
  let pod (t : pod) := '(z, st) ← read_pod t st; Ret (VPod t z, st) in
  let complex (t : cpx) := '(z, st) ← readComplexValue t st; Ret (VComplex t z.1 z.2, st) in
  match type with
  | CHAR => pod PChar
  | INT8 => pod PInt8
  | INT16 => pod PInt16
  | INT32 => pod PInt32
  | INT64 => pod PInt64
  | UINT8 => pod PUInt8
  | UINT16 => pod PUInt16
  | UINT32 => pod PUInt32
  | UINT64 => pod PUInt64
  | FLOAT => pod PFloat
  | DOUBLE => pod PDouble
  | BOOL => '(b, st) ← read_bool st; Ret (VBool b, st)
  | COMPLEX_FLOAT => complex CFloat
  | COMPLEX_DOUBLE => complex CDouble
  | STRING => '(s, st) ← read_string st; Ret (VString s, st)
  | BYTE_ARRAY => '(b, st) ← read_ByteArray st; Ret (VByteArray b, st)
  | SCHEMA => read_schema st
  | HASH => '(h, st) ← readHash [] st; Ret (VHash h, st)
  | NONE => '(_, st) ← read_none st; Ret (VNone, st)
  | _ => Throw IOException
  end.

(** readSequence(is, value, type) *)
Definition readSequence (type : ReferenceType) (st : istream) : outcome (value * istream) :=
  '(size, st) ← readSize st;
  let n := Z.to_nat size in
  let bulk (t : Hash.pod) := '(l, st) ← readSequenceBulk t size st; Ret (VVecPod t l, st) in
  let complex (t : cpx) := '(l, st) ← read_list n (readComplexValue t) st; Ret (VVecComplex t l, st) in
  match type with
  | VECTOR_BOOL => '(l, st) ← read_list n read_bool st; Ret (VVecBool l, st)
  | VECTOR_STRING => '(l, st) ← read_list n read_string st; Ret (VVecString l, st)
  | VECTOR_CHAR => bulk PChar
  | VECTOR_INT8 => bulk PInt8
  | VECTOR_INT16 => bulk PInt16
  | VECTOR_INT32 => bulk PInt32
  | VECTOR_INT64 => bulk PInt64
  | VECTOR_UINT8 => bulk PUInt8
  | VECTOR_UINT16 => bulk PUInt16
  | VECTOR_UINT32 => bulk PUInt32
  | VECTOR_UINT64 => bulk PUInt64
  | VECTOR_FLOAT => bulk PFloat
  | VECTOR_DOUBLE => bulk PDouble
  | VECTOR_COMPLEX_FLOAT => complex CFloat
  | VECTOR_COMPLEX_DOUBLE => complex CDouble
  | VECTOR_HASH => '(l, st) ← read_list n (readHash []) st; Ret (VVecHash l, st)
  | VECTOR_NONE => '(l, st) ← read_list n read_none st; Ret (VVecNone (length l), st)
  | _ => Throw IOException
  end.

(** readAny.  For the type HASH a Hash is expected in [value] already; it never holds
    one.  The message of the last exception is made with ToLiteral, which throws
    itself for a number that is no enumerator. *)
Definition readAny (type : option ReferenceType) (st : istream) : outcome (value * istream) :=
  match type with
  | None => Throw NotImplementedException
  | Some type =>
      match category type with
      | SCHEMA | SIMPLE => readSingleValue type st
      | SEQUENCE => readSequence type st
      | HASH => Throw BadAnyCast
      | VECTOR_HASH =>
          '(size, st) ← readSize st;
          '(l, st) ← read_list (Z.to_nat size) (readHash []) st;
          Ret (VVecHash l, st)
      | _ => _ ← toLiteral type; Throw IOException
      end
  end.

(** One round of the loop of readAttributes. *)
Definition read_attribute (attributes : attributes) (st : istream)
  : outcome (Hash.attributes * istream) :=
  '(name, st) ← readKey st;
  '(type, st) ← readType st;
  '(v, st) ← readAny type st;
  Ret (aset name v attributes, st).

(** [n] rounds of a loop that changes [x] *)
Fixpoint read_loop {A} (n : nat) (f : A -> reader A) (x : A) (st : istream) : outcome (A * istream) :=
  match n with
  | O => Ret (x, st)
  | S n' => '(x, st) ← f x st; read_loop n' f x st
  end.

Definition readAttributes (a : attributes) (st : istream) : outcome (attributes * istream) :=
  '(size, st) ← readSize st; read_loop (Z.to_nat size) read_attribute a st.

(** readNode *)
Definition readNode (n : node) (st : istream) : outcome (node * istream) :=
  '(type, st) ← readType st;
  '(a, st) ← readAttributes (nAttrs n) st;
  '(v, st) ←
    match type with
    | Some HASH => '(h, st) ← readHash [] st; Ret (VHash h, st)
    | Some HASH_POINTER => '(h, st) ← readHash [] st; Ret (VHashPtr (Some h), st)
    | Some VECTOR_HASH =>
        '(size, st) ← readSize st;
        '(l, st) ← read_list (Z.to_nat size) (readHash []) st; Ret (VVecHash l, st)
    | Some VECTOR_HASH_POINTER =>
        '(size, st) ← readSize st;
        '(l, st) ← read_list (Z.to_nat size) (readHash []) st; Ret (VVecHashPtr (map Some l), st)
    | _ => readAny type st
    end;
  Ret (mkNode (nKey n) a v, st).

(** One round of the loop of readHash: a node with a dummy value is set, then read. *)
Definition read_element (h : hash) (st : istream) : outcome (hash * istream) :=
  '(name, st) ← readKey st;
  separator ← findSeparator name;
  let '(h, np) := set name (VBool true) separator h in
  np ← np;
  match node_at np h with
  | Some n => '(n, st) ← readNode n st; Ret (node_alter np (fun _ => n) h, st)
  | None => Undef
  end.
End reader.

Section load.
Context (format_float : pod -> Z -> string).
Context (format_complex : cpx -> Z * Z -> string).
Context (type_name : nat -> string).

(** readHash, for a nesting of Hashes not deeper than [fuel]. *)
Fixpoint readHash (fuel : nat) (h : hash) (st : istream) : outcome (hash * istream) :=
  match fuel with
  | O => OutOfFuel
  | S f =>
      '(size, st) ← readSize st;
      read_loop (Z.to_nat size)
        (read_element format_float format_complex type_name (readHash f)) h st
  end.

(** load(object, archive, nBytes): the Hash, to which nodes are added, and the number
    of bytes that the code returns. *)
Definition load (object : hash) (archive : bytes) : outcome (hash * Z) :=
  '(h, st) ← readHash (S (length archive)) object (stream_of archive);
  Ret (h, tellg st).

(** load(std::vector<Hash>&, archive, nBytes): an empty Hash has no [begin()], and
    get<vector<Hash>> is by path. *)
Definition load_vector (archive : bytes) : outcome (list hash * Z) :=
  '(tmp, n) ← load [] archive;
  match tmp with
  | [] => Undef
  | first :: _ =>
      if bool_decide (nKey first = "KRB_Sequence") then
        v ← get (Tvector Hash_) "KRB_Sequence" k_defaultSep tmp;
        l ← getValue_vector_Hash v;
        Ret (l, n)
      else Ret ([tmp], n)
  end.
End load.

(** ** Termination *)

(** The computation ends, and leaves at most [n] characters to be read. *)
Definition tame {A} (n : nat) (x : outcome (A * istream)) : Prop :=
  match x with
  | OutOfFuel => False
  | Ret (_, st) => (length (s_rest st) <= n)%nat
  | _ => True
  end.

Lemma tame_bind {A B} (n : nat) (x : outcome (A * istream)) (f : A * istream -> outcome (B * istream)) :
  tame n x -> (forall a st, (length (s_rest st) <= n)%nat -> tame n (f (a, st))) -> tame n (x ≫= f).
Proof. destruct x as [[a st]| | |]; cbn; auto. Qed.

Lemma tame_pure {A B} (n : nat) (x : outcome A) (f : A -> outcome (B * istream)) :
  x <> OutOfFuel -> (forall a, tame n (f a)) -> tame n (x ≫= f).
Proof. destruct x; cbn; auto. Qed.

Lemma tame_mono {A} (n m : nat) (x : outcome (A * istream)) : (n <= m)%nat -> tame n x -> tame m x.
Proof. destruct x as [[a st]| | |]; cbn; auto; lia. Qed.

Lemma read_shrinks (k : Z) (st : istream) :
  (length (s_rest (read k st).2) + length (read k st).1 <= length (s_rest st))%nat.
Proof.
  unfold read. destruct (s_fail st); cbn; [lia|]. rewrite length_drop, length_take. lia.
Qed.

Lemma tame_read_list {A} (n k : nat) (f : reader A) :
  (forall st, (length (s_rest st) <= n)%nat -> tame n (f st)) ->
  forall st, (length (s_rest st) <= n)%nat -> tame n (read_list k f st).
Proof.
  intros Hf. induction k as [|k IH]; intros st Hst; [done|]. cbn [read_list].
  apply tame_bind; [by apply Hf|]. intros x st1 H1. apply tame_bind; [by apply IH|]. done.
Qed.

Lemma tame_read_loop {A} (n k : nat) (f : A -> reader A) :
  (forall x st, (length (s_rest st) <= n)%nat -> tame n (f x st)) ->
  forall x st, (length (s_rest st) <= n)%nat -> tame n (read_loop k f x st).
Proof.
  intros Hf. induction k as [|k IH]; intros x st Hst; [done|]. cbn [read_loop].
  apply tame_bind; [by apply Hf|]. intros y st1 H1. by apply IH.
Qed.

Lemma findSeparator_loop_progress (key : string) (fuel : nat) :
  forall k, (k + fuel = 257)%nat -> (k < 256)%nat ->
  findSeparator_loop fuel key (byte_of (byte_val k_defaultSep + Z.of_nat k)) <> OutOfFuel.
Proof.
  induction fuel as [|fuel IH]; intros k Hk Hlt; [lia|]. cbn [findSeparator_loop].
  destruct (decide _); [|discriminate].
  replace (byte_of (byte_val (byte_of (byte_val k_defaultSep + Z.of_nat k)) + 1))
    with (byte_of (byte_val k_defaultSep + Z.of_nat (S k))).
  2: { unfold byte_of at 1 2. do 2 f_equal. rewrite byte_val_of, Z.add_mod_idemp_l by lia. f_equal. lia. }
  destruct (decide _) as [|Hne]; [discriminate|]. apply IH; [lia|].
  destruct (Nat.eq_dec k 255%nat) as [->|]; [by destruct Hne|lia].
Qed.

Lemma findSeparator_fuel (key : string) : findSeparator key <> OutOfFuel.
Proof. exact (findSeparator_loop_progress key 257 0 eq_refl ltac:(lia)). Qed.

Lemma set_fuel (key : string) (v : value) (sep : ascii) (h : hash) :
  free_of sep key -> (set key v sep h).2 <> OutOfFuel.
Proof.
  intros Hf. rewrite set_single by done. pose proof (getAndCropIndex_fuel key).
  destruct (getAndCropIndex key) as [[i k]| | |]; try done. by destruct (i =? -1).
Qed.

Lemma findSeparator_free (key : string) (c : ascii) : findSeparator key = Ret c -> free_of c key.
Proof.
  unfold findSeparator. generalize 257%nat k_defaultSep. intros fuel.
  induction fuel as [|fuel IH]; intros sep; cbn [findSeparator_loop]; [discriminate|].
  destruct (decide (sep ∈ chars key)) as [Hin|Hin].
  - destruct (decide _); [discriminate|]. apply IH.
  - intros [= <-]. exact Hin.
Qed.

Lemma tame_readSize (st : istream) (n : nat) :
  (length (s_rest st) <= n)%nat -> tame n (readSize st).
Proof.
  intros H. unfold readSize. pose proof (read_shrinks 4 st). destruct (read 4 st) as [got st'].
  cbn in *. destruct (_ =? 4)%nat; cbn; [lia|done].
Qed.

Lemma readSize_consumes (st st' : istream) (z : Z) :
  readSize st = Ret (z, st') -> (length (s_rest st') + 4 <= length (s_rest st))%nat.
Proof.
  unfold readSize. pose proof (read_shrinks 4 st) as H. destruct (read 4 st) as [got st1].
  destruct (Nat.eqb_spec (length got) 4); [|discriminate]. intros [= _ ->]. cbn in H. lia.
Qed.

(** Along the binds of a reader. *)
Ltac tame :=
  repeat first
    [ assumption
    | exact I
    | progress cbn [tame]
    | solve [eauto with tame]
    | match goal with
      | |- tame _ (let '(_, _) := read ?k ?st in _) =>
          pose proof (read_shrinks k st); destruct (read k st); cbn [fst snd] in *
      | |- tame _ (mbind _ _) =>
          first [apply tame_bind; [|intros ? ? ?] | apply tame_pure; [solve [eauto with fuel]|intros ?]]
      | |- tame _ (if _ then _ else _) => case_match
      | |- tame _ (match _ with _ => _ end) => case_match
      end ].

Create HintDb tame.
#[export] Hint Resolve tame_readSize : tame.
#[export] Hint Extern 1 (_ <= _)%nat => lia : tame.

Section tame_primitive.
Context (n : nat).
Implicit Types (st : istream).

Lemma tame_readKey st : (length (s_rest st) <= n)%nat -> tame n (readKey st).
Proof. intros H. unfold readKey. tame. Qed.

Lemma tame_readType st : (length (s_rest st) <= n)%nat -> tame n (readType st).
Proof. intros H. unfold readType. tame. Qed.

Lemma tame_read_pod (t : pod) st : (length (s_rest st) <= n)%nat -> tame n (read_pod t st).
Proof. intros H. unfold read_pod. tame. Qed.

Lemma tame_read_bool st : (length (s_rest st) <= n)%nat -> tame n (read_bool st).
Proof. intros H. unfold read_bool. tame. Qed.

Lemma tame_readComplexValue (t : cpx) st :
  (length (s_rest st) <= n)%nat -> tame n (readComplexValue t st).
Proof.
  intros H. unfold readComplexValue. apply tame_bind; [by apply tame_read_pod|]. intros z st1 H1.
  apply tame_bind; [by apply tame_read_pod|]. intros z' st2 H2. exact H2.
Qed.

Lemma tame_read_string st : (length (s_rest st) <= n)%nat -> tame n (read_string st).
Proof. intros H. unfold read_string. tame. Qed.

Lemma tame_read_none st : (length (s_rest st) <= n)%nat -> tame n (read_none st).
Proof. intros H. unfold read_none. tame. Qed.

Lemma tame_read_ByteArray st : (length (s_rest st) <= n)%nat -> tame n (read_ByteArray st).
Proof. intros H. unfold read_ByteArray. tame. Qed.

Lemma tame_readSequenceBulk (t : pod) (size : Z) st :
  (length (s_rest st) <= n)%nat -> tame n (readSequenceBulk t size st).
Proof. intros H. unfold readSequenceBulk. tame. Qed.
End tame_primitive.

#[export] Hint Resolve tame_readKey tame_readType tame_read_pod tame_read_bool tame_readComplexValue
  tame_read_string tame_read_none tame_read_ByteArray tame_readSequenceBulk tame_read_list
  tame_read_loop : tame.

Section tame_readers.
Context (format_float : pod -> Z -> string).
Context (format_complex : cpx -> Z * Z -> string).
Context (type_name : nat -> string).
Context (rh : hash -> reader hash) (n : nat).
Context (Hrh : forall h st, (length (s_rest st) <= n)%nat -> tame n (rh h st)).
Implicit Types (st : istream).

Lemma tame_load_schema (archive : bytes) (st : istream) :
  (length archive <= n)%nat -> (length (s_rest st) <= n)%nat ->
  tame n (v ← load_schema format_float format_complex type_name rh archive; Ret (v, st)).
Proof.
  intros Ha Hst. apply tame_pure; [|done]. unfold load_schema.
  destruct (read 1 _) as [got st1]. destruct (read _ st1) as [rootName st2].
  case_match; [|discriminate].
  assert (rh [] (stream_of (drop (1 + Z.to_nat (le_val got)) archive)) <> OutOfFuel) as Hne.
  { pose proof (Hrh [] (stream_of (drop (1 + Z.to_nat (le_val got)) archive))) as Ht.
    intros E. rewrite E in Ht. apply Ht. cbn [s_rest stream_of]. rewrite length_drop. lia. }
  apply outcome_bind_fuel; [done|]. intros [h st3] _. no_fuel.
Qed.

Lemma tame_read_schema st :
  (length (s_rest st) <= n)%nat ->
  tame n (read_schema format_float format_complex type_name rh st).
Proof.
  intros H. unfold read_schema. tame. apply tame_load_schema; lia.
Qed.

Lemma tame_readSingleValue (t : ReferenceType) st :
  (length (s_rest st) <= n)%nat ->
  tame n (readSingleValue format_float format_complex type_name rh t st).
Proof.
  intros H. pose proof tame_read_schema. unfold readSingleValue. destruct t; tame.
Qed.

Lemma tame_readSequence (t : ReferenceType) st :
  (length (s_rest st) <= n)%nat -> tame n (readSequence rh t st).
Proof.
  intros H. unfold readSequence. apply tame_bind; [by apply tame_readSize|]. intros size st1 H1.
  destruct t; try exact I; tame; (apply tame_read_list; [|assumption]); eauto with tame.
Qed.

Lemma tame_readAny (t : option ReferenceType) st :
  (length (s_rest st) <= n)%nat ->
  tame n (readAny format_float format_complex type_name rh t st).
Proof.
  intros H. pose proof tame_readSingleValue. pose proof tame_readSequence.
  unfold readAny. destruct t as [t|]; [|exact I].
  assert (toLiteral t <> OutOfFuel) by (by destruct t).
  destruct (category t); tame.
Qed.

Lemma tame_readAttributes (a : attributes) st :
  (length (s_rest st) <= n)%nat ->
  tame n (readAttributes format_float format_complex type_name rh a st).
Proof.
  intros H. pose proof tame_readAny. unfold readAttributes.
  apply tame_bind; [by apply tame_readSize|]. intros size st1 K1.
  apply tame_read_loop; [|done]. intros a' st' H'. unfold read_attribute. tame.
Qed.

Lemma tame_readNode (x : node) st :
  (length (s_rest st) <= n)%nat ->
  tame n (readNode format_float format_complex type_name rh x st).
Proof.
  intros H. pose proof tame_readAny. pose proof tame_readAttributes. unfold readNode.
  apply tame_bind; [by apply tame_readType|]. intros t st1 K1.
  apply tame_bind; [eauto|]. intros a st2 K2.
  apply tame_bind; [|intros v st3 K3; exact K3].
  destruct t as [[]|]; eauto; tame; (apply tame_read_list; [|assumption]); eauto.
Qed.

Lemma tame_read_element (h : hash) st :
  (length (s_rest st) <= n)%nat ->
  tame n (read_element format_float format_complex type_name rh h st).
Proof.
  intros H. unfold read_element. apply tame_bind; [by apply tame_readKey|]. intros name st1 K1.
  pose proof (findSeparator_fuel name). pose proof (findSeparator_free name) as Hf.
  destruct (findSeparator name) as [sep| | |]; try done. cbn [mbind outcome_bind].
  pose proof (set_fuel name (VBool true) sep h (Hf sep eq_refl)) as Hs.
  destruct (set name (VBool true) sep h) as [h' np]. apply tame_pure; [exact Hs|]. intros np'.
  destruct (node_at np' h') as [x|]; [|exact I].
  apply tame_bind; [by apply tame_readNode|]. intros x' st2 K2. exact K2.
Qed.
End tame_readers.

Lemma tame_readHash format_float format_complex type_name (fuel : nat) :
  forall h st, (length (s_rest st) < fuel)%nat ->
  tame (length (s_rest st)) (readHash format_float format_complex type_name fuel h st).
Proof.
  induction fuel as [|f IH]; intros h st Hst; [lia|]. cbn [readHash].
  destruct (readSize st) as [[size st1]| | |] eqn:E; try exact I.
  2: { pose proof (tame_readSize st _ (le_n _)) as Ht. by rewrite E in Ht. }
  apply readSize_consumes in E. cbn [mbind outcome_bind].
  apply (tame_mono (length (s_rest st1))); [lia|]. apply tame_read_loop; [|done].
  intros h' st' H'. apply tame_read_element; [|done]. intros h2 st2 K2.
  apply (tame_mono (length (s_rest st2))); [done|]. apply IH. lia.
Qed.

(** The fuel of [load], the length of the archive, is enough: the recursion of readHash, also
    through the Schemas in the archive and the update of their alias maps, reads a size on
    every level.  This bounds the model, not the code, on an archive that is cut off: the
    code does not look at the state of the stream there and goes on with a size that was
    never written, where the model ends with [Undef]. *)
Lemma load_fuel (format_float : pod -> Z -> string) (format_complex : cpx -> Z * Z -> string)
    (type_name : nat -> string) (object : hash) (archive : bytes) :
  load format_float format_complex type_name object archive <> OutOfFuel.
Proof.
  unfold load. pose proof (tame_readHash format_float format_complex type_name (S (length archive))
    object (stream_of archive) (Nat.lt_succ_diag_r _)) as Ht.
  destruct (readHash _ _ _ _ _ _) as [[h st]| | |]; done.
Qed.

(** ** Reading back what was written *)

(** [f] reads exactly the characters [b] and gives [a], whatever follows. *)
Definition reads {A} (f : reader A) (b : bytes) (a : A) : Prop :=
  forall rest pos, f (mkStream (b ++ rest) pos false) = Ret (a, mkStream rest (pos + length b) false).

Lemma reads_ret {A} (a : A) : reads (fun st => Ret (a, st)) [] a.
Proof. intros rest pos. by rewrite Nat.add_0_r. Qed.

Lemma reads_bind {A B} (f : reader A) (g : A * istream -> outcome (B * istream)) (b c : bytes) (a : A) (x : B) :
  reads f b a -> reads (fun st => g (a, st)) c x -> reads (fun st => f st ≫= g) (b ++ c) x.
Proof.
  intros Hf Hg rest pos. rewrite <- app_assoc, Hf. cbn [mbind outcome_bind]. rewrite Hg.
  rewrite length_app. do 3 f_equal. lia.
Qed.

(** The value is computed from what was read. *)
Lemma reads_map {A B} (f : reader A) (g : A -> B) (b : bytes) (a : A) :
  reads f b a -> reads (fun st => '(x, st) ← f st; Ret (g x, st)) b (g a).
Proof. intros Hf rest pos. by rewrite Hf. Qed.

Lemma read_exact (k : Z) (b rest : bytes) (pos : nat) :
  k = Z.of_nat (length b) ->
  read k (mkStream (b ++ rest) pos false) = (b, mkStream rest (pos + length b) false).
Proof.
  intros ->. unfold read. cbn [s_fail s_rest s_pos].
  rewrite Z.min_l by (rewrite length_app; lia). rewrite Nat2Z.id, take_app_length, drop_app_length.
  by rewrite Z.ltb_irrefl.
Qed.

Lemma readSize_reads (n : nat) : size_ok n -> reads readSize (enc_size n) (Z.of_nat n).
Proof.
  intros Hn rest pos. unfold readSize, enc_size. rewrite read_exact by done.
  rewrite le_bytes_length, Nat.eqb_refl. do 2 f_equal. apply le_val_bytes. unfold size_ok in Hn. lia.
Qed.

Lemma c_str_notin (l : bytes) : NUL ∉ l -> c_str l = l.
Proof. apply c_str_id. Qed.

Lemma readKey_reads (s : string) : key_ok s -> reads readKey (enc_key s) s.
Proof.
  intros [Hl Hn] rest pos. unfold readKey, enc_key. rewrite <- app_assoc, read_exact by done.
  rewrite le_val_bytes by (cbn; lia). rewrite read_exact by (by rewrite length_chars).
  rewrite c_str_notin, str_chars by done. rewrite length_chars, Z.eqb_refl, orb_true_r.
  rewrite length_app, length_chars. do 3 f_equal. lia.
Qed.

Lemma readType_reads (t : ReferenceType) : reads readType (enc_type t) (Some t).
Proof.
  intros rest pos. unfold readType, enc_type, readSize. rewrite read_exact by done.
  rewrite le_bytes_length, Nat.eqb_refl. cbn [mbind outcome_bind].
  rewrite le_val_bytes by (pose proof (code_range t); lia). by rewrite of_code_code.
Qed.

Lemma read_pod_reads (t : pod) (z : Z) : bits_ok t z -> reads (read_pod t) (le_bytes (pod_size t) z) z.
Proof.
  intros Hz rest pos. unfold read_pod. rewrite read_exact by (by rewrite le_bytes_length).
  by rewrite le_val_bytes.
Qed.

Lemma read_bool_reads (b : bool) : reads read_bool (enc_bool b) b.
Proof. intros rest pos. unfold read_bool, enc_bool. rewrite read_exact by done. by destruct b. Qed.

Lemma readComplexValue_reads (t : cpx) (z : Z * Z) :
  bits_ok (cpx_part t) z.1 -> bits_ok (cpx_part t) z.2 ->
  reads (readComplexValue t) (enc_complex t z) z.
Proof.
  intros H1 H2. unfold readComplexValue, enc_complex.
  apply (reads_bind (read_pod (cpx_part t)) _ _ _ z.1); [by apply read_pod_reads|].
  destruct z as [re im].
  exact (reads_map (read_pod (cpx_part t)) (fun imag => (re, imag)) _ im (read_pod_reads _ _ H2)).
Qed.

Lemma read_string_reads (s : string) : size_ok (String.length s) -> reads read_string (enc_string s) s.
Proof.
  intros Hs. unfold read_string, enc_string.
  apply (reads_bind readSize _ _ _ (Z.of_nat (String.length s))); [by apply readSize_reads|].
  intros rest pos. rewrite read_exact by (by rewrite length_chars).
  by rewrite length_chars, Nat2Z.id, Nat.sub_diag, app_nil_r, str_chars.
Qed.

Lemma read_none_reads : reads read_none (enc_size 0) tt.
Proof.
  unfold read_none. rewrite <- (app_nil_r (enc_size 0)).
  apply (reads_bind readSize _ _ _ 0); [by apply readSize_reads|]. apply reads_ret.
Qed.

Lemma read_ByteArray_reads (b : bytes) : size_ok (length b) -> reads read_ByteArray (enc_prefixed b) b.
Proof.
  intros Hs. unfold read_ByteArray, enc_prefixed.
  apply (reads_bind readSize _ _ _ (Z.of_nat (length b))); [by apply readSize_reads|].
  intros rest pos. by rewrite read_exact, Z.eqb_refl.
Qed.

Lemma elements_bytes (w : nat) (l : list Z) :
  Forall (fun z => 0 <= z < 2 ^ (8 * Z.of_nat w)) l ->
  elements (length l) w (flat_map (le_bytes w) l) = l.
Proof.
  induction 1 as [|z l Hz Hl IH]; [done|]. cbn [length elements flat_map].
  rewrite take_app_le, take_ge, drop_app_ge, le_bytes_length, Nat.sub_diag, drop_0
    by (rewrite le_bytes_length; lia). by rewrite IH, le_val_bytes.
Qed.

Lemma length_flat_map_bytes (w : nat) (l : list Z) :
  length (flat_map (le_bytes w) l) = (length l * w)%nat.
Proof. induction l as [|z l IH]; [done|]. cbn. by rewrite length_app, IH, le_bytes_length. Qed.

Lemma readSequenceBulk_reads (t : pod) (l : list Z) :
  Forall (bits_ok t) l ->
  reads (readSequenceBulk t (Z.of_nat (length l))) (flat_map (le_bytes (pod_size t)) l) l.
Proof.
  intros Hl rest pos. unfold readSequenceBulk.
  rewrite read_exact by (rewrite length_flat_map_bytes; lia). by rewrite Nat2Z.id, elements_bytes.
Qed.

Lemma read_list_reads {A} (f : reader A) (enc : A -> bytes) (l : list A) :
  (forall x, In x l -> reads f (enc x) x) ->
  reads (read_list (length l) f) (flat_map enc l) l.
Proof.
  induction l as [|x l IH]; intros Hf; [apply reads_ret|]. cbn [length read_list flat_map].
  apply (reads_bind f _ _ _ x); [apply Hf; by left|].
  apply (reads_map (read_list (length l) f) (cons x)). apply IH. intros; apply Hf; by right.
Qed.

(** A size, then the elements. *)
Lemma read_sized {A B} (f : reader A) (enc : A -> bytes) (g : list A -> B) (l : list A) :
  size_ok (length l) -> (forall x, In x l -> reads f (enc x) x) ->
  reads (fun st => '(size, st) ← readSize st;
                   '(l, st) ← read_list (Z.to_nat size) f st; Ret (g l, st)) (enc_list enc l) (g l).
Proof.
  intros Hl Hf. unfold enc_list.
  apply (reads_bind readSize _ _ _ (Z.of_nat (length l))); [by apply readSize_reads|].
  rewrite Nat2Z.id. apply (reads_map _ g). by apply read_list_reads.
Qed.

Lemma findSeparator_loop_NUL (key : string) (fuel : nat) :
  forall k, (k + fuel = 257)%nat -> (k <= 210)%nat -> NUL ∉ chars key ->
  exists c, findSeparator_loop fuel key (byte_of (byte_val k_defaultSep + Z.of_nat k)) = Ret c.
Proof.
  induction fuel as [|fuel IH]; intros k Hk Hle Hn; [lia|]. cbn [findSeparator_loop].
  destruct (decide _) as [Hin|]; [|eauto].
  replace (byte_of (byte_val (byte_of (byte_val k_defaultSep + Z.of_nat k)) + 1))
    with (byte_of (byte_val k_defaultSep + Z.of_nat (S k))).
  2: { unfold byte_of at 1 2. do 2 f_equal. rewrite byte_val_of, Z.add_mod_idemp_l by lia. f_equal. lia. }
  destruct (Nat.eq_dec k 210%nat) as [->|]; [done|].
  destruct (decide _) as [E|]; [|apply IH; [lia|lia|done]].
  apply (f_equal byte_val) in E. rewrite byte_val_of in E. change (byte_val k_defaultSep) with 46 in E.
  pose proof (Z.mod_small (46 + Z.of_nat (S k)) 256). pose proof (Z.mod_eq (46 + Z.of_nat (S k)) 256). 
  destruct (Z.lt_ge_cases (46 + Z.of_nat (S k)) 256); [lia|].
  assert (k = 209)%nat as -> by lia. discriminate E.
Qed.

Lemma findSeparator_Ret (key : string) : NUL ∉ chars key -> exists c, findSeparator key = Ret c /\ free_of c key.
Proof.
  intros Hn. destruct (findSeparator_loop_NUL key 257 0 eq_refl ltac:(lia) Hn) as [c E].
  exists c. split; [exact E|]. by apply findSeparator_free.
Qed.

(** The alias maps of the Schemas in a value can be built. *)
Section loadable.
Context (format_float : pod -> Z -> string).
Context (format_complex : cpx -> Z * Z -> string).
Context (type_name : nat -> string).

Inductive loadable (v : value) : Prop :=
| loadable_intro :
    match v with
    | VSchema _ h => exists m, updateAliasMap format_float format_complex type_name h = Ret m
    | _ => True
    end ->
    (forall c, In c (children v) -> loadable c) ->
    loadable v.

Lemma loadable_inner (v : value) (h : hash) :
  loadable v -> In h (value_hashes v) -> loadable (VHash h).
Proof.
  intros [_ Hc] Hin. constructor; [done|]. intros c Hcin. apply Hc. by eapply children_hash.
Qed.

Context (rh : hash -> reader hash).

(** [rh] reads the Hashes in [v]. *)
Definition reads_hashes (v : value) : Prop :=
  forall h, In h (value_hashes v) -> reads (rh []) (enc_hash h) h.

Lemma load_schema_enc (r : string) (h : hash) :
  key_ok r -> reads (rh []) (enc_hash h) h ->
  (exists m, updateAliasMap format_float format_complex type_name h = Ret m) ->
  load_schema format_float format_complex type_name rh (enc_root r ++ enc_hash h) = Ret (VSchema r h).
Proof.
  intros [Hl Hn] Hr [m Hm]. unfold load_schema, stream_of, enc_root. rewrite <- !app_assoc.
  rewrite (read_exact 1) by done. rewrite le_val_bytes by (cbn; lia).
  rewrite read_exact by (by rewrite length_chars).
  rewrite le_bytes_length, length_chars, Z.eqb_refl. cbn [Nat.eqb andb].
  rewrite Nat2Z.id.
  replace (drop _ _) with (enc_hash h ++ []).
  2: { rewrite app_nil_r, app_assoc, drop_app_ge by
         (rewrite length_app, le_bytes_length, length_chars; lia).
       rewrite length_app, le_bytes_length, length_chars, Nat.sub_diag. done. }
  rewrite Hr. cbn [mbind outcome_bind]. rewrite Hm. cbn [mbind outcome_bind].
  by rewrite c_str_notin, str_chars.
Qed.

Lemma read_schema_reads (r : string) (h : hash) :
  key_ok r -> size_ok (length (enc_root r ++ enc_hash h)) -> reads (rh []) (enc_hash h) h ->
  (exists m, updateAliasMap format_float format_complex type_name h = Ret m) ->
  reads (read_schema format_float format_complex type_name rh) (enc_prefixed (enc_root r ++ enc_hash h))
    (VSchema r h).
Proof.
  intros Hk Hs Hr Hm. unfold read_schema, enc_prefixed.
  apply (reads_bind readSize _ _ _ (Z.of_nat (length (enc_root r ++ enc_hash h)))); [by apply readSize_reads|].
  intros rest pos. destruct (Z.eqb_spec (Z.of_nat (length (enc_root r ++ enc_hash h))) 0) as [E|_].
  { unfold enc_root in E. rewrite !length_app, le_bytes_length in E. lia. }
  rewrite read_exact, Z.eqb_refl by done. by rewrite load_schema_enc.
Qed.

Lemma replicate_tt (l : list unit) : replicate (length l) tt = l.
Proof. induction l as [|[] l IH]; cbn; by f_equal. Qed.

Lemma readAny_reads (v : value) :
  serializable v -> loadable v -> reads_hashes v -> attribute_value v = true ->
  reads (readAny format_float format_complex type_name rh (Some (type_of v))) (enc_body v) v.
Proof.
  intros [Hl _ _] [Hm _] Hr Hv.
  destruct v as [x|t z|t re im|s| |x|l|t l|t l|l|n|h|l|p|l|r h|l|n]; try discriminate Hv; cbn [local_ok] in Hl.
  - exact (reads_map read_bool VBool _ x (read_bool_reads x)).
  - destruct t; exact (reads_map (read_pod _) (VPod _) _ z (read_pod_reads _ z Hl)).
  - destruct Hl as [H1 H2].
    destruct t; exact (reads_map (readComplexValue _) (fun z => VComplex _ z.1 z.2) _ (re, im)
      (readComplexValue_reads _ (re, im) H1 H2)).
  - exact (reads_map read_string VString _ s (read_string_reads s Hl)).
  - exact (reads_map read_none (fun _ => VNone) _ tt read_none_reads).
  - exact (reads_map read_ByteArray VByteArray _ x (read_ByteArray_reads x Hl)).
  - exact (read_sized read_bool enc_bool VVecBool l Hl (fun x _ => read_bool_reads x)).
  - destruct Hl as [Hs Hall].
    assert (reads (fun st => '(size, st) ← readSize st; '(l, st) ← readSequenceBulk t size st;
      Ret (VVecPod t l, st)) (enc_list (le_bytes (pod_size t)) l) (VVecPod t l)) as G.
    { unfold enc_list. apply (reads_bind readSize _ _ _ (Z.of_nat (length l))); [by apply readSize_reads|].
      apply (reads_map _ (VVecPod t)). by apply readSequenceBulk_reads. }
    destruct t; exact G.
  - destruct Hl as [Hs Hall]. rewrite List.Forall_forall in Hall.
    pose proof (read_sized (readComplexValue t) (enc_complex t) (VVecComplex t) l Hs
      (fun z Hz => readComplexValue_reads t z (proj1 (Hall z Hz)) (proj2 (Hall z Hz)))) as G.
    destruct t; exact G.
  - destruct Hl as [Hs Hall]. rewrite List.Forall_forall in Hall.
    exact (read_sized read_string enc_string VVecString l Hs (fun s Hin => read_string_reads s (Hall s Hin))).
  - pose proof (read_sized read_none (fun _ => enc_size 0) (fun l => VVecNone (length l)) (replicate n tt)) as G.
    cbn beta in G. rewrite length_replicate in G. apply (G Hl). intros [] _. exact read_none_reads.
  - exact (read_sized (rh []) enc_hash VVecHash l Hl (fun h Hin => Hr h Hin)).
  - destruct Hl as [Hk Hs]. apply read_schema_reads; [done|done|apply Hr; by left|done].
  - done.
  - done.
Qed.

Lemma aset_new {V N} `{MappedType V N} (k : string) (v : V) (l : list N) :
  k ∉ keys l -> aset k v l = l ++ [setValue (newElement k) v].
Proof. intros Hk%afind_None. unfold aset. by rewrite Hk. Qed.

(** A loop of rounds that each append what they read. *)
Lemma read_loop_reads {A} (f : list A -> reader (list A)) (enc : A -> bytes) (l : list A) :
  forall pre, (forall l1 x l2, l = l1 ++ x :: l2 -> reads (f (pre ++ l1)) (enc x) (pre ++ l1 ++ [x])) ->
  reads (read_loop (length l) f pre) (flat_map enc l) (pre ++ l).
Proof.
  induction l as [|x l IH]; intros pre Hf; [rewrite app_nil_r; apply reads_ret|].
  cbn [length read_loop flat_map]. apply (reads_bind (f pre) _ _ _ (pre ++ [x])).
  - pose proof (Hf [] x l eq_refl) as G. by rewrite app_nil_r in G.
  - rewrite (app_assoc pre [x] l : pre ++ x :: l = (pre ++ [x]) ++ l). apply IH.
    intros l1 y l2 ->. pose proof (Hf (x :: l1) y l2 eq_refl) as G. by rewrite <- !app_assoc.
Qed.

Lemma awf_middle {V N} `{MappedType V N} (l1 : list N) (x : N) (l2 : list N) :
  awf (l1 ++ x :: l2) -> getKey x ∉ keys l1.
Proof.
  unfold awf, keys. rewrite fmap_app. intros (_ & Hd & _)%NoDup_app Hin.
  apply (Hd _ Hin). apply list_elem_of_here.
Qed.

Lemma readAttributes_reads (a : attributes) :
  size_ok (length a) -> awf a ->
  (forall x, In x a -> key_ok x.1 /\ attribute_value x.2 = true /\
     serializable x.2 /\ loadable x.2 /\ reads_hashes x.2) ->
  reads (readAttributes format_float format_complex type_name rh []) (enc_list enc_attr a) a.
Proof.
  intros Hs Hw Ha. unfold readAttributes, enc_list.
  apply (reads_bind readSize _ _ _ (Z.of_nat (length a))); [by apply readSize_reads|].
  rewrite Nat2Z.id. apply (read_loop_reads _ enc_attr a []). intros l1 x l2 E. cbn [app].
  assert (In x a) as Hin by (rewrite E; apply in_elt).
  destruct (Ha x Hin) as (Hk & Hv & Hsx & Hlx & Hrx). unfold read_attribute, enc_attr.
  apply (reads_bind readKey _ _ _ x.1); [by apply readKey_reads|].
  apply (reads_bind readType _ _ _ (Some (type_of x.2))); [apply readType_reads|].
  replace (l1 ++ [x]) with (aset x.1 x.2 l1).
  - apply (reads_map _ (fun v => aset x.1 v l1)). by apply readAny_reads.
  - rewrite aset_new; [by destruct x|]. subst a. exact (awf_middle l1 x l2 Hw).
Qed.

Lemma read_pointers (l : list (option hash)) :
  size_ok (length l) -> Forall (fun p => p <> None) l -> reads_hashes (VVecHashPtr l) ->
  reads (fun st => '(size, st) ← readSize st;
                   '(l, st) ← read_list (Z.to_nat size) (rh []) st; Ret (VVecHashPtr (map Some l), st))
    (enc_list (fun p => match p with Some h => enc_hash h | None => [] end) l) (VVecHashPtr l).
Proof.
  intros Hs Hall Hr.
  assert (exists hs, l = map Some hs) as [hs ->].
  { clear -Hall. induction Hall as [|[h|] l Hp Hl [hs ->]]; [by exists []|by exists (h :: hs)|done]. }
  rewrite length_map in Hs.
  replace (enc_list _ (map Some hs)) with (enc_list enc_hash hs).
  - apply (read_sized (rh []) enc_hash (fun l => VVecHashPtr (map Some l)) hs Hs).
    intros h Hh. apply Hr. apply in_flat_map. exists (Some h). split; [by apply in_map|by left].
  - unfold enc_list. rewrite length_map. f_equal. clear. induction hs as [|h hs IH]; [done|].
    cbn. by rewrite IH.
Qed.

Lemma readNode_reads (key : string) (a : attributes) (v v0 : value) :
  size_ok (length a) -> awf a ->
  (forall x, In x a -> key_ok x.1 /\ attribute_value x.2 = true /\
     serializable x.2 /\ loadable x.2 /\ reads_hashes x.2) ->
  serializable v -> loadable v -> reads_hashes v ->
  reads (readNode format_float format_complex type_name rh (mkNode key [] v0))
    (enc_type (type_of v) ++ enc_list enc_attr a ++ enc_body v) (mkNode key a v).
Proof.
  intros Hs Hw Ha Hv Hl Hr. unfold readNode. cbn [nKey nAttrs].
  apply (reads_bind readType _ _ _ (Some (type_of v))); [apply readType_reads|].
  apply (reads_bind (readAttributes _ _ _ rh []) _ _ _ a); [by apply readAttributes_reads|].
  apply (reads_map _ (fun v => mkNode key a v)).
  assert (attribute_value v = true ->
    reads (readAny format_float format_complex type_name rh (Some (type_of v))) (enc_body v) v) as G
    by (by apply readAny_reads).
  destruct v as [x|t z|t re im|s| |x|l|t l|t l|l|n|h|l|p|l|r h|l|n];
    try exact (G eq_refl); try (destruct t; exact (G eq_refl)).
  - exact (reads_map (rh []) VHash _ h (Hr h (or_introl eq_refl))).
  - destruct Hv as [Hp _ _]. destruct p as [h|]; [|by destruct Hp].
    exact (reads_map (rh []) (fun h => VHashPtr (Some h)) _ h (Hr h (or_introl eq_refl))).
  - destruct Hv as [[Hsz Hall] _ _]. by apply read_pointers.
Qed.

Lemma read_element_reads (pre : hash) (n : node) :
  nKey n ∉ keys pre -> key_ok (nKey n) -> last (chars (nKey n)) <> Some "]"%char ->
  size_ok (length (nAttrs n)) -> awf (nAttrs n) ->
  (forall x, In x (nAttrs n) -> key_ok x.1 /\ attribute_value x.2 = true /\
     serializable x.2 /\ loadable x.2 /\ reads_hashes x.2) ->
  serializable (nVal n) -> loadable (nVal n) -> reads_hashes (nVal n) ->
  reads (read_element format_float format_complex type_name rh pre) (enc_node n) (pre ++ [n]).
Proof.
  intros Hnew Hk Hb Hs Hw Ha Hv Hl Hr. unfold read_element, enc_node.
  apply (reads_bind readKey _ _ _ (nKey n)); [by apply readKey_reads|].
  destruct (findSeparator_Ret (nKey n)) as (sep & -> & Hsep); [by destruct Hk|].
  cbn [mbind outcome_bind]. rewrite set_single, crop_plain, Z.eqb_refl by done.
  unfold container_set. rewrite aset_new by done.
  change (setValue (newElement (nKey n)) (VBool true)) with (mkNode (nKey n) [] (VBool true)).
  assert (afind (nKey n) pre = None) as Hf by (by apply afind_None).
  unfold node_at. cbn [mbind outcome_bind fst snd hash_at]. rewrite afind_app, Hf. cbn [afind].
  rewrite decide_True by done.
  replace (pre ++ [n]) with (node_alter ([], nKey n) (fun _ => n) (pre ++ [mkNode (nKey n) [] (VBool true)])).
  - apply (reads_map _ (fun n' => node_alter ([], nKey n) (fun _ => n') _)).
    destruct n as [key a v]. by apply readNode_reads.
  - unfold node_alter. cbn [fst snd hash_alter]. by rewrite aalter_app_new.
Qed.
End loadable.

Lemma readHash_reads format_float format_complex type_name (fuel : nat) :
  forall h, serializable (VHash h) -> loadable format_float format_complex type_name (VHash h) ->
  (depth (VHash h) <= fuel)%nat ->
  reads (readHash format_float format_complex type_name fuel []) (enc_hash h) h.
Proof.
  induction fuel as [|f IH]; intros h Hs Hl Hd; [cbn in Hd; lia|].
  destruct (serializable_hash h Hs) as [(Hsz & Hw & Hn) Hsn]. cbn [readHash].
  unfold enc_hash, enc_list.
  apply (reads_bind readSize _ _ _ (Z.of_nat (length h))); [by apply readSize_reads|].
  rewrite Nat2Z.id. apply (read_loop_reads _ enc_node h []). intros l1 n l2 E. cbn [app].
  assert (In n h) as Hin by (rewrite E; apply in_elt).
  destruct (Hn n Hin) as (Hk & Hb & Hal & Haw & Ha). destruct (Hsn n Hin) as [Hsv Hsa].
  assert (forall v, In v (node_values n) -> loadable format_float format_complex type_name v) as Hlv.
  { destruct Hl as [_ Hc]. intros v Hv. apply Hc, in_flat_map. eauto. }
  assert (forall v, In v (node_values n) -> serializable v ->
    reads_hashes (readHash format_float format_complex type_name f) v) as Hrv.
  { intros v Hv Hsv' h' Hh'. apply IH; [by eapply serializable_inner|apply (loadable_inner _ _ _ v); auto|].
    pose proof (depth_inner v h' Hh'). pose proof (depth_node h n v Hin Hv). lia. }
  apply read_element_reads; [|exact Hk|exact Hb|exact Hal|exact Haw| |exact Hsv| |].
  - rewrite E in Hw. exact (awf_middle l1 n l2 Hw).
  - intros x Hx. destruct (Ha x Hx) as [Hxk Hxv].
    assert (In x.2 (node_values n)) as Hxn by (right; apply in_map, Hx).
    exact (conj Hxk (conj Hxv (conj (Hsa x Hx) (conj (Hlv _ Hxn) (Hrv _ Hxn (Hsa x Hx)))))).
  - apply Hlv. by left.
  - apply Hrv; [by left|exact Hsv].
Qed.

(** A proof of [loadable] for a concrete value. *)
Ltac loadable :=
  repeat match goal with
  | |- loadable _ _ _ _ => constructor
  | H : _ = _ |- _ => subst
  | H : In _ _ |- _ => cbn in H
  | H : _ \/ _ |- _ => destruct H
  | H : False |- _ => destruct H
  | |- forall _, _ => intros
  | |- True => exact I
  | |- exists _, _ => eexists; vm_compute; reflexivity
  end.

(** C1: Binary round trip: what save writes for a Hash that fits the format, load reads
    back into an empty Hash as the same Hash: same nodes in the same order with the same
    attributes, the same types and values, at every level and inside the Schemas, whatever
    dots the keys hold; and it reads exactly the bytes that were written, also when more
    follow, and returns their number. *)
Theorem save_load (format_float : pod -> Z -> string) (format_complex : cpx -> Z * Z -> string)
    (type_name : nat -> string) (h : hash) (rest : bytes) :
  serializable (VHash h) -> loadable format_float format_complex type_name (VHash h) ->
  exists archive, save h = Ret archive /\
    load format_float format_complex type_name [] (archive ++ rest) =
      Ret (h, u64 (Z.of_nat (length archive))).
Proof.
  intros Hs Hl. exists (enc_hash h). split; [by apply writeHash_enc|]. unfold load, stream_of.
  rewrite (readHash_reads _ _ _ _ h Hs Hl); [done|].
  pose proof (depth_enc (VHash h) Hs). change (enc_body (VHash h)) with (enc_hash h) in *.
  rewrite length_app. lia.
Qed.

Lemma save_load_witness :
  let load := load (fun _ _ => ""%string) (fun _ _ => ""%string) (fun _ => ""%string) in
  exists archive, save example_hash = Ret archive /\
    load [] (archive ++ [NUL]) = Ret (example_hash, Z.of_nat (length archive)).
Proof.
  destruct (save_load (fun _ _ => ""%string) (fun _ _ => ""%string) (fun _ => ""%string) example_hash [NUL])
    as (archive & Hs & Hl); [serializable|loadable|].
  exists archive. split; [exact Hs|]. cbv zeta. rewrite Hl.
  vm_compute in Hs. injection Hs as <-. vm_compute. reflexivity.
Defined.

Lemma save_hash_attribute (key attribute : string) (v : value) (h : hash) :
  key_ok key -> key_ok attribute -> serializable (VHash h) -> serializable v ->
  let n := mkNode key [(attribute, VHash h)] v in
  save [n] = Ret (enc_hash [n]).
Proof.
  intros Hk Hka Hh Hv n. unfold save.
  assert (forall c, In c (node_values n) -> (depth c < depth (VHash [n]))%nat) as Hd
    by (intros c Hc; apply (depth_node [n] n c); [by left|done]).
  destruct (depth (VHash [n])) as [|f]; [by specialize (Hd v (or_introl eq_refl)); lia|].
  assert (forall c, In c (node_values n) -> serializable c -> writes (writeHash f) c) as Hw.
  { intros c Hc Hs h' b Hh'. apply writeHash_enc; [by eapply serializable_inner|].
    pose proof (depth_inner c h' Hh'). pose proof (Hd c Hc). lia. }
  cbn [writeHash foldM]. rewrite (writeNode_enc (writeHash f) n); [|exact Hk|done| |exact Hv|].
  - cbn [mbind outcome_bind]. rewrite writeSize_enc by done. unfold enc_hash, enc_list.
    cbn [flat_map length app]. by rewrite app_nil_r.
  - intros x [<-|[]]. split_and!; [exact Hka|done|exact Hh|]. apply Hw; [right; by left|exact Hh].
  - apply Hw; [by left|exact Hv].
Qed.

(** C35: A Hash as attribute value is written, but cannot be read back: load asks an empty
    std::any for a Hash reference and throws std::bad_any_cast. *)
Theorem hash_attribute_unreadable (format_float : pod -> Z -> string)
    (format_complex : cpx -> Z * Z -> string) (type_name : nat -> string)
    (key attribute : string) (v : value) (h : hash) :
  key_ok key -> last (chars key) <> Some "]"%char -> key_ok attribute ->
  serializable (VHash h) -> serializable v -> attribute_value v = true ->
  exists archive, save [mkNode key [(attribute, VHash h)] v] = Ret archive /\
    load format_float format_complex type_name [] archive = Throw BadAnyCast.
Proof.
  intros Hk Hb Hka Hh Hv Ha. set (n := mkNode key [(attribute, VHash h)] v).
  exists (enc_hash [n]). split; [by apply save_hash_attribute|].
  unfold load, stream_of. generalize (length (enc_hash [n])) as f. intros f.
  assert (exists rest, enc_hash [n] = enc_size 1 ++ enc_key key ++ enc_type (type_of v) ++
    enc_size 1 ++ enc_key attribute ++ enc_type HASH ++ rest) as [rest ->].
  { eexists. unfold enc_hash, enc_list, n. cbn [length flat_map]. unfold enc_node. cbn [nKey nAttrs nVal].
    unfold enc_list. cbn [length flat_map]. unfold enc_attr at 1. cbn [fst snd].
    rewrite <- !app_assoc. reflexivity. }
  cbn [readHash]. rewrite (readSize_reads 1) by done. cbn [mbind outcome_bind].
  change (Z.to_nat (Z.of_nat 1)) with 1%nat. cbn [read_loop]. unfold read_element at 1.
  rewrite readKey_reads by done. cbn [mbind outcome_bind].
  destruct (findSeparator_Ret key) as (sep & -> & Hsep); [by destruct Hk|].
  cbn [mbind outcome_bind]. rewrite set_single, crop_plain, Z.eqb_refl by done.
  change (container_set key (VBool true) []) with [mkNode key [] (VBool true)].
  cbn [mbind outcome_bind]. unfold node_at. cbn [fst snd hash_at afind].
  rewrite decide_True by done. unfold readNode. rewrite readType_reads. cbn [mbind outcome_bind nAttrs].
  unfold readAttributes. rewrite (readSize_reads 1) by done. cbn [mbind outcome_bind].
  change (Z.to_nat (Z.of_nat 1)) with 1%nat. cbn [read_loop]. unfold read_attribute at 1.
  rewrite readKey_reads by done. cbn [mbind outcome_bind]. rewrite readType_reads. reflexivity.
Qed.

Lemma hash_attribute_unreadable_witness :
  exists archive, save [mkNode "a" [("b"%string, VHash [])] VNone] = Ret archive /\
    load (fun _ _ => ""%string) (fun _ _ => ""%string) (fun _ => ""%string) [] archive = Throw BadAnyCast.
Proof.
  apply (hash_attribute_unreadable _ _ _ "a" "b" VNone []);
    [serializable|discriminate|serializable|serializable|serializable|reflexivity].
Defined.

(** C32: A vector of Hashes survives the round trip through the serialiser's vector
    functions, which keep it under a key of their own in one Hash; the empty vector too. *)
Theorem save_load_vector (format_float : pod -> Z -> string) (format_complex : cpx -> Z * Z -> string)
    (type_name : nat -> string) (objects : list hash) :
  serializable (VVecHash objects) -> loadable format_float format_complex type_name (VVecHash objects) ->
  exists archive, save_vector objects = Ret archive /\
    load_vector format_float format_complex type_name archive =
      Ret (objects, u64 (Z.of_nat (length archive))).
Proof.
  intros Hs Hl. set (h := [mkNode "KRB_Sequence" [] (VVecHash objects)]).
  assert (serializable (VHash h)) as Hsh.
  { constructor; [exact I| |].
    - intros h' [<-|[]]. split_and!; [done|apply NoDup_singleton|].
      intros n [<-|[]]. split_and!; [split; [done|by apply (bool_decide_unpack _)]|done|done|apply NoDup_nil_2|].
      by intros a [].
    - intros c [<-|[]]. exact Hs. }
  assert (loadable format_float format_complex type_name (VHash h)) as Hlh.
  { constructor; [exact I|]. intros c [<-|[]]. exact Hl. }
  exists (enc_hash h). split.
  - change (save_vector objects) with (save h). by apply writeHash_enc.
  - unfold load_vector, load, stream_of. rewrite <- (app_nil_r (enc_hash h)) at 2.
    rewrite (readHash_reads _ _ _ _ h Hsh Hlh); [reflexivity|].
    pose proof (depth_enc (VHash h) Hsh). change (enc_body (VHash h)) with (enc_hash h) in *. lia.
Qed.

Lemma save_load_vector_witness :
  exists archive, save_vector [example_hash; []] = Ret archive /\
    load_vector (fun _ _ => ""%string) (fun _ _ => ""%string) (fun _ => ""%string) archive =
      Ret ([example_hash; []], u64 (Z.of_nat (length archive))).
Proof.
  apply (save_load_vector _ _ _ [example_hash; []]); [serializable|loadable].
Defined.
