(* ===== verification/BufferSet.v ===== *)
(** The set of buffers of data/io/BufferSet.hh, BufferSet.cc, into which Hashes are
    serialised for the network: byte arrays are kept in buffers of their own, so that they
    need not be copied.

    A shared pointer to memory is represented by the memory it points to.  Memory is shared
    between BufferSets only by emplaceBack and appendTo without copying, after which nobody
    writes to it. *)

From Stdlib Require Import ZArith Lia Ascii String.
From stdpp Require Import base numbers list strings gmap.
From S2P Require Import Prelude.

Open Scope Z_scope.

(** enum BufferContents *)
Inductive BufferContents : Type := COPY | NO_COPY_BYTEARRAY_CONTENTS.

#[export] Instance BufferContents_eq_dec : EqDecision BufferContents.
Proof. solve_decision. Defined.

(** struct Buffer.  [b_ptr] is the memory behind the member ptr (for a new buffer it points
    to the start of the empty vector), [b_vec] the vector behind vec. *)
Record Buffer := mkBuffer {
  b_ptr : bytes;
  b_vec : bytes;
  b_size : Z;
  b_type : BufferContents
}.

#[export] Instance Buffer_eq_dec : EqDecision Buffer.
Proof. solve_decision. Defined.

Definition empty_buffer : Buffer := mkBuffer [] [] 0 COPY.

Record BufferSet := mkBufferSet {
  m_buffers : list Buffer;
  m_currentBuffer : nat;
  m_copyAllData : bool
}.

Definition new_BufferSet (copyAllData : bool) : BufferSet := mkBufferSet [empty_buffer] 0 copyAllData.

Definition with_buffers (l : list Buffer) (bs : BufferSet) : BufferSet :=
  mkBufferSet l (m_currentBuffer bs) (m_copyAllData bs).

(** Applies [f] to the last buffer. *)
Definition alter_back (f : Buffer -> Buffer) (l : list Buffer) : list Buffer :=
  match last l with
  | Some b => removelast l ++ [f b]
  | None => l
  end.

(** updateSize *)
Definition update_buffer (b : Buffer) : Buffer :=
  match b_type b with
  | COPY => mkBuffer (b_ptr b) (b_vec b) (Z.of_nat (length (b_vec b))) COPY
  | NO_COPY_BYTEARRAY_CONTENTS => b
  end.
Definition updateSize (bs : BufferSet) : BufferSet :=
  with_buffers (alter_back update_buffer (m_buffers bs)) bs.

(** m_buffers.push_back(b); m_currentBuffer++; *)
Definition push (b : Buffer) (bs : BufferSet) : BufferSet :=
  mkBufferSet (m_buffers bs ++ [b]) (S (m_currentBuffer bs)) (m_copyAllData bs).

(** [*m_buffers.back().vec]: reading it, and changing it *)
Definition back_vec (bs : BufferSet) : outcome bytes :=
  match last (m_buffers bs) with Some b => Ret (b_vec b) | None => Undef end.
Definition set_vec (v : bytes) (b : Buffer) : Buffer := mkBuffer (b_ptr b) v (b_size b) (b_type b).
Definition on_back (f : bytes -> outcome bytes) (bs : BufferSet) : outcome BufferSet :=
  match last (m_buffers bs) with
  | Some b => v ← f (b_vec b); Ret (with_buffers (alter_back (set_vec v) (m_buffers bs)) bs)
  | None => Undef
  end.

(** current(): reading it, and changing it *)
Definition current (bs : BufferSet) : outcome bytes :=
  match m_buffers bs !! m_currentBuffer bs with Some b => Ret (b_vec b) | None => Undef end.
Definition on_current (f : bytes -> outcome bytes) (bs : BufferSet) : outcome BufferSet :=
  match m_buffers bs !! m_currentBuffer bs with
  | Some b =>
      v ← f (b_vec b); Ret (with_buffers (<[m_currentBuffer bs := set_vec v b]> (m_buffers bs)) bs)
  | None => Undef
  end.

(** add() *)
Definition add (bs : BufferSet) : BufferSet :=
  let bs := updateSize bs in
  match last (m_buffers bs) with
  | Some b =>
      if negb (b_size b =? 0) || bool_decide (b_type b = NO_COPY_BYTEARRAY_CONTENTS)
      then push empty_buffer bs else bs
  | None => push empty_buffer bs
  end.

(** add(size, type); [memory] is what [new char[size]] finds there.  The exception of an
    unknown type cannot occur for an enumerator. *)
Definition add_sized (size : nat) (type : BufferContents) (memory : bytes) (bs : BufferSet) : BufferSet :=
  let bs := updateSize bs in
  let b := match type with
           | COPY => mkBuffer [] (replicate size NUL) (Z.of_nat size) COPY
           | NO_COPY_BYTEARRAY_CONTENTS => mkBuffer memory [] (Z.of_nat size) NO_COPY_BYTEARRAY_CONTENTS
           end in
  match last (m_buffers bs) with
  | Some b' =>
      if negb (b_size b' =? 0) then push b bs
      else with_buffers (alter_back (fun _ => b) (m_buffers bs)) bs
  | None => push b bs
  end.

(** rewind(), next() and clear() *)
Definition rewind (bs : BufferSet) : BufferSet := mkBufferSet (m_buffers bs) 0 (m_copyAllData bs).
Definition next (bs : BufferSet) : BufferSet * bool :=
  if (m_currentBuffer bs + 1 <? length (m_buffers bs))%nat
  then (mkBufferSet (m_buffers bs) (S (m_currentBuffer bs)) (m_copyAllData bs), true)
  else (bs, false).
Definition clear (bs : BufferSet) : BufferSet := mkBufferSet [empty_buffer] 0 (m_copyAllData bs).

(** emplaceBack(ByteArray, writeSize): copied or not, the buffer has the array's content. *)
Definition emplaceBack_ByteArray (array : bytes) (writeSize : bool) (bs : BufferSet) : outcome BufferSet :=
  bs ← (if writeSize
        then on_current (fun v => Ret (v ++ le_bytes 4 (u32 (Z.of_nat (length array))))) bs
        else Ret bs);
  let bs := updateSize bs in
  Ret (add (push (mkBuffer array [] (Z.of_nat (length array)) NO_COPY_BYTEARRAY_CONTENTS) bs)).

(** emplaceBack(shared_ptr<BufferType>) *)
Definition emplaceBack_vec (ptr : bytes) (bs : BufferSet) : outcome BufferSet :=
  match last (m_buffers bs) with
  | None => Undef
  | Some b =>
      if m_copyAllData bs then
        let bs := if negb (b_size b =? 0) then add bs else bs in
        bs ← on_current (fun v => Ret (v ++ ptr)) bs;
        Ret (updateSize bs)
      else
        let n := mkBuffer [] ptr (Z.of_nat (length ptr)) COPY in
        if b_size b =? 0 then Ret (with_buffers (alter_back (fun _ => n) (m_buffers bs)) bs)
        else Ret (push n bs)
  end.

(** appendTo(other, copy): one buffer; [it->size] characters from its start. *)
Definition append_buffer (copy : bool) (b : Buffer) (other : BufferSet) : outcome BufferSet :=
  if b_size b =? 0 then
    match b_vec b with [] => Ret other | _ => Throw LogicException end
  else
    match b_type b with
    | NO_COPY_BYTEARRAY_CONTENTS =>
        emplaceBack_ByteArray (take (Z.to_nat (b_size b)) (b_ptr b)) false other
    | COPY =>
        if copy then
          v ← current other;
          let other := match v with [] => other | _ => add other end in
          if Z.of_nat (length (b_vec b)) <? b_size b then Undef
          else on_current (fun v => Ret (v ++ take (Z.to_nat (b_size b)) (b_vec b))) other
        else emplaceBack_vec (b_vec b) other
    end.
Definition appendTo (copy : bool) (this other : BufferSet) : outcome BufferSet :=
  foldM (append_buffer copy) (m_buffers this) other.

(** currentAsByteArray, currentIsByteArrayCopy *)
Definition currentAsByteArray (bs : BufferSet) : outcome bytes :=
  match m_buffers bs !! m_currentBuffer bs with
  | Some b => Ret (take (Z.to_nat (b_size b)) (b_ptr b))
  | None => Undef
  end.
Definition currentIsByteArrayCopy (bs : BufferSet) : outcome bool :=
  match m_buffers bs !! m_currentBuffer bs with
  | Some b => Ret (bool_decide (b_type b = COPY))
  | None => Undef
  end.

(** totalSize, sizes, types, containsNonCopies *)
Definition totalSize (bs : BufferSet) : Z := foldl (fun total b => u64 (total + b_size b)) 0 (m_buffers bs).
Definition sizes (bs : BufferSet) : list Z := map (fun b => u32 (b_size b)) (m_buffers bs).
Definition types (bs : BufferSet) : list BufferContents := map b_type (m_buffers bs).
Definition containsNonCopies (bs : BufferSet) : bool :=
  existsb (fun b => negb (bool_decide (b_type b = COPY))) (m_buffers bs).

(** appendTo(boost_buffers): the buffers that a socket sends, one after the other. *)
Fixpoint buffer_sequence (l : list Buffer) : outcome (list bytes) :=
  match l with
  | [] => Ret []
  | b :: l' =>
      if b_size b =? 0 then
        match b_vec b with [] => buffer_sequence l' | _ => Throw LogicException end
      else
        r ← buffer_sequence l';
        Ret (match b_type b with
             | NO_COPY_BYTEARRAY_CONTENTS => take (Z.to_nat (b_size b)) (b_ptr b)
             | COPY => take (Z.to_nat (b_size b)) (b_vec b)
             end :: r)
  end.
Definition asio_buffers (bs : BufferSet) : outcome (list bytes) := buffer_sequence (m_buffers bs).

(** ** What the buffers hold *)

(** The characters of a buffer. *)
Definition content (b : Buffer) : bytes :=
  match b_type b with COPY => b_vec b | NO_COPY_BYTEARRAY_CONTENTS => b_ptr b end.
Definition contents (bs : BufferSet) : bytes := flat_map content (m_buffers bs).

(** A buffer whose size is that of what it holds. *)
Definition consistent (b : Buffer) : Prop :=
  b_size b = Z.of_nat (length (content b)) /\ (b_type b = NO_COPY_BYTEARRAY_CONTENTS -> b_vec b = []).

(** All sizes are right. *)
Definition settled (bs : BufferSet) : Prop := Forall consistent (m_buffers bs).

(** ** Lemmas *)

Lemma alter_back_snoc (f : Buffer -> Buffer) (l : list Buffer) (b : Buffer) :
  alter_back f (l ++ [b]) = l ++ [f b].
Proof. unfold alter_back. by rewrite last_snoc, removelast_last. Qed.

Lemma last_lookup_snoc (l : list Buffer) (b : Buffer) : (l ++ [b]) !! length l = Some b.
Proof. by rewrite lookup_app_r, Nat.sub_diag by lia. Qed.

Lemma insert_snoc (l : list Buffer) (b b' : Buffer) : <[length l := b']> (l ++ [b]) = l ++ [b'].
Proof. by rewrite insert_app_r_alt, Nat.sub_diag by lia. Qed.

Lemma update_consistent (b : Buffer) : b_type b = COPY -> consistent (update_buffer b).
Proof. unfold update_buffer, consistent, content. intros ->. by cbn. Qed.

Lemma content_update (b : Buffer) : content (update_buffer b) = content b.
Proof. unfold update_buffer, content. by destruct (b_type b) eqn:E; cbn; rewrite ?E. Qed.

Lemma contents_snoc (l : list Buffer) (b : Buffer) (n : nat) (c : bool) :
  contents (mkBufferSet (l ++ [b]) n c) = flat_map content l ++ content b.
Proof. unfold contents. cbn. rewrite flat_map_app. cbn. by rewrite app_nil_r. Qed.

(** A BufferSet that is being written to: all buffers but the last one are complete, the
    last one is current and of type COPY, its size may be out of date. *)
Definition state (l : list Buffer) (v : bytes) (bs : BufferSet) : Prop :=
  exists p s, m_buffers bs = l ++ [mkBuffer p v s COPY] /\ m_currentBuffer bs = length l /\
    Forall consistent l /\ (v = [] -> s = 0).

Lemma state_contents l v bs : state l v bs -> contents bs = flat_map content l ++ v.
Proof. intros (p & s & E & _). unfold contents. rewrite E, flat_map_app. cbn. by rewrite app_nil_r. Qed.

Lemma state_on_back l v bs f v' :
  state l v bs -> f v = Ret v' -> (v' = [] -> v = []) ->
  exists bs', on_back f bs = Ret bs' /\ state l v' bs' /\ m_copyAllData bs' = m_copyAllData bs.
Proof.
  intros (p & s & E & Ec & Hl & Hs) Ef Hv. unfold on_back. rewrite E, last_snoc. cbn [b_vec]. rewrite Ef.
  eexists. split; [done|]. split; [|done]. rewrite alter_back_snoc. exists p, s. split_and!; auto.
Qed.

Lemma state_on_current l v bs f v' :
  state l v bs -> f v = Ret v' -> (v' = [] -> v = []) ->
  exists bs', on_current f bs = Ret bs' /\ state l v' bs' /\ m_copyAllData bs' = m_copyAllData bs.
Proof.
  intros (p & s & E & Ec & Hl & Hs) Ef Hv. unfold on_current. rewrite E, Ec, last_lookup_snoc. cbn [b_vec].
  rewrite Ef. eexists. split; [done|]. split; [|done]. cbn [mbind outcome_bind].
  rewrite insert_snoc. exists p, s. split_and!; auto.
Qed.

Lemma state_updateSize l v bs : state l v bs -> state l v (updateSize bs) /\ settled (updateSize bs).
Proof.
  intros (p & s & E & Ec & Hl & Hs). unfold updateSize, with_buffers, settled. rewrite E, alter_back_snoc. split.
  - exists p, (Z.of_nat (length v)). split_and!; try done. by intros ->.
  - apply Forall_app. split; [done|]. apply Forall_singleton. by apply update_consistent.
Qed.

Lemma state_settled l v bs : state l v bs -> settled bs ->
  exists p, m_buffers bs = l ++ [mkBuffer p v (Z.of_nat (length v)) COPY] /\ m_currentBuffer bs = length l.
Proof.
  intros (p & s & E & Ec & Hl & Hs) Hset. unfold settled in Hset. rewrite E in Hset.
  apply Forall_app in Hset as [_ [Hc _]%Forall_singleton]. cbn in Hc. subst s. eauto.
Qed.

(** add(): a new buffer, unless the last one is empty. *)
Lemma state_add l v bs : state l v bs ->
  exists l', state l' [] (add bs) /\ flat_map content l' = flat_map content l ++ v /\
    m_copyAllData (add bs) = m_copyAllData bs.
Proof.
  intros H. destruct (state_updateSize l v bs H) as [Hu Hset].
  destruct (state_settled l v _ Hu Hset) as (p & E & Ec). destruct Hu as (? & ? & _ & _ & Hl & _).
  unfold add. change (m_copyAllData bs) with (m_copyAllData (updateSize bs)).
  destruct (updateSize bs) as [mb cur cp]. cbn [m_buffers m_currentBuffer] in *. subst mb cur.
  rewrite last_snoc. cbn [b_size b_type]. rewrite orb_false_r.
  destruct (Z.eqb_spec (Z.of_nat (length v)) 0) as [Hz|Hz]; cbn [negb].
  - destruct v; [|done]. exists l. split; [|by rewrite app_nil_r]. exists p, 0. split_and!; done.
  - exists (l ++ [mkBuffer p v (Z.of_nat (length v)) COPY]). split; [|split; [|done]].
    + exists [], 0. unfold push. cbn [m_buffers m_currentBuffer]. rewrite length_app. cbn [length].
      split_and!; [done|lia|exact Hset|done].
    + rewrite flat_map_app. cbn. by rewrite app_nil_r.
Qed.

(** emplaceBack of a byte array: its size behind what is there, then the array in a buffer
    of its own, then an empty buffer to go on with. *)
Lemma state_emplaceBack l v bs (a : bytes) (writeSize : bool) :
  state l v bs -> let size := if writeSize then le_bytes 4 (u32 (Z.of_nat (length a))) else [] in
  exists bs' p q, emplaceBack_ByteArray a writeSize bs = Ret bs' /\ settled bs' /\
    m_copyAllData bs' = m_copyAllData bs /\
    state (l ++ [mkBuffer p (v ++ size) q COPY; mkBuffer a [] (Z.of_nat (length a)) NO_COPY_BYTEARRAY_CONTENTS])
      [] bs'.
Proof.
  intros H size. unfold emplaceBack_ByteArray.
  assert (exists bs1, (if writeSize then on_current (fun v => Ret (v ++ le_bytes 4 (u32 (Z.of_nat (length a))))) bs
      else Ret bs) = Ret bs1 /\ state l (v ++ size) bs1 /\ m_copyAllData bs1 = m_copyAllData bs)
    as (bs1 & -> & H1 & Ecopy).
  { unfold size. destruct writeSize; [|exists bs; by rewrite app_nil_r]. eapply state_on_current; [done..|].
    by destruct v. }
  cbn [mbind outcome_bind]. destruct (state_updateSize _ _ _ H1) as [Hu Hset].
  destruct (state_settled _ _ _ Hu Hset) as (p & E & Ec). destruct Hu as (? & ? & _ & _ & Hl & _).
  change (m_copyAllData bs1) with (m_copyAllData (updateSize bs1)) in Ecopy.
  destruct (updateSize bs1) as [mb cur cp]. cbn [m_buffers m_currentBuffer m_copyAllData] in *. subst mb cur cp.
  set (c := mkBuffer p (v ++ size) (Z.of_nat (length (v ++ size))) COPY) in *.
  set (n := mkBuffer a [] (Z.of_nat (length a)) NO_COPY_BYTEARRAY_CONTENTS).
  apply Forall_app in Hset as [_ Hc%Forall_singleton].
  exists (mkBufferSet (((l ++ [c]) ++ [n]) ++ [empty_buffer]) (S (S (length l))) (m_copyAllData bs)),
    p, (Z.of_nat (length (v ++ size))). fold c.
  assert (consistent n) as Hn by (by split).
  assert (Forall consistent (l ++ [c; n])) as Hall by (apply Forall_app; repeat constructor; done || by destruct Hc).
  split_and!.
  - unfold push, add, updateSize, with_buffers. cbn [m_buffers m_currentBuffer m_copyAllData].
    rewrite alter_back_snoc. change (update_buffer n) with n. rewrite last_snoc. cbn [b_size b_type n].
    by rewrite orb_true_r.
  - unfold settled. cbn [m_buffers]. apply Forall_app. rewrite <- app_assoc. split; [done|by repeat constructor].
  - done.
  - exists [], 0. cbn [m_buffers m_currentBuffer]. rewrite length_app. cbn [length].
    rewrite <- !app_assoc. split_and!; [done|lia|done|done].
Qed.

Lemma consistent_take (b : Buffer) : consistent b -> take (Z.to_nat (b_size b)) (content b) = content b.
Proof. intros [-> _]. by rewrite Nat2Z.id, take_ge. Qed.

Lemma consistent_zero (b : Buffer) : consistent b -> b_size b = 0 -> b_vec b = [] /\ content b = [].
Proof.
  intros [Hs Hv] Hz. assert (content b = []) as Hc by (apply length_zero_iff_nil; lia).
  split; [|done]. unfold content in Hc. destruct (b_type b) eqn:E; [done|by apply Hv].
Qed.

(** Something appended to [bs] gives [bs']. *)
Definition appended (c : bytes) (bs bs' : BufferSet) : Prop :=
  contents bs' = contents bs ++ c /\ exists l v, state l v bs'.

Lemma state_emplaceBack_vec l v bs (ptr : bytes) :
  state l v bs -> settled bs -> ptr <> [] ->
  exists bs', emplaceBack_vec ptr bs = Ret bs' /\ appended ptr bs bs' /\ settled bs'.
Proof.
  intros H Hset Hptr. pose proof (state_contents _ _ _ H) as Hc.
  destruct (state_settled _ _ _ H Hset) as (p & E & Ec). pose proof H as (? & ? & _ & _ & Hl & _).
  unfold emplaceBack_vec, appended. rewrite E, last_snoc. cbn [b_size]. destruct (m_copyAllData bs) eqn:Ecp.
  - assert (exists l', state l' (if negb (Z.of_nat (length v) =? 0) then [] else v)
      (if negb (Z.of_nat (length v) =? 0) then add bs else bs) /\
      flat_map content l' ++ (if negb (Z.of_nat (length v) =? 0) then [] else v) = flat_map content l ++ v)
      as (l' & Hs' & Hl').
    { destruct (negb _); [|by exists l]. destruct (state_add l v bs H) as (l' & ? & ? & _).
      exists l'. by rewrite app_nil_r. }
    destruct (state_on_current _ _ _ (fun v => Ret (v ++ ptr)) (_ ++ ptr) Hs' eq_refl) as (bs' & Eb & Hb & _).
    { intros [_ ?]%app_eq_nil. done. }
    rewrite Eb. cbn [mbind outcome_bind]. destruct (state_updateSize _ _ _ Hb) as [Hu Hus].
    eexists. split; [done|]. split; [|done]. split; [|eauto].
    rewrite (state_contents _ _ _ Hu), Hc, app_assoc, Hl'. done.
  - assert (consistent (mkBuffer [] ptr (Z.of_nat (length ptr)) COPY)) as Hn by done.
    destruct (Z.eqb_spec (Z.of_nat (length v)) 0) as [Hz|Hz].
    + destruct v; [|done]. eexists. split; [done|]. unfold with_buffers. rewrite alter_back_snoc. split; [split|].
      * rewrite contents_snoc, Hc. by rewrite app_nil_r.
      * exists l, ptr, [], (Z.of_nat (length ptr)). cbn. by split_and!.
      * unfold settled. cbn. apply Forall_app. split; [done|by repeat constructor].
    + eexists. split; [done|]. unfold push. rewrite E. split; [split|].
      * rewrite contents_snoc, Hc. cbn. rewrite flat_map_app. cbn. by rewrite app_nil_r.
      * exists (l ++ [mkBuffer p v (Z.of_nat (length v)) COPY]), ptr, [], (Z.of_nat (length ptr)).
        cbn. rewrite length_app, Ec. cbn. split_and!; [done|lia| |done].
        apply Forall_app. split; [done|by repeat constructor].
      * unfold settled. cbn. apply Forall_app. split; [|by repeat constructor].
        apply Forall_app. split; [done|by repeat constructor].
Qed.

Lemma append_buffer_spec (copy : bool) (b : Buffer) l v other :
  consistent b -> state l v other -> (copy = false -> settled other) ->
  exists other', append_buffer copy b other = Ret other' /\ appended (content b) other other' /\
    (copy = false -> settled other').
Proof.
  intros Hb H Hset. unfold append_buffer. destruct (Z.eqb_spec (b_size b) 0) as [Hz|Hz].
  { destruct (consistent_zero b Hb Hz) as [-> ->]. exists other. split; [done|].
    split; [split; [by rewrite app_nil_r|eauto]|done]. }
  pose proof (consistent_take b Hb) as Ht. pose proof (state_contents _ _ _ H) as Hc.
  unfold appended. destruct Hb as [Hs _]. destruct (b_type b) eqn:Et.
  - assert (content b = b_vec b) as Ev by (unfold content; by rewrite Et). rewrite Ev in *.
    assert (b_vec b <> []) as Hne by (intros E; rewrite E in Hs; done).
    destruct copy.
    + assert (current other = Ret v) as ->.
      { destruct H as (p & s & E & Ec & _). unfold current. by rewrite E, Ec, last_lookup_snoc. }
      cbn [mbind outcome_bind]. rewrite Ht. destruct (Z.ltb_spec (Z.of_nat (length (b_vec b))) (b_size b)); [lia|].
      assert (exists l' v', state l' v' (match v with [] => other | _ => add other end) /\
        flat_map content l' ++ v' = flat_map content l ++ v) as (l' & v' & H' & E').
      { destruct v as [|c v]; [by exists l, []|]. destruct (state_add _ _ _ H) as (l' & ? & ? & _).
        exists l', []. by rewrite app_nil_r. }
      destruct (state_on_current _ _ _ (fun v => Ret (v ++ b_vec b)) (v' ++ b_vec b) H' eq_refl)
        as (bs' & Eb & Hb' & _); [by intros [_ ?]%app_eq_nil|].
      exists bs'. split; [exact Eb|]. split; [|done]. split; [|eauto].
      by rewrite (state_contents _ _ _ Hb'), Hc, app_assoc, E'.
    + destruct (state_emplaceBack_vec l v other (b_vec b) H (Hset eq_refl) Hne) as (bs' & ? & ? & ?). eauto.
  - assert (content b = b_ptr b) as Ev by (unfold content; by rewrite Et). rewrite Ev in *. rewrite Ht.
    destruct (state_emplaceBack l v other (b_ptr b) false H) as (bs' & p & q & E & Hs' & _ & H').
    exists bs'. split; [done|]. split; [|done]. split; [|eauto].
    rewrite (state_contents _ _ _ H'), Hc, flat_map_app. cbn. by rewrite !app_nil_r, <- app_assoc.
Qed.

Lemma append_buffers_spec (copy : bool) (bl : list Buffer) (other : BufferSet) (l : list Buffer) (v : bytes) :
  Forall consistent bl -> state l v other -> (copy = false -> settled other) ->
  exists other', foldM (append_buffer copy) bl other = Ret other' /\
    contents other' = contents other ++ flat_map content bl /\
    (exists l' v', state l' v' other') /\ (copy = false -> settled other').
Proof.
  intros Hall. revert l v other. induction Hall as [|b bl Hb Hbl IH]; intros l v other H Hset.
  - exists other. rewrite app_nil_r. split_and!; eauto.
  - destruct (append_buffer_spec copy b l v other Hb H Hset) as (o1 & E1 & (C1 & l1 & v1 & H1) & S1).
    destruct (IH l1 v1 o1 H1 S1) as (o2 & E2 & C2 & H2). exists o2. cbn. rewrite E1.
    split; [exact E2|]. split; [|exact H2]. by rewrite C2, C1, <- app_assoc.
Qed.

(** C27: appendTo puts all that a set of buffers holds behind what the other one holds, with
    and without copying and whatever the other's copyAllData flag: empty buffers are skipped,
    byte arrays stay buffers of their own, nothing is lost or reordered.  (Without copying the
    other's sizes must be up to date; with copying they may be out of date, also afterwards.) *)
Theorem appendTo_contents (copy : bool) (this other : BufferSet) (l : list Buffer) (v : bytes) :
  settled this -> state l v other -> (copy = false -> settled other) ->
  exists other', appendTo copy this other = Ret other' /\
    contents other' = contents other ++ contents this /\
    (exists l' v', state l' v' other') /\ (copy = false -> settled other').
Proof. exact (append_buffers_spec copy (m_buffers this) other l v). Qed.

Lemma appendTo_contents_witness :
  let array := mkBuffer ["x"%char] [] 1 NO_COPY_BYTEARRAY_CONTENTS in
  let this := mkBufferSet [mkBuffer [] ["a"%char] 1 COPY; array; empty_buffer] 0 false in
  exists other', appendTo true this (new_BufferSet false) = Ret other' /\
    contents other' = ["a"%char; "x"%char].
Proof.
  intros array this.
  destruct (appendTo_contents true this (new_BufferSet false) [] []) as (o & E & C & _).
  - repeat constructor; done.
  - exists [], 0. split_and!; [reflexivity|reflexivity|constructor|reflexivity].
  - discriminate.
  - exists o. split; [exact E|exact C].
Defined.

(** When the sizes are up to date, totalSize is the number of characters (as a
    size_t), and the buffers handed to the socket are the non-empty ones, which together are
    exactly the characters in order. *)
Lemma settled_spec (bs : BufferSet) :
  settled bs ->
  totalSize bs = u64 (Z.of_nat (length (contents bs))) /\
  exists l, asio_buffers bs = Ret l /\ concat l = contents bs /\ Forall (fun b => b <> []) l.
Proof.
  unfold settled, totalSize, asio_buffers, contents. intros Hall. split.
  - assert (forall t, 0 <= t -> foldl (fun total b => u64 (total + b_size b)) (u64 t) (m_buffers bs) =
      u64 (t + Z.of_nat (length (flat_map content (m_buffers bs))))) as G.
    { induction Hall as [|b bl [Hb _] Hbl IH]; intros t Ht; cbn; [by rewrite Z.add_0_r|].
      replace (u64 (u64 t + b_size b)) with (u64 (t + b_size b))
        by (unfold u64, wrap; by rewrite Z.add_mod_idemp_l by lia).
      rewrite IH by lia. rewrite length_app. f_equal. lia. }
    exact (G 0 ltac:(lia)).
  - induction Hall as [|b bl Hb Hbl (l & E & C & N)]; [by exists []|]. cbn.
    destruct (Z.eqb_spec (b_size b) 0) as [Hz|Hz].
    + destruct (consistent_zero b Hb Hz) as [-> ->]. eauto.
    + rewrite E. eexists. split; [done|]. pose proof (consistent_take b Hb) as Ht.
      assert (content b <> []) as Hne by (intros Ec; destruct Hb as [Hb _]; by rewrite Ec in Hb).
      unfold content in Ht, Hne |- * at 1. destruct (b_type b); rewrite Ht; cbn; rewrite C; by split; [|constructor].
Qed.
