(* ===== verification/BinaryMulti.v ===== *)
(** Serialising a Hash into a BufferSet and back (the overloads of
    data/io/HashBinarySerializer.cc and .hh that take a BufferSet): byte arrays that are
    values of nodes get buffers of their own, all the rest is as in a single archive. *)

From Stdlib Require Import ZArith Lia Ascii String.
From stdpp Require Import base numbers list strings gmap.
From S2P Require Import Prelude Types Strings OrderedMap Hash HashAccess SchemaAlias BufferSet BinaryWriter BinaryReader.
Import Types.

Open Scope Z_scope.

(** ** Writing *)

Section multi_writer.
(** writeHash into a vector and into a BufferSet *)
Context (writeHash_vec : hash -> bytes -> outcome bytes).
Context (writeHash : hash -> BufferSet -> outcome BufferSet).

(** writeSingleValue(buffers, value, type) *)
Definition writeSingleValue_multi (v : value) (type : ReferenceType) (buffers : BufferSet)
  : outcome BufferSet :=
  match type with
  | BYTE_ARRAY =>
      match v with
      | VByteArray b => emplaceBack_ByteArray b true buffers
      | _ => Throw BadAnyCast
      end
  | _ => on_back (writeSingleValue writeHash_vec v type) buffers
  end.

(** writeAny(value, type, buffers) *)
Definition writeAny_multi (v : value) (type : ReferenceType) (buffers : BufferSet)
  : outcome BufferSet :=
  match category type with
  | SCHEMA | HASH | SIMPLE => writeSingleValue_multi v type buffers
  | VECTOR_HASH | SEQUENCE => on_back (writeSequence writeHash_vec v type) buffers
  | _ => _ ← toLiteral type; Throw IOException
  end.

Definition write_pointee_multi (p : option hash) (buffers : BufferSet) : outcome BufferSet :=
  match p with Some h => writeHash h buffers | None => Undef end.

(** writeNodeMultiBuffer *)
Definition writeNodeMultiBuffer (element : node) (buffers : BufferSet) : outcome BufferSet :=
  buffers ← on_back (writeKey (nKey element)) buffers;
  let start (type : ReferenceType) :=
    buffers ← on_back (fun b => Ret (writeType type b)) buffers;
    on_back (writeAttributes writeHash_vec (nAttrs element)) buffers in
  let size (n : nat) := on_back (fun b => Ret (writeSize (Z.of_nat n) b)) in
  match nVal element with
  | VHash h => buffers ← start HASH; writeHash h buffers
  | VHashPtr p => buffers ← start HASH_POINTER; write_pointee_multi p buffers
  | VVecHash tmp =>
      buffers ← start VECTOR_HASH; buffers ← size (length tmp) buffers; foldM writeHash tmp buffers
  | VVecHashPtr tmp =>
      buffers ← start VECTOR_HASH_POINTER;
      buffers ← size (length tmp) buffers; foldM write_pointee_multi tmp buffers
  | v => buffers ← start (getType element); writeAny_multi v (getType element) buffers
  end.
End multi_writer.

(** writeHash(hash, buffers), for a nesting of Hashes not deeper than [fuel]. *)
Fixpoint writeHash_multi (fuel : nat) (h : hash) (buffers : BufferSet) : outcome BufferSet :=
  match fuel with
  | O => OutOfFuel
  | S f =>
      buffers ← on_back (fun b => Ret (writeSize (Z.of_nat (length h)) b)) buffers;
      foldM (writeNodeMultiBuffer (writeHash f) (writeHash_multi f)) h buffers
  end.

(** save(object, buffers) *)
Definition save_multi (object : hash) (buffers : BufferSet) : outcome BufferSet :=
  buffers ← writeHash_multi (depth (VHash object)) object (clear buffers);
  Ret (rewind (updateSize buffers)).

(** ** Reading *)

(** The stream, and the BufferSet whose current buffer it reads. *)
Record mstream := mkMStream { ms_st : istream; ms_bs : BufferSet }.
Abbreviation mreader A := (mstream -> outcome (A * mstream)).

Definition on_stream {A} (f : reader A) (ms : mstream) : outcome (A * mstream) :=
  '(a, st) ← f (ms_st ms); Ret (a, mkMStream st (ms_bs ms)).

(** pubsetbuf of the current buffer and pubseekpos(0), which do not clear a failure. *)
Definition open_current (st : istream) (bs : BufferSet) : outcome mstream :=
  cb ← current bs; Ret (mkMStream (mkStream cb 0 (s_fail st)) bs).

(** nextBufIfEos: for an empty buffer [size() - 1] is the largest size_t. *)
Definition nextBufIfEos (ms : mstream) : outcome mstream :=
  let '(mkMStream st bs) := ms in
  cb ← current bs;
  let end_ := if (length cb =? 0)%nat then 2 ^ 64 - 1 else Z.of_nat (length cb) - 1 in
  if s_fail st || (end_ <=? Z.of_nat (s_pos st)) then
    let '(bs, more) := next bs in
    if more : bool then open_current st bs else Ret (mkMStream st bs)
  else Ret ms.

Fixpoint mread_list {A} (n : nat) (f : mreader A) (ms : mstream) : outcome (list A * mstream) :=
  match n with
  | O => Ret ([], ms)
  | S n' => '(x, ms) ← f ms; '(l, ms) ← mread_list n' f ms; Ret (x :: l, ms)
  end.

Fixpoint mread_loop {A} (n : nat) (f : A -> mreader A) (x : A) (ms : mstream) : outcome (A * mstream) :=
  match n with
  | O => Ret (x, ms)
  | S n' => '(x, ms) ← f x ms; mread_loop n' f x ms
  end.

Section multi_reader.
Context (format_float : pod -> Z -> string).
Context (format_complex : cpx -> Z * Z -> string).
Context (type_name : nat -> string).
(** readHash from a stream, and from a stream on a BufferSet *)
Context (readHash_st : hash -> reader hash).
Context (readHash : hash -> mreader hash).

(** readByteArrayAsCopy: the memory is not initialised. *)
Definition readByteArrayAsCopy (size : Z) (st : istream) : outcome (bytes * istream) :=
  let '(got, st) := read size st in
  if Z.of_nat (length got) =? size then Ret (got, st) else Undef.

(** readSingleValue(is, value, type, buffers) *)
Definition readSingleValue_multi (type : ReferenceType) (ms : mstream) : outcome (value * mstream) :=
  match type with
  | BYTE_ARRAY =>
      '(size, ms) ← on_stream readSize ms;
      ms ← nextBufIfEos ms;
      copy ← currentIsByteArrayCopy (ms_bs ms);
      if negb copy then
        v ← currentAsByteArray (ms_bs ms);
        ms ← open_current (ms_st ms) (next (ms_bs ms)).1;
        Ret (VByteArray v, ms)
      else '(b, ms) ← on_stream (readByteArrayAsCopy size) ms; Ret (VByteArray b, ms)
  | _ => on_stream (readSingleValue format_float format_complex type_name readHash_st type) ms
  end.

(** readAny(value, type, is, buffers) *)
Definition readAny_multi (type : option ReferenceType) (ms : mstream) : outcome (value * mstream) :=
  match type with
  | None => Throw NotImplementedException
  | Some type =>
      match category type with
      | SCHEMA | SIMPLE => readSingleValue_multi type ms
      | SEQUENCE => on_stream (readSequence readHash_st type) ms
      | HASH => Throw BadAnyCast
      | VECTOR_HASH =>
          '(size, ms) ← on_stream readSize ms;
          '(l, ms) ← mread_list (Z.to_nat size) (readHash []) ms;
          Ret (VVecHash l, ms)
      | _ => _ ← toLiteral type; Throw IOException
      end
  end.

(** readNode(node, is, buffers) *)
Definition readNode_multi (n : node) (ms : mstream) : outcome (node * mstream) :=
  '(type, ms) ← on_stream readType ms;
  '(a, ms) ← on_stream (readAttributes format_float format_complex type_name readHash_st (nAttrs n)) ms;
  '(v, ms) ←
    match type with
    | Some HASH => '(h, ms) ← readHash [] ms; Ret (VHash h, ms)
    | Some HASH_POINTER => '(h, ms) ← readHash [] ms; Ret (VHashPtr (Some h), ms)
    | Some VECTOR_HASH =>
        '(size, ms) ← on_stream readSize ms;
        '(l, ms) ← mread_list (Z.to_nat size) (readHash []) ms; Ret (VVecHash l, ms)
    | Some VECTOR_HASH_POINTER =>
        '(size, ms) ← on_stream readSize ms;
        '(l, ms) ← mread_list (Z.to_nat size) (readHash []) ms; Ret (VVecHashPtr (map Some l), ms)
    | _ => readAny_multi type ms
    end;
  Ret (mkNode (nKey n) a v, ms).

(** One round of the loop of readHash(hash, is, buffers). *)
Definition read_element_multi (h : hash) (ms : mstream) : outcome (hash * mstream) :=
  ms ← nextBufIfEos ms;
  '(name, ms) ← on_stream readKey ms;
  separator ← findSeparator name;
  let '(h, np) := set name (VBool true) separator h in
  np ← np;
  match node_at np h with
  | Some n => '(n, ms) ← readNode_multi n ms; Ret (node_alter np (fun _ => n) h, ms)
  | None => Undef
  end.
End multi_reader.

Section multi_load.
Context (format_float : pod -> Z -> string).
Context (format_complex : cpx -> Z * Z -> string).
Context (type_name : nat -> string).

(** readHash(hash, is, buffers), for a nesting of Hashes not deeper than [fuel]. *)
Fixpoint readHash_multi (fuel : nat) (h : hash) (ms : mstream) : outcome (hash * mstream) :=
  match fuel with
  | O => OutOfFuel
  | S f =>
      '(size, ms) ← on_stream readSize ms;
      mread_loop (Z.to_nat size)
        (read_element_multi format_float format_complex type_name
           (readHash format_float format_complex type_name f) (readHash_multi f)) h ms
  end.

(** load(object, buffers) *)
Definition load_multi (object : hash) (buffers : BufferSet) : outcome (hash * BufferSet) :=
  ms ← open_current (stream_of []) (rewind buffers);
  '(h, ms) ← readHash_multi (S (length (contents buffers))) object ms;
  Ret (h, rewind (ms_bs ms)).
End multi_load.

(** ** The format, as a trace of what is written

    Characters go to the current buffer, an array to a buffer of its own. *)

Inductive atom : Type := Chars (b : bytes) | Array (a : bytes).

Fixpoint trace_body (v : value) : list atom :=
  let trace_node (n : node) : list atom :=
    Chars (enc_key (nKey n) ++ enc_type (type_of (nVal n)) ++ enc_list enc_attr (nAttrs n))
      :: trace_body (nVal n) in
  let trace_hash (h : hash) : list atom := Chars (enc_size (length h)) :: flat_map trace_node h in
  match v with
  | VByteArray b => [Array b]
  | VHash h | VHashPtr (Some h) => trace_hash h
  | VVecHash l => Chars (enc_size (length l)) :: flat_map trace_hash l
  | VVecHashPtr l =>
      Chars (enc_size (length l)) ::
      flat_map (fun p => match p with Some h => trace_hash h | None => [] end) l
  | v => [Chars (enc_body v)]
  end.

Definition trace_node (n : node) : list atom :=
  Chars (enc_key (nKey n) ++ enc_type (type_of (nVal n)) ++ enc_list enc_attr (nAttrs n))
    :: trace_body (nVal n).
Definition trace_hash (h : hash) : list atom := Chars (enc_size (length h)) :: flat_map trace_node h.

(** The characters of a trace in one archive. *)
Definition flat_atom (x : atom) : bytes := match x with Chars b => b | Array a => enc_prefixed a end.
Definition flat (t : list atom) : bytes := flat_map flat_atom t.

Lemma flat_app (t1 t2 : list atom) : flat (t1 ++ t2) = flat t1 ++ flat t2.
Proof. apply flat_map_app. Qed.

Lemma flat_flat_map {A} (tr : A -> list atom) (enc : A -> bytes) (l : list A) :
  (forall x, In x l -> flat (tr x) = enc x) -> flat (flat_map tr l) = flat_map enc l.
Proof.
  induction l as [|x l IH]; intros H; [done|]. cbn [flat_map]. rewrite flat_app, H by (by left).
  rewrite IH; [done|]. intros; apply H; by right.
Qed.

Lemma flat_trace_hash (h : hash) :
  (forall n, In n h -> flat (trace_body (nVal n)) = enc_body (nVal n)) ->
  flat (trace_hash h) = enc_hash h.
Proof.
  intros H. change (flat (trace_hash h)) with (enc_size (length h) ++ flat (flat_map trace_node h)).
  unfold enc_hash, enc_list. f_equal. apply flat_flat_map. intros n Hn.
  change (flat (trace_node n)) with ((enc_key (nKey n) ++ enc_type (type_of (nVal n)) ++
    enc_list enc_attr (nAttrs n)) ++ flat (trace_body (nVal n))).
  rewrite H by done. unfold enc_node. by rewrite <- !app_assoc.
Qed.

Lemma flat_trace_body (v : value) : flat (trace_body v) = enc_body v.
Proof.
  revert v. refine (value_children_ind _ _). intros v IH.
  assert (forall h, In h (value_hashes v) -> flat (trace_hash h) = enc_hash h) as Hh.
  { intros h Hin. apply flat_trace_hash. intros n Hn. apply IH. eapply children_hash; [done|].
    apply in_flat_map. exists n. split; [done|by left]. }
  destruct v as [x|t z|t re im|s| |x|l|t l|t l|l|n|h|l|p|l|r h|l|n];
    try (exact (app_nil_r _)).
  - apply Hh. by left.
  - change (enc_size (length l) ++ flat (flat_map trace_hash l) = enc_list enc_hash l).
    unfold enc_list. f_equal. by apply flat_flat_map.
  - destruct p as [h|]; [apply Hh; by left|done].
  - change (enc_size (length l) ++ flat (flat_map (fun p : option hash =>
      match p with Some h => trace_hash h | None => [] end) l) =
      enc_list (fun p : option hash => match p with Some h => enc_hash h | None => [] end) l).
    unfold enc_list. f_equal. apply flat_flat_map. intros [h|] Hin; [|done].
    apply Hh. apply in_flat_map. exists (Some h). split; [done|by left].
Qed.

(** Type and content of the buffers. *)
Definition shape (l : list Buffer) : list (BufferContents * bytes) := map (fun b => (b_type b, content b)) l.

(** The buffers that a trace completes when [v] is in the current one, and the characters
    in the current buffer afterwards. *)
Fixpoint split (v : bytes) (t : list atom) : list (BufferContents * bytes) * bytes :=
  match t with
  | [] => ([], v)
  | Chars b :: t' => split (v ++ b) t'
  | Array a :: t' =>
      let '(l, e) := split [] t' in
      ((COPY, v ++ enc_size (length a)) :: (NO_COPY_BYTEARRAY_CONTENTS, a) :: l, e)
  end.

Lemma split_app (t1 t2 : list atom) :
  forall v, split v (t1 ++ t2) =
    ((split v t1).1 ++ (split (split v t1).2 t2).1, (split (split v t1).2 t2).2).
Proof.
  induction t1 as [|[b|a] t1 IH]; intros v; cbn [app split fst snd].
  - by destruct (split v t2).
  - apply IH.
  - rewrite IH. by destruct (split [] t1).
Qed.

(** [op] writes the trace [t]. *)
Definition mwrites (op : BufferSet -> outcome BufferSet) (t : list atom) : Prop :=
  forall l v bs, state l v bs ->
    exists l' bs', op bs = Ret bs' /\ shape l' = shape l ++ (split v t).1 /\ state l' (split v t).2 bs'.

Lemma mwrites_nil : mwrites Ret [].
Proof. intros l v bs H. exists l, bs. by rewrite app_nil_r. Qed.

Lemma mwrites_bind (op1 op2 : BufferSet -> outcome BufferSet) (t1 t2 : list atom) :
  mwrites op1 t1 -> mwrites op2 t2 -> mwrites (fun bs => op1 bs ≫= op2) (t1 ++ t2).
Proof.
  intros H1 H2 l v bs H. destruct (H1 l v bs H) as (l1 & b1 & -> & S1 & St1). cbn [mbind outcome_bind].
  destruct (H2 _ _ _ St1) as (l2 & b2 & -> & S2 & St2). exists l2, b2.
  rewrite split_app. cbn [fst snd]. split; [done|]. split; [|done]. by rewrite S2, S1, app_assoc.
Qed.

Lemma mwrites_on_back (f : bytes -> outcome bytes) (b : bytes) :
  (forall v, f v = Ret (v ++ b)) -> mwrites (on_back f) [Chars b].
Proof.
  intros Hf l v bs H.
  destruct (state_on_back l v bs f (v ++ b) H (Hf v)) as (bs' & E & H' & _); [by intros [? _]%app_eq_nil|].
  exists l, bs'. cbn. by rewrite app_nil_r.
Qed.

(** Two writings to the current buffer. *)
Lemma mwrites_chars (op1 op2 : BufferSet -> outcome BufferSet) (b1 b2 : bytes) (t : list atom) :
  mwrites op1 [Chars b1] -> mwrites op2 (Chars b2 :: t) ->
  mwrites (fun bs => op1 bs ≫= op2) (Chars (b1 ++ b2) :: t).
Proof.
  intros H1 H2 l v bs H. destruct (mwrites_bind _ _ _ _ H1 H2 l v bs H) as (l' & bs' & E & S & St).
  exists l', bs'. cbn [app split] in *. rewrite app_assoc. done.
Qed.

Lemma mwrites_foldM {A} (op : A -> BufferSet -> outcome BufferSet) (tr : A -> list atom) (l : list A) :
  (forall x, In x l -> mwrites (op x) (tr x)) -> mwrites (foldM op l) (flat_map tr l).
Proof.
  induction l as [|x l IH]; intros Hop; [apply mwrites_nil|]. cbn [foldM flat_map].
  apply mwrites_bind; [apply Hop; by left|]. apply IH. intros; apply Hop; by right.
Qed.

Lemma mwrites_array (a : bytes) : size_ok (length a) -> mwrites (emplaceBack_ByteArray a true) [Array a].
Proof.
  intros Hs l v bs H. destruct (state_emplaceBack l v bs a true H) as (bs' & p & q & E & _ & _ & H').
  eexists _, bs'. split; [done|]. split; [|exact H'].
  unfold shape. rewrite map_app. cbn. do 2 f_equal. unfold content. cbn. unfold enc_size, u32.
  rewrite wrap_small by (unfold size_ok in Hs; lia). done.
Qed.

Section multi_writer_trace.
Context (wv : hash -> bytes -> outcome bytes) (wh : hash -> BufferSet -> outcome BufferSet).

(** [wv] and [wh] write the Hashes in [v]. *)
Definition mwrites_hashes (v : value) : Prop :=
  forall h, In h (value_hashes v) -> mwrites (wh h) (trace_hash h).

Lemma mwrites_size (n : nat) :
  size_ok n -> mwrites (on_back (fun b => Ret (writeSize (Z.of_nat n) b))) [Chars (enc_size n)].
Proof. intros Hn. apply mwrites_on_back. intros v. by rewrite writeSize_enc. Qed.

(** A value that is written as one: not a Hash, a vector of Hashes or a pointer. *)
Definition whole (v : value) : bool :=
  match v with VHash _ | VVecHash _ | VHashPtr _ | VVecHashPtr _ => false | _ => true end.

Lemma mwrites_whole (v : value) :
  serializable v -> writes wv v -> whole v = true ->
  mwrites (writeAny_multi wv v (type_of v)) (trace_body v).
Proof.
  intros Hs Hw Hh.
  assert (forall b, writeAny wv v (type_of v) b = Ret (b ++ enc_body v)) as Hany.
  { intros b. apply writeAny_enc; [exact Hs|exact Hw| |]; by intros ? ->. }
  pose proof Hs as [Hl _ _].
  destruct v as [x|t z|t re im|s| |x|l|t l|t l|l|n|h|l|p|l|r h|l|n]; try discriminate Hh; try done;
    try exact (mwrites_on_back _ _ Hany); try (destruct t; exact (mwrites_on_back _ _ Hany)).
  exact (mwrites_array x Hl).
Qed.

Lemma mwrites_writeNode (n : node) :
  key_ok (nKey n) -> size_ok (length (nAttrs n)) ->
  (forall x, In x (nAttrs n) ->
     key_ok x.1 /\ no_pointer x.2 = true /\ serializable x.2 /\ writes wv x.2) ->
  serializable (nVal n) -> writes wv (nVal n) -> mwrites_hashes (nVal n) ->
  mwrites (writeNodeMultiBuffer wv wh n) (trace_node n).
Proof.
  intros Hk Hsz Ha Hs Hw Hm. unfold writeNodeMultiBuffer, trace_node.
  apply mwrites_chars; [apply mwrites_on_back; intros; by apply writeKey_enc|].
  assert (forall t (op : BufferSet -> outcome BufferSet) tr, mwrites op tr ->
    mwrites (fun bs => (buffers ← on_back (fun b => Ret (writeType t b)) bs;
                        on_back (writeAttributes wv (nAttrs n)) buffers) ≫= op)
      (Chars (enc_type t ++ enc_list enc_attr (nAttrs n)) :: tr)) as Hstart.
  { intros t op tr Hop. apply (mwrites_bind _ _ [_]); [|exact Hop]. apply mwrites_chars.
    - apply mwrites_on_back. intros. by rewrite writeType_enc.
    - apply mwrites_on_back. intros. by apply writeAttributes_enc. }
  destruct (nVal n) as [x|t z|t re im|s| |x|l|t l|t l|l|k|h|l|p|l|r h|l|k] eqn:Ev;
    try (unfold getType; rewrite Ev; apply (Hstart (type_of _)); by apply mwrites_whole).
  - apply (Hstart HASH). apply Hm. by left.
  - apply (Hstart VECTOR_HASH). destruct Hs as [Hl _ _].
    apply (mwrites_bind _ _ [Chars (enc_size (length l))]); [by apply mwrites_size|].
    by apply (mwrites_foldM wh trace_hash).
  - destruct Hs as [Hp _ _]. destruct p as [h|]; [|by destruct Hp].
    apply (Hstart HASH_POINTER). apply Hm. by left.
  - apply (Hstart VECTOR_HASH_POINTER). destruct Hs as [[Hl Hall] _ _].
    apply (mwrites_bind _ _ [Chars (enc_size (length l))]); [by apply mwrites_size|].
    apply (mwrites_foldM _ (fun p => match p with Some h => trace_hash h | None => [] end)).
    intros p Hp. rewrite List.Forall_forall in Hall. destruct p as [h|]; [|by destruct (Hall None Hp)].
    apply Hm. apply in_flat_map. exists (Some h). split; [done|by left].
Qed.
End multi_writer_trace.

Lemma mwrites_writeHash (fuel : nat) :
  forall h, serializable (VHash h) -> (depth (VHash h) <= fuel)%nat ->
  mwrites (writeHash_multi fuel h) (trace_hash h).
Proof.
  induction fuel as [|f IH]; intros h Hs Hd; [cbn in Hd; lia|].
  destruct (serializable_hash h Hs) as [(Hl & _ & Hn) Hsn]. cbn [writeHash_multi].
  apply (mwrites_bind _ _ [Chars (enc_size (length h))]); [by apply mwrites_size|].
  apply mwrites_foldM. intros n Hin.
  destruct (Hn n Hin) as (Hk & _ & Hal & _ & Ha). destruct (Hsn n Hin) as [Hsv Hsa].
  assert (forall v h', In v (node_values n) -> In h' (value_hashes v) -> (depth (VHash h') <= f)%nat) as Hdf.
  { intros v h' Hv Hh'. pose proof (depth_inner v h' Hh'). pose proof (depth_node h n v Hin Hv). lia. }
  assert (forall v, In v (node_values n) -> serializable v -> writes (writeHash f) v) as Hwr.
  { intros v Hv Hsv' h' b Hh'. apply writeHash_enc; [by eapply serializable_inner|by eapply Hdf]. }
  apply mwrites_writeNode; [exact Hk|exact Hal| |exact Hsv|apply Hwr; [by left|exact Hsv]|].
  - intros x Hx. destruct (Ha x Hx) as [Hxk Hxv].
    split_and!; [exact Hxk|by apply attribute_no_pointer|by apply Hsa|].
    apply Hwr; [right; apply in_map, Hx|by apply Hsa].
  - intros h' Hh'. apply IH; [by eapply serializable_inner|]. apply (Hdf (nVal n)); [by left|exact Hh'].
Qed.

(** The buffers that save makes. *)
Lemma save_multi_shape (h : hash) (buffers : BufferSet) :
  serializable (VHash h) ->
  exists bs, save_multi h buffers = Ret bs /\ settled bs /\ m_currentBuffer bs = O /\
    shape (m_buffers bs) = (split [] (trace_hash h)).1 ++ [(COPY, (split [] (trace_hash h)).2)].
Proof.
  intros Hs. unfold save_multi.
  destruct (mwrites_writeHash _ h Hs (le_n _) [] [] (clear buffers)) as (l & bs & E & S & St).
  { exists [], 0. split_and!; done. }
  rewrite E. cbn [mbind outcome_bind]. destruct (state_updateSize _ _ _ St) as [Hu Hset].
  eexists. split; [done|]. split; [exact Hset|]. split; [done|].
  destruct Hu as (p & s & Eb & _). cbn [rewind m_buffers]. rewrite Eb.
  unfold shape in *. rewrite map_app, S. done.
Qed.

Lemma contents_shape (bs : BufferSet) : contents bs = concat (map snd (shape (m_buffers bs))).
Proof.
  unfold contents, shape. induction (m_buffers bs) as [|b l IH]; [done|]. cbn. by rewrite IH.
Qed.

Lemma split_flat (t : list atom) :
  forall v, concat (map snd (split v t).1) ++ (split v t).2 = v ++ flat t.
Proof.
  induction t as [|[b|a] t IH]; intros v; cbn [split flat flat_map flat_atom].
  - by rewrite app_nil_r.
  - rewrite IH. by rewrite <- app_assoc.
  - specialize (IH []). destruct (split [] t) as [l e]. cbn [fst snd map concat] in *.
    rewrite <- !app_assoc. rewrite IH. unfold enc_prefixed. by rewrite <- !app_assoc.
Qed.

(** The byte arrays of a trace. *)
Definition arrays (t : list atom) : list bytes :=
  omap (fun x => match x with Array a => Some a | Chars _ => None end) t.

Lemma split_arrays (t : list atom) :
  forall v, omap (fun b : BufferContents * bytes =>
    match b.1 with NO_COPY_BYTEARRAY_CONTENTS => Some b.2 | COPY => None end) (split v t).1 = arrays t.
Proof.
  induction t as [|[b|a] t IH]; intros v; cbn [split]; [done|apply IH|].
  specialize (IH []). destruct (split [] t) as [l e]. cbn in *. by rewrite IH.
Qed.

(** C19: Serialising into a BufferSet writes the same characters as serialising into one
    archive: for every Hash that fits the format the buffers, one after the other, are the
    archive of save; their sizes are up to date, the set is rewound, and the buffers that
    are not copies hold exactly the byte arrays of the Hash's nodes, in order. *)
Theorem save_multi_archive (h : hash) (buffers : BufferSet) :
  serializable (VHash h) ->
  exists bs archive, save_multi h buffers = Ret bs /\ save h = Ret archive /\
    contents bs = archive /\ settled bs /\ m_currentBuffer bs = O /\
    map content (filter (fun b => b_type b = NO_COPY_BYTEARRAY_CONTENTS) (m_buffers bs)) =
      arrays (trace_hash h).
Proof.
  intros Hs. destruct (save_multi_shape h buffers Hs) as (bs & E & Hset & Hc & S).
  exists bs, (enc_hash h). split_and!; [exact E|by apply writeHash_enc| |exact Hset|exact Hc|].
  - rewrite contents_shape, S, map_app, concat_app. cbn. rewrite app_nil_r, split_flat.
    exact (flat_trace_body (VHash h)).
  - rewrite <- (split_arrays (trace_hash h) []).
    assert (forall l, map content (filter (fun b => b_type b = NO_COPY_BYTEARRAY_CONTENTS) l) =
      omap (fun b : BufferContents * bytes =>
        match b.1 with NO_COPY_BYTEARRAY_CONTENTS => Some b.2 | COPY => None end) (shape l)) as G.
    { induction l as [|b l IH]; [done|]. unfold shape in *. cbn [map]. destruct (b_type b) eqn:Et.
      - rewrite filter_cons_False by (rewrite Et; discriminate). by rewrite IH.
      - rewrite filter_cons_True by done. cbn [map]. by rewrite IH. }
    rewrite G, S, omap_app. cbn. by rewrite app_nil_r.
Qed.

Definition example_arrays : hash :=
  [mkNode "a" [] (VByteArray ["x"%char; "y"%char]);
   mkNode "h" [("n"%string, VPod PInt32 1)] (VHash [mkNode "b" [] (VByteArray []); mkNode "c" [] (VString "s")])].

Lemma save_multi_archive_witness :
  exists bs, save_multi example_arrays (new_BufferSet true) = Ret bs /\ save example_arrays = Ret (contents bs) /\
    map content (filter (fun b => b_type b = NO_COPY_BYTEARRAY_CONTENTS) (m_buffers bs)) =
      [["x"%char; "y"%char]; []].
Proof.
  destruct (save_multi_archive example_arrays (new_BufferSet true)) as (bs & archive & E & Es & <- & _ & _ & Ea);
    [serializable|].
  exists bs. split; [exact E|]. split; [exact Es|exact Ea].
Defined.

(** ** Reading back *)

(** What is before the reader of a trace when [RK] is behind it: the rest of the current
    buffer, and the buffers that follow. *)
Fixpoint before (t : list atom) (RK : bytes * list (BufferContents * bytes))
  : bytes * list (BufferContents * bytes) :=
  match t with
  | [] => RK
  | Chars b :: t' => (b ++ (before t' RK).1, (before t' RK).2)
  | Array a :: t' =>
      (enc_size (length a), (NO_COPY_BYTEARRAY_CONTENTS, a) :: (COPY, (before t' RK).1) :: (before t' RK).2)
  end.

Lemma before_app (t1 t2 : list atom) RK : before (t1 ++ t2) RK = before t1 (before t2 RK).
Proof. induction t1 as [|[b|a] t1 IH]; cbn [app before]; [done|..]; by rewrite IH. Qed.

Lemma split_before (t : list atom) :
  forall v, (split v t).1 ++ [(COPY, (split v t).2)] = (COPY, v ++ (before t ([], [])).1) :: (before t ([], [])).2.
Proof.
  induction t as [|[b|a] t IH]; intros v; cbn [split before fst snd app].
  - by rewrite app_nil_r.
  - rewrite IH. by rewrite <- app_assoc.
  - specialize (IH []). destruct (split [] t) as [l e]. cbn [fst snd app] in *. by rewrite IH.
Qed.

(** The reader is in a COPY buffer with [RK] before it. *)
Definition located (ms : mstream) (RK : bytes * list (BufferContents * bytes)) : Prop :=
  exists l b bl p, ms = mkMStream (mkStream RK.1 (length p) false) (ms_bs ms) /\
    m_buffers (ms_bs ms) = l ++ b :: bl /\ m_currentBuffer (ms_bs ms) = length l /\
    b_type b = COPY /\ b_vec b = p ++ RK.1 /\ shape bl = RK.2 /\ Forall consistent bl.

(** [f] reads the trace [t] and gives [a]. *)
Definition mreads {A} (f : mreader A) (t : list atom) (a : A) : Prop :=
  forall ms RK, located ms (before t RK) -> exists ms', f ms = Ret (a, ms') /\ located ms' RK.

Lemma mreads_bind {A B} (f : mreader A) (g : A * mstream -> outcome (B * mstream)) (t1 t2 : list atom) (a : A) (x : B) :
  mreads f t1 a -> mreads (fun ms => g (a, ms)) t2 x -> mreads (fun ms => f ms ≫= g) (t1 ++ t2) x.
Proof.
  intros Hf Hg ms RK. rewrite before_app. intros H. destruct (Hf _ _ H) as (ms1 & -> & H1). exact (Hg _ _ H1).
Qed.

Lemma mreads_map {A B} (f : mreader A) (g : A -> B) (t : list atom) (a : A) :
  mreads f t a -> mreads (fun ms => '(x, ms) ← f ms; Ret (g x, ms)) t (g a).
Proof. intros Hf ms RK H. destruct (Hf _ _ H) as (ms1 & -> & H1). by exists ms1. Qed.

Lemma mreads_ret {A} (a : A) : mreads (fun ms => Ret (a, ms)) [] a.
Proof. intros ms RK H. by exists ms. Qed.

Lemma mreads_stream {A} (f : reader A) (b : bytes) (a : A) :
  reads f b a -> mreads (on_stream f) [Chars b] a.
Proof.
  intros Hf ms RK (l & x & bl & p & E & Eb & Ec & Ht & Ev & Es & Hc). cbn [before fst snd] in *.
  rewrite E. unfold on_stream. cbn [ms_st ms_bs]. rewrite Hf. eexists. split; [reflexivity|].
  exists l, x, bl, (p ++ b). cbn [ms_bs]. rewrite <- app_assoc, length_app. done.
Qed.

(** Two readings from the current buffer. *)
Lemma mreads_chars {A B} (f : reader A) (g : A * mstream -> outcome (B * mstream)) (b1 b2 : bytes)
    (t : list atom) (a : A) (x : B) :
  reads f b1 a -> mreads (fun ms => g (a, ms)) (Chars b2 :: t) x ->
  mreads (fun ms => on_stream f ms ≫= g) (Chars (b1 ++ b2) :: t) x.
Proof.
  intros Hf Hg ms RK H. apply (mreads_bind _ g _ _ a x (mreads_stream f b1 a Hf) Hg).
  cbn [app before fst snd] in *. by rewrite <- app_assoc in H.
Qed.

(** Nothing more to read from the current buffer. *)
Lemma mreads_done {A} (f : mreader A) (t : list atom) (a : A) :
  mreads f t a -> mreads f (Chars [] :: t) a.
Proof. intros Hf ms RK H. apply Hf. cbn in H. by destruct (before t RK). Qed.

Lemma mread_list_reads {A} (f : mreader A) (tr : A -> list atom) (l : list A) :
  (forall x, In x l -> mreads f (tr x) x) -> mreads (mread_list (length l) f) (flat_map tr l) l.
Proof.
  induction l as [|x l IH]; intros Hf; [apply mreads_ret|]. cbn [length mread_list flat_map].
  apply (mreads_bind f _ _ _ x); [apply Hf; by left|].
  apply (mreads_map (mread_list (length l) f) (cons x)). apply IH. intros; apply Hf; by right.
Qed.

Lemma mread_sized {A B} (f : mreader A) (tr : A -> list atom) (g : list A -> B) (l : list A) :
  size_ok (length l) -> (forall x, In x l -> mreads f (tr x) x) ->
  mreads (fun ms => '(size, ms) ← on_stream readSize ms;
                    '(l, ms) ← mread_list (Z.to_nat size) f ms; Ret (g l, ms))
    (Chars (enc_size (length l)) :: flat_map tr l) (g l).
Proof.
  intros Hl Hf. apply (mreads_bind (on_stream readSize) _ [_] _ (Z.of_nat (length l)));
    [apply mreads_stream; by apply readSize_reads|].
  rewrite Nat2Z.id. apply (mreads_map _ g). by apply mread_list_reads.
Qed.

Lemma mread_loop_reads {A} (f : list A -> mreader (list A)) (tr : A -> list atom) (l : list A) :
  forall pre, (forall l1 x l2, l = l1 ++ x :: l2 -> mreads (f (pre ++ l1)) (tr x) (pre ++ l1 ++ [x])) ->
  mreads (mread_loop (length l) f pre) (flat_map tr l) (pre ++ l).
Proof.
  induction l as [|x l IH]; intros pre Hf; [rewrite app_nil_r; apply mreads_ret|].
  cbn [length mread_loop flat_map]. apply (mreads_bind (f pre) _ _ _ (pre ++ [x])).
  - pose proof (Hf [] x l eq_refl) as G. by rewrite app_nil_r in G.
  - rewrite (app_assoc pre [x] l : pre ++ x :: l = (pre ++ [x]) ++ l). apply IH.
    intros l1 y l2 ->. pose proof (Hf (x :: l1) y l2 eq_refl) as G. by rewrite <- !app_assoc.
Qed.

(** With two characters left, nextBufIfEos does nothing. *)
Lemma nextBufIfEos_stay (ms : mstream) RK :
  located ms RK -> (2 <= length RK.1)%nat -> nextBufIfEos ms = Ret ms.
Proof.
  intros (l & b & bl & p & E & Eb & Ec & Ht & Ev & _) Hr. rewrite E. unfold nextBufIfEos, current.
  rewrite Eb, Ec, lookup_app_r, Nat.sub_diag by lia. cbn [lookup list_lookup mbind outcome_bind s_fail s_pos].
  rewrite Ev, length_app. destruct (Nat.eqb_spec (length p + length RK.1) 0); [lia|].
  destruct (Z.leb_spec (Z.of_nat (length p + length RK.1) - 1) (Z.of_nat (length p))); [lia|done].
Qed.

(** A byte array that is the value of a node. *)
Lemma mreads_array format_float format_complex type_name rh (a : bytes) :
  size_ok (length a) ->
  mreads (readSingleValue_multi format_float format_complex type_name rh BYTE_ARRAY) [Array a] (VByteArray a).
Proof.
  intros Hs ms RK (l & b & bl & p & E & Eb & Ec & Ht & Ev & Esh & Hc). cbn [before fst snd] in *.
  destruct bl as [|bn [|bc bl]]; try discriminate Esh. cbn [shape map] in Esh.
  injection Esh as Etn Ecn Etc Ecc Esh.
  inversion_clear Hc as [|? ? Hcn Hc']. inversion_clear Hc' as [|? ? Hcc Hc].
  rewrite E. unfold readSingleValue_multi, on_stream. cbn [ms_st ms_bs].
  rewrite <- (app_nil_r (enc_size (length a))), (readSize_reads (length a) Hs). cbn [mbind outcome_bind].
  set (bs := ms_bs ms) in *.
  assert (forall i, (l ++ b :: bn :: bc :: bl) !! (length l + i)%nat = (b :: bn :: bc :: bl) !! i) as Hlk'.
  { intros i. rewrite lookup_app_r by lia. f_equal. lia. }
  assert (m_buffers bs !! length l = Some b) as H0 by (rewrite Eb, <- (Nat.add_0_r (length l)); apply Hlk').
  assert (m_buffers bs !! S (length l) = Some bn) as H1
    by (rewrite Eb; replace (S (length l)) with (length l + 1)%nat by lia; apply Hlk').
  assert (m_buffers bs !! S (S (length l)) = Some bc) as H2
    by (rewrite Eb; replace (S (S (length l))) with (length l + 2)%nat by lia; apply Hlk').
  assert (length (m_buffers bs) = length l + 3 + length bl)%nat as Hlen
    by (rewrite Eb, length_app; cbn; lia).
  assert (b_vec b = p ++ enc_size (length a)) as Evb by exact Ev.
  assert (length (enc_size (length a)) = 4%nat) as Hsz by apply le_bytes_length.
  unfold nextBufIfEos, current at 1. rewrite Ec, H0. cbn [mbind outcome_bind s_fail s_pos].
  rewrite Evb, !length_app, Hsz. destruct (Nat.eqb_spec (length p + 4) 0); [lia|].
  rewrite (proj2 (Z.leb_le _ _)) by lia. cbn [orb].
  set (at_ k := mkBufferSet (m_buffers bs) k (m_copyAllData bs)).
  assert (next bs = (at_ (S (length l)), true)) as ->
    by (unfold next; by rewrite Ec, (proj2 (Nat.ltb_lt _ _)) by lia).
  assert (forall st, open_current st (at_ (S (length l))) =
    Ret (mkMStream (mkStream (b_vec bn) 0 (s_fail st)) (at_ (S (length l))))) as ->
    by (intros; unfold open_current, current; cbn; by rewrite H1).
  cbn [mbind outcome_bind ms_bs ms_st s_fail].
  assert (currentIsByteArrayCopy (at_ (S (length l))) = Ret false) as ->
    by (unfold currentIsByteArrayCopy; cbn; by rewrite H1, Etn).
  assert (currentAsByteArray (at_ (S (length l))) = Ret (take (Z.to_nat (b_size bn)) (b_ptr bn))) as ->
    by (unfold currentAsByteArray; cbn; by rewrite H1).
  cbn [mbind outcome_bind negb].
  assert (next (at_ (S (length l))) = (at_ (S (S (length l))), true)) as ->
    by (unfold next; cbn [at_ m_buffers m_currentBuffer]; by rewrite (proj2 (Nat.ltb_lt _ _)) by lia).
  assert (forall st, open_current st (at_ (S (S (length l)))) =
    Ret (mkMStream (mkStream (b_vec bc) 0 (s_fail st)) (at_ (S (S (length l)))))) as E2
    by (intros; unfold open_current, current; cbn; by rewrite H2).
  cbn [fst]. rewrite E2. cbn [mbind outcome_bind s_fail].
  assert (take (Z.to_nat (b_size bn)) (b_ptr bn) = a) as ->.
  { pose proof (consistent_take bn Hcn) as Ht'. unfold content in Ht', Ecn. rewrite Etn in Ht', Ecn. by rewrite Ht'. }
  eexists. split; [reflexivity|].
  exists (l ++ [b; bn]), bc, bl, []. cbn [at_ ms_bs m_buffers m_currentBuffer length app].
  assert (b_vec bc = RK.1) as <- by (unfold content in Ecc; by rewrite Etc in Ecc).
  split_and!; try done.
  - rewrite Eb, <- app_assoc. done.
  - rewrite length_app. cbn. lia.
Qed.

Section multi_reader_trace.
Context (format_float : pod -> Z -> string).
Context (format_complex : cpx -> Z * Z -> string).
Context (type_name : nat -> string).
Context (rs : hash -> reader hash) (rm : hash -> mreader hash).
Abbreviation loadable := (loadable format_float format_complex type_name).

(** [rm] reads the Hashes in [v]. *)
Definition mreads_hashes (v : value) : Prop :=
  forall h, In h (value_hashes v) -> mreads (rm []) (trace_hash h) h.

Lemma mreads_whole (v : value) :
  serializable v -> loadable v -> reads_hashes rs v -> whole v = true ->
  mreads (readAny_multi format_float format_complex type_name rs rm (Some (type_of v))) (trace_body v) v.
Proof.
  intros Hs Hl Hr Hw.
  assert (mreads (on_stream (readAny format_float format_complex type_name rs (Some (type_of v))))
    [Chars (enc_body v)] v) as Hany.
  { apply mreads_stream, readAny_reads; [exact Hs|exact Hl|exact Hr|]. by destruct v. }
  pose proof Hs as [Hlo _ _].
  destruct v as [x|t z|t re im|s| |x|l|t l|t l|l|n|h|l|p|l|r h|l|n]; try discriminate Hw;
    try exact Hany; try (destruct t; exact Hany); [|destruct Hlo..].
  exact (mreads_array format_float format_complex type_name rs x Hlo).
Qed.

Lemma mread_pointers (l : list (option hash)) :
  size_ok (length l) -> Forall (fun p => p <> None) l -> mreads_hashes (VVecHashPtr l) ->
  mreads (fun ms => '(size, ms) ← on_stream readSize ms;
                    '(l, ms) ← mread_list (Z.to_nat size) (rm []) ms; Ret (VVecHashPtr (map Some l), ms))
    (trace_body (VVecHashPtr l)) (VVecHashPtr l).
Proof.
  intros Hs Hall Hr.
  assert (exists hs, l = map Some hs) as [hs ->].
  { clear -Hall. induction Hall as [|[h|] l Hp Hl [hs ->]]; [by exists []|by exists (h :: hs)|done]. }
  change (trace_body (VVecHashPtr (map Some hs))) with (Chars (enc_size (length (map Some hs))) ::
    flat_map (fun p => match p with Some h => trace_hash h | None => [] end) (map Some hs)).
  rewrite length_map in *.
  replace (flat_map _ (map Some hs)) with (flat_map trace_hash hs)
    by (clear; induction hs as [|h hs IH]; [done|]; cbn; by rewrite IH).
  apply (mread_sized (rm []) trace_hash (fun l => VVecHashPtr (map Some l)) hs Hs).
  intros h Hh. apply Hr. apply in_flat_map. exists (Some h). split; [by apply in_map|by left].
Qed.

Lemma mreads_readNode (key : string) (a : attributes) (v v0 : value) :
  size_ok (length a) -> awf a ->
  (forall x, In x a -> key_ok x.1 /\ attribute_value x.2 = true /\
     serializable x.2 /\ loadable x.2 /\ reads_hashes rs x.2) ->
  serializable v -> loadable v -> reads_hashes rs v -> mreads_hashes v ->
  mreads (readNode_multi format_float format_complex type_name rs rm (mkNode key [] v0))
    (Chars (enc_type (type_of v) ++ enc_list enc_attr a) :: trace_body v) (mkNode key a v).
Proof.
  intros Hs Hw Ha Hv Hl Hr Hm. unfold readNode_multi. cbn [nKey nAttrs].
  apply (mreads_chars readType _ _ _ _ (Some (type_of v))); [apply readType_reads|].
  apply (mreads_bind (on_stream (readAttributes _ _ _ rs [])) _ [_] _ a).
  { apply mreads_stream. by apply readAttributes_reads. }
  apply (mreads_map _ (fun v => mkNode key a v)).
  assert (whole v = true ->
    mreads (readAny_multi format_float format_complex type_name rs rm (Some (type_of v))) (trace_body v) v) as G
    by (by apply mreads_whole).
  destruct v as [x|t z|t re im|s| |x|l|t l|t l|l|n|h|l|p|l|r h|l|n];
    try exact (G eq_refl); try (destruct t; exact (G eq_refl)).
  - exact (mreads_map (rm []) VHash _ h (Hm h (or_introl eq_refl))).
  - destruct Hv as [Hsz _ _]. exact (mread_sized (rm []) trace_hash VVecHash l Hsz (fun h Hin => Hm h Hin)).
  - destruct Hv as [Hp _ _]. destruct p as [h|]; [|by destruct Hp].
    exact (mreads_map (rm []) (fun h => VHashPtr (Some h)) _ h (Hm h (or_introl eq_refl))).
  - destruct Hv as [[Hsz Hall] _ _]. by apply mread_pointers.
Qed.

Lemma mreads_element (pre : hash) (n : node) :
  nKey n ∉ keys pre -> key_ok (nKey n) -> last (chars (nKey n)) <> Some "]"%char ->
  size_ok (length (nAttrs n)) -> awf (nAttrs n) ->
  (forall x, In x (nAttrs n) -> key_ok x.1 /\ attribute_value x.2 = true /\
     serializable x.2 /\ loadable x.2 /\ reads_hashes rs x.2) ->
  serializable (nVal n) -> loadable (nVal n) -> reads_hashes rs (nVal n) -> mreads_hashes (nVal n) ->
  mreads (read_element_multi format_float format_complex type_name rs rm pre) (trace_node n) (pre ++ [n]).
Proof.
  intros Hnew Hk Hb Hs Hw Ha Hv Hl Hr Hm ms RK Hloc. unfold read_element_multi.
  rewrite (nextBufIfEos_stay ms _ Hloc) by
    (cbn [before trace_node fst]; unfold enc_type; rewrite !length_app, le_bytes_length; lia).
  cbn [mbind outcome_bind]. revert ms RK Hloc.
  apply (mreads_chars readKey _ _ _ _ (nKey n)); [by apply readKey_reads|].
  destruct (findSeparator_Ret (nKey n)) as (sep & -> & Hsep); [by destruct Hk|].
  cbn [mbind outcome_bind]. rewrite set_single, crop_plain, Z.eqb_refl by done.
  unfold container_set. rewrite aset_new by done.
  change (setValue (newElement (nKey n)) (VBool true)) with (mkNode (nKey n) [] (VBool true)).
  assert (afind (nKey n) pre = None) as Hf by (by apply afind_None).
  unfold node_at. cbn [mbind outcome_bind fst snd hash_at]. rewrite afind_app, Hf. cbn [afind].
  rewrite decide_True by done.
  replace (pre ++ [n]) with (node_alter ([], nKey n) (fun _ => n) (pre ++ [mkNode (nKey n) [] (VBool true)])).
  - apply (mreads_map _ (fun n' => node_alter ([], nKey n) (fun _ => n') _)).
    destruct n as [key a v]. by apply mreads_readNode.
  - unfold node_alter. cbn [fst snd hash_alter]. by rewrite aalter_app_new.
Qed.
End multi_reader_trace.

Lemma mreads_readHash format_float format_complex type_name (fuel : nat) :
  forall h, serializable (VHash h) -> loadable format_float format_complex type_name (VHash h) ->
  (depth (VHash h) <= fuel)%nat ->
  mreads (readHash_multi format_float format_complex type_name fuel []) (trace_hash h) h.
Proof.
  induction fuel as [|f IH]; intros h Hs Hl Hd; [cbn in Hd; lia|].
  destruct (serializable_hash h Hs) as [(Hsz & Hw & Hn) Hsn]. cbn [readHash_multi].
  apply (mreads_bind (on_stream readSize) _ [_] _ (Z.of_nat (length h)));
    [apply mreads_stream; by apply readSize_reads|].
  rewrite Nat2Z.id. apply (mread_loop_reads _ trace_node h []). intros l1 n l2 E. cbn [app].
  assert (In n h) as Hin by (rewrite E; apply in_elt).
  destruct (Hn n Hin) as (Hk & Hb & Hal & Haw & Ha). destruct (Hsn n Hin) as [Hsv Hsa].
  assert (forall v, In v (node_values n) -> loadable format_float format_complex type_name v) as Hlv.
  { destruct Hl as [_ Hc]. intros v Hv. apply Hc, in_flat_map. eauto. }
  assert (forall v h', In v (node_values n) -> serializable v -> In h' (value_hashes v) ->
    serializable (VHash h') /\ loadable format_float format_complex type_name (VHash h') /\
    (depth (VHash h') <= f)%nat) as Hin'.
  { intros v h' Hv Hsv' Hh'. split; [by eapply serializable_inner|].
    split; [by apply (loadable_inner _ _ _ v); auto|].
    pose proof (depth_inner v h' Hh'). pose proof (depth_node h n v Hin Hv). lia. }
  assert (forall v, In v (node_values n) -> serializable v ->
    reads_hashes (readHash format_float format_complex type_name f) v) as Hrv.
  { intros v Hv Hsv' h' Hh'. destruct (Hin' v h' Hv Hsv' Hh') as (H1 & H2 & H3). by apply readHash_reads. }
  apply mreads_element; [|exact Hk|exact Hb|exact Hal|exact Haw| |exact Hsv| | |].
  - rewrite E in Hw. exact (awf_middle l1 n l2 Hw).
  - intros x Hx. destruct (Ha x Hx) as [Hxk Hxv].
    assert (In x.2 (node_values n)) as Hxn by (right; apply in_map, Hx).
    exact (conj Hxk (conj Hxv (conj (Hsa x Hx) (conj (Hlv _ Hxn) (Hrv _ Hxn (Hsa x Hx)))))).
  - apply Hlv. by left.
  - apply Hrv; [by left|exact Hsv].
  - intros h' Hh'. destruct (Hin' (nVal n) h' (or_introl eq_refl) Hsv Hh') as (H1 & H2 & H3). by apply IH.
Qed.

(** Reading depends on the buffers only, not on the position of the BufferSet. *)
Lemma load_multi_rewind format_float format_complex type_name (o : hash) (buffers : BufferSet) :
  load_multi format_float format_complex type_name o (rewind buffers) =
  load_multi format_float format_complex type_name o buffers.
Proof. done. Qed.

(** What save has put into a BufferSet is read back, and the BufferSet is then as before. *)
Lemma load_saved format_float format_complex type_name (h : hash) (buffers bs : BufferSet) :
  serializable (VHash h) -> loadable format_float format_complex type_name (VHash h) ->
  save_multi h buffers = Ret bs ->
  exists bs', load_multi format_float format_complex type_name [] bs = Ret (h, bs') /\ m_currentBuffer bs' = O.
Proof.
  intros Hs Hl E0. destruct (save_multi_shape h buffers Hs) as (bs0 & E & Hset & Hc & S).
  rewrite E0 in E. injection E as <-.
  rewrite split_before in S. remember (before (trace_hash h) ([], [])) as RK eqn:HRK. cbn [app] in S.
  destruct (m_buffers bs) as [|b bl] eqn:Eb; [discriminate S|]. injection S as Et Ev Ebl.
  assert (b_vec b = RK.1) as Ev' by (unfold content in Ev; by rewrite Et in Ev).
  assert (length (contents bs) = length (enc_hash h)) as Hlen.
  { rewrite contents_shape, Eb. change (shape (b :: bl)) with ((b_type b, content b) :: shape bl). rewrite Et, Ev, Ebl.
    change RK.1 with ([] ++ RK.1). rewrite HRK, <- split_before.
    rewrite map_app, concat_app. cbn. rewrite app_nil_r, split_flat.
    exact (f_equal length (flat_trace_body (VHash h))). }
  destruct (mreads_readHash format_float format_complex type_name (S (length (contents bs))) h Hs Hl)
    with (ms := mkMStream (mkStream (b_vec b) 0 false) (rewind bs)) (RK := ([] : bytes, [] : list (BufferContents * bytes)))
    as (ms' & Er & _); [|rewrite <- HRK|].
  - pose proof (depth_enc (VHash h) Hs). change (enc_body (VHash h)) with (enc_hash h) in *. lia.
  - exists [], b, bl, []. cbn [ms_bs rewind m_buffers m_currentBuffer length app].
    rewrite Ev'. unfold settled in Hset. rewrite Eb in Hset. inversion_clear Hset. split_and!; done.
  - exists (rewind (ms_bs ms')). split; [|done].
    unfold load_multi, open_current, current. cbn [rewind m_buffers m_currentBuffer]. rewrite Eb.
    cbn [lookup list_lookup mbind outcome_bind stream_of s_fail]. by rewrite Er.
Qed.

(** C18: Round trip through a BufferSet: what save has put into the buffers of any
    BufferSet, load reads back as the same Hash, the byte arrays (empty ones included) from
    their own buffers, and it leaves the BufferSet rewound. *)
Theorem save_load_multi (format_float : pod -> Z -> string) (format_complex : cpx -> Z * Z -> string)
    (type_name : nat -> string) (h : hash) (buffers : BufferSet) :
  serializable (VHash h) -> loadable format_float format_complex type_name (VHash h) ->
  exists bs bs', save_multi h buffers = Ret bs /\
    load_multi format_float format_complex type_name [] bs = Ret (h, bs') /\
    m_currentBuffer bs' = O.
Proof.
  intros Hs Hl. destruct (save_multi_shape h buffers Hs) as (bs & E & _).
  destruct (load_saved format_float format_complex type_name h buffers bs Hs Hl E) as (bs' & Er & Ec).
  by exists bs, bs'.
Qed.

Lemma save_load_multi_witness :
  exists bs bs', save_multi example_arrays (new_BufferSet false) = Ret bs /\
    load_multi (fun _ _ => ""%string) (fun _ _ => ""%string) (fun _ => ""%string) [] bs =
      Ret (example_arrays, bs').
Proof.
  destruct (save_load_multi (fun _ _ => ""%string) (fun _ _ => ""%string) (fun _ => ""%string)
    example_arrays (new_BufferSet false)) as (bs & bs' & E & El & _); [serializable|loadable|].
  exists bs, bs'. split; [exact E|exact El].
Defined.
