(* ===== verification/TimeDuration.v ===== *)
(** Time differences (data/time/TimeDuration.hh, TimeDuration.cc): seconds and attoseconds,
    64 bits each, with wrap-around written out. *)

From Stdlib Require Import ZArith Lia Ascii String.
From stdpp Require Import base numbers list strings gmap.
From S2P Require Import Prelude Types Strings OrderedMap Hash HashAccess.
Import Types.

Open Scope Z_scope.

(** enum class TIME_UNITS.  The units of time are the enumerators SECOND, MINUTE, ...; the
    fractions are given by the number of zeros. *)
Definition ATTOSEC : Z := 0.
Definition FEMTOSEC : Z := 3.
Definition PICOSEC : Z := 6.
Definition NANOSEC : Z := 9.
Definition MICROSEC : Z := 12.
Definition MILLISEC : Z := 15.
Definition ONESECOND : Z := 18.
Definition NOFRACTION : Z := -1.
Definition SECOND : Z := 1.
Definition MINUTE : Z := 60.
Definition HOUR : Z := 3600.
Definition DAY : Z := 86400.

(** m_oneSecondInAtto *)
Definition m_oneSecondInAtto : Z := 10 ^ 18.
#[global] Opaque m_oneSecondInAtto.
Lemma one_second : m_oneSecondInAtto = 1000000000000000000.
Proof. reflexivity. Qed.

Record TimeDuration := mkTimeDuration { m_Seconds : Z; m_Fractions : Z }.

#[export] Instance TimeDuration_eq_dec : EqDecision TimeDuration.
Proof. solve_decision. Defined.

(** [int] arithmetic, whose overflow is undefined. *)
Definition int_op (z : Z) : outcome Z :=
  if (- 2 ^ 31 <=? z) && (z <? 2 ^ 31) then Ret z else Undef.

(** sanitize *)
Definition sanitize (sec frac : Z) : TimeDuration :=
  if m_oneSecondInAtto <=? frac
  then mkTimeDuration (u64 (sec + frac / m_oneSecondInAtto)) (frac mod m_oneSecondInAtto)
  else mkTimeDuration sec frac.

(** The constructors, set *)
Definition null_duration : TimeDuration := mkTimeDuration 0 0.
Definition make (seconds fractions : Z) : TimeDuration := sanitize seconds fractions.
Definition set_duration (seconds fractions : Z) (this : TimeDuration) : TimeDuration :=
  sanitize seconds fractions.

(** [days * DAY + hours * HOUR + minutes * MINUTE + seconds]: [int] operations up to the
    last addition, which is one of TimeValues. *)
Definition days_to_seconds (days hours minutes seconds : Z) : outcome Z :=
  d ← int_op (days * DAY);
  h ← int_op (hours * HOUR);
  dh ← int_op (d + h);
  m ← int_op (minutes * MINUTE);
  dhm ← int_op (dh + m);
  Ret (u64 (dhm + seconds)).

Definition make_days (days hours minutes seconds fractions : Z) : outcome TimeDuration :=
  s ← days_to_seconds days hours minutes seconds; Ret (sanitize s fractions).
Definition set_days (days hours minutes seconds fractions : Z) (this : TimeDuration) : outcome TimeDuration :=
  s ← days_to_seconds days hours minutes seconds; Ret (sanitize s fractions).

(** operator+=, operator-= *)
Definition td_add (this other : TimeDuration) : TimeDuration :=
  let seconds := u64 (m_Seconds this + m_Seconds other) in
  let fractions := u64 (m_Fractions this + m_Fractions other) in
  if m_oneSecondInAtto <=? fractions
  then mkTimeDuration (u64 (seconds + 1)) (u64 (fractions - m_oneSecondInAtto))
  else mkTimeDuration seconds fractions.

Definition td_sub (this other : TimeDuration) : TimeDuration :=
  let seconds := u64 (m_Seconds this - m_Seconds other) in
  if m_Fractions this <? m_Fractions other
  then mkTimeDuration (u64 (seconds - 1))
         (u64 (u64 (m_oneSecondInAtto - m_Fractions other) + m_Fractions this))
  else mkTimeDuration seconds (u64 (m_Fractions this - m_Fractions other)).

(** add and sub of seconds and fractions *)
Definition add (seconds fractions : Z) (this : TimeDuration) : TimeDuration :=
  td_add this (make seconds fractions).
Definition add_days (days hours minutes seconds fractions : Z) (this : TimeDuration) : outcome TimeDuration :=
  s ← days_to_seconds days hours minutes seconds; Ret (td_add this (make s fractions)).
Definition sub (seconds fractions : Z) (this : TimeDuration) : TimeDuration :=
  td_sub this (mkTimeDuration seconds fractions).

(** sub of days, ..., which assigns to the seconds instead of subtracting from them. *)
Definition sub_days (days hours minutes seconds fractions : Z) (this : TimeDuration) : outcome TimeDuration :=
  s ← days_to_seconds days hours minutes seconds;
  Ret (td_sub (mkTimeDuration s (m_Fractions this)) (mkTimeDuration 0 fractions)).

(** Comparison *)
Definition td_eq (this other : TimeDuration) : bool :=
  (m_Seconds this =? m_Seconds other) && (m_Fractions this =? m_Fractions other).
Definition td_ne (this other : TimeDuration) : bool :=
  negb (m_Seconds this =? m_Seconds other) || negb (m_Fractions this =? m_Fractions other).
Definition td_gt (this other : TimeDuration) : bool :=
  (m_Seconds other <? m_Seconds this)
  || ((m_Seconds this =? m_Seconds other) && (m_Fractions other <? m_Fractions this)).
Definition td_lt (this other : TimeDuration) : bool :=
  (m_Seconds this <? m_Seconds other)
  || ((m_Seconds this =? m_Seconds other) && (m_Fractions this <? m_Fractions other)).
Definition td_ge (this other : TimeDuration) : bool := negb (td_lt this other).
Definition td_le (this other : TimeDuration) : bool := negb (td_gt this other).

Definition isNull (this : TimeDuration) : bool := (m_Seconds this =? 0) && (m_Fractions this =? 0).
Definition getDays (this : TimeDuration) : Z := m_Seconds this / DAY.
Definition getHours (this : TimeDuration) : Z := (m_Seconds this / HOUR) mod 24.
Definition getTotalHours (this : TimeDuration) : Z := m_Seconds this / HOUR.
Definition getMinutes (this : TimeDuration) : Z := (m_Seconds this / MINUTE) mod 60.
Definition getTotalMinutes (this : TimeDuration) : Z := m_Seconds this / MINUTE.
Definition getSeconds (this : TimeDuration) : Z := m_Seconds this mod 60.
Definition getTotalSeconds (this : TimeDuration) : Z := m_Seconds this.

(** [while (zeros-- > 0) multiplier *= 10ULL;] *)
Fixpoint power_of_ten (zeros : nat) (multiplier : Z) : Z :=
  match zeros with
  | O => multiplier
  | S z => power_of_ten z (u64 (multiplier * 10))
  end.

(** getFractions(unit).  The divisor is not 0 for the units of fractions (18 zeros at most);
    with 64 zeros and more, as for HOUR and DAY, the code divides by 0, [Z.div] gives 0. *)
Definition getFractions (unit : Z) (this : TimeDuration) : Z :=
  m_Fractions this / power_of_ten (Z.to_nat unit) 1.

(** A number printed with the fill character '0' and a width. *)
Definition padded (width : nat) (n : Z) : string :=
  str (replicate (width - String.length (decimal n)) "0"%char) +:+ decimal n.

(** One conversion of format. *)
Definition conversion (c : ascii) (this : TimeDuration) : outcome string :=
  let case (s : string) := bool_decide (s = String c EmptyString) in
  if case "d" || case "D" then Ret (decimal (getDays this))
  else if case "H" then Ret (padded 2 (getHours this))
  else if case "M" then Ret (padded 2 (getMinutes this))
  else if case "S" then Ret (padded 2 (getSeconds this))
  else if case "h" then Ret (decimal (getHours this))
  else if case "m" then Ret (decimal (getMinutes this))
  else if case "s" then Ret (decimal (getSeconds this))
  else if case "l" then Ret (decimal (getFractions MILLISEC this))
  else if case "u" then Ret (decimal (getFractions MICROSEC this))
  else if case "n" then Ret (decimal (getFractions NANOSEC this))
  else if case "p" then Ret (decimal (getFractions PICOSEC this))
  else if case "f" then Ret (decimal (getFractions FEMTOSEC this))
  else if case "a" then Ret (decimal (getFractions ATTOSEC this))
  else if case "L" then Ret (padded 3 (getFractions MILLISEC this))
  else if case "U" then Ret (padded 6 (getFractions MICROSEC this))
  else if case "N" then Ret (padded 9 (getFractions NANOSEC this))
  else if case "P" then Ret (padded 12 (getFractions PICOSEC this))
  else if case "F" then Ret (padded 15 (getFractions FEMTOSEC this))
  else if case "A" then Ret (padded 18 (getFractions ATTOSEC this))
  else Throw BadFormat.

(** format: over the characters of [fmt.c_str()]; a '%' at the end is followed by the NUL. *)
Fixpoint format_loop (fmt : bytes) (this : TimeDuration) (oss : string) : outcome string :=
  match fmt with
  | [] => Ret oss
  | c :: fmt' =>
      if decide (c = "%"%char) then
        match fmt' with
        | [] => s ← conversion NUL this; Ret (oss +:+ s)
        | c' :: fmt'' => s ← conversion c' this; format_loop fmt'' this (oss +:+ s)
        end
      else format_loop fmt' this (oss +:+ String c EmptyString)
  end.
Definition format (fmt : string) (this : TimeDuration) : outcome string :=
  format_loop (c_str (chars fmt)) this "".

(** fromHash, toHash (which stores the seconds of the minute) *)
Definition get_u64 (path : string) (h : hash) : outcome Z :=
  v ← get (Tscalar (pod_scalar PUInt64)) path k_defaultSep h;
  match v with VPod PUInt64 z => Ret z | _ => Undef end.
Definition fromHash (h : hash) : outcome TimeDuration :=
  s ← get_u64 "seconds" h;
  f ← get_u64 "fractions" h;
  Ret (sanitize s f).
Definition toHash (this : TimeDuration) (h : hash) : effect unit :=
  let '(h, r) := set "seconds" (VPod PUInt64 (getSeconds this)) k_defaultSep h in
  eval r h (fun _ =>
    let '(h, r) := set "fractions" (VPod PUInt64 (getFractions ATTOSEC this)) k_defaultSep h in
    (h, (fun _ => tt) <$> r)).

(** operator*=: the product of the fractions has 128 bits; its upper half is multiplied with
    the duration of 2^64 attoseconds, by recursion. *)
Fixpoint td_mul (fuel : nat) (this : TimeDuration) (factor : Z) : outcome TimeDuration :=
  match fuel with
  | O => OutOfFuel
  | S f =>
      let seconds := u64 (m_Seconds this * factor) in
      let fractions128bits := m_Fractions this * factor in
      let fractions64bits := fractions128bits mod 2 ^ 64 in
      let fractions64bitsOverflow := fractions128bits / 2 ^ 64 in
      let this := mkTimeDuration (u64 (seconds + fractions64bits / m_oneSecondInAtto))
                    (fractions64bits mod m_oneSecondInAtto) in
      if fractions64bitsOverflow =? 0 then Ret this
      else
        let attos := sanitize 0 (2 ^ 64 - 1) in
        let overflow := make (m_Seconds attos) (u64 (m_Fractions attos + 1)) in
        overflow ← td_mul f overflow fractions64bitsOverflow;
        Ret (td_add this overflow)
  end.

(** For a factor of 64 bits the recursion is at most 65 deep. *)
Definition operator_mul (this : TimeDuration) (factor : Z) : outcome TimeDuration := td_mul 65 this factor.

(** ** Durations as numbers of attoseconds *)

Definition total (t : TimeDuration) : Z := m_Seconds t * m_oneSecondInAtto + m_Fractions t.

(** Sanitised: less than a second of fractions. *)
Definition valid (t : TimeDuration) : Prop :=
  0 <= m_Seconds t < 2 ^ 64 /\ 0 <= m_Fractions t < m_oneSecondInAtto.

(** The range of a duration, 2^64 seconds; the arithmetic is modulo it. *)
Definition range : Z := 2 ^ 64 * m_oneSecondInAtto.

Lemma total_bound (t : TimeDuration) : valid t -> 0 <= total t < range.
Proof. unfold valid, total, range. rewrite one_second. lia. Qed.

Lemma total_mod (t : TimeDuration) (x q : Z) : valid t -> x = range * q + total t -> total t = x mod range.
Proof. intros Hv Hx. pose proof (total_bound t Hv). apply (Z.mod_unique _ _ q); [lia|exact Hx]. Qed.

Lemma total_inj (a b : TimeDuration) : valid a -> valid b -> total a = total b -> a = b.
Proof.
  destruct a as [sa fa], b as [sb fb]. unfold valid, total. cbn. rewrite one_second. intros Ha Hb E.
  f_equal; lia.
Qed.

Lemma u64_eq (x : Z) : exists q, u64 x = x - 2 ^ 64 * q /\ 0 <= u64 x < 2 ^ 64.
Proof. exists (x / 2 ^ 64). split; [unfold u64, wrap; rewrite Z.mod_eq by lia; lia|apply u64_bound]. Qed.

Lemma sanitize_spec (s f : Z) :
  0 <= s < 2 ^ 64 -> 0 <= f < 2 ^ 64 ->
  valid (sanitize s f) /\ total (sanitize s f) = (s * m_oneSecondInAtto + f) mod range.
Proof.
  intros Hs Hf. unfold sanitize. destruct (Z.leb_spec m_oneSecondInAtto f) as [Hle|Hlt].
  - rewrite one_second in Hle. destruct (u64_eq (s + f / m_oneSecondInAtto)) as (q & Eq & Hq).
    pose proof (Z.div_mod f m_oneSecondInAtto ltac:(rewrite one_second; lia)) as Hdm.
    pose proof (Z.mod_pos_bound f m_oneSecondInAtto ltac:(rewrite one_second; lia)) as Hm.
    assert (valid (mkTimeDuration (u64 (s + f / m_oneSecondInAtto)) (f mod m_oneSecondInAtto))) as Hv by done.
    split; [exact Hv|]. apply (total_mod _ _ q Hv). unfold total, range. cbn [m_Seconds m_Fractions].
    rewrite Eq. rewrite one_second in *. lia.
  - assert (valid (mkTimeDuration s f)) as Hv by (split; cbn; lia).
    split; [exact Hv|]. apply (total_mod _ _ 0 Hv). unfold total, range. cbn. lia.
Qed.

Lemma td_add_spec (a b : TimeDuration) :
  valid a -> valid b -> valid (td_add a b) /\ total (td_add a b) = (total a + total b) mod range.
Proof.
  intros [Hs Hf] [Hs' Hf']. unfold td_add. rewrite one_second in *.
  rewrite (u64_small (m_Fractions a + m_Fractions b)) by lia.
  destruct (u64_eq (m_Seconds a + m_Seconds b)) as (q & Eq & Hq).
  destruct (Z.leb_spec 1000000000000000000 (m_Fractions a + m_Fractions b)).
  - destruct (u64_eq (u64 (m_Seconds a + m_Seconds b) + 1)) as (q' & Eq' & Hq').
    rewrite (u64_small (_ - _)) by lia.
    match goal with |- valid ?t /\ _ => assert (valid t) as Hv by (split; cbn; rewrite ?one_second; lia) end.
    split; [exact Hv|]. apply (total_mod _ _ (q + q') Hv). unfold total, range. cbn. rewrite one_second. lia.
  - match goal with |- valid ?t /\ _ => assert (valid t) as Hv by (split; cbn; rewrite ?one_second; lia) end.
    split; [exact Hv|]. apply (total_mod _ _ q Hv). unfold total, range. cbn. rewrite one_second. lia.
Qed.

Lemma td_sub_spec (a b : TimeDuration) :
  valid a -> valid b -> valid (td_sub a b) /\ total (td_sub a b) = (total a - total b) mod range.
Proof.
  intros [Hs Hf] [Hs' Hf']. unfold td_sub. rewrite one_second in *.
  destruct (u64_eq (m_Seconds a - m_Seconds b)) as (q & Eq & Hq).
  destruct (Z.ltb_spec (m_Fractions a) (m_Fractions b)).
  - destruct (u64_eq (u64 (m_Seconds a - m_Seconds b) - 1)) as (q' & Eq' & Hq').
    rewrite (u64_small (1000000000000000000 - _)), (u64_small (_ + m_Fractions a)) by lia.
    match goal with |- valid ?t /\ _ => assert (valid t) as Hv by (split; cbn; rewrite ?one_second; lia) end.
    split; [exact Hv|]. apply (total_mod _ _ (q + q') Hv). unfold total, range. cbn. rewrite one_second. lia.
  - rewrite (u64_small (m_Fractions a - _)) by lia.
    match goal with |- valid ?t /\ _ => assert (valid t) as Hv by (split; cbn; rewrite ?one_second; lia) end.
    split; [exact Hv|]. apply (total_mod _ _ q Hv). unfold total, range. cbn. rewrite one_second. lia.
Qed.

(** The part of operator*= that does not overflow. *)
Lemma mul_low_spec (s p : Z) :
  0 <= p < 2 ^ 64 ->
  let t := mkTimeDuration (u64 (u64 s + p / m_oneSecondInAtto)) (p mod m_oneSecondInAtto) in
  valid t /\ total t = (s * m_oneSecondInAtto + p) mod range.
Proof.
  intros Hp t. pose proof (Z.div_mod p m_oneSecondInAtto ltac:(rewrite one_second; lia)) as Hdm.
  pose proof (Z.mod_pos_bound p m_oneSecondInAtto ltac:(rewrite one_second; lia)) as Hm.
  destruct (u64_eq s) as (q & Eq & Hq). destruct (u64_eq (u64 s + p / m_oneSecondInAtto)) as (q' & Eq' & Hq').
  assert (valid t) as Hv by done. split; [exact Hv|]. apply (total_mod _ _ (q + q') Hv).
  unfold total, range, t. cbn [m_Seconds m_Fractions]. rewrite Eq', Eq. rewrite one_second in *. lia.
Qed.

(** 2^64 attoseconds *)
Lemma overflow_unit :
  let attos := sanitize 0 (2 ^ 64 - 1) in
  let overflow := make (m_Seconds attos) (u64 (m_Fractions attos + 1)) in
  valid overflow /\ total overflow = 2 ^ 64.
Proof.
  unfold make, sanitize, valid, total. rewrite one_second. vm_compute. repeat split; discriminate.
Qed.

Lemma td_mul_spec (fuel : nat) :
  forall (a : TimeDuration) (k : Z), valid a -> 0 <= k < 2 ^ Z.of_nat fuel ->
  exists r, td_mul (S fuel) a k = Ret r /\ valid r /\ total r = (total a * k) mod range.
Proof.
  induction fuel as [|f IH]; intros a k [Hs Hf] Hk; change (td_mul (S ?f) a k) with
    (let seconds := u64 (m_Seconds a * k) in
     let fractions128bits := m_Fractions a * k in
     let fractions64bits := fractions128bits mod 2 ^ 64 in
     let fractions64bitsOverflow := fractions128bits / 2 ^ 64 in
     let this := mkTimeDuration (u64 (seconds + fractions64bits / m_oneSecondInAtto))
                   (fractions64bits mod m_oneSecondInAtto) in
     if fractions64bitsOverflow =? 0 then Ret this
     else
       let attos := sanitize 0 (2 ^ 64 - 1) in
       let overflow := make (m_Seconds attos) (u64 (m_Fractions attos + 1)) in
       overflow ← td_mul f overflow fractions64bitsOverflow;
       Ret (td_add this overflow)).
  all: pose proof (Z.div_mod (m_Fractions a * k) (2 ^ 64) ltac:(lia)) as Hdm;
    pose proof (Z.mod_pos_bound (m_Fractions a * k) (2 ^ 64) ltac:(lia)) as Hm;
    destruct (mul_low_spec (m_Seconds a * k) ((m_Fractions a * k) mod 2 ^ 64) Hm) as [Hv Ht];
    assert (total a * k = m_Seconds a * k * m_oneSecondInAtto + m_Fractions a * k) as Etot
      by (unfold total; ring).
  - assert (k = 0) as -> by (cbn in Hk; lia). rewrite !Z.mul_0_r in *. cbn [Z.div Z.eqb Z.div_eucl].
    eexists. split; [reflexivity|]. split; [exact Hv|]. exact Ht.
  - cbv zeta. destruct (Z.eqb_spec (m_Fractions a * k / 2 ^ 64) 0) as [Hz|Hz].
    + eexists. split; [reflexivity|]. split; [exact Hv|]. rewrite Ht, Etot. f_equal. lia.
    + rewrite one_second in Hf.
      assert (0 <= m_Fractions a * k / 2 ^ 64 < 2 ^ Z.of_nat f) as Hk'.
      { split; [apply Z.div_pos; nia|]. apply Z.div_lt_upper_bound; [lia|].
        rewrite Nat2Z.inj_succ, Z.pow_succ_r in Hk by lia. nia. }
      destruct overflow_unit as [Hov Eov].
      destruct (IH _ _ Hov Hk') as (r & Er & Hr & Tr).
      rewrite Er. cbn [mbind outcome_bind].
      destruct (td_add_spec _ r Hv Hr) as [Hadd Tadd].
      eexists. split; [reflexivity|]. split; [exact Hadd|]. rewrite Tadd, Ht, Tr, Eov, Etot.
      rewrite <- Z.add_mod by (unfold range; rewrite one_second; lia). f_equal. lia.
Qed.

Lemma power_of_ten_spec (n : nat) :
  forall m, 0 <= m -> m * 10 ^ Z.of_nat n < 2 ^ 64 -> power_of_ten n m = m * 10 ^ Z.of_nat n.
Proof.
  induction n as [|n IH]; intros m Hm Hb; cbn [power_of_ten]; [lia|].
  rewrite Nat2Z.inj_succ, Z.pow_succ_r in * by lia.
  assert (0 < 10 ^ Z.of_nat n) by (apply Z.pow_pos_nonneg; lia).
  rewrite u64_small by nia. rewrite IH by nia. lia.
Qed.

Lemma power_of_ten_exact (unit : Z) : 0 <= unit <= 18 -> power_of_ten (Z.to_nat unit) 1 = 10 ^ unit.
Proof.
  intros Hu. pose proof (Z.pow_le_mono_r 10 unit 18 ltac:(lia) ltac:(lia)) as Hle.
  change (10 ^ 18) with 1000000000000000000 in Hle.
  rewrite power_of_ten_spec; rewrite ?Z2Nat.id, ?Z.mul_1_l by lia; [done|lia|lia].
Qed.

(** C22: Duration arithmetic: a duration made from any two 64-bit numbers is sanitised, and
    sums, differences and products with a 64-bit factor of sanitised durations are sanitised
    and exact in attoseconds, modulo 2^64 seconds: also the products whose fractions need 128
    bits, for which the recursion of operator*= ends; and durations compare like their
    numbers of attoseconds. *)
Theorem duration_arithmetic (a b : TimeDuration) (s f k : Z) :
  valid a -> valid b -> 0 <= s < 2 ^ 64 -> 0 <= f < 2 ^ 64 -> 0 <= k < 2 ^ 64 ->
  (valid (make s f) /\ total (make s f) = (s * m_oneSecondInAtto + f) mod range) /\
  (valid (td_add a b) /\ total (td_add a b) = (total a + total b) mod range) /\
  (valid (td_sub a b) /\ total (td_sub a b) = (total a - total b) mod range) /\
  (exists r, operator_mul a k = Ret r /\ valid r /\ total r = (total a * k) mod range) /\
  td_eq a b = (total a =? total b) /\ td_lt a b = (total a <? total b) /\
  td_le a b = (total a <=? total b).
Proof.
  intros Ha Hb Hs Hf Hk. split; [by apply sanitize_spec|]. split; [by apply td_add_spec|].
  split; [by apply td_sub_spec|]. split; [by apply (td_mul_spec 64)|].
  destruct Ha as [Ha Ha'], Hb as [Hb Hb']. unfold td_eq, td_lt, td_le, td_gt, total.
  rewrite one_second in *. split_and!; apply eq_true_iff_eq;
    rewrite ?negb_true_iff, ?orb_false_iff, ?andb_false_iff, ?orb_true_iff, ?andb_true_iff,
      ?Z.eqb_eq, ?Z.ltb_lt, ?Z.leb_le, ?Z.ltb_ge, ?Z.eqb_neq; lia.
Qed.

Lemma duration_arithmetic_witness :
  let a := make 3 (2 ^ 63) in
  exists r, operator_mul a (2 ^ 40) = Ret r /\ valid r /\ total r = (total a * 2 ^ 40) mod range.
Proof.
  intros a. assert (valid a) as Ha by (apply sanitize_spec; lia).
  destruct (duration_arithmetic a a 0 0 (2 ^ 40) Ha Ha) as (_ & _ & _ & H & _); [lia..|exact H].
Defined.

(** The getters take a duration apart without loss: days, hours below 24, minutes below
    60 and seconds below 60 add up to the seconds (the totals count whole hours and minutes),
    and the fractions in a unit are the attoseconds without the digits below the unit. *)
Theorem duration_parts (t : TimeDuration) (unit : Z) :
  valid t -> 0 <= unit <= 18 ->
  m_Seconds t = DAY * getDays t + HOUR * getHours t + MINUTE * getMinutes t + getSeconds t /\
  0 <= getHours t < 24 /\ 0 <= getMinutes t < 60 /\ 0 <= getSeconds t < 60 /\
  getTotalHours t = 24 * getDays t + getHours t /\
  getTotalMinutes t = 60 * getTotalHours t + getMinutes t /\
  getFractions unit t * 10 ^ unit <= m_Fractions t < (getFractions unit t + 1) * 10 ^ unit.
Proof.
  intros [Hs Hf] Hu. unfold getDays, getHours, getMinutes, getSeconds, getTotalHours, getTotalMinutes,
    DAY, HOUR, MINUTE.
  split_and!.
  1-9: Z.to_euclidean_division_equations; lia.
  all: unfold getFractions; rewrite power_of_ten_exact by lia;
    pose proof (Z.div_mod (m_Fractions t) (10 ^ unit) ltac:(apply Z.pow_nonzero; lia));
    pose proof (Z.mod_pos_bound (m_Fractions t) (10 ^ unit) ltac:(apply Z.pow_pos_nonneg; lia)); lia.
Qed.

Lemma duration_parts_witness :
  let t := make 100000 123456789000000000 in
  getDays t = 1 /\ getHours t = 3 /\ getMinutes t = 46 /\ getSeconds t = 40 /\
  getFractions MICROSEC t * 10 ^ MICROSEC <= m_Fractions t.
Proof.
  intros t. destruct (duration_parts t MICROSEC) as (_ & _ & _ & _ & _ & _ & H & _);
    [apply sanitize_spec; lia|unfold MICROSEC; lia|]. split_and!; [reflexivity..|exact H].
Defined.

(** C36: Storing a duration in a Hash keeps it only if it is shorter than a minute: toHash
    stores getSeconds, the seconds within the minute, and fromHash takes them for all of the
    seconds. *)
Theorem duration_hash (t : TimeDuration) :
  valid t ->
  exists h, toHash t [] = (h, Ret tt) /\
    fromHash h = Ret (mkTimeDuration (m_Seconds t mod 60) (m_Fractions t)) /\
    (fromHash h = Ret t <-> m_Seconds t < 60).
Proof.
  intros [Hs Hf]. eexists. split; [reflexivity|].
  assert (m_Fractions t / power_of_ten (Z.to_nat ATTOSEC) 1 = m_Fractions t) as E by apply Z.div_1_r.
  match goal with |- fromHash ?h = _ /\ _ => assert (fromHash h =
    Ret (sanitize (m_Seconds t mod 60) (m_Fractions t / power_of_ten (Z.to_nat ATTOSEC) 1))) as F by reflexivity end.
  rewrite F, E. unfold sanitize. rewrite (proj2 (Z.leb_gt _ _)) by lia. split; [done|].
  destruct t as [sec frac]. cbn [m_Seconds m_Fractions] in *. split.
  - intros [= Hm]. rewrite <- Hm. apply Z.mod_pos_bound. lia.
  - intros Hlt. by rewrite Z.mod_small by lia.
Qed.

Lemma duration_hash_witness :
  exists h, toHash (make 61 5) [] = (h, Ret tt) /\ fromHash h = Ret (mkTimeDuration 1 5).
Proof.
  destruct (duration_hash (make 61 5)) as (h & E & F & _); [apply sanitize_spec; lia|].
  exists h. split; [exact E|exact F].
Defined.

(** The two sub functions differ: sub(seconds, fractions) subtracts, but sub with days,
    hours and minutes sets the seconds to the given time instead of subtracting it, whatever
    they were before; only the fractions are subtracted. *)
Theorem sub_days_assigns (t : TimeDuration) (days hours minutes s f d : Z) :
  valid t -> days_to_seconds days hours minutes s = Ret d -> 0 <= f < m_oneSecondInAtto ->
  0 <= s < 2 ^ 64 ->
  total (sub s f t) = (total t - (s * m_oneSecondInAtto + f)) mod range /\
  exists r, sub_days days hours minutes s f t = Ret r /\
    total r = (d * m_oneSecondInAtto + m_Fractions t - f) mod range.
Proof.
  intros Hv Hd Hf Hs. assert (0 <= d < 2 ^ 64) as Hdr.
  { unfold days_to_seconds in Hd. outcome_inv. apply u64_bound. }
  split.
  - apply (td_sub_spec t (mkTimeDuration s f)); [exact Hv|split; cbn; lia].
  - unfold sub_days. rewrite Hd. eexists. split; [reflexivity|].
    destruct (td_sub_spec (mkTimeDuration d (m_Fractions t)) (mkTimeDuration 0 f)) as [_ H].
    + destruct Hv. split; cbn; lia.
    + split; cbn; lia.
    + rewrite H. f_equal; unfold total; cbn; lia.
Qed.

Lemma sub_days_assigns_witness :
  exists r, sub_days 0 0 1 0 0 (make 3600 0) = Ret r /\ total r = 60 * m_oneSecondInAtto /\
    total (td_sub (make 3600 0) (make 60 0)) = 3540 * m_oneSecondInAtto.
Proof.
  destruct (sub_days_assigns (make 3600 0) 0 0 1 0 0 60) as (_ & r & E & T);
    [apply sanitize_spec; lia|reflexivity|rewrite one_second; lia|lia|].
  exists r. split; [exact E|]. rewrite T. rewrite one_second. split; reflexivity.
Defined.
