(* ===== verification/Epochstamp.v ===== *)
(** Points in time (data/time/Epochstamp.hh, Epochstamp.cc), train ids (TimeId.cc), both
    together (Timestamp.cc), and periods of time (TimePeriod.cc), with their representation
    as attributes of a Hash node.  The current time (now) is an argument. *)

From Stdlib Require Import ZArith Lia Ascii String.
From stdpp Require Import base numbers list strings gmap.
From S2P Require Import Prelude Types Strings OrderedMap Hash HashAccess TimeDuration.
Import Types.

Open Scope Z_scope.

(** m_seconds, m_fractionalSeconds; the constructor takes them as they are. *)
Record Epochstamp := mkEpochstamp { seconds : Z; fractionalSeconds : Z }.

#[export] Instance Epochstamp_eq_dec : EqDecision Epochstamp.
Proof. solve_decision. Defined.

(** From time_t, timeval (seconds and microseconds) and timespec (nanoseconds), which are
    signed 64-bit integers. *)
Definition of_time_t (tm : Z) : Epochstamp := mkEpochstamp (u64 tm) 0.
Definition of_timeval (tv_sec tv_usec : Z) : Epochstamp :=
  mkEpochstamp (u64 tv_sec) (u64 (tv_usec * 1000000000000)).
Definition of_timespec (tv_sec tv_nsec : Z) : Epochstamp :=
  mkEpochstamp (u64 tv_sec) (u64 (tv_nsec * 1000000000)).

(** [long] arithmetic, whose overflow is undefined. *)
Definition long_op (z : Z) : outcome Z :=
  if (- 2 ^ 63 <=? z) && (z <? 2 ^ 63) then Ret z else Undef.

(** operator= from the same types: the enumerators MICROSEC and NANOSEC are numbers of zeros. *)
Definition assign_time_t (tm : Z) : Epochstamp := mkEpochstamp (u64 tm) 0.
Definition assign_timeval (tv_sec tv_usec : Z) : outcome Epochstamp :=
  f ← long_op (tv_usec * MICROSEC); Ret (mkEpochstamp (u64 tv_sec) (u64 f)).
Definition assign_timespec (tv_sec tv_nsec : Z) : Epochstamp :=
  mkEpochstamp (u64 tv_sec) (u64 (u64 tv_nsec * NANOSEC)).

(** To the same types *)
Definition getTime (e : Epochstamp) : Z := to_signed 64 (seconds e).
Definition getTimeOfDay (e : Epochstamp) : Z * Z :=
  (to_signed 64 (seconds e), to_signed 64 (fractionalSeconds e / 1000000000000)).
Definition getClockTime (e : Epochstamp) : Z * Z :=
  (to_signed 64 (seconds e), to_signed 64 (fractionalSeconds e / 1000000000)).

(** Comparison *)
Definition e_eq (lhs rhs : Epochstamp) : bool :=
  (fractionalSeconds lhs =? fractionalSeconds rhs) && (seconds lhs =? seconds rhs).
Definition e_ne (lhs rhs : Epochstamp) : bool :=
  negb (fractionalSeconds lhs =? fractionalSeconds rhs) || negb (seconds lhs =? seconds rhs).
Definition e_gt (lhs rhs : Epochstamp) : bool :=
  (seconds rhs <? seconds lhs)
  || ((seconds lhs =? seconds rhs) && (fractionalSeconds rhs <? fractionalSeconds lhs)).
Definition e_ge (lhs rhs : Epochstamp) : bool :=
  (seconds rhs <? seconds lhs)
  || ((seconds lhs =? seconds rhs) && (fractionalSeconds rhs <=? fractionalSeconds lhs)).
Definition e_lt (lhs rhs : Epochstamp) : bool :=
  (seconds lhs <? seconds rhs)
  || ((seconds lhs =? seconds rhs) && (fractionalSeconds lhs <? fractionalSeconds rhs)).
Definition e_le (lhs rhs : Epochstamp) : bool :=
  (seconds lhs <? seconds rhs)
  || ((seconds lhs =? seconds rhs) && (fractionalSeconds lhs <=? fractionalSeconds rhs)).

(** operator-(Epochstamp), behind the test that swaps the operands *)
Definition ordered_difference (this other : Epochstamp) : TimeDuration :=
  if fractionalSeconds this <? fractionalSeconds other then
    make (u64 (u64 (seconds this - seconds other) - 1))
      (u64 (u64 (m_oneSecondInAtto - fractionalSeconds other) + fractionalSeconds this))
  else make (u64 (seconds this - seconds other)) (u64 (fractionalSeconds this - fractionalSeconds other)).
Definition difference (this other : Epochstamp) : TimeDuration :=
  if e_gt other this then ordered_difference other this else ordered_difference this other.

(** operator+=, operator-= with a duration *)
Definition e_add (this : Epochstamp) (duration : TimeDuration) : Epochstamp :=
  let s := u64 (seconds this + getTotalSeconds duration) in
  let f := u64 (fractionalSeconds this + getFractions ATTOSEC duration) in
  if m_oneSecondInAtto <=? f then mkEpochstamp (u64 (s + 1)) (u64 (f - m_oneSecondInAtto))
  else mkEpochstamp s f.
Definition e_sub (this : Epochstamp) (duration : TimeDuration) : Epochstamp :=
  let s := u64 (seconds this - getTotalSeconds duration) in
  let durAttoSeconds := getFractions ATTOSEC duration in
  if fractionalSeconds this <? durAttoSeconds
  then mkEpochstamp (u64 (s - 1)) (u64 (u64 (m_oneSecondInAtto - durAttoSeconds) + fractionalSeconds this))
  else mkEpochstamp s (u64 (fractionalSeconds this - durAttoSeconds)).

(** elapsed *)
Definition elapsed (this other : Epochstamp) : TimeDuration :=
  if e_lt this other then difference other this else difference this other.

(** The prefix operators ++ and --: their body is [++*this;] ([--*this;]), a call to
    themselves. *)
Fixpoint increment (fuel : nat) (this : Epochstamp) : outcome Epochstamp :=
  match fuel with O => OutOfFuel | S f => increment f this end.

(** ** Attributes *)

(** element.getValue<unsigned long long, long long, unsigned int, int>(): numeric_cast
    refuses negative numbers. *)
Definition getValue_u64 (v : value) : outcome Z :=
  let numeric_cast (z : Z) := if z <? 0 then Throw CastException else Ret z in
  match v with
  | VPod PInt64 z => numeric_cast (to_signed 64 z)
  | VPod PUInt32 z => Ret z
  | VPod PInt32 z => numeric_cast (to_signed 32 z)
  | VPod PUInt64 z => Ret z
  | _ => Throw CastException
  end.

(** attributes.getNode(key) and its value *)
Definition attribute_u64 (key : string) (a : attributes) : outcome Z :=
  match afind key a with Some x => getValue_u64 x.2 | None => Throw ParameterException end.

(** Epochstamp *)
Definition epoch_in_attributes (a : attributes) : bool := ahas "sec" a && ahas "frac" a.
Definition epoch_fromHashAttributes (a : attributes) : outcome Epochstamp :=
  '(s, f) ← rethrow_as ParameterException
    (s ← attribute_u64 "sec" a; f ← attribute_u64 "frac" a; Ret (s, f));
  Ret (mkEpochstamp s f).
Definition epoch_toHashAttributes (e : Epochstamp) (a : attributes) : attributes :=
  aset "frac" (VPod PUInt64 (fractionalSeconds e)) (aset "sec" (VPod PUInt64 (seconds e)) a).

(** TimeId *)
Definition tid_in_attributes (a : attributes) : bool := ahas "tid" a.
Definition tid_fromHashAttributes (a : attributes) : outcome Z :=
  rethrow_as ParameterException (attribute_u64 "tid" a).
Definition tid_toHashAttributes (tid : Z) (a : attributes) : attributes := aset "tid" (VPod PUInt64 tid) a.

(** Timestamp: an Epochstamp and a TimeId *)
Record Timestamp := mkTimestamp { m_epochstamp : Epochstamp; m_timeId : Z }.
Definition timestamp_in_attributes (a : attributes) : bool := epoch_in_attributes a && tid_in_attributes a.
Definition timestamp_fromHashAttributes (a : attributes) : outcome Timestamp :=
  e ← epoch_fromHashAttributes a; t ← tid_fromHashAttributes a; Ret (mkTimestamp e t).
Definition timestamp_toHashAttributes (t : Timestamp) (a : attributes) : attributes :=
  tid_toHashAttributes (m_timeId t) (epoch_toHashAttributes (m_epochstamp t) a).
Definition timestamp_eq (lhs rhs : Timestamp) : bool :=
  e_eq (m_epochstamp lhs) (m_epochstamp rhs) && (m_timeId lhs =? m_timeId rhs).

(** ** TimePeriod *)

Record TimePeriod := mkTimePeriod { m_Open : bool; m_Start : Epochstamp; m_Stop : Epochstamp }.

(** The default constructor leaves both stamps at the current time. *)
Definition new_period (now1 now2 : Epochstamp) : TimePeriod := mkTimePeriod false now1 now2.
Definition period (start stop : Epochstamp) : TimePeriod := mkTimePeriod false start stop.

(** [TimeDuration(-1, -1)] for an open period *)
Definition getDuration (p : TimePeriod) : TimeDuration :=
  if m_Open p then make (u64 (-1)) (u64 (-1)) else difference (m_Stop p) (m_Start p).
Definition start (tm : Epochstamp) (p : TimePeriod) : TimePeriod := mkTimePeriod true tm (m_Stop p).
Definition stop (tm : Epochstamp) (p : TimePeriod) : TimePeriod := mkTimePeriod false (m_Start p) tm.
Definition before (p : TimePeriod) (tm : Epochstamp) : bool := negb (m_Open p || e_gt (m_Stop p) tm).
Definition contain (p : TimePeriod) (tm : Epochstamp) : bool :=
  e_ge tm (m_Start p) && (m_Open p || e_le tm (m_Stop p)).
Definition after (p : TimePeriod) (tm : Epochstamp) : bool := e_ge (m_Start p) tm.

Definition period_fromHash (h : hash) : outcome TimePeriod :=
  n ← getNode "KRB_start" k_defaultSep h;
  start ← epoch_fromHashAttributes (nAttrs n);
  n ← getNode "KRB_stop" k_defaultSep h;
  stop ← epoch_fromHashAttributes (nAttrs n);
  b ← has "KRB_open" k_defaultSep h;
  open ← (if b : bool then get (Tscalar bool_) "KRB_open" k_defaultSep h else Ret (VBool false));
  match open with VBool o => Ret (mkTimePeriod o start stop) | _ => Undef end.

Definition period_toHash (p : TimePeriod) (h : hash) : effect unit :=
  let '(h, r) := set "KRB_start" (VString "") k_defaultSep h in
  eval r h (fun _ =>
    let now := epoch_toHashAttributes (m_Start p) [] in
    let '(h, r) := setAttributes_path "KRB_start" now k_defaultSep h in
    eval r h (fun _ =>
      let '(h, r) := set "KRB_stop" (VString "") k_defaultSep h in
      eval r h (fun _ =>
        let now := epoch_toHashAttributes (m_Stop p) now in
        let '(h, r) := setAttributes_path "KRB_stop" now k_defaultSep h in
        eval r h (fun _ =>
          let '(h, r) := set "KRB_open" (VBool (m_Open p)) k_defaultSep h in
          (h, (fun _ => tt) <$> r))))).

(** ** Points in time as numbers of attoseconds *)

Definition e_total (e : Epochstamp) : Z := seconds e * m_oneSecondInAtto + fractionalSeconds e.
Definition e_valid (e : Epochstamp) : Prop :=
  0 <= seconds e < 2 ^ 64 /\ 0 <= fractionalSeconds e < m_oneSecondInAtto.

(** An Epochstamp has the same arithmetic as a duration. *)
Definition since_epoch (e : Epochstamp) : TimeDuration := mkTimeDuration (seconds e) (fractionalSeconds e).

Lemma getFractions_attosec (t : TimeDuration) : getFractions ATTOSEC t = m_Fractions t.
Proof. apply Z.div_1_r. Qed.

Lemma since_epoch_add (e : Epochstamp) (d : TimeDuration) : since_epoch (e_add e d) = td_add (since_epoch e) d.
Proof. unfold e_add, td_add, since_epoch. rewrite getFractions_attosec. cbn. by destruct (_ <=? _). Qed.

Lemma since_epoch_sub (e : Epochstamp) (d : TimeDuration) : since_epoch (e_sub e d) = td_sub (since_epoch e) d.
Proof. unfold e_sub, td_sub, since_epoch. rewrite getFractions_attosec. cbn. by destruct (_ <? _). Qed.

Lemma e_total_inj (a b : Epochstamp) : e_valid a -> e_valid b -> e_total a = e_total b -> a = b.
Proof.
  intros Ha Hb E. pose proof (total_inj (since_epoch a) (since_epoch b) Ha Hb E) as [= ? ?].
  destruct a, b; cbn in *; congruence.
Qed.

Lemma e_compare (a b : Epochstamp) :
  e_valid a -> e_valid b ->
  e_eq a b = (e_total a =? e_total b) /\ e_lt a b = (e_total a <? e_total b) /\
  e_le a b = (e_total a <=? e_total b) /\ e_gt a b = (e_total b <? e_total a) /\
  e_ge a b = (e_total b <=? e_total a).
Proof.
  intros [Ha Ha'] [Hb Hb']. unfold e_eq, e_lt, e_le, e_gt, e_ge, e_total. rewrite one_second in *.
  split_and!; apply eq_true_iff_eq; rewrite ?orb_true_iff, ?andb_true_iff, ?Z.eqb_eq, ?Z.ltb_lt, ?Z.leb_le; lia.
Qed.

Lemma ordered_difference_spec (a b : Epochstamp) :
  e_valid a -> e_valid b -> e_total b <= e_total a ->
  valid (ordered_difference a b) /\ total (ordered_difference a b) = e_total a - e_total b.
Proof.
  intros [Ha Ha'] [Hb Hb'] Hle. unfold ordered_difference, e_total in *. rewrite one_second in *.
  assert (forall s f, 0 <= s < 2 ^ 64 -> 0 <= f < 1000000000000000000 ->
    valid (make s f) /\ total (make s f) = s * 1000000000000000000 + f) as Hmake.
  { intros s f Hs Hf. unfold make, sanitize. rewrite one_second, (proj2 (Z.leb_gt _ _)) by lia.
    unfold valid, total. cbn. by rewrite one_second. }
  destruct (Z.ltb_spec (fractionalSeconds a) (fractionalSeconds b)).
  - rewrite (u64_small (seconds a - _)), (u64_small (_ - 1)), (u64_small (1000000000000000000 - _)),
      (u64_small (_ + fractionalSeconds a)) by lia.
    destruct (Hmake (seconds a - seconds b - 1) (1000000000000000000 - fractionalSeconds b + fractionalSeconds a))
      as [Hv ->]; [lia|lia|]. split; [exact Hv|lia].
  - rewrite (u64_small (seconds a - _)), (u64_small (fractionalSeconds a - _)) by lia.
    destruct (Hmake (seconds a - seconds b) (fractionalSeconds a - fractionalSeconds b))
      as [Hv ->]; [lia|lia|]. split; [exact Hv|lia].
Qed.

Lemma difference_spec (a b : Epochstamp) :
  e_valid a -> e_valid b ->
  valid (difference a b) /\ total (difference a b) = Z.abs (e_total a - e_total b).
Proof.
  intros Ha Hb. unfold difference. destruct (e_compare b a Hb Ha) as (_ & _ & _ & -> & _).
  destruct (Z.ltb_spec (e_total a) (e_total b)).
  - destruct (ordered_difference_spec b a Hb Ha) as [Hv ->]; [lia|]. split; [exact Hv|lia].
  - destruct (ordered_difference_spec a b Ha Hb) as [Hv ->]; [lia|]. split; [exact Hv|lia].
Qed.

(** C23: Arithmetic with points in time is exact in attoseconds: the difference of two is
    always the positive distance, whichever is the later one, and so is what elapsed gives; a
    duration added or subtracted moves the point by it (modulo 2^64 seconds); subtracting
    undoes adding, and where nothing overflows the difference gives the duration back; the
    comparison operators compare the points in time. *)
Theorem epoch_arithmetic (a b : Epochstamp) (d : TimeDuration) :
  e_valid a -> e_valid b -> valid d ->
  (valid (difference a b) /\ total (difference a b) = Z.abs (e_total a - e_total b)) /\
  elapsed a b = difference a b /\
  (e_valid (e_add a d) /\ e_total (e_add a d) = (e_total a + total d) mod range) /\
  (e_valid (e_sub a d) /\ e_total (e_sub a d) = (e_total a - total d) mod range) /\
  e_sub (e_add a d) d = a /\
  (e_total a + total d < range -> difference (e_add a d) a = d) /\
  (e_le a b = true -> e_add a (difference b a) = b) /\
  e_eq a b = (e_total a =? e_total b) /\ e_lt a b = (e_total a <? e_total b) /\
  e_le a b = (e_total a <=? e_total b).
Proof.
  intros Ha Hb Hd. destruct (e_compare a b Ha Hb) as (Ceq & Clt & Cle & _ & _).
  destruct (difference_spec a b Ha Hb) as [Dv Dt]. destruct (difference_spec b a Hb Ha) as [Dv' Dt'].
  assert (forall e d, e_valid e -> valid d ->
    e_valid (e_add e d) /\ e_total (e_add e d) = (e_total e + total d) mod range) as Hadd.
  { intros e d' He Hd'. pose proof (td_add_spec (since_epoch e) d' He Hd') as H. by rewrite <- since_epoch_add in H. }
  assert (forall e d, e_valid e -> valid d ->
    e_valid (e_sub e d) /\ e_total (e_sub e d) = (e_total e - total d) mod range) as Hsub.
  { intros e d' He Hd'. pose proof (td_sub_spec (since_epoch e) d' He Hd') as H. by rewrite <- since_epoch_sub in H. }
  destruct (Hadd a d Ha Hd) as [Av At]. destruct (Hsub _ d Av Hd) as [Sv St].
  pose proof (total_bound (since_epoch a) Ha : 0 <= e_total a < range) as Ba.
  pose proof (total_bound (since_epoch b) Hb : 0 <= e_total b < range) as Bb.
  pose proof (total_bound d Hd) as Bd. split; [done|]. split.
  { unfold elapsed. rewrite Clt. destruct (Z.ltb_spec (e_total a) (e_total b)); [|done].
    apply total_inj; [done..|]. rewrite Dt, Dt'. lia. }
  split; [done|]. split; [by apply Hsub|]. split.
  { apply e_total_inj; [done..|]. rewrite St, At, Zminus_mod_idemp_l.
    replace (e_total a + total d - total d) with (e_total a) by lia. by apply Z.mod_small. }
  split.
  { intros Hlt. destruct (difference_spec (e_add a d) a Av Ha) as [Fv Ft].
    apply total_inj; [done..|]. rewrite Ft, At, Z.mod_small by lia. lia. }
  split; [|done]. rewrite Cle. intros Hle%Z.leb_le. destruct (Hadd a (difference b a) Ha Dv') as [Bv Bt].
  apply e_total_inj; [done..|]. rewrite Bt, Dt', Z.mod_small; lia.
Qed.

Lemma epoch_arithmetic_witness :
  let a := mkEpochstamp 10 999999999999999999 in let b := mkEpochstamp 12 1 in
  difference a b = mkTimeDuration 1 2 /\ e_add a (difference b a) = b.
Proof.
  intros a b. split; [reflexivity|].
  destruct (epoch_arithmetic a b (mkTimeDuration 0 1)) as (_ & _ & _ & _ & _ & _ & H & _);
    [split; cbn; rewrite ?one_second; lia..|]. apply H. reflexivity.
Defined.

(** Time information in attributes: what a Timestamp writes into any attributes is found
    there and read back unchanged, other attributes keep their values; a missing or
    negative or otherwise unusable number is reported as a ParameterException and nothing
    else. *)
Theorem timestamp_attributes (t : Timestamp) (a : attributes) (key : string) :
  timestamp_in_attributes (timestamp_toHashAttributes t a) = true /\
  timestamp_fromHashAttributes (timestamp_toHashAttributes t a) = Ret t /\
  (key <> "sec" -> key <> "frac" -> key <> "tid" ->
    afind key (timestamp_toHashAttributes t a) = afind key a)%string /\
  match timestamp_fromHashAttributes a with
  | Ret _ => timestamp_in_attributes a = true
  | Throw e => e = ParameterException
  | _ => False
  end.
Proof.
  unfold timestamp_in_attributes, epoch_in_attributes, tid_in_attributes, ahas,
    timestamp_toHashAttributes, tid_toHashAttributes, epoch_toHashAttributes,
    timestamp_fromHashAttributes, epoch_fromHashAttributes, tid_fromHashAttributes, attribute_u64.
  rewrite !afind_set.
  repeat (rewrite decide_True by done || rewrite decide_False by done).
  destruct t as [[s f] tid]. cbn. split; [done|]. split; [done|]. split.
  - intros H1 H2 H3. by rewrite !decide_False by done.
  - assert (forall v, match getValue_u64 v with Ret _ => True | Throw e => is_karabo_exception e = true | _ => False end)
      as Hg by (intros v; unfold getValue_u64; destruct v as [|[]| | | | | | | | | | | | | | | | ]; cbn; try done; by destruct (_ <? _)).
    assert (forall key : string, match afind key a with
      | Some x => match getValue_u64 x.2 with Ret _ => True | Throw e => is_karabo_exception e = true | _ => False end
      | None => True end) as Ha by (intros k; destruct (afind k a); [apply Hg|exact I]).
    pose proof (Ha "sec"%string) as Hsec. pose proof (Ha "frac"%string) as Hfrac. pose proof (Ha "tid"%string) as Htid.
    destruct (afind "sec" a) as [x|]; cbn; [|done].
    destruct (getValue_u64 x.2); cbn; try done; [|by rewrite Hsec].
    destruct (afind "frac" a) as [y|]; cbn; [|done].
    destruct (getValue_u64 y.2); cbn; try done; [|by rewrite Hfrac].
    destruct (afind "tid" a) as [z|]; cbn; [|done].
    destruct (getValue_u64 z.2); cbn; try done. by rewrite Htid.
Qed.

Lemma timestamp_attributes_witness :
  let a := [("unit"%string, VNone); ("tid"%string, VPod PInt32 5)] in
  afind "unit" (timestamp_toHashAttributes (mkTimestamp (mkEpochstamp 1 2) 3) a) = Some ("unit"%string, VNone).
Proof.
  intros a. destruct (timestamp_attributes (mkTimestamp (mkEpochstamp 1 2) 3) a "unit") as (_ & _ & H & _).
  rewrite H by discriminate. reflexivity.
Defined.

(** Assigning a timeval keeps its microseconds only as twelve attoseconds each (the
    enumerator MICROSEC is a number of zeros), while constructing from it converts them: the
    results differ unless the microseconds are zero. *)
Theorem assign_timeval_wrong (tv_sec tv_usec : Z) :
  0 <= tv_usec < 1000000 ->
  of_timeval tv_sec tv_usec = mkEpochstamp (u64 tv_sec) (tv_usec * 10 ^ MICROSEC) /\
  assign_timeval tv_sec tv_usec = Ret (mkEpochstamp (u64 tv_sec) (12 * tv_usec)) /\
  (assign_timeval tv_sec tv_usec = Ret (of_timeval tv_sec tv_usec) <-> tv_usec = 0).
Proof.
  intros Hu. unfold of_timeval, assign_timeval, long_op, MICROSEC. change (10 ^ 12) with 1000000000000.
  rewrite (u64_small (tv_usec * 1000000000000)) by lia.
  rewrite (proj2 (Z.leb_le _ _)), (proj2 (Z.ltb_lt _ _)) by lia. cbn [andb mbind outcome_bind].
  rewrite (u64_small (tv_usec * 12)) by lia.
  split; [done|]. split; [do 2 f_equal; lia|]. split; [intros [= H]; lia|intros ->; done].
Qed.

Lemma assign_timeval_wrong_witness :
  assign_timeval 7 500000 = Ret (mkEpochstamp 7 6000000) /\ of_timeval 7 500000 = mkEpochstamp 7 500000000000000000.
Proof.
  destruct (assign_timeval_wrong 7 500000) as (E1 & E2 & _); [lia|].
  split; [exact E2|exact E1].
Defined.

(** A period that is started and stopped: it is open from start to stop, and while it is
    open it contains every later time and lies before none; when closed with its start not
    behind its stop its length is the distance of the two, every time is before, in or behind
    it, and both limits are in it; and it survives being stored in a Hash. *)
Theorem period_lifecycle (p : TimePeriod) (a b tm : Epochstamp) :
  e_valid a -> e_valid b -> e_valid tm -> e_le a b = true ->
  let opened := start a p in let closed := stop b opened in
  m_Open opened = true /\ contain opened tm = e_ge tm a /\ before opened tm = false /\
  m_Open closed = false /\ total (getDuration closed) = e_total b - e_total a /\
  (before closed tm || contain closed tm || after closed tm) = true /\
  contain closed a = true /\ contain closed b = true /\
  exists h, period_toHash p [] = (h, Ret tt) /\ period_fromHash h = Ret p.
Proof.
  intros Ha Hb Ht Hle opened closed. destruct (e_compare a b Ha Hb) as (_ & _ & Cle & _ & _).
  rewrite Cle in Hle. apply Z.leb_le in Hle. unfold contain, before, after, getDuration, opened, closed, start, stop.
  cbn [m_Open m_Start m_Stop orb negb]. rewrite !andb_true_r.
  change (m_Start opened) with a.   destruct (difference_spec b a Hb Ha) as [_ ->].
  destruct (e_compare b tm Hb Ht) as (_ & _ & _ & -> & _).
  destruct (e_compare tm a Ht Ha) as (_ & _ & _ & _ & ->).
  destruct (e_compare tm b Ht Hb) as (_ & _ & -> & _ & _).
  destruct (e_compare a tm Ha Ht) as (_ & _ & _ & _ & ->).
  destruct (e_compare a a Ha Ha) as (_ & _ & _ & _ & ->).
  destruct (e_compare b a Hb Ha) as (_ & _ & _ & _ & ->).
  destruct (e_compare b b Hb Hb) as (_ & _ & -> & _ & _). rewrite Cle.
  split_and!; try done.
  - lia.
  - destruct (Z.ltb_spec (e_total tm) (e_total b)), (Z.leb_spec (e_total a) (e_total tm)),
      (Z.leb_spec (e_total tm) (e_total b)), (Z.leb_spec (e_total tm) (e_total a)); cbn; lia.
  - rewrite Z.leb_refl. by apply Z.leb_le.
  - rewrite Z.leb_refl, andb_true_r. by apply Z.leb_le.
  - destruct p as [o [s1 f1] [s2 f2]]. eexists. split; reflexivity.
Qed.

Lemma period_lifecycle_witness :
  let p := mkTimePeriod false (mkEpochstamp 0 0) (mkEpochstamp 0 0) in
  total (getDuration (stop (mkEpochstamp 9 5) (start (mkEpochstamp 7 0) p))) = 2 * m_oneSecondInAtto + 5.
Proof.
  intros p. destruct (period_lifecycle p (mkEpochstamp 7 0) (mkEpochstamp 9 5) (mkEpochstamp 8 0))
    as (_ & _ & _ & _ & H & _); [split; cbn; rewrite ?one_second; lia..|reflexivity|].
  rewrite H. reflexivity.
Defined.

(** The prefix operator ++ never returns. *)
Lemma increment_diverges (fuel : nat) (e : Epochstamp) : increment fuel e = OutOfFuel.
Proof. induction fuel as [|f IH]; [done|exact IH]. Qed.
