(* ===== verification/State.v ===== *)
(** The unified states of devices (data/types/State.hh, State.cc): a hierarchy of named
    states, and the table that gives the state of a name. *)

From Stdlib Require Import ZArith Lia Ascii String.
From stdpp Require Import base numbers list strings gmap.
From S2P Require Import Prelude.

Open Scope Z_scope.

(** A State: its name and its parent, if it has one. *)
#[warnings="-register-all"] Inductive State : Type := mkState (m_stateName : string) (m_parent : option State).

Definition name (s : State) : string := let 'mkState n _ := s in n.
Definition parent (s : State) : option State := let 'mkState _ p := s in p.

(** operator==: parents do not matter. *)
Definition state_eq (this state : State) : bool := bool_decide (name this = name state).

Fixpoint isDerivedFrom (this s : State) : bool :=
  if decide (name this = name s) then true
  else match this with mkState _ (Some p) => isDerivedFrom p s | mkState _ None => false end.

(** ** The static states *)

Definition UNKNOWN : State := mkState "UNKNOWN" None.
Definition KNOWN : State := mkState "KNOWN" None.
Definition INIT : State := mkState "INIT" None.
Definition DISABLED : State := mkState "DISABLED" (Some KNOWN).
Definition ERROR : State := mkState "ERROR" (Some KNOWN).
Definition NORMAL : State := mkState "NORMAL" (Some KNOWN).
Definition PAUSED : State := mkState "PAUSED" (Some DISABLED).
Definition RUNNING : State := mkState "RUNNING" (Some NORMAL).
Definition STATIC : State := mkState "STATIC" (Some NORMAL).
Definition CHANGING : State := mkState "CHANGING" (Some NORMAL).
Definition PASSIVE : State := mkState "PASSIVE" (Some STATIC).
Definition ACTIVE : State := mkState "ACTIVE" (Some STATIC).
Definition DECREASING : State := mkState "DECREASING" (Some CHANGING).
Definition INCREASING : State := mkState "INCREASING" (Some CHANGING).
Definition INTERLOCKED : State := mkState "INTERLOCKED" (Some DISABLED).
Definition COOLED : State := mkState "COOLED" (Some ACTIVE).
Definition HEATED : State := mkState "HEATED" (Some ACTIVE).
Definition EVACUATED : State := mkState "EVACUATED" (Some ACTIVE).
Definition CLOSED : State := mkState "CLOSED" (Some ACTIVE).
Definition ON : State := mkState "ON" (Some ACTIVE).
Definition EXTRACTED : State := mkState "EXTRACTED" (Some ACTIVE).
Definition STARTED : State := mkState "STARTED" (Some ACTIVE).
Definition LOCKED : State := mkState "LOCKED" (Some ACTIVE).
Definition ENGAGED : State := mkState "ENGAGED" (Some ACTIVE).
Definition MONITORING : State := mkState "MONITORING" (Some ACTIVE).
Definition WARM : State := mkState "WARM" (Some PASSIVE).
Definition COLD : State := mkState "COLD" (Some PASSIVE).
Definition PRESSURIZED : State := mkState "PRESSURIZED" (Some PASSIVE).
Definition OPENED : State := mkState "OPENED" (Some PASSIVE).
Definition OFF : State := mkState "OFF" (Some PASSIVE).
Definition INSERTED : State := mkState "INSERTED" (Some PASSIVE).
Definition STOPPED : State := mkState "STOPPED" (Some PASSIVE).
Definition UNLOCKED : State := mkState "UNLOCKED" (Some PASSIVE).
Definition DISENGAGED : State := mkState "DISENGAGED" (Some PASSIVE).
Definition IGNORING : State := mkState "IGNORING" (Some PASSIVE).
Definition ACQUIRING : State := mkState "ACQUIRING" (Some RUNNING).
Definition PROCESSING : State := mkState "PROCESSING" (Some RUNNING).
Definition HOMING : State := mkState "HOMING" (Some CHANGING).
Definition ROTATING : State := mkState "ROTATING" (Some CHANGING).
Definition MOVING : State := mkState "MOVING" (Some CHANGING).
Definition SWITCHING : State := mkState "SWITCHING" (Some CHANGING).
Definition OPENING : State := mkState "OPENING" (Some CHANGING).
Definition CLOSING : State := mkState "CLOSING" (Some CHANGING).
Definition SEARCHING : State := mkState "SEARCHING" (Some CHANGING).
Definition HEATING : State := mkState "HEATING" (Some INCREASING).
Definition MOVING_RIGHT : State := mkState "MOVING_RIGHT" (Some INCREASING).
Definition MOVING_UP : State := mkState "MOVING_UP" (Some INCREASING).
Definition MOVING_FORWARD : State := mkState "MOVING_FORWARD" (Some INCREASING).
Definition ROTATING_CLK : State := mkState "ROTATING_CLK" (Some INCREASING).
Definition RAMPING_UP : State := mkState "RAMPING_UP" (Some INCREASING).
Definition INSERTING : State := mkState "INSERTING" (Some INCREASING).
Definition STARTING : State := mkState "STARTING" (Some INCREASING).
Definition FILLING : State := mkState "FILLING" (Some INCREASING).
Definition ENGAGING : State := mkState "ENGAGING" (Some INCREASING).
Definition SWITCHING_ON : State := mkState "SWITCHING_ON" (Some INCREASING).
Definition COOLING : State := mkState "COOLING" (Some DECREASING).
Definition MOVING_LEFT : State := mkState "MOVING_LEFT" (Some DECREASING).
Definition MOVING_DOWN : State := mkState "MOVING_DOWN" (Some DECREASING).
Definition MOVING_BACK : State := mkState "MOVING_BACK" (Some DECREASING).
Definition ROTATING_CNTCLK : State := mkState "ROTATING_CNTCLK" (Some DECREASING).
Definition RAMPING_DOWN : State := mkState "RAMPING_DOWN" (Some DECREASING).
Definition EXTRACTING : State := mkState "EXTRACTING" (Some DECREASING).
Definition STOPPING : State := mkState "STOPPING" (Some DECREASING).
Definition EMPTYING : State := mkState "EMPTYING" (Some DECREASING).
Definition DISENGAGING : State := mkState "DISENGAGING" (Some DECREASING).
Definition SWITCHING_OFF : State := mkState "SWITCHING_OFF" (Some DECREASING).
Definition INTERLOCK_BROKEN : State := mkState "INTERLOCK_BROKEN" (Some DISABLED).
Definition INTERLOCK_OK : State := mkState "INTERLOCK_OK" (Some STATIC).

(** The states in the order of their definitions. *)
Definition all_states : list State :=
  [UNKNOWN; KNOWN; INIT; DISABLED; ERROR; NORMAL; PAUSED; RUNNING; STATIC; CHANGING;
   PASSIVE; ACTIVE; DECREASING; INCREASING; INTERLOCKED; COOLED; HEATED; EVACUATED;
   CLOSED; ON; EXTRACTED; STARTED; LOCKED; ENGAGED; MONITORING; WARM; COLD; PRESSURIZED;
   OPENED; OFF; INSERTED; STOPPED; UNLOCKED; DISENGAGED; IGNORING; ACQUIRING; PROCESSING;
   HOMING; ROTATING; MOVING; SWITCHING; OPENING; CLOSING; SEARCHING; HEATING;
   MOVING_RIGHT; MOVING_UP; MOVING_FORWARD; ROTATING_CLK; RAMPING_UP; INSERTING; STARTING;
   FILLING; ENGAGING; SWITCHING_ON; COOLING; MOVING_LEFT; MOVING_DOWN; MOVING_BACK;
   ROTATING_CNTCLK; RAMPING_DOWN; EXTRACTING; STOPPING; EMPTYING; DISENGAGING;
   SWITCHING_OFF; INTERLOCK_BROKEN; INTERLOCK_OK].

(** initFromString: the states that are inserted into m_stateFactory, each under its name
    as written in the code; an insertion under a name that is there already does nothing. *)
Definition factory_states : list (string * State) :=
  [("UNKNOWN", UNKNOWN); ("KNOWN", KNOWN); ("INIT", INIT); ("DISABLED", DISABLED);
   ("ERROR", ERROR); ("NORMAL", NORMAL); ("PAUSED", PAUSED); ("STATIC", STATIC);
   ("CHANGING", CHANGING); ("RUNNING", RUNNING); ("PASSIVE", PASSIVE); ("ACTIVE", ACTIVE);
   ("DECREASING", DECREASING); ("INCREASING", INCREASING); ("ACQUIRING", ACQUIRING);
   ("PROCESSING", PROCESSING); ("INTERLOCKED", INTERLOCKED); ("COOLED", COOLED);
   ("HEATED", HEATED); ("EVACUATED", EVACUATED); ("CLOSED", CLOSED); ("ON", ON);
   ("EXTRACTED", EXTRACTED); ("STARTED", STARTED); ("LOCKED", LOCKED);
   ("ENGAGED", ENGAGED); ("WARM", WARM); ("COLD", COLD); ("PRESSURIZED", PRESSURIZED);
   ("OPENED", OPENED); ("OFF", OFF); ("INSERTED", INSERTED); ("STOPPED", STOPPED);
   ("UNLOCKED", UNLOCKED); ("DISENGAGED", DISENGAGED); ("ROTATING", ROTATING);
   ("MOVING", MOVING); ("SWITCHING", SWITCHING); ("OPENING", OPENING);
   ("CLOSING", CLOSING); ("HEATING", HEATING); ("MOVING_RIGHT", MOVING_RIGHT);
   ("MOVING_UP", MOVING_UP); ("MOVING_FORWARD", MOVING_FORWARD);
   ("ROTATING_CLK", ROTATING_CLK); ("RAMPING_UP", RAMPING_UP); ("INSERTING", INSERTING);
   ("STARTING", STARTING); ("FILLING", FILLING); ("ENGAGING", ENGAGING);
   ("SWITCHING_ON", SWITCHING_ON); ("COOLING", COOLING); ("MOVING_LEFT", MOVING_LEFT);
   ("MOVING_DOWN", MOVING_DOWN); ("MOVING_BACK", MOVING_BACK);
   ("ROTATING_CNTCLK", ROTATING_CNTCLK); ("RAMPING_DOWN", RAMPING_DOWN);
   ("EXTRACTING", EXTRACTING); ("STOPPING", STOPPING); ("EMPTYING", EMPTYING);
   ("DISENGAGING", DISENGAGING); ("SWITCHING_OFF", SWITCHING_OFF); ("HOMING", HOMING);
   ("MONITORING", MONITORING); ("IGNORING", IGNORING);
   ("INTERLOCK_BROKEN", INTERLOCK_BROKEN); ("INTERLOCK_OK", INTERLOCK_OK);
   ("INTERLOCKED", INTERLOCKED)].

Definition initFromString : gmap string State :=
  foldl (fun m p => match m !! p.1 with Some _ => m | None => <[p.1 := p.2]> m end) ∅ factory_states.

Definition isValid (state : string) : bool :=
  match initFromString !! state with Some _ => true | None => false end.

Definition fromString (state : string) : outcome State :=
  match initFromString !! state with Some s => Ret s | None => Throw LogicException end.

(** ** The hierarchy *)

#[export] Instance State_eq_dec : EqDecision State.
Proof.
  refine (fix go (s t : State) {struct s} : {s = t} + {s <> t} := _).
  destruct s as [n p], t as [m q]. destruct (decide (n = m)); [|right; congruence].
  destruct p as [p|], q as [q|]; try (right; congruence); [|left; congruence].
  destruct (go p q); [left|right]; congruence.
Defined.

(** A state, its parent, the parent of that and so on. *)
Fixpoint ancestors (s : State) : list State :=
  s :: match s with mkState _ (Some p) => ancestors p | mkState _ None => [] end.

Lemma State_parent_ind (P : State -> Prop) :
  (forall n, P (mkState n None)) -> (forall n p, P p -> P (mkState n (Some p))) -> forall s, P s.
Proof. intros H0 H1. fix IH 1. intros [n [p|]]; [apply H1, IH|apply H0]. Qed.

Lemma isDerivedFrom_names (s t : State) : isDerivedFrom s t = true <-> name t ∈ name <$> ancestors s.
Proof.
  induction s as [n|n p IH] using State_parent_ind;
    cbn [isDerivedFrom ancestors fmap list_fmap name]; rewrite elem_of_cons;
    (destruct (decide (n = name t)) as [->|Hn]; [by intuition|]).
  - split; [done|]. intros [?|Hin]; [congruence|]. by apply elem_of_nil in Hin.
  - rewrite IH. intuition congruence.
Qed.

Lemma ancestors_trans (s t u : State) : t ∈ ancestors s -> u ∈ ancestors t -> u ∈ ancestors s.
Proof.
  induction s as [n|n p IH] using State_parent_ind; cbn [ancestors];
    intros Ht; apply elem_of_cons in Ht as [->|Ht]; auto.
  - by apply elem_of_nil in Ht.
  - intros Hu. apply elem_of_cons. right. auto.
Qed.

Lemma ancestors_length (s t : State) : t ∈ ancestors s -> t = s \/ (length (ancestors t) < length (ancestors s))%nat.
Proof.
  induction s as [n|n p IH] using State_parent_ind; cbn [ancestors length];
    intros Ht; apply elem_of_cons in Ht as [->|Ht]; auto; right.
  - by apply elem_of_nil in Ht.
  - destruct (IH Ht) as [->|]; lia.
Qed.

(** The names of the static states are unique, and the parents are static states, too. *)
Lemma states_unique : NoDup (name <$> all_states).
Proof. apply (bool_decide_unpack _). vm_compute. exact I. Qed.

Lemma states_closed (s t : State) : s ∈ all_states -> t ∈ ancestors s -> t ∈ all_states.
Proof.
  assert (Forall (fun s => Forall (fun t => t ∈ all_states) (ancestors s)) all_states) as H
    by (apply (bool_decide_unpack _); vm_compute; exact I).
  rewrite Forall_forall in H. intros Hs Ht. specialize (H s Hs). rewrite Forall_forall in H. auto.
Qed.

Lemma name_inj (s t : State) : s ∈ all_states -> t ∈ all_states -> name s = name t -> s = t.
Proof.
  intros Hs Ht E. apply list_elem_of_lookup in Hs as [i Hi], Ht as [j Hj].
  pose proof (NoDup_lookup _ i j (name s) states_unique) as H.
  rewrite !list_lookup_fmap, Hi, Hj in H. specialize (H eq_refl). cbn in H. rewrite E in H.
  specialize (H eq_refl). congruence.
Qed.

Lemma isDerivedFrom_ancestors (s t : State) :
  s ∈ all_states -> t ∈ all_states -> isDerivedFrom s t = true <-> t ∈ ancestors s.
Proof.
  intros Hs Ht. rewrite isDerivedFrom_names, list_elem_of_fmap. split.
  - intros (u & E & Hu). by rewrite (name_inj t u Ht (states_closed s u Hs Hu) E).
  - intros H. by exists t.
Qed.

(** C33: Among the states of the system, being derived from another state is a partial order,
    and all states but UNKNOWN and INIT are derived from KNOWN. *)
Theorem state_hierarchy (s t u : State) :
  s ∈ all_states -> t ∈ all_states -> u ∈ all_states ->
  isDerivedFrom s s = true /\
  (isDerivedFrom s t = true -> isDerivedFrom t s = true -> s = t) /\
  (isDerivedFrom s t = true -> isDerivedFrom t u = true -> isDerivedFrom s u = true) /\
  (isDerivedFrom s KNOWN = true <-> s <> UNKNOWN /\ s <> INIT).
Proof.
  intros Hs Ht Hu. rewrite !isDerivedFrom_ancestors by done. split_and!.
  - destruct s. cbn. apply elem_of_cons. by left.
  - intros H1 H2. destruct (ancestors_length _ _ H1), (ancestors_length _ _ H2); congruence || lia.
  - apply ancestors_trans.
  - assert (Forall (fun s => isDerivedFrom s KNOWN = true <-> s <> UNKNOWN /\ s <> INIT) all_states) as H
      by (apply (bool_decide_unpack _); vm_compute; exact I).
    rewrite Forall_forall in H. by apply H.
Qed.

Lemma state_hierarchy_witness :
  isDerivedFrom HEATING CHANGING = true /\ isDerivedFrom HEATING KNOWN = true.
Proof.
  assert (HEATING ∈ all_states /\ CHANGING ∈ all_states /\ KNOWN ∈ all_states) as (H1 & H2 & H3)
    by (split_and!; apply (bool_decide_unpack _); vm_compute; exact I).
  destruct (state_hierarchy HEATING CHANGING KNOWN H1 H2 H3) as (_ & _ & Ht & Hk).
  split; [vm_compute; reflexivity|]. apply Ht; vm_compute; reflexivity.
Defined.

(** ** Names *)

Lemma initFromString_spec (text : string) (s : State) :
  initFromString !! text = Some s <-> s ∈ all_states /\ s <> SEARCHING /\ name s = text.
Proof.
  assert (Forall (fun s => s = SEARCHING \/ initFromString !! name s = Some s) all_states) as H1
    by (apply (bool_decide_unpack _); vm_compute; exact I).
  assert (map_Forall (fun text s => s ∈ all_states /\ s <> SEARCHING /\ name s = text) initFromString) as H2
    by (apply (bool_decide_unpack _); vm_compute; exact I).
  split; [apply H2|]. intros (Hs & Hn & <-). rewrite Forall_forall in H1.
  by destruct (H1 s Hs).
Qed.

(** FromString gives the state of a name, for all names but that of SEARCHING; for all
    other texts it throws a LogicException, and isValid tells the two cases apart. *)
Theorem state_names (text : string) (s : State) :
  (fromString text = Ret s <-> s ∈ all_states /\ s <> SEARCHING /\ name s = text) /\
  (isValid text = true <-> exists s, fromString text = Ret s) /\
  (isValid text = false <-> fromString text = Throw LogicException) /\
  fromString (name SEARCHING) = Throw LogicException.
Proof.
  rewrite <- initFromString_spec. unfold fromString, isValid.
  split_and!; [| | |vm_compute; reflexivity]; destruct (initFromString !! text); naive_solver.
Qed.
