(* ===== verification/StateSignifier.v ===== *)
(** The most significant of some states (data/types/StateSignifier.cc): the list of states in
    the order of their significance, how a given list is completed, and the search. *)

From Stdlib Require Import ZArith Lia Ascii String.
From stdpp Require Import base numbers list strings gmap.
From S2P Require Import Prelude State.

Open Scope Z_scope.

(** fillAncestorNames(s, all) *)
Fixpoint fillAncestorNames (s : State) (all : list string) : list string :=
  let all := all ++ [name s] in
  match s with mkState _ (Some p) => fillAncestorNames p all | mkState _ None => all end.

(** The inner loop of rankedAt *)
Fixpoint rank_of_name (n : string) (i : nat) (m_trumpList : list State) : option nat :=
  match m_trumpList with
  | [] => None
  | s :: l => if decide (n = name s) then Some (i + 1)%nat else rank_of_name n (S i) l
  end.

Fixpoint rank_loop (m_trumpList : list State) (allnames : list string) : nat :=
  match allnames with
  | [] => 0
  | n :: ns => match rank_of_name n 0 m_trumpList with
               | Some r => r
               | None => rank_loop m_trumpList ns
               end
  end.

Definition rankedAt (m_trumpList : list State) (s : State) : nat :=
  rank_loop m_trumpList (fillAncestorNames s []).

(** returnMostSignificant *)
Fixpoint significant_loop (m_trumpList : list State) (state : option State) (stateRank : nat)
    (listOfStates : list State) : option State :=
  match listOfStates with
  | [] => state
  | s :: l =>
      let rank := rankedAt m_trumpList s in
      if (stateRank <=? rank)%nat then significant_loop m_trumpList (Some s) rank l
      else significant_loop m_trumpList state stateRank l
  end.

Definition returnMostSignificant (m_trumpList listOfStates : list State) : outcome State :=
  match listOfStates with
  | [] => Throw ParameterException
  | _ => match significant_loop m_trumpList None 0 listOfStates with
         | Some s => Ret s
         | None => Throw ParameterException
         end
  end.

(** ** The list of states *)

Definition inList (list : list State) (s : State) : bool := existsb (fun x => state_eq x s) list.

(** [insert(std::find(begin, end, x), y)] *)
Fixpoint insert_before (x y : State) (l : list State) : list State :=
  match l with
  | [] => [y]
  | z :: l' => if state_eq z x then y :: l else z :: insert_before x y l'
  end.

(** [if (!inList(m_trumpList, y)) m_trumpList.insert(...)] *)
Definition add_missing (x y : State) (l : list State) : list State :=
  if inList l y then l else insert_before x y l.

(** The same for two states [a] and [b], in the order of their significance if none is there;
    in the code for INCREASING and DECREASING, and for ACTIVE and PASSIVE. *)
Definition add_pair (x a b more : State) (l : list State) : list State :=
  if negb (inList l a) && negb (inList l b) then
    if state_eq more b then insert_before x b (insert_before x a l)
    else if state_eq more a then insert_before x a (insert_before x b l)
    else l
  else if negb (inList l a) then insert_before x a l
  else if negb (inList l b) then insert_before x b l
  else l.

Definition initDefaultTrumpList (staticMoreSignificant changingMoreSignificant : State) : list State :=
  [DISABLED; STATIC] ++
  (if state_eq staticMoreSignificant PASSIVE then [ACTIVE; PASSIVE]
   else if state_eq staticMoreSignificant ACTIVE then [PASSIVE; ACTIVE]
   else []) ++
  [RUNNING; PAUSED; CHANGING] ++
  (if state_eq changingMoreSignificant DECREASING then [INCREASING; DECREASING]
   else if state_eq changingMoreSignificant INCREASING then [DECREASING; INCREASING]
   else []) ++
  [INTERLOCKED; ERROR; INIT; UNKNOWN].

Definition completeChangingSubstates (changingMoreSignificant : State) (l : list State) : list State :=
  if inList l CHANGING then add_pair CHANGING INCREASING DECREASING changingMoreSignificant l else l.

Definition completeStaticSubstates (staticMoreSignificant : State) (l : list State) : list State :=
  if inList l STATIC then add_pair STATIC ACTIVE PASSIVE staticMoreSignificant l else l.

Definition completeKnownSubstates (staticMoreSignificant changingMoreSignificant : State)
    (l : list State) : list State :=
  if inList l KNOWN then
    let l := add_missing KNOWN DISABLED l in
    let l := add_pair KNOWN ACTIVE PASSIVE staticMoreSignificant l in
    let l := add_missing KNOWN STATIC l in
    let l := add_pair KNOWN INCREASING DECREASING changingMoreSignificant l in
    let l := add_missing KNOWN RUNNING l in
    let l := add_missing RUNNING PAUSED l in
    let l := add_missing KNOWN CHANGING l in
    let l := add_missing KNOWN INTERLOCKED l in
    add_missing KNOWN ERROR l
  else l.

(** initTrumpList: m_trumpList of the StateSignifier *)
Definition initTrumpList (trumpList : list State)
    (staticMoreSignificant changingMoreSignificant : State) : list State :=
  match trumpList with
  | [] => initDefaultTrumpList staticMoreSignificant changingMoreSignificant
  | _ =>
      completeKnownSubstates staticMoreSignificant changingMoreSignificant
        (completeStaticSubstates staticMoreSignificant
           (completeChangingSubstates changingMoreSignificant trumpList))
  end.

(** ** The search *)

Abbreviation names l := (name <$> l).

Lemma fillAncestorNames_spec (s : State) (all : list string) :
  fillAncestorNames s all = all ++ names (ancestors s).
Proof.
  revert all. induction s as [n|n p IH] using State_parent_ind; intros all; [done|].
  cbn [fillAncestorNames ancestors fmap list_fmap name]. rewrite IH.
  by rewrite <- app_assoc.
Qed.

Lemma rank_of_name_spec (n : string) (l : list State) (i : nat) :
  match rank_of_name n i l with
  | Some r => exists j, r = (i + j + 1)%nat /\ names l !! j = Some n /\ n ∉ take j (names l)
  | None => n ∉ names l
  end.
Proof.
  revert i. induction l as [|s l IH]; intros i; cbn [rank_of_name]; [apply not_elem_of_nil|].
  destruct (decide (n = name s)) as [->|Hn].
  - exists 0%nat. split_and!; [lia|done|apply not_elem_of_nil].
  - specialize (IH (S i)). destruct (rank_of_name n (S i) l) as [r|]; cbn.
    + destruct IH as (j & -> & Hj & Hn'). exists (S j). split_and!; [lia|done|].
      cbn. rewrite not_elem_of_cons. done.
    + rewrite not_elem_of_cons. done.
Qed.

(** What rankedAt computes: the first position of the nearest listed ancestor. *)
Definition ranked (l : list State) (s : State) (r : nat) : Prop :=
  (r = 0%nat /\ forall a, a ∈ ancestors s -> name a ∉ names l) \/
  (exists as1 a as2 j, ancestors s = as1 ++ a :: as2 /\ (forall b, b ∈ as1 -> name b ∉ names l) /\
     r = S j /\ names l !! j = Some (name a) /\ name a ∉ take j (names l)).

Lemma rank_loop_ranked (l : list State) (l1 l2 : list State) :
  (forall a, a ∈ l1 -> name a ∉ names l) ->
  (rank_loop l (names l2) = 0%nat /\ forall a, a ∈ l1 ++ l2 -> name a ∉ names l) \/
  (exists as1 a as2 j, l1 ++ l2 = as1 ++ a :: as2 /\ (forall b, b ∈ as1 -> name b ∉ names l) /\
     rank_loop l (names l2) = S j /\ names l !! j = Some (name a) /\ name a ∉ take j (names l)).
Proof.
  revert l1. induction l2 as [|a l2 IH]; intros l1 H1.
  - left. rewrite app_nil_r. by split.
  - cbn [fmap list_fmap rank_loop]. pose proof (rank_of_name_spec (name a) l 0) as Ha.
    destruct (rank_of_name (name a) 0 l) as [r|].
    + destruct Ha as (j & -> & Hj & Hn). right. exists l1, a, l2, j.
      split_and!; try done. lia.
    + specialize (IH (l1 ++ [a])). rewrite <- app_assoc in IH. apply IH.
      intros b [Hb|Hb%list_elem_of_singleton]%elem_of_app; subst; auto.
Qed.

Lemma rankedAt_ranked (l : list State) (s : State) : ranked l s (rankedAt l s).
Proof.
  unfold rankedAt. rewrite fillAncestorNames_spec. apply (rank_loop_ranked l []).
  intros a Ha. by apply elem_of_nil in Ha.
Qed.

Lemma significant_loop_spec (tl : list State) (l l1 l2 : list State) (s : State) :
  Forall (fun x => rankedAt tl x <= rankedAt tl s)%nat l1 ->
  Forall (fun x => rankedAt tl x < rankedAt tl s)%nat l2 ->
  exists l1' s' l2', l1 ++ s :: l2 ++ l = l1' ++ s' :: l2' /\
    significant_loop tl (Some s) (rankedAt tl s) l = Some s' /\
    Forall (fun x => rankedAt tl x <= rankedAt tl s')%nat l1' /\
    Forall (fun x => rankedAt tl x < rankedAt tl s')%nat l2'.
Proof.
  revert l1 l2 s. induction l as [|x l IH]; intros l1 l2 s H1 H2.
  - exists l1, s, l2. by rewrite app_nil_r.
  - cbn [significant_loop]. destruct (Nat.leb_spec (rankedAt tl s) (rankedAt tl x)) as [Hx|Hx].
    + destruct (IH (l1 ++ s :: l2) [] x) as (l1' & s' & l2' & E & Hs); [|done|].
      * apply Forall_app; split; [|constructor; [done|]];
          [eapply Forall_impl; [exact H1|]|eapply Forall_impl; [exact H2|]]; cbn; lia.
      * exists l1', s', l2'. split; [|done]. rewrite <- E, <- app_assoc. done.
    + destruct (IH l1 (l2 ++ [x]) s) as (l1' & s' & l2' & E & Hs); [done| |].
      * apply Forall_app; split; [done|]. by repeat constructor.
      * exists l1', s', l2'. split; [|done]. rewrite <- E, <- app_assoc. done.
Qed.

(** C26: returnMostSignificant gives, of a list that is not empty, the last one of the states
    with the highest rank; it never reaches its second throw.  The rank of a state is the
    first position, from 1, of the nearest of its ancestors that is listed, and 0 if none is. *)
Theorem most_significant (m_trumpList listOfStates : list State) (s : State) :
  listOfStates <> [] ->
  (exists l1 state l2, listOfStates = l1 ++ state :: l2 /\
     returnMostSignificant m_trumpList listOfStates = Ret state /\
     Forall (fun x => rankedAt m_trumpList x <= rankedAt m_trumpList state)%nat l1 /\
     Forall (fun x => rankedAt m_trumpList x < rankedAt m_trumpList state)%nat l2) /\
  ranked m_trumpList s (rankedAt m_trumpList s).
Proof.
  intros Hl. split; [|apply rankedAt_ranked]. destruct listOfStates as [|x l]; [done|].
  cbn [returnMostSignificant significant_loop].
  destruct (significant_loop_spec m_trumpList l [] [] x) as (l1 & s' & l2 & E & -> & H1 & H2); try done.
  by exists l1, s', l2.
Qed.

Lemma most_significant_witness :
  exists state, returnMostSignificant (initTrumpList [] PASSIVE DECREASING) [ON; HEATING; STOPPED] = Ret state /\
    state = HEATING.
Proof.
  destruct (most_significant (initTrumpList [] PASSIVE DECREASING) [ON; HEATING; STOPPED] ON
              ltac:(discriminate)) as [(l1 & state & l2 & _ & E & _) _].
  exists state. split; [exact E|]. vm_compute in E. injection E as <-. reflexivity.
Defined.

(** The states of no rank are trumped even by DISABLED. *)
Lemma normal_below_disabled :
  rankedAt (initTrumpList [] PASSIVE DECREASING) NORMAL = 0%nat /\
  returnMostSignificant (initTrumpList [] PASSIVE DECREASING) [NORMAL; DISABLED; KNOWN] = Ret DISABLED.
Proof. by split. Qed.

(** ** Completing a list *)

(** The states that may be added. *)
Definition substates : list State :=
  [DISABLED; ACTIVE; PASSIVE; STATIC; INCREASING; DECREASING; RUNNING; PAUSED; CHANGING;
   INTERLOCKED; ERROR].

(** [l'] has the states of [l], in their order, and some of [substates] that are not in [l]. *)
Definition grows (l l' : list State) : Prop :=
  l `sublist_of` l' /\
  (forall s, s ∈ l' -> s ∈ l \/ s ∈ substates) /\
  (NoDup (names l) -> NoDup (names l')).

Lemma grows_refl (l : list State) : grows l l.
Proof. split_and!; auto. Qed.

Lemma grows_trans (l1 l2 l3 : list State) : grows l1 l2 -> grows l2 l3 -> grows l1 l3.
Proof.
  intros (S1 & M1 & N1) (S2 & M2 & N2). split_and!; [by transitivity l2| |auto].
  intros s [H|H]%M2; auto.
Qed.

Lemma inList_names (l : list State) (s : State) : inList l s = true <-> name s ∈ names l.
Proof.
  unfold inList. rewrite existsb_exists, list_elem_of_fmap. unfold state_eq.
  split; intros (x & H1 & H2); exists x.
  - apply bool_decide_eq_true in H2. by rewrite <- list_elem_of_In in H1.
  - rewrite <- list_elem_of_In. split; [done|]. by apply bool_decide_eq_true.
Qed.

Lemma inList_false (l : list State) (s : State) : inList l s = false <-> name s ∉ names l.
Proof. rewrite <- inList_names. by destruct (inList l s). Qed.

Lemma names_grows (l l' : list State) (k : list string) :
  grows l l' -> k `sublist_of` names l -> k `sublist_of` names l'.
Proof. intros (S & _) Hk. transitivity (names l); [done|]. by apply fmap_sublist. Qed.

Lemma inList_grows (l l' : list State) (s : State) : grows l l' -> inList l s = true -> inList l' s = true.
Proof.
  intros (S & _). rewrite !inList_names, !list_elem_of_fmap. intros (x & E & Hx).
  exists x. split; [done|]. by eapply elem_of_sublist.
Qed.

(** Where [insert_before] inserts. *)
Lemma insert_before_split (x y : State) (l : list State) :
  exists l1 l2, l = l1 ++ l2 /\ insert_before x y l = l1 ++ y :: l2 /\ (name x ∉ names l1) /\
    (inList l x = true -> exists z l3, l2 = z :: l3 /\ name z = name x).
Proof.
  induction l as [|z l (l1 & l2 & -> & E & Hn & Hx)]; cbn [insert_before].
  - exists [], []. split_and!; try done. apply not_elem_of_nil.
  - unfold state_eq. case_bool_decide as Hz.
    + exists [], (z :: l1 ++ l2). split_and!; try done; [apply not_elem_of_nil|eauto].
    + exists (z :: l1), l2. rewrite E. split_and!; try done.
      * cbn. rewrite not_elem_of_cons. by split.
      * intros H. apply Hx. cbn [inList existsb app] in H. unfold state_eq in H.
        rewrite bool_decide_eq_false_2 in H by done. done.
Qed.

Lemma inList_insert (x y : State) (l : list State) : inList (insert_before x y l) y = true.
Proof.
  destruct (insert_before_split x y l) as (l1 & l2 & -> & -> & _). apply inList_names.
  rewrite fmap_app. apply elem_of_app. right. apply elem_of_cons. by left.
Qed.

Lemma grows_insert (x y : State) (l : list State) :
  y ∈ substates -> inList l y = false -> grows l (insert_before x y l).
Proof.
  intros Hy Hl. apply inList_false in Hl.
  destruct (insert_before_split x y l) as (l1 & l2 & -> & -> & _). split_and!.
  - apply sublist_app; [done|]. by apply sublist_cons.
  - intros s. rewrite !elem_of_app, elem_of_cons. intuition congruence.
  - rewrite !fmap_app in *. cbn. intros Hd. rewrite <- Permutation_middle. by constructor.
Qed.

Lemma grows_add_missing (x y : State) (l : list State) :
  y ∈ substates -> grows l (add_missing x y l) /\ inList (add_missing x y l) y = true.
Proof.
  intros Hy. unfold add_missing. destruct (inList l y) eqn:E; [by split; [apply grows_refl|]|].
  split; [by apply grows_insert|apply inList_insert].
Qed.

(** [y] stands before the first [x] afterwards. *)
Lemma insert_order (x y : State) (l : list State) :
  inList l x = true -> [name y; name x] `sublist_of` names (insert_before x y l).
Proof.
  intros Hx. destruct (insert_before_split x y l) as (l1 & l2 & -> & -> & _ & Hl2).
  destruct (Hl2 Hx) as (z & l3 & -> & Hz). rewrite fmap_app. cbn. rewrite Hz.
  apply sublist_inserts_l. do 2 apply sublist_skip. apply sublist_nil_l.
Qed.

Lemma insert_two_order (x a b : State) (l : list State) :
  inList l x = true -> name a <> name x ->
  [name a; name b; name x] `sublist_of` names (insert_before x b (insert_before x a l)).
Proof.
  intros Hx Ha. destruct (insert_before_split x a l) as (l1 & l2 & -> & -> & Hn & Hl2).
  destruct (Hl2 Hx) as (z & l3 & -> & Hz). clear Hl2 Hx.
  assert (insert_before x b (l1 ++ a :: z :: l3) = l1 ++ a :: b :: z :: l3) as ->.
  { induction l1 as [|y l1 IH]; cbn.
    - unfold state_eq. rewrite bool_decide_eq_false_2, bool_decide_eq_true_2 by done. done.
    - cbn in Hn. rewrite not_elem_of_cons in Hn. unfold state_eq at 1.
      rewrite bool_decide_eq_false_2 by intuition congruence. rewrite IH; [done|apply Hn]. }
  rewrite fmap_app. cbn. rewrite Hz. apply sublist_inserts_l. do 3 apply sublist_skip. apply sublist_nil_l.
Qed.

Lemma inList_insert_other (x c d : State) (l : list State) :
  inList l d = false -> name c <> name d -> inList (insert_before x c l) d = false.
Proof.
  rewrite !inList_false. intros Hd Hcd.
  destruct (insert_before_split x c l) as (l1 & l2 & -> & -> & _).
  rewrite fmap_app in *. cbn. rewrite elem_of_app, elem_of_cons in *. intuition congruence.
Qed.

Lemma insert_two_spec (x c d : State) (l : list State) :
  c ∈ substates -> d ∈ substates -> name c <> name d -> name c <> name x ->
  inList l x = true -> inList l c = false -> inList l d = false ->
  let l' := insert_before x d (insert_before x c l) in
  grows l l' /\ inList l' c = true /\ inList l' d = true /\ [name c; name d; name x] `sublist_of` names l'.
Proof.
  intros Hc Hd Hcd Hcx Hx Hlc Hld. cbn zeta.
  assert (grows (insert_before x c l) (insert_before x d (insert_before x c l))) as Hg
    by (apply grows_insert; auto using inList_insert_other).
  split_and!; [|eapply inList_grows; [exact Hg|]; apply inList_insert|apply inList_insert
               |by apply insert_two_order].
  eapply grows_trans; [|exact Hg]. by apply grows_insert.
Qed.

(** Two of a kind, and which of them is the more significant one. *)
Definition ordered (a b less more : State) : Prop :=
  (less = a /\ more = b) \/ (less = b /\ more = a).

Lemma add_pair_spec (x a b less more : State) (l : list State) :
  ordered a b less more -> a ∈ substates -> b ∈ substates -> name a <> name b ->
  name a <> name x -> name b <> name x -> inList l x = true ->
  let l' := add_pair x a b more l in
  grows l l' /\ inList l' a = true /\ inList l' b = true /\
  (inList l a = false -> inList l b = false -> [name less; name more; name x] `sublist_of` names l').
Proof.
  intros Ho Ha Hb Hab Hax Hbx Hx. cbn zeta. unfold add_pair.
  destruct (inList l a) eqn:Ea, (inList l b) eqn:Eb; cbn [negb andb].
  - split_and!; try done. apply grows_refl.
  - pose proof (grows_insert x b l Hb Eb) as Hg.
    split_and!; [done|by eapply inList_grows|apply inList_insert|done].
  - pose proof (grows_insert x a l Ha Ea) as Hg.
    split_and!; [done|apply inList_insert|by eapply inList_grows|done].
  - unfold state_eq. destruct Ho as [[-> ->]|[-> ->]].
    + rewrite bool_decide_eq_true_2 by done. by destruct (insert_two_spec x a b l) as (? & ? & ? & ?).
    + rewrite bool_decide_eq_false_2, bool_decide_eq_true_2 by done.
      by destruct (insert_two_spec x b a l) as (? & ? & ? & ?).
Qed.

Lemma inList_add_missing_other (x c d : State) (l : list State) :
  name c <> name d -> inList l d = false -> inList (add_missing x c l) d = false.
Proof. intros Hn Hd. unfold add_missing. destruct (inList l c); auto using inList_insert_other. Qed.

Lemma inList_add_pair_other (x a b more d : State) (l : list State) :
  name a <> name d -> name b <> name d -> inList l d = false -> inList (add_pair x a b more l) d = false.
Proof.
  intros Ha Hb Hd. unfold add_pair.
  repeat case_match; auto using inList_insert_other.
Qed.

(** A list that grew out of [l0] and has all of [known]. *)
Definition completed (l0 l known : list State) : Prop :=
  grows l0 l /\ forall s, s ∈ known -> inList l s = true.

Lemma completed_trans (l0 l l' known new : list State) :
  completed l0 l known -> grows l l' -> (forall s, s ∈ new -> inList l' s = true) ->
  completed l0 l' (new ++ known).
Proof.
  intros [Hg Hk] Hg' Hn. split; [by eapply grows_trans|].
  intros s [Hs|Hs]%elem_of_app; [auto|]. eapply inList_grows; eauto.
Qed.

Lemma completed_missing (l0 l known : list State) (x y : State) :
  y ∈ substates -> completed l0 l known -> completed l0 (add_missing x y l) ([y] ++ known).
Proof.
  intros Hy Hc. destruct (grows_add_missing x y l Hy) as [Hg Hi].
  eapply completed_trans; [done..|]. by intros s ->%list_elem_of_singleton.
Qed.

Lemma completed_pair (l0 l known : list State) (x a b less more : State) :
  ordered a b less more -> a ∈ substates -> b ∈ substates -> name a <> name b ->
  name a <> name x -> name b <> name x -> x ∈ known ->
  completed l0 l known -> completed l0 (add_pair x a b more l) ([a; b] ++ known).
Proof.
  intros Ho Ha Hb Hab Hax Hbx Hx Hc.
  destruct (add_pair_spec x a b less more l) as (Hg & Hia & Hib & _); try done; [by apply Hc|].
  eapply completed_trans; [done..|].
  intros s [Hs|Hs%list_elem_of_singleton]%elem_of_cons; by subst s.
Qed.

Ltac substate := apply (bool_decide_unpack _); vm_compute; exact I.

(** A list with KNOWN has all the substates afterwards. *)
Lemma known_completed (l : list State) (lessStatic moreStatic lessChanging moreChanging : State) :
  ordered ACTIVE PASSIVE lessStatic moreStatic -> ordered INCREASING DECREASING lessChanging moreChanging ->
  inList l KNOWN = true ->
  let l' := completeKnownSubstates moreStatic moreChanging l in
  grows l l' /\ (forall s, s ∈ substates -> inList l' s = true) /\
  (inList l PAUSED = false -> [name PAUSED; name RUNNING] `sublist_of` names l').
Proof.
  intros Hs Hc Hk. cbn zeta. unfold completeKnownSubstates. rewrite Hk.
  assert (completed l l [KNOWN]) as H
    by (split; [apply grows_refl|by intros s ->%list_elem_of_singleton]).
  apply (completed_missing _ _ _ KNOWN DISABLED) in H; [|substate].
  apply (completed_pair _ _ _ KNOWN _ _ _ _ Hs) in H; try substate; try done.
  apply (completed_missing _ _ _ KNOWN STATIC) in H; [|substate].
  apply (completed_pair _ _ _ KNOWN _ _ _ _ Hc) in H; try substate; try done.
  apply (completed_missing _ _ _ KNOWN RUNNING) in H; [|substate].
  assert (inList l PAUSED = false ->
    [name PAUSED; name RUNNING] `sublist_of` names (add_missing RUNNING PAUSED
      (add_missing KNOWN RUNNING
        (add_pair KNOWN INCREASING DECREASING moreChanging
          (add_missing KNOWN STATIC
            (add_pair KNOWN ACTIVE PASSIVE moreStatic (add_missing KNOWN DISABLED l))))))) as Hp.
  { intros Hp. unfold add_missing at 1. 
    match goal with |- context [if inList ?m PAUSED then _ else _] =>
      assert (inList m PAUSED = false) as ->
        by (repeat first [done|apply inList_add_missing_other|apply inList_add_pair_other])
    end.
    apply insert_order. apply H. apply elem_of_cons. by left. }
  apply (completed_missing _ _ _ RUNNING PAUSED) in H; [|substate].
  pose proof (proj1 H) as Hg.
  match goal with H : completed _ ?m _ |- _ => set (m0 := m) in * end.
  assert (completed m0 m0 [KNOWN]) as H0.
  { split; [apply grows_refl|]. intros s ->%list_elem_of_singleton. apply H. substate. }
  apply (completed_missing _ _ _ KNOWN CHANGING) in H, H0; [|substate..].
  apply (completed_missing _ _ _ KNOWN INTERLOCKED) in H, H0; [|substate..].
  apply (completed_missing _ _ _ KNOWN ERROR) in H, H0; [|substate..].
  split_and!; [apply H| |].
  - intros s Hin. apply H. revert s Hin. apply Forall_forall. substate.
  - intros Hnp. eapply names_grows; [apply H0|]. by apply Hp.
Qed.

(** What completing for one group does to the list. *)
Lemma group_completed (x a b less more : State) (l : list State) :
  ordered a b less more -> a ∈ substates -> b ∈ substates -> name a <> name b ->
  name a <> name x -> name b <> name x ->
  let l' := if inList l x then add_pair x a b more l else l in
  grows l l' /\
  forall d : State, name a <> name d -> name b <> name d -> inList l d = false -> inList l' d = false.
Proof.
  intros. cbn zeta. destruct (inList l x) eqn:Hx.
  - destruct (add_pair_spec x a b less more l) as (? & _); try done.
    split; [done|]. intros. by apply inList_add_pair_other.
  - split; [apply grows_refl|auto].
Qed.

(** *** Where the missing states come *)

(** The states of [block] that are not in [l]. *)
Definition missing (l block : list State) : list State := filter (fun s => name s ∉ names l) block.

(** [r] is [l] with [block] directly before the first [x]. *)
Definition inserted (x : State) (block l r : list State) : Prop :=
  exists l1 z l2, l = l1 ++ z :: l2 /\ name z = name x /\ name x ∉ names l1 /\
    r = l1 ++ block ++ z :: l2.

(** Completing for [x]: if it is listed, what is missing of [block] comes directly before
    it, in this order. *)
Definition completes (x : State) (block l r : list State) : Prop :=
  if inList l x then inserted x (missing l block) l r else r = l.

Lemma insert_before_first (x y z : State) (l1 l2 : list State) :
  name z = name x -> name x ∉ names l1 ->
  insert_before x y (l1 ++ z :: l2) = l1 ++ y :: z :: l2.
Proof.
  intros Hz. induction l1 as [|u l1 IH]; cbn; unfold state_eq.
  - by rewrite bool_decide_eq_true_2.
  - rewrite not_elem_of_cons. intros [Hu Hn]. rewrite bool_decide_eq_false_2 by congruence.
    by rewrite IH.
Qed.

(** An intermediate list: what is missing of [block] has been inserted before [x]. *)
Definition filled (x : State) (block l r : list State) : Prop :=
  inserted x (missing l block) l r /\ name x ∉ names block.

Lemma filled_start (x : State) (l : list State) : inList l x = true -> filled x [] l l.
Proof.
  intros Hx. split; [|apply not_elem_of_nil].
  destruct (insert_before_split x x l) as (l1 & l2 & -> & _ & Hn & H).
  destruct (H Hx) as (z & l3 & -> & Hz). exists l1, z, l3. by split_and!.
Qed.

Lemma inserted_names (x : State) (block l r : list State) (s : State) :
  inserted x block l r -> name s ∈ names r <-> name s ∈ names l \/ name s ∈ names block.
Proof.
  intros (l1 & z & l2 & -> & _ & _ & ->). rewrite !fmap_app, !elem_of_app. tauto.
Qed.

Lemma missing_app (l b1 b2 : list State) : missing l (b1 ++ b2) = missing l b1 ++ missing l b2.
Proof. apply filter_app. Qed.

Lemma missing_names (l block : list State) (n : string) :
  n ∈ names (missing l block) -> n ∈ names block.
Proof.
  intros (s & -> & Hs)%list_elem_of_fmap. apply list_elem_of_filter in Hs as [_ Hs].
  by apply list_elem_of_fmap_2.
Qed.

Lemma filled_missing (x y : State) (block l r : list State) :
  filled x block l r -> name y <> name x -> name y ∉ names block ->
  filled x (block ++ [y]) l (add_missing x y r).
Proof.
  intros [Hi Hx] Hyx Hy. split.
  2:{ rewrite fmap_app, elem_of_app. cbn. rewrite list_elem_of_singleton. intuition congruence. }
  pose proof (inserted_names _ _ _ _ y Hi) as Hny.
  assert (name y ∈ names r <-> name y ∈ names l) as Hm
    by (rewrite Hny; split; [intros [?|?%missing_names]; tauto|tauto]).
  rewrite missing_app. unfold missing at 2. unfold add_missing. destruct (inList r y) eqn:E.
  - apply inList_names in E. rewrite filter_cons_False by tauto. by rewrite app_nil_r.
  - apply inList_false in E. rewrite filter_cons_True by tauto.
    destruct Hi as (l1 & z & l2 & -> & Hz & Hn & ->). exists l1, z, l2. split_and!; try done.
    rewrite app_assoc, insert_before_first; [by rewrite <- !app_assoc|done|].
    rewrite fmap_app, elem_of_app. intros [?|?%missing_names]; done.
Qed.

(** Two of a kind are added like one after the other. *)
Lemma add_pair_missing (x a b less more : State) (l : list State) :
  ordered a b less more -> name a <> name b ->
  add_pair x a b more l = add_missing x more (add_missing x less l).
Proof.
  intros Ho Hab. unfold add_pair, add_missing.
  assert (forall c d : State, inList l d = false -> name c <> name d ->
    inList (insert_before x c l) d = false) as Hf by (intros; by apply inList_insert_other).
  assert (forall c d : State, inList l d = true -> inList (insert_before x c l) d = true) as Ht.
  { intros c d. rewrite !inList_names. destruct (insert_before_split x c l) as (l1 & l2 & -> & -> & _).
    rewrite !fmap_app. cbn. rewrite !elem_of_app, elem_of_cons. tauto. }
  unfold state_eq.
  destruct Ho as [[-> ->]|[-> ->]], (inList l a) eqn:Ea, (inList l b) eqn:Eb; cbn [negb andb];
    rewrite ?Ea, ?Eb, ?Ht, ?Hf, ?(bool_decide_eq_true_2 _ (eq_refl _)) by done; try done.
  by rewrite bool_decide_eq_false_2.
Qed.

Lemma filled_pair (x a b less more : State) (block l r : list State) :
  filled x block l r -> ordered a b less more -> name a <> name b ->
  name a <> name x -> name b <> name x -> name a ∉ names block -> name b ∉ names block ->
  filled x (block ++ [less; more]) l (add_pair x a b more r).
Proof.
  intros Hf Ho Hab Hax Hbx Ha Hb. rewrite (add_pair_missing x a b less more r Ho Hab).
  change [less; more] with ([less] ++ [more]). rewrite app_assoc.
  apply filled_missing; [apply filled_missing; [done|..]|..];
    try (destruct Ho as [[-> ->]|[-> ->]]; done).
  rewrite fmap_app, elem_of_app. cbn. rewrite list_elem_of_singleton.
  destruct Ho as [[-> ->]|[-> ->]]; intuition congruence.
Qed.

(** Inserting before different states commutes. *)
Lemma insert_commute (x y u v : State) (l : list State) :
  inList l x = true -> inList l u = true -> name x <> name u -> name v <> name x ->
  name y <> name u ->
  insert_before x y (insert_before u v l) = insert_before u v (insert_before x y l).
Proof.
  intros Hx Hu Hxu Hvx Hyu. induction l as [|z l IH]; [done|]. cbn [inList existsb] in Hx, Hu.
  unfold state_eq in Hx, Hu. cbn [insert_before]. unfold state_eq.
  destruct (decide (name z = name u)) as [Ez|Ez].
  - rewrite (bool_decide_eq_true_2 (name z = name u)) by done.
    rewrite (bool_decide_eq_false_2 (name z = name x)) by congruence.
    cbn [insert_before]. unfold state_eq. rewrite (bool_decide_eq_false_2 (name v = name x)) by done.
    rewrite (bool_decide_eq_false_2 (name z = name x)) by congruence.
    by rewrite (bool_decide_eq_true_2 (name z = name u)).
  - rewrite (bool_decide_eq_false_2 (name z = name u)) in * by done.
    destruct (decide (name z = name x)) as [Ex|Ex].
    + rewrite (bool_decide_eq_true_2 (name z = name x)) by done. cbn [insert_before]. unfold state_eq.
      rewrite (bool_decide_eq_true_2 (name z = name x)) by done.
      rewrite (bool_decide_eq_false_2 (name y = name u)) by done.
      by rewrite (bool_decide_eq_false_2 (name z = name u)).
    + rewrite (bool_decide_eq_false_2 (name z = name x)) in * by done. cbn [insert_before].
      unfold state_eq. rewrite (bool_decide_eq_false_2 (name z = name x)) by done.
      rewrite (bool_decide_eq_false_2 (name z = name u)) by done. f_equal. by apply IH.
Qed.

Lemma inList_insert_iff (x c d : State) (l : list State) :
  name c <> name d -> inList (insert_before x c l) d = inList l d.
Proof.
  intros Hcd. destruct (inList l d) eqn:E; [|by apply inList_insert_other].
  rewrite inList_names in *. destruct (insert_before_split x c l) as (l1 & l2 & -> & -> & _).
  rewrite !fmap_app in *. cbn. rewrite !elem_of_app, elem_of_cons in *. tauto.
Qed.

Lemma add_missing_commute (x y u v : State) (l : list State) :
  inList l x = true -> inList l u = true -> name x <> name u -> name v <> name x ->
  name y <> name u -> name y <> name v ->
  add_missing x y (add_missing u v l) = add_missing u v (add_missing x y l).
Proof.
  intros Hx Hu Hxu Hvx Hyu Hyv. unfold add_missing.
  destruct (inList l v) eqn:Ev, (inList l y) eqn:Ey;
    rewrite ?inList_insert_iff, ?Ev, ?Ey by done; try done. by apply insert_commute.
Qed.

(** The substates that come before KNOWN. *)
Definition known_block (lessStatic moreStatic lessChanging moreChanging : State) : list State :=
  [DISABLED; lessStatic; moreStatic; STATIC; lessChanging; moreChanging; RUNNING; CHANGING;
   INTERLOCKED; ERROR].

(** Completing a list with KNOWN: PAUSED comes before RUNNING, wherever that is, and the
    others come before KNOWN. *)
Lemma known_completes (l : list State) (lessStatic moreStatic lessChanging moreChanging : State) :
  ordered ACTIVE PASSIVE lessStatic moreStatic -> ordered INCREASING DECREASING lessChanging moreChanging ->
  exists r, completes KNOWN (known_block lessStatic moreStatic lessChanging moreChanging) l r /\
    completeKnownSubstates moreStatic moreChanging l =
    if inList l KNOWN then add_missing RUNNING PAUSED r else r.
Proof.
  intros Hs Hc. unfold completes, completeKnownSubstates. destruct (inList l KNOWN) eqn:Hk; [|eauto].
  pose proof (filled_start KNOWN l Hk) as F.
  apply (filled_missing KNOWN DISABLED) in F; [|substate..].
  apply (filled_pair KNOWN _ _ _ _ _ _ _ F) in Hs as F1; [|substate..].
  apply (filled_missing KNOWN STATIC) in F1; [|destruct Hs as [[-> ->]|[-> ->]]; substate..].
  apply (filled_pair KNOWN _ _ _ _ _ _ _ F1) in Hc as F2;
    [|destruct Hs as [[-> ->]|[-> ->]]; substate..].
  apply (filled_missing KNOWN RUNNING) in F2;
    [|destruct Hs as [[-> ->]|[-> ->]], Hc as [[-> ->]|[-> ->]]; substate..].
  set (r := add_missing KNOWN RUNNING _) in *. cbn zeta.
  assert (inList r RUNNING = true) as Hr by apply (grows_add_missing KNOWN RUNNING _ ltac:(substate)).
  assert (forall r' y, inList r' RUNNING = true -> inList r' KNOWN = true ->
    name y <> name RUNNING -> name y <> name PAUSED -> y ∈ substates ->
    add_missing KNOWN y (add_missing RUNNING PAUSED r') =
      add_missing RUNNING PAUSED (add_missing KNOWN y r') /\
    inList (add_missing KNOWN y r') RUNNING = true /\ inList (add_missing KNOWN y r') KNOWN = true)
    as Hstep.
  { intros r' y Hr' Hk' Hy1 Hy2 Hy. destruct (grows_add_missing KNOWN y r' Hy) as [Hg _].
    split_and!; [by apply add_missing_commute|by eapply inList_grows..]. }
  assert (inList r KNOWN = true) as Hkr.
  { destruct F2 as [Hi _]. apply inList_names. eapply inserted_names; [exact Hi|].
    left. by apply inList_names. }
  destruct (Hstep r CHANGING) as (-> & Hr1 & Hk1); [done|done|substate..|].
  destruct (Hstep (add_missing KNOWN CHANGING r) INTERLOCKED) as (-> & Hr2 & Hk2); [done|done|substate..|].
  destruct (Hstep (add_missing KNOWN INTERLOCKED (add_missing KNOWN CHANGING r)) ERROR)
    as (-> & _ & _); [done|done|substate..|].
  eexists. split; [|reflexivity].
  apply (filled_missing KNOWN CHANGING) in F2;
    [|destruct Hs as [[-> ->]|[-> ->]], Hc as [[-> ->]|[-> ->]]; substate..].
  apply (filled_missing KNOWN INTERLOCKED) in F2;
    [|destruct Hs as [[-> ->]|[-> ->]], Hc as [[-> ->]|[-> ->]]; substate..].
  apply (filled_missing KNOWN ERROR) in F2;
    [|destruct Hs as [[-> ->]|[-> ->]], Hc as [[-> ->]|[-> ->]]; substate..].
  apply F2.
Qed.

Lemma pair_completes (x a b less more : State) (l : list State) :
  ordered a b less more -> name a <> name b -> name a <> name x -> name b <> name x ->
  completes x [less; more] l (if inList l x then add_pair x a b more l else l).
Proof.
  intros Ho Hab Ha Hb. unfold completes. destruct (inList l x) eqn:Hx; [|done].
  apply (filled_pair x a b less more [] l l); try done; [by apply filled_start|apply not_elem_of_nil..].
Qed.

Lemma missing_completes (x y : State) (l : list State) :
  name y <> name x -> inList l x = true -> completes x [y] l (add_missing x y l).
Proof.
  intros Hyx Hx. unfold completes. rewrite Hx.
  apply (filled_missing x y [] l l); [by apply filled_start|done|apply not_elem_of_nil].
Qed.

(** C25: The list of a StateSignifier.  Without a given list it is the documented order, with
    the less significant one of ACTIVE and PASSIVE (of INCREASING and DECREASING) first.  A
    given list keeps its states and their order, and substates that are not listed come in
    exactly these places: directly before CHANGING the missing ones of INCREASING and
    DECREASING, directly before STATIC those of ACTIVE and PASSIVE, and directly before
    KNOWN those of DISABLED, ACTIVE, PASSIVE, STATIC, INCREASING, DECREASING, RUNNING,
    CHANGING, INTERLOCKED, ERROR, in this order and the chosen one of each two behind the
    other; but PAUSED directly before RUNNING.  So a list with KNOWN has all the substates,
    and a missing PAUSED becomes less significant than RUNNING there, against the
    documented order. *)
Theorem trump_list (l : list State) (lessStatic moreStatic lessChanging moreChanging : State) :
  ordered ACTIVE PASSIVE lessStatic moreStatic -> ordered INCREASING DECREASING lessChanging moreChanging ->
  initTrumpList [] moreStatic moreChanging =
    [DISABLED; STATIC; lessStatic; moreStatic; RUNNING; PAUSED; CHANGING; lessChanging; moreChanging;
     INTERLOCKED; ERROR; INIT; UNKNOWN] /\
  (l <> [] ->
   let r := initTrumpList l moreStatic moreChanging in
   (exists r1 r2 r3,
      completes CHANGING [lessChanging; moreChanging] l r1 /\
      completes STATIC [lessStatic; moreStatic] r1 r2 /\
      completes KNOWN (known_block lessStatic moreStatic lessChanging moreChanging) r2 r3 /\
      if inList l KNOWN then completes RUNNING [PAUSED] r3 r else r = r3) /\
   grows l r /\
   (inList l KNOWN = true ->
    (forall s, s ∈ substates -> inList r s = true) /\
    (inList l PAUSED = false -> [name PAUSED; name RUNNING] `sublist_of` names r))).
Proof.
  intros Hs Hc. split; [by destruct Hs as [[-> ->]|[-> ->]], Hc as [[-> ->]|[-> ->]]|].
  intros Hl. cbn zeta.
  replace (initTrumpList l moreStatic moreChanging) with
    (completeKnownSubstates moreStatic moreChanging
      (completeStaticSubstates moreStatic (completeChangingSubstates moreChanging l)))
    by (by destruct l). clear Hl.
  unfold completeStaticSubstates, completeChangingSubstates.
  pose proof (pair_completes CHANGING _ _ _ _ l Hc) as P1.
  destruct (group_completed CHANGING INCREASING DECREASING lessChanging moreChanging l)
    as (G1 & O1); try substate; try done.
  set (l1 := if inList l CHANGING then _ else _) in *. clearbody l1.
  pose proof (pair_completes STATIC _ _ _ _ l1 Hs) as P2.
  destruct (group_completed STATIC ACTIVE PASSIVE lessStatic moreStatic l1)
    as (G2 & O2); try substate; try done.
  set (l2 := if inList l1 STATIC then _ else _) in *. clearbody l2.
  destruct (known_completes l2 lessStatic moreStatic lessChanging moreChanging Hs Hc) as (r3 & P3 & E3).
  pose proof (grows_trans _ _ _ G1 G2) as G12.
  assert (inList l2 KNOWN = inList l KNOWN) as Hk2.
  { destruct (inList l KNOWN) eqn:E; [by eapply inList_grows|]. apply O2; [done..|]. by apply O1. }
  assert (inList l KNOWN = true -> inList r3 RUNNING = true) as Hr3.
  { intros Hk. unfold completes in P3. rewrite Hk2, Hk in P3. apply inList_names.
    eapply inserted_names; [exact P3|]. destruct (inList l2 RUNNING) eqn:Er.
    - left. by apply inList_names.
    - right. apply inList_false in Er. apply list_elem_of_fmap_2. apply list_elem_of_filter.
      split; [done|]. unfold known_block. do 6 apply elem_of_cons, or_intror. apply list_elem_of_here. }
  assert (grows l2 (completeKnownSubstates moreStatic moreChanging l2)) as G3.
  { destruct (inList l2 KNOWN) eqn:E; [by eapply known_completed|].
    unfold completeKnownSubstates. rewrite E. apply grows_refl. }
  split_and!.
  - exists l1, l2, r3. split_and!; [apply P1; substate|apply P2; substate|exact P3|].
    rewrite E3, Hk2. destruct (inList l KNOWN); [|done]. apply missing_completes; [substate|auto].
  - by eapply grows_trans.
  - intros Hk. destruct (known_completed l2 lessStatic moreStatic lessChanging moreChanging Hs Hc)
      as (_ & Hall & Hp); [by rewrite Hk2|].
    split; [done|]. intros. apply Hp. apply O2; [done..|]. by apply O1.
Qed.

Lemma trump_list_witness :
  let r := initTrumpList [INTERLOCKED; UNKNOWN; KNOWN] PASSIVE DECREASING in
  grows [INTERLOCKED; UNKNOWN; KNOWN] r /\ inList r HEATING = false /\ inList r RUNNING = true /\
  [name PAUSED; name RUNNING] `sublist_of` names r /\
  r = [INTERLOCKED; UNKNOWN; DISABLED; ACTIVE; PASSIVE; STATIC; INCREASING; DECREASING; PAUSED;
       RUNNING; CHANGING; ERROR; KNOWN].
Proof.
  assert (ordered ACTIVE PASSIVE ACTIVE PASSIVE) as Hs by (left; done).
  assert (ordered INCREASING DECREASING INCREASING DECREASING) as Hc by (left; done).
  destruct (trump_list [INTERLOCKED; UNKNOWN; KNOWN] ACTIVE PASSIVE INCREASING DECREASING Hs Hc)
    as [_ H].
  destruct (H ltac:(discriminate)) as (_ & Hg & Hk).
  destruct (Hk ltac:(vm_compute; reflexivity)) as [_ Hp].
  split_and!; [exact Hg|vm_compute; reflexivity|vm_compute; reflexivity| |vm_compute; reflexivity].
  apply Hp. vm_compute. reflexivity.
Defined.
