(* ===== verification/Strand.v ===== *)
(** The sequential execution of tasks of net/Strand.hh and Strand.cc: a queue of functions
    that the threads of an event loop (a boost::asio::io_context) empty in the background.

    The functions translate the bodies that run under the lock, or on a thread of the event
    loop between two locks.  How they interleave is a step function on worlds: the strand, the
    jobs handed to the event loop, and the calls its threads are in.  The event loop may take
    its jobs in any order and run any number of them at once. *)

From Stdlib Require Import ZArith Lia Ascii String.
From stdpp Require Import base numbers list strings gmap relations.
From S2P Require Import Prelude Types Strings OrderedMap Hash HashAccess.
Import Types.

Open Scope Z_scope.

(** How a call of a task ends: it may post to the strand itself while it runs, which is one of
    the posts that may occur at any time. *)
Inductive task_result : Type := TaskReturns | TaskThrowsStd | TaskThrowsOther.

#[export] Instance task_result_eq_dec : EqDecision task_result.
Proof. solve_decision. Defined.

Section Strand.
Context {T : Type} (result : T -> task_result).

(** ** The class *)

Record Strand := mkStrand {
  m_tasksRunning : bool;
  m_tasks : list T;          (** the queue, its front first *)
  m_maxInARow : Z;
  m_guaranteeToRun : bool;
  m_ioContext : nat          (** which io_context the strand posts to *)
}.

(** The io_context of the EventLoop. *)
Definition EventLoop_context : nat := 0.

(** setContext(ioContext): to be called before the strand is used. *)
Definition setContext (ioContext : nat) (s : Strand) : Strand :=
  mkStrand (m_tasksRunning s) (m_tasks s) (m_maxInARow s) (m_guaranteeToRun s) ioContext.

(** Strand(cfg): a maximum of 0 is replaced. *)
Definition Strand_cfg (cfg : hash) : outcome Strand :=
  max ← get (Tscalar unsigned_int) "maxInARow" k_defaultSep cfg;
  guarantee ← get (Tscalar bool_) "guaranteeToRun" k_defaultSep cfg;
  match max, guarantee with
  | VPod _ n, VBool g => Ret (mkStrand false [] (if n =? 0 then 1 else n) g EventLoop_context)
  | _, _ => Undef  (* not reached: get has tested the types *)
  end.
(** Strand(ioContext) *)
Definition Strand_context (ioContext : nat) : outcome Strand :=
  setContext ioContext <$> Strand_cfg [mkNode "maxInARow" [] (VPod PUInt32 1); mkNode "guaranteeToRun" [] (VBool false)].

(** What is handed to the event loop: [run] bound weakly to the strand, or the tasks left
    over by the destructor. *)
Inductive job : Type := JRun | JTasks (tasks : list T).

Definition startRunningIfNeeded (s : Strand) : Strand * list job :=
  if negb (m_tasksRunning s)
  then (mkStrand true (m_tasks s) (m_maxInARow s) (m_guaranteeToRun s) (m_ioContext s), [JRun])
  else (s, []).

Definition post (handler : T) (s : Strand) : Strand * list job :=
  startRunningIfNeeded
    (mkStrand (m_tasksRunning s) (m_tasks s ++ [handler]) (m_maxInARow s) (m_guaranteeToRun s) (m_ioContext s)).

(** The function that wrap returns calls postWrapped if the strand still exists. *)
Definition postWrapped (handler : T) (s : Strand) : Strand * list job := post handler s.
Definition wrap (handler : T) (s : option Strand) : option Strand * list job :=
  match s with
  | Some s => let '(s', jobs) := postWrapped handler s in (Some s', jobs)
  | None => (None, [])
  end.

(** A call on a thread of the event loop: [run] in front of its loop condition, or in
    [nextTask()]; [runTasks] in front of its loop condition or in [tasks.front()()]. *)
Inductive frame : Type :=
| FHead (counter : Z)
| FTask (counter : Z) (nextTask : T)
| FTasks (tasks : list T)
| FFront (task : T) (tasks : list T).

Definition run : frame := FHead 0.

(** The part of [run] from the loop condition to the call of the task, to the return or to
    the final post: the new strand, what is posted and the call that goes on. *)
Definition run_loop (counter : Z) (s : Strand) : Strand * list job * list frame :=
  let counter := u32 (counter + 1) in
  if counter <=? m_maxInARow s then
    match m_tasks s with
    | [] => (mkStrand false [] (m_maxInARow s) (m_guaranteeToRun s) (m_ioContext s), [], [])
    | nextTask :: tasks =>
        (mkStrand (m_tasksRunning s) tasks (m_maxInARow s) (m_guaranteeToRun s) (m_ioContext s), [],
         [FTask counter nextTask])
    end
  else (s, [JRun], []).

(** The part of [run] behind the call: only exceptions derived from std::exception are
    caught. *)
Definition run_called (counter : Z) (nextTask : T) : list frame :=
  match result nextTask with
  | TaskReturns | TaskThrowsStd => [FHead counter]
  | TaskThrowsOther => []
  end.

(** The same for the loop of the destructor's function. *)
Definition runTasks_loop (tasks : list T) : list frame :=
  match tasks with
  | [] => []
  | task :: tasks => [FFront task tasks]
  end.
Definition runTasks_called (task : T) (tasks : list T) : list frame :=
  match result task with
  | TaskReturns | TaskThrowsStd => [FTasks tasks]
  | TaskThrowsOther => []
  end.

(** ~Strand() *)
Definition destroy (s : Strand) : list job :=
  if m_guaranteeToRun s
  then (if bool_decide (length (m_tasks s) = 0%nat) then [] else [JTasks (m_tasks s)])
  else [].

(** ** Interleaving *)

Inductive mark : Type := Begin (t : T) | End (t : T).

(** [w_log] records the calls of tasks, [w_posted] the tasks posted so far. *)
Record world := mkWorld {
  w_strand : option Strand;
  w_jobs : list job;
  w_frames : list frame;
  w_log : list mark;
  w_posted : list T
}.

Inductive action : Type :=
| Post (t : T)      (** some thread posts *)
| Wrapped (t : T)   (** some thread calls a wrapped handler *)
| Take (i : nat)    (** a thread of the event loop takes the i-th job *)
| Advance (i : nat) (** the i-th call goes on to its next lock or task *)
| Destroy.          (** the last shared pointer goes *)

Definition begins (fs : list frame) : list mark :=
  flat_map (fun f => match f with FTask _ t | FFront t _ => [Begin t] | _ => [] end) fs.

(** Replaces the i-th call by what is left of it. *)
Definition continue (i : nat) (new : list frame) (fs : list frame) : list frame :=
  take i fs ++ new ++ drop (S i) fs.

Definition do_post (t : T) (s : Strand) (w : world) : world :=
  let '(s', jobs) := post t s in
  mkWorld (Some s') (w_jobs w ++ jobs) (w_frames w) (w_log w) (w_posted w ++ [t]).

(** A job bound weakly to the strand does nothing once the strand is gone; a call of [run]
    keeps the strand alive, so that it is not destroyed while there is one. *)
Definition exec (a : action) (w : world) : option world :=
  match a with
  | Post t => s ← w_strand w; Some (do_post t s w)
  | Wrapped t =>
      match w_strand w with
      | Some s =>
          let '(s', jobs) := wrap t (Some s) in
          Some (mkWorld s' (w_jobs w ++ jobs) (w_frames w) (w_log w) (w_posted w ++ [t]))
      | None => Some w
      end
  | Take i =>
      j ← w_jobs w !! i;
      let fs := match j with
                | JRun => match w_strand w with Some _ => [run] | None => [] end
                | JTasks tasks => [FTasks tasks]
                end in
      Some (mkWorld (w_strand w) (delete i (w_jobs w)) (w_frames w ++ fs) (w_log w) (w_posted w))
  | Advance i =>
      f ← w_frames w !! i;
      match f with
      | FHead counter =>
          s ← w_strand w;
          let '(s', jobs, fs) := run_loop counter s in
          Some (mkWorld (Some s') (w_jobs w ++ jobs) (continue i fs (w_frames w))
                  (w_log w ++ begins fs) (w_posted w))
      | FTask counter t =>
          Some (mkWorld (w_strand w) (w_jobs w) (continue i (run_called counter t) (w_frames w))
                  (w_log w ++ [End t]) (w_posted w))
      | FTasks tasks =>
          let fs := runTasks_loop tasks in
          Some (mkWorld (w_strand w) (w_jobs w) (continue i fs (w_frames w))
                  (w_log w ++ begins fs) (w_posted w))
      | FFront t tasks =>
          Some (mkWorld (w_strand w) (w_jobs w) (continue i (runTasks_called t tasks) (w_frames w))
                  (w_log w ++ [End t]) (w_posted w))
      end
  | Destroy =>
      s ← w_strand w;
      if bool_decide (length (w_frames w) = 0%nat)
      then Some (mkWorld None (w_jobs w ++ destroy s) [] (w_log w) (w_posted w))
      else None
  end.

Fixpoint exec_all (l : list action) (w : world) : option world :=
  match l with
  | [] => Some w
  | a :: l => w' ← exec a w; exec_all l w'
  end.

Definition start (s : Strand) : world := mkWorld (Some s) [] [] [] [].

(** ** Invariant *)

(** The tasks whose calls have begun, in order. *)
Definition begun (l : list mark) : list T :=
  flat_map (fun m => match m with Begin t => [t] | End _ => [] end) l.

(** The log of calls one after the other, the last of which may be under way. *)
Definition sequential (done cur : list T) : list mark :=
  flat_map (fun t => [Begin t; End t]) done ++ (Begin <$> cur).

Definition some_other (l : list T) : Prop := exists t, t ∈ l /\ result t = TaskThrowsOther.

(** The jobs of a destroyed strand that do nothing. *)
Definition stale_jobs (js : list job) : Prop := js = [] \/ js = [JRun].

(** The situations a strand with the members [max] and [g] can be in: the strand, the jobs,
    the calls; the tasks called, being called, still to be called and dropped. *)
Section phase.
Context (max : Z) (g : bool) (ctx : nat).

(** Why tasks of a destroyed strand may be dropped. *)
Definition may_drop (done dropped : list T) : Prop := dropped <> [] -> g = false \/ some_other done.

Inductive phase : option Strand -> list job -> list frame ->
  list T -> list T -> list T -> list T -> Prop :=
| ph_idle done : phase (Some (mkStrand false [] max g ctx)) [] [] done [] [] []
| ph_posted done ts : phase (Some (mkStrand true ts max g ctx)) [JRun] [] done [] ts []
| ph_head done ts c (Hc : 0 <= c < 2 ^ 32) :
    phase (Some (mkStrand true ts max g ctx)) [] [FHead c] done [] ts []
| ph_task done ts c t (Hc : 0 <= c < 2 ^ 32) :
    phase (Some (mkStrand true ts max g ctx)) [] [FTask c t] done [t] ts []
| ph_stalled done ts (Ho : some_other done) :
    phase (Some (mkStrand true ts max g ctx)) [] [] done [] ts []
| ph_left done js ts (Hjs : stale_jobs js) : phase None (js ++ [JTasks ts]) [] done [] ts []
| ph_left_head done js ts (Hjs : stale_jobs js) : phase None js [FTasks ts] done [] ts []
| ph_left_task done js t ts (Hjs : stale_jobs js) : phase None js [FFront t ts] done [t] ts []
| ph_over done js dropped (Hjs : stale_jobs js) (Hd : may_drop done dropped) :
    phase None js [] done [] [] dropped.

Definition inv (w : world) : Prop :=
  exists done cur pending dropped,
    phase (w_strand w) (w_jobs w) (w_frames w) done cur pending dropped /\
    w_log w = sequential done cur /\
    w_posted w = done ++ cur ++ pending ++ dropped.

Lemma may_drop_nil done : may_drop done [].
Proof. by intros []. Qed.
#[local] Hint Resolve may_drop_nil : core.

Lemma inv_start s :
  m_tasksRunning s = false -> m_tasks s = [] -> m_maxInARow s = max -> m_guaranteeToRun s = g ->
  m_ioContext s = ctx ->
  inv (start s).
Proof.
  destruct s; cbn; intros -> -> -> -> ->. exists [], [], [], []. repeat split. constructor.
Qed.

Lemma sequential_begin done t : sequential done [] ++ [Begin t] = sequential done [t].
Proof. unfold sequential. by rewrite <- app_assoc. Qed.

Lemma sequential_end done t : sequential done [t] ++ [End t] = sequential (done ++ [t]) [].
Proof. unfold sequential. rewrite flat_map_app. cbn. by rewrite <- !app_assoc. Qed.

Lemma some_other_last done t : result t = TaskThrowsOther -> some_other (done ++ [t]).
Proof. intros Ht. exists t. split; [set_solver|done]. Qed.

Lemma inv_intro st js fs lg po done cur pending dropped :
  phase st js fs done cur pending dropped -> lg = sequential done cur ->
  po = done ++ cur ++ pending ++ dropped -> inv (mkWorld st js fs lg po).
Proof. intros. by exists done, cur, pending, dropped. Qed.

Lemma inv_do_post t s w : w_strand w = Some s -> inv w -> inv (do_post t s w).
Proof.
  destruct w as [st js fs lg po]. cbn. intros -> (done & cur & pending & dropped & Hph & Hlog & Hpo).
  cbn in *. subst lg po.
  inversion Hph; subst; cbn; (eapply inv_intro; [by econstructor|done|]);
    by rewrite ?app_nil_r, <- ?app_assoc.
Qed.

Lemma inv_take i w w' : exec (Take i) w = Some w' -> inv w -> inv w'.
Proof.
  destruct w as [st js fs lg po]. cbn.
  intros He (done & cur & pending & dropped & Hph & Hlog & Hpo). cbn in *. subst lg po.
  destruct (js !! i) as [j|] eqn:Hj; [|discriminate]. injection He as <-.
  inversion Hph; subst; cbn in *; try discriminate.
  - destruct i as [|i]; [|discriminate]. injection Hj as <-.
    eapply inv_intro; [by constructor|done|done].
  - destruct Hjs as [->| ->]; destruct i as [|[|i]]; try discriminate; injection Hj as <-; cbn.
    + eapply inv_intro; [by (constructor; left)|done|done].
    + eapply inv_intro; [by (apply (ph_left _ []); left)|done|done].
    + eapply inv_intro; [by (constructor; right)|done|done].
  - destruct Hjs as [->| ->]; destruct i as [|i]; try discriminate; injection Hj as <-; cbn.
    eapply inv_intro; [by (constructor; left)|done|done].
  - destruct Hjs as [->| ->]; destruct i as [|i]; try discriminate; injection Hj as <-; cbn.
    eapply inv_intro; [by (constructor; left)|done|done].
  - destruct Hjs as [->| ->]; destruct i as [|i]; try discriminate; injection Hj as <-; cbn.
    eapply inv_intro; [by (constructor; [left|])|done|done].
Qed.

Lemma u32_bound z : 0 <= u32 z < 2 ^ 32.
Proof. apply wrap_bound; lia. Qed.

Lemma inv_advance i w w' : exec (Advance i) w = Some w' -> inv w -> inv w'.
Proof.
  destruct w as [st js fs lg po]. cbn.
  intros He (done & cur & pending & dropped & Hph & Hlog & Hpo). cbn in *. subst lg po.
  destruct (fs !! i) as [f|] eqn:Hf; [|discriminate]. cbn in He.
  inversion Hph; subst; cbn in *; try discriminate;
    (destruct i as [|i]; [|discriminate]); injection Hf as <-; cbn in He;
    unfold continue in He; cbn in He.
  - revert He. unfold run_loop; cbn.
    destruct (Z.leb_spec (u32 (c + 1)) max); [destruct pending as [|t ts]|];
      intros [= <-]; cbn; rewrite ?app_nil_r.
    + eapply inv_intro; [by constructor|done|by rewrite ?app_nil_r].
    + eapply inv_intro; [by (constructor; apply u32_bound)|apply sequential_begin|by rewrite ?app_nil_r].
    + eapply inv_intro; [by constructor|done|by rewrite ?app_nil_r].
  - injection He as <-. rewrite ?app_nil_r, sequential_end. unfold run_called.
    destruct (result t) eqn:Ht.
    1, 2: eapply inv_intro; [by constructor|done|by cbn; rewrite ?app_nil_r, <- ?app_assoc].
    apply (inv_intro _ _ _ _ _ (done ++ [t]) [] pending []);
      [by constructor; apply some_other_last|done|].
    by cbn; rewrite ?app_nil_r, <- ?app_assoc.
  - injection He as <-. destruct pending as [|t ts]; cbn; rewrite ?app_nil_r.
    + apply (inv_intro _ _ _ _ _ done [] [] []); [by constructor|done|by rewrite ?app_nil_r].
    + eapply inv_intro; [by constructor|apply sequential_begin|by rewrite ?app_nil_r].
  - injection He as <-. rewrite ?app_nil_r, sequential_end. unfold runTasks_called.
    destruct (result t) eqn:Ht.
    + eapply inv_intro; [by constructor|done|by cbn; rewrite ?app_nil_r, <- ?app_assoc].
    + eapply inv_intro; [by constructor|done|by cbn; rewrite ?app_nil_r, <- ?app_assoc].
    + apply (inv_intro _ _ _ _ _ (done ++ [t]) [] [] pending);
        [|done|by cbn; rewrite ?app_nil_r, <- ?app_assoc].
      constructor; [done|]. intros _. right. by apply some_other_last.
Qed.

Lemma inv_destroy w w' : exec Destroy w = Some w' -> inv w -> inv w'.
Proof.
  destruct w as [st js fs lg po]. cbn.
  intros He (done & cur & pending & dropped & Hph & Hlog & Hpo). cbn in *. subst lg po.
  destruct st as [s|]; [|discriminate]. cbn in He.
  destruct (bool_decide_reflect (length fs = 0%nat)); [|discriminate]. injection He as <-.
  destruct fs; [|discriminate].
  assert (forall js ts, stale_jobs js ->
    inv (mkWorld None (js ++ destroy (mkStrand true ts max g ctx)) [] (sequential done []) (done ++ ts)))
    as Hleft.
  { clear. intros js ts Hjs. unfold destroy; cbn. destruct g eqn:Hg.
    - destruct (bool_decide_reflect (length ts = 0%nat)) as [Hts|_].
      + destruct ts; [|discriminate]. rewrite app_nil_r.
        eapply inv_intro; [by constructor|done|done].
      + eapply inv_intro; [by constructor|done|by rewrite app_nil_r].
    - rewrite app_nil_r. eapply inv_intro; [by constructor; [done|left]|done|done]. }
  inversion Hph; subst; rewrite ?app_nil_r.
  - eapply inv_intro; [|done|by rewrite ?app_nil_r]. unfold destroy; cbn.
    destruct g; by (constructor; [left|]).
  - apply Hleft. by right.
  - apply Hleft. by left.
Qed.

Lemma inv_exec a w w' : exec a w = Some w' -> inv w -> inv w'.
Proof.
  destruct a as [t|t|i|i|].
  - cbn. destruct (w_strand w) as [s|] eqn:Hs; [|discriminate].
    intros [= <-]. by apply inv_do_post.
  - cbn. destruct (w_strand w) as [s|] eqn:Hs; [|by intros [= <-]].
    intros He Hw. pose proof (inv_do_post t s w Hs Hw) as Hp.
    unfold do_post in Hp. cbn in He. unfold postWrapped in He. destruct (post t s). by injection He as <-.
  - apply inv_take.
  - apply inv_advance.
  - apply inv_destroy.
Qed.

Lemma inv_exec_all l w w' : exec_all l w = Some w' -> inv w -> inv w'.
Proof.
  revert w. induction l as [|a l IH]; intros w; cbn; [by intros [= <-]|].
  destruct (exec a w) eqn:He; [|discriminate]. eauto using inv_exec.
Qed.

(** ** Liveness *)

Lemma begun_sequential done cur : begun (sequential done cur) = done ++ cur.
Proof.
  unfold begun, sequential. rewrite flat_map_app. f_equal.
  - induction done as [|t done IH]; cbn; [done|by rewrite IH].
  - induction cur as [|t cur IH]; cbn; [done|by rewrite IH].
Qed.

(** The tasks that have not begun and that the strand or its destructor still keeps. *)
Definition waiting (w : world) : list T :=
  match w_strand w with
  | Some s => m_tasks s
  | None =>
      flat_map (fun f => match f with FTasks ts | FFront _ ts => ts | _ => [] end) (w_frames w) ++
      flat_map (fun j => match j with JTasks ts => ts | JRun => [] end) (w_jobs w)
  end.

Lemma phase_waiting w done cur pending dropped :
  phase (w_strand w) (w_jobs w) (w_frames w) done cur pending dropped -> waiting w = pending.
Proof.
  destruct w as [st js fs lg po]; cbn. intros Hph. unfold waiting; cbn.
  inversion Hph; subst; cbn; try done; destruct Hjs as [->| ->]; cbn; by rewrite ?app_nil_r.
Qed.

(** What the threads of the event loop do, in contrast to its clients. *)
Definition is_loop (a : action) : bool := match a with Take _ | Advance _ => true | _ => false end.
Definition loop_steps (l : list action) : nat := length (List.filter is_loop l).

(** How many of these steps it takes at most until the waiting task number [n] begins. *)
Definition cost (n : nat) (w : world) : nat :=
  (match w_strand w, w_frames w with
   | Some s, [] => 3 + 5 * n
   | Some s, FHead c :: _ => if (u32 (c + 1) <=? m_maxInARow s)%Z then 2 + 5 * n else 4 + 5 * n
   | Some s, _ => 5 + 5 * n
   | None, FFront _ _ :: _ => 2 + 2 * n + length (w_jobs w)
   | None, _ => 1 + 2 * n + length (w_jobs w)
   end)%nat.

Definition ordinary (l : list T) : Prop := Forall (fun t => result t <> TaskThrowsOther) l.

Definition count (w : world) : nat := length (begun (w_log w)).

(** The task number [k] has begun, or its beginning has come nearer. *)
Definition nearer (k : nat) (a : action) (w w' : world) : Prop :=
  (k < count w' \/
   (count w' <= k /\ cost (k - count w') w' + (if is_loop a then 1 else 0) <= cost (k - count w) w))%nat.

Definition alive_or_kept (w : world) : Prop := w_strand w <> None \/ g = true.

Lemma ordinary_not_other done l : ordinary (done ++ l) -> ~ some_other done.
Proof.
  intros Ho (t & Ht & Hr). apply Forall_app in Ho as [Ho _].
  by apply (Forall_forall _ done) with t in Ho.
Qed.

Lemma ordinary_mid l t l' : ordinary (l ++ t :: l') -> result t <> TaskThrowsOther.
Proof. unfold ordinary. by intros [_ [? _]%Forall_cons]%Forall_app. Qed.

(** While nothing is dropped and the strand is not stuck, it is in one of the other phases. *)
Lemma inv_live w :
  inv w -> ordinary (w_posted w) -> alive_or_kept w ->
  exists done cur pending,
    phase (w_strand w) (w_jobs w) (w_frames w) done cur pending [] /\
    w_log w = sequential done cur /\ w_posted w = done ++ cur ++ pending /\ ~ some_other done.
Proof.
  intros (done & cur & pending & dropped & Hph & Hlog & Hpo) Ho Hk.
  assert (Hn : ~ some_other done) by (rewrite Hpo in Ho; by eapply ordinary_not_other).
  assert (dropped = []) as ->.
  { inversion Hph; subst; try done. destruct dropped; [done|].
    destruct Hk as [Hk|Hk]; [congruence|]. destruct (Hd ltac:(done)); [congruence|done]. }
  exists done, cur, pending. by rewrite ?app_nil_r in Hpo.
Qed.

(** The cost in each situation, by the number of calls begun. *)
Ltac measure :=
  unfold nearer, count, cost; cbn -[Nat.mul Nat.sub];
  rewrite ?app_nil_r, ?sequential_begin, ?sequential_end, ?begun_sequential, ?length_app;
  cbn -[Nat.mul Nat.sub].

Lemma nearer_post t s k w :
  w_strand w = Some s -> inv w -> ordinary (w_posted w) ->
  (count w <= k < length (w_posted w))%nat -> nearer k (Post t) w (do_post t s w).
Proof.
  destruct w as [st js fs lg po]; cbn. intros -> Hw Ho Hk.
  destruct (inv_live _ Hw Ho) as (done & cur & pending & Hph & Hlog & Hpo & Hn); [by left|].
  cbn in *. subst lg po.
  revert Hk. inversion Hph; subst; measure; rewrite ?length_app; cbn; intros; try lia; done.
Qed.

Lemma nearer_take i k w w' :
  1 <= max -> exec (Take i) w = Some w' -> inv w -> ordinary (w_posted w) -> alive_or_kept w ->
  (count w <= k < length (w_posted w))%nat -> nearer k (Take i) w w'.
Proof.
  destruct w as [st js fs lg po]; cbn. intros Hm He Hw Ho Ha Hk.
  destruct (inv_live _ Hw Ho Ha) as (done & cur & pending & Hph & Hlog & Hpo & Hn).
  cbn in *. subst lg po.
  destruct (js !! i) as [j|] eqn:Hj; [|discriminate]. injection He as <-.
  revert Hk. inversion Hph; subst; cbn in Hj; try discriminate.
  - destruct i as [|i]; [|discriminate]. injection Hj as <-. measure.
    replace (u32 (0 + 1)) with 1 by done. destruct (Z.leb_spec 1 max); lia.
  - destruct Hjs as [->| ->]; destruct i as [|[|i]]; try discriminate; injection Hj as <-;
      measure; lia.
  - destruct Hjs as [->| ->]; destruct i as [|i]; try discriminate; injection Hj as <-; measure; lia.
  - destruct Hjs as [->| ->]; destruct i as [|i]; try discriminate; injection Hj as <-; measure; lia.
  - destruct Hjs as [->| ->]; destruct i as [|i]; try discriminate; injection Hj as <-; measure; lia.
Qed.

Lemma nearer_advance i k w w' :
  exec (Advance i) w = Some w' -> inv w -> ordinary (w_posted w) -> alive_or_kept w ->
  (count w <= k < length (w_posted w))%nat -> nearer k (Advance i) w w'.
Proof.
  destruct w as [st js fs lg po]; cbn. intros He Hw Ho Ha Hk.
  destruct (inv_live _ Hw Ho Ha) as (done & cur & pending & Hph & Hlog & Hpo & Hn).
  cbn in *. subst lg po.
  destruct (fs !! i) as [f|] eqn:Hf; [|discriminate]. cbn in He. revert Hk.
  inversion Hph; subst; cbn in *; try discriminate;
    (destruct i as [|i]; [|discriminate]); injection Hf as <-; cbn in He;
    unfold continue in He; cbn in He.
  - revert He. unfold run_loop; cbn.
    destruct (Z.leb_spec (u32 (c + 1)) max); [destruct pending as [|t ts]|];
      intros [= <-]; measure; try lia;
      destruct (Z.leb_spec (u32 (c + 1)) max); lia.
  - injection He as <-. pose proof (ordinary_mid _ _ _ Ho) as Ht. unfold run_called. destruct (result t); try done; measure;
      destruct (Z.leb_spec (u32 (c + 1)) max); lia.
  - injection He as <-. destruct pending as [|t ts]; measure; lia.
  - injection He as <-. pose proof (ordinary_mid _ _ _ Ho) as Ht. unfold runTasks_called. destruct (result t); try done; measure; lia.
Qed.

Lemma nearer_destroy k w w' :
  exec Destroy w = Some w' -> inv w -> ordinary (w_posted w) -> g = true ->
  (count w <= k < length (w_posted w))%nat -> nearer k Destroy w w'.
Proof.
  destruct w as [st js fs lg po]; cbn. intros He Hw Ho Ha Hk.
  destruct (inv_live _ Hw Ho) as (done & cur & pending & Hph & Hlog & Hpo & Hn); [by right|].
  cbn in *. subst lg po. destruct st as [s|]; [|discriminate]. cbn in He.
  destruct (bool_decide_reflect (length fs = 0%nat)); [|discriminate]. injection He as <-.
  destruct fs; [|discriminate]. revert Hk.
  inversion Hph; subst; unfold destroy; cbn; try done.
  - measure. lia.
  - measure. rewrite Ha. destruct (bool_decide _); cbn; lia.
Qed.

Lemma nearer_exec a k w w' :
  1 <= max -> exec a w = Some w' -> inv w -> ordinary (w_posted w) -> alive_or_kept w' ->
  (count w <= k < length (w_posted w))%nat -> nearer k a w w'.
Proof.
  intros Hm He Hw Ho Ha Hk.
  assert (alive_or_kept w) as Ha0.
  { destruct Ha as [Ha|Ha]; [|by right]. left. intros Hs. destruct Ha. destruct a; cbn in He;
      rewrite ?Hs in He; try discriminate.
    - by injection He as <-.
    - destruct (w_jobs w !! i); [|discriminate]. by injection He as <-.
    - destruct (w_frames w !! i) as [[]|]; cbn in He; rewrite ?Hs in He; try discriminate;
        by injection He as <-. }
  destruct a as [t|t|i|i|].
  - cbn in He. destruct (w_strand w) as [s|] eqn:Hs; [|discriminate].
    injection He as <-. by apply nearer_post.
  - cbn in He. destruct (w_strand w) as [s|] eqn:Hs.
    + pose proof (nearer_post t s k w Hs Hw Ho Hk) as Hp.
      unfold do_post in Hp. unfold postWrapped in He. destruct (post t s). by injection He as <-.
    + injection He as <-. right. cbn. split; lia.
  - by apply (nearer_take i).
  - by apply (nearer_advance i).
  - destruct Ha as [Ha|Ha]; [|by apply nearer_destroy].
    cbn in He. destruct (w_strand w); [|done]. cbn in He.
    destruct (bool_decide _); [|done]. by injection He as <-.
Qed.

Lemma exec_posted a w w' : exec a w = Some w' -> w_posted w `prefix_of` w_posted w'.
Proof.
  destruct w as [st js fs lg po]. destruct a as [t|t|i|i|]; cbn.
  - destruct st as [s|]; [|done]. cbn. intros [= <-]. unfold do_post. destruct (post t s).
    cbn. by apply prefix_app_r.
  - destruct st as [s|]; [|by intros [= <-]]. unfold postWrapped. destruct (post t s).
    intros [= <-]. by apply prefix_app_r.
  - destruct (js !! i); [|done]. by intros [= <-].
  - destruct (fs !! i) as [[c| | |]|]; cbn; try done; try (by intros [= <-]).
    destruct st as [s|]; [|done]. cbn. destruct (run_loop c s) as [[? ?] ?]. by intros [= <-].
  - destruct st as [s|]; [|done]. cbn. destruct (bool_decide _); [|done]. by intros [= <-].
Qed.

Lemma exec_all_posted l w w' : exec_all l w = Some w' -> w_posted w `prefix_of` w_posted w'.
Proof.
  revert w. induction l as [|a l IH]; intros w; cbn; [by intros [= <-]|].
  destruct (exec a w) as [w1|] eqn:He; [|discriminate]. cbn. intros Hl.
  etrans; [by eapply exec_posted|eauto].
Qed.

Lemma exec_dead a w w' : exec a w = Some w' -> w_strand w = None -> w_strand w' = None.
Proof.
  destruct w as [st js fs lg po]. cbn. intros He ->. destruct a as [t|t|i|i|]; cbn in He; try done.
  - by injection He as <-.
  - destruct (js !! i); [|done]. by injection He as <-.
  - destruct (fs !! i) as [[]|]; cbn in He; try done; by injection He as <-.
Qed.

Lemma exec_all_alive l w w' : exec_all l w = Some w' -> alive_or_kept w' -> alive_or_kept w.
Proof.
  revert w. induction l as [|a l IH]; intros w; cbn; [by intros [= <-]|].
  destruct (exec a w) as [w1|] eqn:He; [|discriminate]. cbn. intros Hl Ha.
  destruct (IH _ Hl Ha) as [H1|H1]; [left|by right]. intros Hs. eauto using exec_dead.
Qed.

Lemma ordinary_prefix l l' : l `prefix_of` l' -> ordinary l' -> ordinary l.
Proof. intros [k ->]. unfold ordinary. by intros [? _]%Forall_app. Qed.

Lemma exec_log a w w' : exec a w = Some w' -> w_log w `prefix_of` w_log w'.
Proof.
  destruct w as [st js fs lg po]. destruct a as [t|t|i|i|]; cbn.
  - destruct st as [s|]; [|done]. cbn. intros [= <-]. unfold do_post. by destruct (post t s).
  - destruct st as [s|]; [|by intros [= <-]]. unfold postWrapped. destruct (post t s).
    by intros [= <-].
  - destruct (js !! i); [|done]. by intros [= <-].
  - destruct (fs !! i) as [[c| | |]|]; cbn; try done; try (intros [= <-]; by apply prefix_app_r).
    destruct st as [s|]; [|done]. cbn. destruct (run_loop c s) as [[? ?] ?].
    intros [= <-]. by apply prefix_app_r.
  - destruct st as [s|]; [|done]. cbn. destruct (bool_decide _); [|done]. by intros [= <-].
Qed.

Lemma exec_count a w w' : exec a w = Some w' -> (count w <= count w')%nat.
Proof.
  intros [l Hl]%exec_log. unfold count, begun. rewrite Hl, flat_map_app, length_app. lia.
Qed.

Lemma exec_all_count l w w' : exec_all l w = Some w' -> (count w <= count w')%nat.
Proof.
  revert w. induction l as [|a l IH]; intros w; cbn; [by intros [= <-]|].
  destruct (exec a w) as [w1|] eqn:He; [|discriminate]. cbn. intros Hl.
  apply exec_count in He. apply IH in Hl. lia.
Qed.

Lemma loop_steps_cons a l : loop_steps (a :: l) = ((if is_loop a then 1 else 0) + loop_steps l)%nat.
Proof. unfold loop_steps. cbn. by destruct (is_loop a). Qed.

Lemma nearer_exec_all k l w w' :
  1 <= max -> exec_all l w = Some w' -> inv w -> ordinary (w_posted w') -> alive_or_kept w' ->
  (count w <= k < length (w_posted w))%nat ->
  (k < count w' \/
   (count w' <= k /\ cost (k - count w') w' + loop_steps l <= cost (k - count w) w))%nat.
Proof.
  intros Hm Hl Hw Ho Ha. revert w Hl Hw. induction l as [|a l IH]; intros w; cbn [exec_all].
  { intros [= <-] _ Hk. right. unfold loop_steps. cbn [List.filter length]. lia. }
  destruct (exec a w) as [w1|] eqn:He; [|discriminate].
  cbn [mbind option_bind]. intros Hl Hw Hk.
  pose proof (exec_posted _ _ _ He) as Hp. pose proof (prefix_length _ _ Hp) as Hlen.
  pose proof (exec_all_posted _ _ _ Hl) as Hp'.
  assert (ordinary (w_posted w)) as Ho0 by (eapply ordinary_prefix; [by etrans|done]).
  destruct (nearer_exec a k w w1 Hm He Hw Ho0 (exec_all_alive _ _ _ Hl Ha) Hk) as [Hb|[Hc Hcost]].
  - left. apply exec_all_count in Hl. lia.
  - destruct (IH w1 Hl (inv_exec _ _ _ He Hw)) as [Hb|[Hc' Hcost']]; [lia|by left|].
    right. rewrite loop_steps_cons. lia.
Qed.

Lemma cost_bound n w :
  inv w -> (1 <= cost n w <= 5 * n + 5)%nat.
Proof.
  intros (done & cur & pending & dropped & Hph & _ & _). unfold cost.
  inversion Hph; subst; try (destruct Hjs as [->| ->]); cbn -[Nat.mul]; try lia.
  destruct (Z.leb_spec (u32 (c + 1)) max); lia.
Qed.

(** Some thread of the event loop can always go on while tasks wait. *)
Lemma inv_progress w k :
  inv w -> ordinary (w_posted w) -> alive_or_kept w -> (count w <= k < length (w_posted w))%nat ->
  exists a w', is_loop a = true /\ exec a w = Some w'.
Proof.
  intros Hw Ho Ha Hk.
  destruct (inv_live _ Hw Ho Ha) as (done & cur & pending & Hph & Hlog & Hpo & Hn).
  destruct w as [st js fs lg po]; cbn in *. subst lg po. revert Hk. unfold count; cbn.
  rewrite begun_sequential, !length_app.
  inversion Hph; subst; cbn; intros Hk; try lia.
  - by exists (Take 0); eexists.
  - exists (Advance 0); cbn. destruct (run_loop _ _) as [[? ?] ?]. by eexists.
  - by exists (Advance 0); eexists.
  - done.
  - by destruct Hjs as [->| ->]; exists (Take 0); eexists.
  - by exists (Advance 0); eexists.
  - by exists (Advance 0); eexists.
Qed.

Lemma begun_nth w k t :
  inv w -> w_posted w !! k = Some t -> (k < count w)%nat -> begun (w_log w) !! k = Some t.
Proof.
  intros (done & cur & pending & dropped & Hph & Hlog & Hpo) Ht.
  unfold count. rewrite Hlog, begun_sequential. intros Hk.
  rewrite Hpo, app_assoc in Ht. by rewrite lookup_app_l in Ht.
Qed.
End phase.

(** ** Theorems *)

(** A strand as its constructors leave it. *)
Definition fresh_strand (s : Strand) : Prop :=
  m_tasksRunning s = false /\ m_tasks s = [] /\ 1 <= m_maxInARow s.

(** C12: mutual exclusion and order.  However threads post, the event loop runs its jobs and
    the strand is destroyed, at most one task is being called at any time, and the tasks are
    called one after the other in the order in which they were posted.  Tasks are dropped only
    when the strand is destroyed without the guarantee to run them, or when a task ends the
    loop of the destructor's function by an exception that is not a std::exception. *)
Theorem strand_fifo (s : Strand) (l : list action) (w : world) :
  fresh_strand s -> exec_all l (start s) = Some w ->
  exists done cur dropped,
    w_log w = sequential done cur /\ (length cur <= 1)%nat /\
    w_posted w = done ++ cur ++ waiting w ++ dropped /\
    (dropped <> [] -> w_strand w = None /\ (m_guaranteeToRun s = false \/ some_other done)).
Proof.
  intros (Hr & Ht & Hm) Hl.
  destruct (inv_exec_all _ _ _ _ _ _ Hl (inv_start _ _ _ s Hr Ht eq_refl eq_refl eq_refl))
    as (done & cur & pending & dropped & Hph & Hlog & Hpo).
  exists done, cur, dropped. split; [done|].
  split; [by inversion Hph; cbn; lia|].
  split; [by rewrite (phase_waiting _ _ _ _ _ _ _ _ Hph)|].
  intros Hd. inversion Hph; subst; try done. by apply Hd0 in Hd.
Qed.

(** C4: liveness.  If no task throws anything but std::exceptions, then a task that was posted,
    with [n] tasks in front of it, has begun after at most [5 * n + 5] steps of the event loop,
    however these steps interleave with further posts, and even when the strand is destroyed
    meanwhile if it guarantees to run its tasks; and as long as it has not begun, the event
    loop has a step to make. *)
Theorem posted_task_begins (s : Strand) (l : list action) (w : world) (k : nat) (t : T) :
  fresh_strand s -> exec_all l (start s) = Some w -> w_posted w !! k = Some t ->
  (ordinary (w_posted w) -> alive_or_kept (m_guaranteeToRun s) w -> (count w <= k)%nat ->
   exists a w', is_loop a = true /\ exec a w = Some w') /\
  (forall l' w', exec_all l' w = Some w' -> ordinary (w_posted w') ->
   alive_or_kept (m_guaranteeToRun s) w' -> (5 * (k - count w) + 5 <= loop_steps l')%nat ->
   begun (w_log w') !! k = Some t).
Proof.
  intros (Hr & Hts & Hm) Hl Ht.
  pose proof (inv_exec_all _ _ _ _ _ _ Hl (inv_start _ _ _ s Hr Hts eq_refl eq_refl eq_refl)) as Hw.
  pose proof (lookup_lt_Some _ _ _ Ht) as Hk. split.
  { intros. by eapply inv_progress. }
  intros l' w' Hl' Ho Ha Hsteps. pose proof (inv_exec_all _ _ _ _ _ _ Hl' Hw) as Hw'.
  eapply begun_nth; [done| |].
  { eapply prefix_lookup_Some; [done|by eapply exec_all_posted]. }
  destruct (Nat.lt_ge_cases k (count w)) as [Hb|Hb].
  { apply exec_all_count in Hl'. lia. }
  destruct (nearer_exec_all _ _ _ k l' w w' Hm Hl' Hw Ho Ha) as [|[Hc Hcost]]; [done|done|].
  pose proof (cost_bound _ _ _ (k - count w) w Hw). pose proof (cost_bound _ _ _ (k - count w') w' Hw').
  lia.
Qed.
End Strand.

(** Strand(ioContext) is such a strand, and Strand(cfg) for any configuration with the two
    keys: the maximum is at least one. *)
Lemma Strand_context_fresh : @Strand_context nat 3 = Ret (mkStrand false [] 1 false 3).
Proof. reflexivity. Qed.

Lemma Strand_cfg_fresh {T} (cfg : hash) (n : Z) (g : bool) :
  get (Tscalar unsigned_int) "maxInARow" k_defaultSep cfg = Ret (VPod PUInt32 n) -> 0 <= n ->
  get (Tscalar bool_) "guaranteeToRun" k_defaultSep cfg = Ret (VBool g) ->
  exists s : @Strand T, Strand_cfg cfg = Ret s /\ fresh_strand s /\ m_guaranteeToRun s = g.
Proof.
  unfold Strand_cfg. intros -> Hn ->. eexists. split; [reflexivity|].
  repeat split; cbn. destruct (Z.eqb_spec n 0); lia.
Qed.

(** Instantiates an existential with the result of a computation. *)
Ltac exists_result e :=
  let r := eval vm_compute in e in match r with Some ?w => exists w end.

(** A task that throws something else than a std::exception leaves the flag set, and the
    strand never calls a task again. *)
Example nonstandard_exception_stalls :
  let result (t : nat) := if decide (t = 1%nat) then TaskThrowsOther else TaskReturns in
  exists w, exec_all result [Post 1%nat; Take 0; Advance 0; Advance 0; Post 2%nat]
              (start (mkStrand false [] 1 false 0)) = Some w /\
    waiting w = [2%nat] /\
    forall a, is_loop a = true -> exec result a w = None.
Proof.
  cbn. eexists. split; [reflexivity|]. split; [reflexivity|].
  intros [| |i|i|]; cbn; try discriminate; intros _; by destruct i.
Qed.

Lemma strand_fifo_witness :
  let result (t : nat) := if decide (t = 1%nat) then TaskThrowsStd else TaskReturns in
  exists w, exec_all result
      [Post 1%nat; Take 0; Advance 0; Post 2%nat; Advance 0; Advance 0; Take 0; Advance 0; Post 3%nat]
      (start (mkStrand false [] 1 false 0)) = Some w /\
    exists done cur dropped,
      w_log w = sequential done cur /\ (length cur <= 1)%nat /\
      w_posted w = done ++ cur ++ waiting w ++ dropped /\
      (dropped <> [] -> w_strand w = None /\ (false = false \/ some_other result done)).
Proof.
  cbn. eexists. split; [reflexivity|].
  apply (strand_fifo _ (mkStrand false [] 1 false 0)
           [Post 1%nat; Take 0; Advance 0; Post 2%nat; Advance 0; Advance 0; Take 0; Advance 0; Post 3%nat]);
    [by repeat split|reflexivity].
Defined.

Lemma posted_task_begins_witness :
  let result (t : nat) := TaskReturns in
  let l' := [Take 0; Advance 0; Post 3%nat; Advance 0; Advance 0; Destroy; Take 0; Take 0;
             Advance 0; Advance 0; Advance 0; Advance 0] in
  exists w, exec_all result [Post 1%nat; Post 2%nat] (start (mkStrand false [] 1 true 0)) = Some w /\
  exists w', exec_all result l' w = Some w' /\ begun (w_log w') !! 1%nat = Some 2%nat.
Proof.
  intros result l'.
  exists_result (exec_all result [Post 1%nat; Post 2%nat] (start (mkStrand false [] 1 true 0))).
  split; [vm_compute; reflexivity|].
  match goal with |- exists _, exec_all _ _ ?w = _ /\ _ =>
    exists_result (exec_all result l' w); split; [vm_compute; reflexivity|];
    apply (posted_task_begins result (mkStrand false [] 1 true 0) [Post 1%nat; Post 2%nat] w 1 2%nat)
      with (l' := l')
  end.
  - by repeat split.
  - vm_compute; reflexivity.
  - reflexivity.
  - vm_compute; reflexivity.
  - by repeat constructor.
  - by right.
  - vm_compute. lia.
Defined.
