(* ===== verification/Queues.v ===== *)
(** The message queues of net/Queues.hh: the interface [Queue] as a class, its three
    implementations, and the abstract queue that they refine.

    boost::circular_buffer is a library outside of this repository: a class states what its
    documentation promises.  A pointer to a message is an [option], [None] for a null pointer.
    The counters only decide how often a warning is logged. *)

From Stdlib Require Import ZArith Lia Ascii String.
From stdpp Require Import base numbers list strings gmap.
From S2P Require Import Prelude BufferSet.

Open Scope Z_scope.

(** class Message *)
Record Message := mkMessage { m_body : option BufferSet; m_header : option bytes }.
Definition Message_default : Message := mkMessage (Some (new_BufferSet false)) None.
Definition Message_body (data : option BufferSet) : Message := mkMessage data None.
Definition Message_header (data : option BufferSet) (header : option bytes) : Message :=
  mkMessage data header.

(** class Queue, for elements [E] *)
Class Queue (Q E : Type) := {
  size : Q -> Z;
  max_size : Q -> Z;
  set_capacity : Z -> Q -> Q;
  capacity : Q -> Z;
  clear : Q -> Q;
  empty : Q -> bool;
  full : Q -> bool;
  resize : Z -> Q -> Q;
  front : Q -> outcome E;
  push_back : E -> Q -> Q;
  pop_front : Q -> outcome Q
}.

(** resize of a container of pointers *)
Definition resize_list {M} (n : Z) (l : list (option M)) : list (option M) :=
  take (Z.to_nat n) l ++ replicate (Z.to_nat n - length l) None.

Definition front_list {E} (l : list E) : outcome E :=
  match l with [] => Undef | x :: _ => Ret x end.
Definition pop_list {E} (l : list E) : outcome (list E) :=
  match l with [] => Undef | _ :: l => Ret l end.

Definition zlength {E} (l : list E) : Z := Z.of_nat (length l).

(** boost::circular_buffer<Message::Pointer>: the operations used, and what is documented
    of them in terms of the elements that the buffer holds. *)
Class CircularBuffer (B M : Type) := {
  cb_make : Z -> B;
  cb_elements : B -> list (option M);
  cb_capacity : B -> Z;
  cb_max_size : B -> Z;
  cb_size : B -> Z;
  cb_empty : B -> bool;
  cb_full : B -> bool;
  cb_set_capacity : Z -> B -> B;
  cb_clear : B -> B;
  cb_resize : Z -> B -> B;
  cb_front : B -> outcome (option M);
  cb_push_back : option M -> B -> B;
  cb_pop_front : B -> outcome B
}.

Class CircularBufferLaws (B M : Type) `{CircularBuffer B M} := {
  cb_make_elements c : 0 <= c -> cb_elements (cb_make c) = [];
  cb_make_capacity c : 0 <= c -> cb_capacity (cb_make c) = c;
  cb_bound b : zlength (cb_elements b) <= cb_capacity b;
  cb_size_eq b : cb_size b = zlength (cb_elements b);
  cb_empty_eq b : cb_empty b = (zlength (cb_elements b) =? 0);
  cb_full_eq b : cb_full b = (cb_capacity b =? zlength (cb_elements b));
  (** "[size() - new_capacity] last elements will be removed" *)
  cb_set_capacity_elements c b : 0 <= c ->
    cb_elements (cb_set_capacity c b) = take (Z.to_nat c) (cb_elements b);
  cb_set_capacity_capacity c b : 0 <= c -> cb_capacity (cb_set_capacity c b) = c;
  cb_clear_elements b : cb_elements (cb_clear b) = [];
  cb_clear_capacity b : cb_capacity (cb_clear b) = cb_capacity b;
  (** "in the case the resulting size exceeds the capacity the capacity is set to new_size" *)
  cb_resize_elements n b : 0 <= n -> cb_elements (cb_resize n b) = resize_list n (cb_elements b);
  cb_resize_capacity n b : 0 <= n -> cb_capacity (cb_resize n b) = Z.max (cb_capacity b) n;
  cb_front_eq b : cb_front b = front_list (cb_elements b);
  (** "if the capacity is 0 nothing is inserted; if the buffer is full, its leftmost element
      will be removed" *)
  cb_push_elements e b :
    cb_elements (cb_push_back e b) =
    if cb_capacity b =? 0 then cb_elements b
    else if cb_full b then tail (cb_elements b) ++ [e] else cb_elements b ++ [e];
  cb_push_capacity e b : cb_capacity (cb_push_back e b) = cb_capacity b;
  cb_pop_elements b b' : cb_pop_front b = Ret b' -> pop_list (cb_elements b) = Ret (cb_elements b');
  cb_pop_undef b : cb_pop_front b = Undef <-> cb_elements b = [];
  cb_pop_defined b : cb_pop_front b = Undef \/ exists b', cb_pop_front b = Ret b';
  cb_pop_capacity b b' : cb_pop_front b = Ret b' -> cb_capacity b' = cb_capacity b
}.

(** max_size() of a std::deque of pointers, which depends on the platform. *)
Class Platform := deque_max_size : Z.

Section Queues.
Context {M : Type} {B : Type} `{CircularBuffer B M} `{Platform}.

(** ** The implementations *)

(** m_counter is an unsigned long long. *)
Record LosslessQueue := mkLossless { l_counter : Z; l_queue : list (option M) }.

Definition new_LosslessQueue : LosslessQueue := mkLossless 0 [].

#[export] Instance Lossless_queue : Queue LosslessQueue (option M) := {
  size q := zlength (l_queue q);
  max_size q := deque_max_size;
  set_capacity capacity q := q;
  capacity q := deque_max_size;
  clear q := mkLossless (l_counter q) [];
  empty q := zlength (l_queue q) =? 0;
  full q := zlength (l_queue q) =? deque_max_size;
  resize new_size q := mkLossless (l_counter q) (resize_list new_size (l_queue q));
  front q := front_list (l_queue q);
  push_back entry q := mkLossless (l_counter q) (l_queue q ++ [entry]);
  pop_front q := l ← pop_list (l_queue q); Ret (mkLossless (l_counter q) l)
}.

Record RejectNewestQueue := mkRejectNewest { rn_base : LosslessQueue; rn_capacity : Z }.

Definition new_RejectNewestQueue (capacity : Z) : RejectNewestQueue :=
  mkRejectNewest new_LosslessQueue capacity.

Definition on_base (f : LosslessQueue -> LosslessQueue) (q : RejectNewestQueue) : RejectNewestQueue :=
  mkRejectNewest (f (rn_base q)) (rn_capacity q).

Definition count_up (q : LosslessQueue) : LosslessQueue :=
  mkLossless (u64 (l_counter q + 1)) (l_queue q).

(** full is inherited, and so compares with the maximal size of the deque. *)
#[export] Instance RejectNewest_queue : Queue RejectNewestQueue (option M) := {
  size q := size (rn_base q);
  max_size q := rn_capacity q;
  set_capacity capacity q := mkRejectNewest (rn_base q) capacity;
  capacity q := rn_capacity q;
  clear := on_base clear;
  empty q := empty (rn_base q);
  full q := full (rn_base q);
  resize new_size := on_base (resize new_size);
  front q := front (rn_base q);
  push_back entry q :=
    if size (rn_base q) <? rn_capacity q then on_base (push_back entry) q
    else on_base count_up q;
  pop_front q := b ← pop_front (rn_base q); Ret (mkRejectNewest b (rn_capacity q))
}.

Record RemoveOldestQueue := mkRemoveOldest { ro_counter : Z; ro_queue : B }.

Definition new_RemoveOldestQueue (capacity : Z) : RemoveOldestQueue :=
  mkRemoveOldest 0 (cb_make capacity).

Definition on_buffer (f : B -> B) (q : RemoveOldestQueue) : RemoveOldestQueue :=
  mkRemoveOldest (ro_counter q) (f (ro_queue q)).

#[export] Instance RemoveOldest_queue : Queue RemoveOldestQueue (option M) := {
  size q := cb_size (ro_queue q);
  max_size q := cb_max_size (ro_queue q);
  set_capacity new_capacity := on_buffer (cb_set_capacity new_capacity);
  capacity q := cb_capacity (ro_queue q);
  clear := on_buffer cb_clear;
  empty q := cb_empty (ro_queue q);
  full q := cb_full (ro_queue q);
  resize new_size := on_buffer (cb_resize new_size);
  front q := cb_front (ro_queue q);
  push_back entry q :=
    let counter := if cb_full (ro_queue q) then u64 (ro_counter q + 1) else ro_counter q in
    mkRemoveOldest counter (cb_push_back entry (ro_queue q));
  pop_front q := b ← cb_pop_front (ro_queue q); Ret (mkRemoveOldest (ro_counter q) b)
}.

(** Queue::Pointer: a call through the pointer goes to the class of the object. *)
Inductive AnyQueue : Type :=
| QLossless (q : LosslessQueue)
| QRejectNewest (q : RejectNewestQueue)
| QRemoveOldest (q : RemoveOldestQueue).

#[export] Instance Any_queue : Queue AnyQueue (option M) := {
  size a := match a with QLossless q => size q | QRejectNewest q => size q | QRemoveOldest q => size q end;
  max_size a :=
    match a with QLossless q => max_size q | QRejectNewest q => max_size q | QRemoveOldest q => max_size q end;
  set_capacity c a :=
    match a with
    | QLossless q => QLossless (set_capacity c q)
    | QRejectNewest q => QRejectNewest (set_capacity c q)
    | QRemoveOldest q => QRemoveOldest (set_capacity c q)
    end;
  capacity a :=
    match a with QLossless q => capacity q | QRejectNewest q => capacity q | QRemoveOldest q => capacity q end;
  clear a :=
    match a with
    | QLossless q => QLossless (clear q)
    | QRejectNewest q => QRejectNewest (clear q)
    | QRemoveOldest q => QRemoveOldest (clear q)
    end;
  empty a := match a with QLossless q => empty q | QRejectNewest q => empty q | QRemoveOldest q => empty q end;
  full a := match a with QLossless q => full q | QRejectNewest q => full q | QRemoveOldest q => full q end;
  resize n a :=
    match a with
    | QLossless q => QLossless (resize n q)
    | QRejectNewest q => QRejectNewest (resize n q)
    | QRemoveOldest q => QRemoveOldest (resize n q)
    end;
  front a := match a with QLossless q => front q | QRejectNewest q => front q | QRemoveOldest q => front q end;
  push_back e a :=
    match a with
    | QLossless q => QLossless (push_back e q)
    | QRejectNewest q => QRejectNewest (push_back e q)
    | QRemoveOldest q => QRemoveOldest (push_back e q)
    end;
  pop_front a :=
    match a with
    | QLossless q => q' ← pop_front q; Ret (QLossless q')
    | QRejectNewest q => q' ← pop_front q; Ret (QRejectNewest q')
    | QRemoveOldest q => q' ← pop_front q; Ret (QRemoveOldest q')
    end
}.

(** ** The abstract queue *)

(** What happens to a message for which there is no room. *)
Inductive policy : Type := KeepAll | RejectNewest | RemoveOldest.

Record aqueue := mkAqueue { a_policy : policy; a_capacity : Z; a_list : list (option M) }.

Definition with_list (l : list (option M)) (a : aqueue) : aqueue :=
  mkAqueue (a_policy a) (a_capacity a) l.

Definition a_push (e : option M) (a : aqueue) : aqueue :=
  match a_policy a with
  | KeepAll => with_list (a_list a ++ [e]) a
  | RejectNewest =>
      if zlength (a_list a) <? a_capacity a then with_list (a_list a ++ [e]) a else a
  | RemoveOldest =>
      if a_capacity a =? 0 then a
      else if zlength (a_list a) <? a_capacity a then with_list (a_list a ++ [e]) a
      else with_list (tail (a_list a) ++ [e]) a
  end.

(** The operations of the interface, and what they answer. *)
Inductive op : Type :=
| Size | SetCapacity (c : Z) | Capacity | Clear | Empty | Full | Resize (n : Z)
| Front | PushBack (e : option M) | PopFront.
Inductive answer : Type := Number (z : Z) | Truth (b : bool) | Element (e : option M) | Nothing.

(** Whether the queue has reached its capacity; one whose capacity has been lowered may hold
    more, if it does not drop what does not fit. *)
Definition a_full (a : aqueue) : bool :=
  match a_policy a with
  | RejectNewest => a_capacity a <=? zlength (a_list a)
  | KeepAll | RemoveOldest => zlength (a_list a) =? a_capacity a
  end.

Definition valid_op (o : op) : Prop :=
  match o with SetCapacity c => 0 <= c | Resize n => 0 <= n | _ => True end.

Definition a_op (o : op) (a : aqueue) : outcome (aqueue * answer) :=
  match o with
  | Size => Ret (a, Number (zlength (a_list a)))
  | SetCapacity c =>
      Ret (match a_policy a with
           | KeepAll => a
           | RejectNewest => mkAqueue RejectNewest c (a_list a)
           | RemoveOldest => mkAqueue RemoveOldest c (take (Z.to_nat c) (a_list a))
           end, Nothing)
  | Capacity => Ret (a, Number (a_capacity a))
  | Clear => Ret (with_list [] a, Nothing)
  | Empty => Ret (a, Truth (zlength (a_list a) =? 0))
  | Full => Ret (a, Truth (a_full a))
  | Resize n =>
      Ret (mkAqueue (a_policy a)
             (match a_policy a with RemoveOldest => Z.max (a_capacity a) n | _ => a_capacity a end)
             (resize_list n (a_list a)), Nothing)
  | Front => e ← front_list (a_list a); Ret (a, Element e)
  | PushBack e => Ret (a_push e a, Nothing)
  | PopFront => l ← pop_list (a_list a); Ret (with_list l a, Nothing)
  end.

(** The same through the interface. *)
Definition q_op {Q} `{Queue Q (option M)} (o : op) (q : Q) : outcome (Q * answer) :=
  match o with
  | Size => Ret (q, Number (size q))
  | SetCapacity c => Ret (set_capacity c q, Nothing)
  | Capacity => Ret (q, Number (capacity q))
  | Clear => Ret (clear q, Nothing)
  | Empty => Ret (q, Truth (empty q))
  | Full => Ret (q, Truth (full q))
  | Resize n => Ret (resize n q, Nothing)
  | Front => e ← front q; Ret (q, Element e)
  | PushBack e => Ret (push_back e q, Nothing)
  | PopFront => q' ← pop_front q; Ret (q', Nothing)
  end.

Fixpoint run_ops {S} (f : op -> S -> outcome (S * answer)) (l : list op) (s : S)
  : outcome (S * list answer) :=
  match l with
  | [] => Ret (s, [])
  | o :: l => '(s, a) ← f o s; '(s, r) ← run_ops f l s; Ret (s, a :: r)
  end.

(** The answer to an operation as far as the implementation keeps what is documented: full of
    RejectNewestQueue does not. *)
Definition documented (p : policy) (o : op) (x : answer) : answer :=
  match o with
  | Full => match p with RejectNewest => Nothing | KeepAll | RemoveOldest => x end
  | _ => x
  end.

Fixpoint documented_answers (p : policy) (l : list op) (r : list answer) : list answer :=
  match l, r with
  | o :: l, x :: r => documented p o x :: documented_answers p l r
  | _, _ => []
  end.

(** What the interface promises: every operation does to the abstract queue [abs q] what it
    does to [q]. *)
Class QueueLaws (Q : Type) `{Queue Q (option M)} := {
  abs : Q -> aqueue;
  abs_op o q : valid_op o ->
    (prod_map abs (documented (a_policy (abs q)) o) <$> q_op o q) =
    (prod_map id (documented (a_policy (abs q)) o) <$> a_op o (abs q))
}.

#[export] Program Instance Lossless_laws : QueueLaws LosslessQueue := {
  abs q := mkAqueue KeepAll deque_max_size (l_queue q)
}.
Next Obligation.
  intros o [n l] Ho. destruct o; cbn; try done; by destruct l.
Qed.

#[export] Program Instance RejectNewest_laws : QueueLaws RejectNewestQueue := {
  abs q := mkAqueue RejectNewest (rn_capacity q) (l_queue (rn_base q))
}.
Next Obligation.
  intros o [[n l] c] Ho. destruct o; cbn; try done; try (by destruct l).
  unfold a_push; cbn. by destruct (zlength l <? c).
Qed.

Context `{!CircularBufferLaws B M}.

#[export] Program Instance RemoveOldest_laws : QueueLaws RemoveOldestQueue := {
  abs q := mkAqueue RemoveOldest (cb_capacity (ro_queue q)) (cb_elements (ro_queue q))
}.
Next Obligation.
  intros o [n b] Ho. destruct o; cbn -[Z.eqb] in *.
  - by rewrite cb_size_eq.
  - by rewrite cb_set_capacity_capacity, cb_set_capacity_elements.
  - done.
  - by rewrite cb_clear_capacity, cb_clear_elements.
  - by rewrite cb_empty_eq.
  - by rewrite cb_full_eq, Z.eqb_sym.
  - by rewrite cb_resize_capacity, cb_resize_elements.
  - rewrite cb_front_eq. by destruct (front_list (cb_elements b)).
  - unfold prod_map; cbn -[Z.eqb]. rewrite cb_push_capacity, cb_push_elements, cb_full_eq.
    unfold a_push; cbn -[Z.eqb]. pose proof (cb_bound b) as Hb.
    destruct (Z.eqb_spec (cb_capacity b) 0); [done|].
    destruct (Z.eqb_spec (cb_capacity b) (zlength (cb_elements b)));
      destruct (Z.ltb_spec (zlength (cb_elements b)) (cb_capacity b)); done || lia.
  - destruct (cb_pop_defined b) as [Hu|[b' Hb']].
    + rewrite Hu. apply cb_pop_undef in Hu. by rewrite Hu.
    + rewrite Hb', (cb_pop_elements _ _ Hb'). cbn. unfold prod_map, with_list; cbn.
      by rewrite (cb_pop_capacity _ _ Hb').
Qed.

#[export] Program Instance Any_laws : QueueLaws AnyQueue := {
  abs a := match a with QLossless q => abs q | QRejectNewest q => abs q | QRemoveOldest q => abs q end
}.
Next Obligation.
  intros o [q|q|q] Ho; (etrans; [|exact (abs_op o q Ho)]); destruct o; try done; cbn -[Z.eqb].
  - by destruct (front_list (l_queue q)).
  - by destruct (pop_list (l_queue q)).
  - by destruct (front_list (l_queue (rn_base q))).
  - by destruct (pop_list (l_queue (rn_base q))).
  - by destruct (cb_front (ro_queue q)).
  - by destruct (cb_pop_front (ro_queue q)).
Qed.

(** ** Runs *)

Section client.
Context {Q : Type} `{QueueLaws Q}.

Lemma a_op_policy o a a' x : a_op o a = Ret (a', x) -> a_policy a' = a_policy a.
Proof.
  destruct a as [p c l]. destruct o; cbn; unfold a_push; cbn;
    try (intros [= <- _]; by repeat case_match); destruct l; cbn; intros E; by inversion E.
Qed.

Lemma abs_run l q :
  Forall valid_op l ->
  (prod_map abs (documented_answers (a_policy (abs q)) l) <$> run_ops q_op l q) =
  (prod_map id (documented_answers (a_policy (abs q)) l) <$> run_ops a_op l (abs q)).
Proof.
  revert q. induction l as [|o l IH]; intros q Hl; [done|].
  apply Forall_cons in Hl as [Ho Hl]. cbn. pose proof (abs_op o q Ho) as Hop.
  destruct (q_op o q) as [[q' x]| | |], (a_op o (abs q)) as [[a' y]| | |] eqn:Ea; try discriminate;
    try done; cbn in Hop |- *; try congruence.
  injection Hop as <- Hx. apply a_op_policy in Ea. specialize (IH q' Hl). rewrite Ea in IH.
  destruct (run_ops q_op l q') as [[q1 r]| | |], (run_ops a_op l (abs q')) as [[a1 t]| | |];
    try discriminate; try done; cbn in IH |- *; congruence.
Qed.
End client.

(** A run of pushes and pops of the abstract queue: its last state and what was popped. *)
Inductive traffic : Type := Push (e : option M) | Pop.

Fixpoint a_traffic (l : list traffic) (a : aqueue) : outcome (aqueue * list (option M)) :=
  match l with
  | [] => Ret (a, [])
  | Push e :: l => a_traffic l (a_push e a)
  | Pop :: l =>
      e ← front_list (a_list a); tl ← pop_list (a_list a);
      '(a, r) ← a_traffic l (with_list tl a); Ret (a, e :: r)
  end.

(** The same through the interface, as the writer of a channel does it. *)
Fixpoint q_traffic {Q} `{Queue Q (option M)} (l : list traffic) (q : Q)
  : outcome (Q * list (option M)) :=
  match l with
  | [] => Ret (q, [])
  | Push e :: l => q_traffic l (push_back e q)
  | Pop :: l =>
      e ← front q; q ← pop_front q; '(q, r) ← q_traffic l q; Ret (q, e :: r)
  end.

Fixpoint pushed (l : list traffic) : list (option M) :=
  match l with
  | [] => []
  | Push e :: l => e :: pushed l
  | Pop :: l => pushed l
  end.

Lemma documented_id (p : policy) (o : op) (x : answer) : p <> RejectNewest -> documented p o x = x.
Proof. by destruct o, p. Qed.

Lemma run_ops_length {S} (f : op -> S -> outcome (S * answer)) (l : list op) (s s' : S) (r : list answer) :
  run_ops f l s = Ret (s', r) -> length r = length l.
Proof.
  revert s s' r. induction l as [|o l IH]; intros s s' r; cbn; [by intros [= _ <-]|].
  destruct (f o s) as [[s1 x]| | |]; try discriminate. cbn.
  destruct (run_ops f l s1) as [[s2 t]| | |] eqn:E; try discriminate. cbn.
  intros [= _ <-]. cbn. by rewrite (IH _ _ _ E).
Qed.

Lemma documented_answers_id (p : policy) (l : list op) (r : list answer) :
  p <> RejectNewest -> length r = length l -> documented_answers p l r = r.
Proof.
  intros Hp. revert r. induction l as [|o l IH]; intros [|x r]; cbn; try done.
  intros [= Hr]. by rewrite documented_id, IH.
Qed.

Lemma documented_all {S} (f : S -> aqueue) (g : op -> S -> outcome (S * answer)) (p : policy)
    (l : list op) (s : S) (a : aqueue) :
  (prod_map f (documented_answers p l) <$> run_ops g l s) =
  (prod_map id (documented_answers p l) <$> run_ops a_op l a) ->
  p <> RejectNewest -> (prod_map f id <$> run_ops g l s) = run_ops a_op l a.
Proof.
  intros E Hp.
  destruct (run_ops g l s) as [[s' r]| | |] eqn:Eg, (run_ops a_op l a) as [[a' t]| | |] eqn:Ea;
    try discriminate; try done; cbn in E |- *; try congruence.
  apply run_ops_length in Eg, Ea. rewrite !documented_answers_id in E by done.
  by injection E as -> ->.
Qed.

Section client_traffic.
Context {Q : Type} `{QueueLaws Q}.

Lemma abs_push e q : abs (push_back e q) = a_push e (abs q).
Proof. pose proof (abs_op (PushBack e) q I) as Hp. cbn in Hp. by injection Hp. Qed.

Lemma abs_empty q : empty q = (zlength (a_list (abs q)) =? 0).
Proof. pose proof (abs_op Empty q I) as Hp. cbn in Hp. by injection Hp. Qed.

Lemma abs_front q : front q = front_list (a_list (abs q)).
Proof.
  pose proof (abs_op Front q I) as Hp. cbn in Hp.
  destruct (front q), (front_list _); try discriminate; try done; by injection Hp as ->.
Qed.

Lemma abs_pop q : (abs <$> pop_front q) = (fun l => with_list l (abs q)) <$> pop_list (a_list (abs q)).
Proof.
  pose proof (abs_op PopFront q I) as Hp. cbn in Hp.
  destruct (pop_front q), (pop_list _); try discriminate; try done.
  all: cbn in *; by injection Hp as ->.
Qed.

Lemma abs_cons q e l :
  a_list (abs q) = e :: l -> front q = Ret e /\ exists q', pop_front q = Ret q' /\ abs q' = with_list l (abs q).
Proof.
  intros Hl. split; [by rewrite abs_front, Hl|].
  pose proof (abs_pop q) as Hp. rewrite Hl in Hp. cbn in Hp.
  destruct (pop_front q) as [q'| | |]; try discriminate. injection Hp as Hp. by exists q'.
Qed.

Lemma abs_traffic l q : (prod_map abs id <$> q_traffic l q) = a_traffic l (abs q).
Proof.
  revert q. induction l as [|[e|] l IH]; intros q; [done|..]; cbn.
  - by rewrite IH, abs_push.
  - rewrite abs_front. destruct (front_list _) as [e| | |]; try done. cbn.
    pose proof (abs_pop q) as Hp. destruct (pop_front q) as [q'| | |], (pop_list _) as [tl| | |];
      try discriminate; try done; cbn in *; injection Hp as Hp; [|by rewrite Hp].
    rewrite <- Hp, <- IH.
    by destruct (q_traffic l q') as [[]| | |].
Qed.
End client_traffic.

Lemma a_push_props e a :
  a_policy (a_push e a) = a_policy a /\ a_capacity (a_push e a) = a_capacity a /\
  a_list (a_push e a) `sublist_of` a_list a ++ [e] /\
  (a_policy a = KeepAll \/ zlength (a_list a) < a_capacity a -> a_list (a_push e a) = a_list a ++ [e]) /\
  (a_policy a <> KeepAll -> zlength (a_list a) <= a_capacity a ->
   zlength (a_list (a_push e a)) <= a_capacity a) /\
  (a_policy a = RemoveOldest -> 0 < a_capacity a -> a_list (a_push e a) `suffix_of` a_list a ++ [e]).
Proof.
  destruct a as [p c l]. unfold a_push, zlength. cbn.
  pose proof (sublist_inserts_r [e] l l ltac:(done)) as Hl.
  destruct p; cbn; [|destruct (Z.ltb_spec (Z.of_nat (length l)) c); cbn|
    destruct (Z.eqb_spec c 0); cbn; [|destruct (Z.ltb_spec (Z.of_nat (length l)) c); cbn]];
    rewrite ?length_app; cbn; (repeat split); try done; try (intros; lia);
    try (by intros [?|?]; [|lia]).
  - destruct l as [|x l]; cbn; [done|]. by constructor.
  - intros _ Hlc; destruct l as [|x l]; cbn in *; [lia|]. lia.
  - intros _ _. destruct l as [|x l]; [done|]. by exists [x].
Qed.

Lemma a_traffic_props l a a' r :
  a_traffic l a = Ret (a', r) ->
  a_policy a' = a_policy a /\ a_capacity a' = a_capacity a /\
  r ++ a_list a' `sublist_of` a_list a ++ pushed l /\
  (a_policy a = KeepAll \/ zlength (a_list a) + zlength (pushed l) <= a_capacity a ->
   r ++ a_list a' = a_list a ++ pushed l) /\
  (a_policy a <> KeepAll -> zlength (a_list a) <= a_capacity a ->
   zlength (a_list a') <= a_capacity a) /\
  (a_policy a = RemoveOldest -> 0 < a_capacity a -> a_list a' `suffix_of` a_list a ++ pushed l).
Proof.
  revert a r. induction l as [|[e|] l IH]; intros a r; cbn.
  - intros [= -> <-]. cbn. rewrite app_nil_r. naive_solver.
  - intros Ht%IH. destruct Ht as (Hp & Hc & Hs & He & Hb & Hx).
    destruct (a_push_props e a) as (Hp' & Hc' & Hs' & He' & Hb' & Hx').
    rewrite Hp', Hc' in *. rewrite cons_middle, app_assoc. repeat split; try done.
    + etrans; [exact Hs|]. by apply sublist_app.
    + intros Hk. rewrite He.
      * rewrite He'; [done|]. unfold zlength in *; cbn in Hk. destruct Hk; [by left|right; lia].
      * destruct Hk as [Hk|Hk]; [by left|right].
        rewrite He'; unfold zlength in *; rewrite ?length_app; cbn in *; [lia|right; lia].
    + auto.
    + intros Hr Hpos. etrans; [by apply Hx|]. destruct (Hx' Hr Hpos) as [k ->].
      exists k. by rewrite app_assoc.
  - destruct (a_list a) as [|e tl] eqn:Hl; [discriminate|]. cbn.
    destruct (a_traffic l (with_list tl a)) as [[a1 r1]| | |] eqn:Ht; try discriminate.
    intros [= <- <-]. apply IH in Ht as (Hp & Hc & Hs & He & Hb & Hx). cbn in *.
    repeat split; try done.
    + by constructor.
    + intros Hk. f_equal. apply He. unfold zlength in *. cbn in *.
      destruct Hk; [by left|right; lia].
    + intros Hk Hz. apply Hb; [done|]. unfold zlength in *. cbn in *. lia.
    + intros Hr Hpos. etrans; [by apply Hx|]. by exists [e].
Qed.

(** C13: the three implementations, called through the interface, refine the abstract queue:
    every sequence of operations answers what the abstract queue answers, and leaves a queue
    that stands for the abstract one it leaves; an operation without a meaning on an empty
    queue (front, pop_front) has none here too.  The one exception is full of
    RejectNewestQueue, which does not say whether the capacity is reached, but whether the
    largest std::deque is. *)
Theorem queue_refinement (q : AnyQueue) (l : list op) :
  Forall valid_op l ->
  (prod_map abs (documented_answers (a_policy (abs q)) l) <$> run_ops q_op l q) =
  (prod_map id (documented_answers (a_policy (abs q)) l) <$> run_ops a_op l (abs q)) /\
  ((forall c, q <> QRejectNewest c) -> (prod_map abs id <$> run_ops q_op l q) = run_ops a_op l (abs q)) /\
  (forall c, q = QRejectNewest c ->
     q_op Full q = Ret (q, Truth (size q =? deque_max_size)) /\
     a_op Full (abs q) = Ret (abs q, Truth (capacity q <=? size q))).
Proof.
  intros Hl. pose proof (abs_run l q Hl) as Hr. split_and!; [exact Hr| |by intros c ->].
  intros Hq. apply documented_all in Hr; [exact Hr|]. by destruct q as [c|c|c]; [..|destruct (Hq c)|].
Qed.

(** C37: what becomes of the messages.  Whatever the order of pushes and pops: messages leave in
    the order in which they came, none twice; a LosslessQueue loses none, neither do the others
    as long as the capacity suffices; the others never hold more than their capacity; and a
    RemoveOldestQueue holds the newest messages. *)
Theorem queue_traffic (q q' : AnyQueue) (l : list traffic) (popped : list (option M)) :
  q_traffic l q = Ret (q', popped) ->
  let old := a_list (abs q) in
  let new := a_list (abs q') in
  let room := a_capacity (abs q) in
  popped ++ new `sublist_of` old ++ pushed l /\
  ((exists c, q = QLossless c) \/ zlength old + zlength (pushed l) <= room ->
   popped ++ new = old ++ pushed l) /\
  (~ (exists c, q = QLossless c) -> zlength old <= room -> zlength new <= room) /\
  ((exists c, q = QRemoveOldest c) -> 0 < room -> new `suffix_of` old ++ pushed l).
Proof.
  intros Ht. pose proof (abs_traffic l q) as Ha. rewrite Ht in Ha. cbn in Ha. symmetry in Ha.
  apply a_traffic_props in Ha as (_ & _ & Hs & He & Hb & Hx). cbn zeta.
  split; [done|]. split; [|split].
  - intros [[c ->]|Hr]; apply He; [by left|by right].
  - intros Hq. apply Hb. destruct q as [c|c|c]; [|done|done]. by destruct Hq; exists c.
  - intros [c ->]. by apply Hx.
Qed.

(** RejectNewestQueue::full is inherited from LosslessQueue: a queue at its capacity, which
    rejects the next message, does not call itself full. *)
Lemma RejectNewest_full (c : Z) (q : RejectNewestQueue) (e : option M) :
  rn_capacity q = c -> size q = c -> c < deque_max_size ->
  full q = false /\ abs (push_back e q) = abs q.
Proof.
  destruct q as [[n l] c']. cbn. intros -> Hs Hc. unfold zlength in *.
  destruct (Z.eqb_spec (Z.of_nat (length l)) deque_max_size); [lia|].
  destruct (Z.ltb_spec (Z.of_nat (length l)) c); [lia|]. done.
Qed.
End Queues.

(** ** A circular buffer

    A list with a capacity has the documented behaviour, so that it can stand for
    boost::circular_buffer in examples. *)
Section list_buffer.
Context {M : Type}.

Record list_buffer := mkListBuffer {
  lb_list : list (option M);
  lb_capacity : Z;
  lb_bound : bool_decide (zlength lb_list <= lb_capacity) = true
}.

Lemma bound_true (l : list (option M)) c : zlength l <= c -> bool_decide (zlength l <= c) = true.
Proof. by intros; apply bool_decide_eq_true. Qed.

(** The buffer of capacity at least [c] with the elements [l]. *)
Program Definition fit (l : list (option M)) (c : Z) : list_buffer :=
  mkListBuffer l (Z.max c (zlength l)) _.
Next Obligation. intros. apply bound_true. lia. Qed.

#[export] Instance list_CircularBuffer : CircularBuffer list_buffer M := {
  cb_make c := fit [] c;
  cb_elements := lb_list;
  cb_capacity := lb_capacity;
  cb_max_size b := 2 ^ 59;
  cb_size b := zlength (lb_list b);
  cb_empty b := zlength (lb_list b) =? 0;
  cb_full b := lb_capacity b =? zlength (lb_list b);
  cb_set_capacity c b := fit (take (Z.to_nat c) (lb_list b)) c;
  cb_clear b := fit [] (lb_capacity b);
  cb_resize n b := fit (resize_list n (lb_list b)) (Z.max (lb_capacity b) n);
  cb_front b := front_list (lb_list b);
  cb_push_back e b :=
    if lb_capacity b =? 0 then b
    else if lb_capacity b =? zlength (lb_list b) then fit (tail (lb_list b) ++ [e]) (lb_capacity b)
    else fit (lb_list b ++ [e]) (lb_capacity b);
  cb_pop_front b := match lb_list b with [] => Undef | _ :: l => Ret (fit l (lb_capacity b)) end
}.

Lemma fit_capacity l c : zlength l <= c -> lb_capacity (fit l c) = c.
Proof. cbn. lia. Qed.

Lemma resize_length (n : Z) (l : list (option M)) : 0 <= n -> zlength (resize_list n l) = n.
Proof. unfold zlength, resize_list. rewrite length_app, length_take, length_replicate. lia. Qed.

#[export] Instance list_CircularBufferLaws : CircularBufferLaws list_buffer M.
Proof.
  assert (Hb : forall b, zlength (lb_list b) <= lb_capacity b).
  { intros b. by apply (bool_decide_eq_true_1 _), lb_bound. }
  assert (H0 : forall l : list (option M), 0 <= zlength l) by (unfold zlength; lia).
  split; try done; cbn [cb_make cb_elements cb_capacity cb_set_capacity cb_clear cb_resize
    cb_push_back cb_pop_front cb_full list_CircularBuffer].
  - intros. by apply fit_capacity.
  - intros c b Hc. apply fit_capacity. unfold zlength. rewrite length_take. lia.
  - intros b. apply fit_capacity. etrans; [apply H0|apply Hb].
  - intros n b Hn. apply fit_capacity. rewrite resize_length; lia.
  - intros e b. destruct (Z.eqb_spec (lb_capacity b) 0); [done|].
    by destruct (Z.eqb_spec (lb_capacity b) (zlength (lb_list b))).
  - intros e b. specialize (Hb b). destruct (Z.eqb_spec (lb_capacity b) 0); [done|].
    destruct (Z.eqb_spec (lb_capacity b) (zlength (lb_list b))); apply fit_capacity;
      unfold zlength in *; rewrite length_app; destruct (lb_list b); cbn in *; lia.
  - intros b b' Hp. by destruct (lb_list b); [|injection Hp as <-].
  - intros b. destruct (lb_list b) eqn:E; rewrite ?E; by split.
  - intros b. destruct (lb_list b); [by left|right; by eexists].
  - intros b b' Hp. specialize (Hb b). destruct (lb_list b); [done|injection Hp as <-].
    apply fit_capacity. unfold zlength in *. cbn in *. lia.
Qed.
End list_buffer.

(** The value of libstdc++ on a 64-bit platform, for elements of 16 bytes. *)
Definition libstdcxx : Platform := (2 ^ 63 - 1) / 16.

Lemma queue_refinement_witness :
  let _ := libstdcxx in
  let q := QRemoveOldest (new_RemoveOldestQueue 2) : @AnyQueue nat (@list_buffer nat) in
  let l := [PushBack (Some 1%nat); PushBack (Some 2%nat); PushBack (Some 3%nat); Full; Front; PopFront;
            SetCapacity 1; Size; Resize 3; Capacity] in
  run_ops a_op l (mkAqueue RemoveOldest 2 []) =
    Ret (mkAqueue RemoveOldest 3 [Some 3%nat; None; None],
         [Nothing; Nothing; Nothing; Truth true; Element (Some 2%nat); Nothing; Nothing; Number 1;
          Nothing; Number 3]) /\
  (prod_map abs id <$> run_ops q_op l q) = run_ops a_op l (abs q).
Proof.
  split; [vm_compute; reflexivity|].
  apply queue_refinement; [|discriminate]. repeat constructor; discriminate.
Defined.

Lemma queue_traffic_witness :
  let _ := libstdcxx in
  let q := QRejectNewest (new_RejectNewestQueue 2) : @AnyQueue nat (@list_buffer nat) in
  let l := [Push (Some 1%nat); Push (Some 2%nat); Push (Some 3%nat); Pop; Push (Some 4%nat)] in
  exists q', q_traffic l q = Ret (q', [Some 1%nat]) /\
    [Some 1%nat] ++ a_list (abs q') `sublist_of` [] ++ pushed l.
Proof.
  intros pf q l. eexists. split; [vm_compute; reflexivity|].
  apply (queue_traffic q _ l [Some 1%nat]). vm_compute; reflexivity.
Defined.
