(* ===== verification/TcpWriter.v ===== *)
(** The queued writing of net/TcpChannel.cc: messages of ten priorities, each with a queue of
    its own (Queues.v), are written to a socket one at a time by handlers on the event loop.

    Each function is split where it gives up a lock; worlds contain what is between two
    locks, what is posted to the event loop and what the operating system is writing, and
    actions interleave them in any order.  boost::asio::async_write is modelled as documented:
    it reads the memory of its buffers until it completes, so two writes must not overlap. *)

From Stdlib Require Import ZArith Lia Ascii String.
From stdpp Require Import base numbers list strings gmap.
From S2P Require Import Prelude Types Strings OrderedMap Hash HashAccess BufferSet Queues.
Import Types.

Open Scope Z_scope.

Definition kDefaultQueueCapacity : Z := 5000.

Section TcpWriter.
Context {B : Type} `{CircularBuffer B Message} `{Platform}.
(** boost::to_upper_copy *)
Context (to_upper_copy : string -> string).

Abbreviation queue := (@AnyQueue Message B).

(** The members of TcpChannel used here; whether the socket is open is part of it. *)
Record TcpChannel := mkTcpChannel {
  m_queue : list (option queue);
  m_queueWrittenBytes : list Z;
  m_writtenBytes : Z;
  m_headerSize : Z;
  m_bodySize : Z;
  m_writeInProgress : bool;
  m_open : bool
}.

(** TcpChannel(connection), and opening the socket. *)
Definition new_TcpChannel : TcpChannel :=
  mkTcpChannel
    [Some (QRejectNewest (new_RejectNewestQueue kDefaultQueueCapacity)); None;
     Some (QRemoveOldest (new_RemoveOldestQueue kDefaultQueueCapacity)); None;
     Some (QLossless new_LosslessQueue); None; None; None; None; None]
    (replicate 10 0) 0 0 0 false true.

Definition with_queues (qs : list (option queue)) (ch : TcpChannel) : TcpChannel :=
  mkTcpChannel qs (m_queueWrittenBytes ch) (m_writtenBytes ch) (m_headerSize ch) (m_bodySize ch)
    (m_writeInProgress ch) (m_open ch).
Definition with_progress (b : bool) (ch : TcpChannel) : TcpChannel :=
  mkTcpChannel (m_queue ch) (m_queueWrittenBytes ch) (m_writtenBytes ch) (m_headerSize ch) (m_bodySize ch)
    b (m_open ch).
Definition with_sizes (hs bs : Z) (ch : TcpChannel) : TcpChannel :=
  mkTcpChannel (m_queue ch) (m_queueWrittenBytes ch) (m_writtenBytes ch) hs bs
    (m_writeInProgress ch) (m_open ch).
Definition close (ch : TcpChannel) : TcpChannel :=
  mkTcpChannel (m_queue ch) (m_queueWrittenBytes ch) (m_writtenBytes ch) (m_headerSize ch) (m_bodySize ch)
    (m_writeInProgress ch) false.

(** m_queue[prio], with an [int] index *)
Definition queue_at (prio : Z) (qs : list (option queue)) : outcome (option queue) :=
  if prio <? 0 then Undef
  else match qs !! Z.to_nat prio with Some q => Ret q | None => Undef end.

Definition setAsyncChannelPolicy (priority : Z) (new_policy : string) (capacity : Z) (ch : TcpChannel)
  : outcome TcpChannel :=
  let candidate := to_upper_copy new_policy in
  let capacity := if 0 <? capacity then capacity else kDefaultQueueCapacity in
  let put q :=
    _ ← queue_at priority (m_queue ch);
    Ret (with_queues (<[Z.to_nat priority := Some q]> (m_queue ch)) ch) in
  if String.eqb candidate "LOSSLESS" then put (QLossless new_LosslessQueue)
  else if String.eqb candidate "REJECT_NEWEST" then put (QRejectNewest (new_RejectNewestQueue capacity))
  else if String.eqb candidate "REMOVE_OLDEST" then put (QRemoveOldest (new_RemoveOldestQueue capacity))
  else Throw NotSupportedException.

(** queueInfo(): one entry for each queue; the keys are the digits of the index. *)
Definition queueStats (i : nat) (q : queue) (ch : TcpChannel) : outcome hash :=
  match m_queueWrittenBytes ch !! i with
  | Some n => Ret [mkNode "pendingCount" [] (VPod PUInt64 (size q)); mkNode "writtenBytes" [] (VPod PUInt64 n)]
  | None => Undef
  end.
Fixpoint queueInfo_loop (i : nat) (qs : list (option queue)) (ch : TcpChannel) : outcome hash :=
  match qs with
  | [] => Ret []
  | None :: qs => queueInfo_loop (S i) qs ch
  | Some q :: qs =>
      stats ← queueStats i q ch; info ← queueInfo_loop (S i) qs ch;
      Ret (mkNode (decimal (Z.of_nat i)) [] (VHash stats) :: info)
  end.
Definition queueInfo (ch : TcpChannel) : outcome hash := queueInfo_loop 0 (m_queue ch) ch.

(** dispatchWriteAsync: the new channel, and whether doWrite is posted to the event loop. *)
Definition dispatchWriteAsync (mp : option Message) (prio : Z) (ch : TcpChannel)
  : outcome (TcpChannel * bool) :=
  q ← queue_at prio (m_queue ch);
  match q with
  | None => Undef
  | Some q =>
      let ch := with_queues (<[Z.to_nat prio := Some (push_back mp q)]> (m_queue ch)) ch in
      if negb (m_writeInProgress ch) then Ret (with_progress true ch, true) else Ret (ch, false)
  end.

(** doWrite: the loop over the queues from [i = n - 1] down to 0: the message found, its index
    and the queues left. *)
Fixpoint doWrite_loop (n : nat) (qs : list (option queue))
  : outcome (option Message * Z * list (option queue)) :=
  match n with
  | O => Ret (None, 0, qs)
  | S i =>
      match qs !! i with
      | None => Undef
      | Some None => doWrite_loop i qs
      | Some (Some q) =>
          if empty q then doWrite_loop i qs
          else
            mp ← front q;
            q' ← pop_front q;
            Ret (mp, Z.of_nat i, <[i := Some q']> qs)
      end
  end.

(** doWrite under the lock of the queues: a message to go on with, if there is one. *)
Definition doWrite (ch : TcpChannel) : outcome (TcpChannel * option (Message * Z)) :=
  '(mp, queueIndex, qs) ← doWrite_loop 10 (m_queue ch);
  let ch := with_queues qs ch in
  Ret match mp with
      | None => (with_progress false ch, None)
      | Some mp => (ch, Some (mp, queueIndex))
      end.

(** The buffers of an async_write: memory of members, of which the content is read while the
    write is under way, and memory that does not change. *)
Inductive asio_buffer : Type := HeaderSize | BodySize | Data (b : bytes).

(** What follows under the lock of the socket: the buffers written, if the socket is open.  The
    handler of std::exceptions gives up the writing. *)
Definition doWrite_socket (mp : Message) (ch : TcpChannel)
  : outcome (TcpChannel * option (list asio_buffer)) :=
  if m_open ch then
    let '(hs, buf) :=
      match m_header mp with
      | Some hdr => (u32 (Z.of_nat (length hdr)), [HeaderSize; Data hdr])
      | None => (m_headerSize ch, [])
      end in
    match m_body mp with
    | None => Undef
    | Some data =>
        let ch := with_sizes hs (u32 (totalSize data)) ch in
        match asio_buffers data with
        | Ret bs => Ret (ch, Some (buf ++ [BodySize] ++ map Data bs))
        | Throw _ => Ret (with_progress false ch, None)
        | Undef => Undef
        | OutOfFuel => OutOfFuel
        end
    end
  else Ret (ch, None).

(** The bytes of the buffers; an unsigned int has four. *)
Definition buffer_bytes (ch : TcpChannel) (b : asio_buffer) : bytes :=
  match b with
  | HeaderSize => le_bytes 4 (m_headerSize ch)
  | BodySize => le_bytes 4 (m_bodySize ch)
  | Data b => b
  end.
Definition written (ch : TcpChannel) (buf : list asio_buffer) : bytes := flat_map (buffer_bytes ch) buf.

(** doWriteHandler up to the call of doWrite, or in case of an error to the lock of the socket:
    the new channel, and whether doWrite is called. *)
Definition doWriteHandler (ec : bool) (len : Z) (queueIndex : Z) (ch : TcpChannel)
  : outcome (TcpChannel * bool) :=
  match m_queueWrittenBytes ch !! Z.to_nat queueIndex with
  | None => Undef
  | Some n =>
      let ch := mkTcpChannel (m_queue ch)
                  (<[Z.to_nat queueIndex := u64 (n + len)]> (m_queueWrittenBytes ch))
                  (u64 (m_writtenBytes ch + len)) (m_headerSize ch) (m_bodySize ch)
                  (m_writeInProgress ch) (m_open ch) in
      if negb ec then Ret (ch, true) else Ret (with_progress false ch, false)
  end.

(** dataQuantityWritten() *)
Definition dataQuantityWritten (ch : TcpChannel) : TcpChannel * Z :=
  (mkTcpChannel (m_queue ch) (m_queueWrittenBytes ch) 0 (m_headerSize ch) (m_bodySize ch)
     (m_writeInProgress ch) (m_open ch), m_writtenBytes ch).

(** ** Interleaving *)

(** [w_jobs]: calls of doWrite posted to the event loop; [w_calls]: calls of doWrite in front
    of their second lock; [w_writes]: writes under way; [w_closing]: calls of doWriteHandler that
    are about to close the socket.  [w_wire] is what the peer receives; a connection on which a
    write has failed is broken, and transfers nothing more.  The last three are records: the messages dispatched and those taken by doWrite, with their
    priorities, and the messages written completely. *)
Record world := mkWorld {
  w_channel : TcpChannel;
  w_jobs : nat;
  w_calls : list (Message * Z);
  w_writes : list (Message * Z * list asio_buffer);
  w_closing : nat;
  w_broken : bool;
  w_wire : bytes;
  w_pushed : list (Z * Message);
  w_taken : list (Z * Message);
  w_sent : list Message
}.

Inductive action : Type :=
| Dispatch (mp : Message) (prio : Z)
| DoWrite                               (** the event loop takes a posted call *)
| Socket (i : nat)                      (** the i-th call gets the lock of the socket *)
| Complete (i : nat) (ec : bool) (n : nat) (** the i-th write ends, in case of an error after n bytes *)
| CloseLate                             (** doWriteHandler closes the socket *)
| Close                                 (** close() *)
| Policy (priority : Z) (new_policy : string) (capacity : Z)
| Written.                              (** dataQuantityWritten() *)

Definition on_channel (w : world) (ch : TcpChannel) : world :=
  mkWorld ch (w_jobs w) (w_calls w) (w_writes w) (w_closing w) (w_broken w) (w_wire w) (w_pushed w)
    (w_taken w) (w_sent w).

(** A call of doWrite, up to its second lock. *)
Definition call_doWrite (w : world) : outcome world :=
  '(ch, m) ← doWrite (w_channel w);
  Ret match m with
      | None => on_channel w ch
      | Some (mp, i) =>
          mkWorld ch (w_jobs w) (w_calls w ++ [(mp, i)]) (w_writes w) (w_closing w) (w_broken w)
            (w_wire w) (w_pushed w) (w_taken w ++ [(i, mp)]) (w_sent w)
      end.

(** [None]: the action is not possible. *)
Definition exec (a : action) (w : world) : option (outcome world) :=
  let ch := w_channel w in
  match a with
  | Dispatch mp prio => Some (
      '(ch, posted) ← dispatchWriteAsync (Some mp) prio ch;
      Ret (mkWorld ch (w_jobs w + Nat.b2n posted)%nat (w_calls w) (w_writes w) (w_closing w)
             (w_broken w) (w_wire w) (w_pushed w ++ [(prio, mp)]) (w_taken w) (w_sent w)))
  | DoWrite =>
      match w_jobs w with
      | O => None
      | S n => Some (call_doWrite (mkWorld ch n (w_calls w) (w_writes w) (w_closing w) (w_broken w)
                                     (w_wire w) (w_pushed w) (w_taken w) (w_sent w)))
      end
  | Socket i =>
      c ← w_calls w !! i;
      Some ('(ch, buf) ← doWrite_socket c.1 ch;
            Ret (mkWorld ch (w_jobs w) (delete i (w_calls w))
                   (w_writes w ++ match buf with Some buf => [(c, buf)] | None => [] end)
                   (w_closing w) (w_broken w) (w_wire w) (w_pushed w) (w_taken w) (w_sent w)))
  | Complete i ec n =>
      c ← w_writes w !! i;
      let all := written ch (snd c) in
      let sent := if ec then take n all else all in
      if w_broken w && (negb ec || negb (bool_decide (n = 0%nat))) then None
      else Some ('(ch, more) ← doWriteHandler ec (Z.of_nat (length sent)) c.1.2 ch;
            let w := mkWorld ch (w_jobs w) (w_calls w) (delete i (w_writes w))
                       (w_closing w + Nat.b2n ec)%nat (w_broken w || ec) (w_wire w ++ sent)
                       (w_pushed w) (w_taken w)
                       (w_sent w ++ if ec then [] else [c.1.1]) in
            match more with true => call_doWrite w | false => Ret w end)
  | CloseLate =>
      match w_closing w with
      | O => None
      | S n => Some (Ret (mkWorld (close ch) (w_jobs w) (w_calls w) (w_writes w) n (w_broken w)
                            (w_wire w) (w_pushed w) (w_taken w) (w_sent w)))
      end
  | Close => Some (Ret (on_channel w (close ch)))
  | Policy p s c =>
      Some match setAsyncChannelPolicy p s c ch with
           | Ret ch => Ret (on_channel w ch)
           | Throw _ => Ret w
           | Undef => Undef
           | OutOfFuel => OutOfFuel
           end
  | Written => Some (Ret (on_channel w (dataQuantityWritten ch).1))
  end.

Definition start : world := mkWorld new_TcpChannel 0 [] [] 0 false [] [] [] [].

(** ** The queues *)

Context `{!CircularBufferLaws B Message}.

(** The messages waiting with priority [p]. *)
Definition waiting (qs : list (option queue)) (p : nat) : list (option Message) :=
  match qs !! p with Some (Some q) => a_list (abs q) | _ => [] end.

(** Ten queues, no null pointer in them, and the three that every channel has. *)
Definition queues_ok (qs : list (option queue)) : Prop :=
  length qs = 10%nat /\ (forall p, Forall is_Some (waiting qs p)) /\
  (forall p, In p [0; 2; 4] -> exists q, qs !! Z.to_nat p = Some (Some q)).

Lemma waiting_insert qs i q p :
  (i < length qs)%nat ->
  waiting (<[i := Some q]> qs) p = if decide (p = i) then a_list (abs q) else waiting qs p.
Proof.
  intros Hi. unfold waiting. destruct (decide (p = i)) as [->|Hp].
  - by rewrite list_lookup_insert_eq.
  - by rewrite list_lookup_insert_ne.
Qed.

Lemma queues_ok_insert qs i q :
  queues_ok qs -> Forall is_Some (a_list (abs q)) -> (i < 10)%nat -> queues_ok (<[i := Some q]> qs).
Proof.
  intros (Hl & Hs & Hq) Hq' Hi. split; [by rewrite length_insert|split].
  - intros p. rewrite waiting_insert by lia. by case_decide.
  - intros p Hp. destruct (decide (Z.to_nat p = i)) as [E|E].
    + exists q. rewrite E, list_lookup_insert_eq; [done|lia].
    + destruct (Hq p Hp) as [q0 Hq0]. exists q0. by rewrite list_lookup_insert_ne.
Qed.

(** The loop finds the first message of the non-empty queue of the highest index. *)
Lemma doWrite_loop_spec n qs :
  queues_ok qs -> (n <= 10)%nat ->
  (doWrite_loop n qs = Ret (None, 0, qs) /\ (forall p, (p < n)%nat -> waiting qs p = [])) \/
  (exists m i l q0 q, doWrite_loop n qs = Ret (Some m, Z.of_nat i, <[i := Some q]> qs) /\ (i < n)%nat /\
    waiting qs i = Some m :: l /\ a_list (abs q) = l /\
    qs !! i = Some (Some q0) /\ pop_front q0 = Ret q /\
    (forall p, (i < p < n)%nat -> waiting qs p = [])).
Proof.
  intros (Hlen & Hs & Hq). induction n as [|n IH]; intros Hn; [left; split; [done|lia]|].
  cbn [doWrite_loop]. destruct (qs !! n) as [q|] eqn:E; [|apply lookup_ge_None in E; lia].
  assert (Hskip : waiting qs n = [] ->
    (doWrite_loop n qs = Ret (None, 0, qs) /\ (forall p, (p < S n)%nat -> waiting qs p = [])) \/
    (exists m i l q0 q, doWrite_loop n qs = Ret (Some m, Z.of_nat i, <[i := Some q]> qs) /\ (i < S n)%nat /\
      waiting qs i = Some m :: l /\ a_list (abs q) = l /\
      qs !! i = Some (Some q0) /\ pop_front q0 = Ret q /\
      (forall p, (i < p < S n)%nat -> waiting qs p = []))).
  { intros He. destruct (IH ltac:(lia)) as [[Hr Hp]|(m & i & l & q0 & q' & Hr & Hi & Hw & Hl & Hq0 & Hq' & Hp)].
    - left. split; [done|]. intros p Hpn. destruct (decide (p = n)) as [->|]; [done|apply Hp; lia].
    - right. exists m, i, l, q0, q'. repeat split; try done; [lia|].
      intros p Hpn. destruct (decide (p = n)) as [->|]; [done|apply Hp; lia]. }
  destruct q as [q|].
  2: { apply Hskip. unfold waiting. by rewrite E. }
  assert (Hw : waiting qs n = a_list (abs q)) by (unfold waiting; by rewrite E).
  rewrite abs_empty. specialize (Hs n). rewrite Hw in Hs.
  destruct (a_list (abs q)) as [|m l] eqn:Hl; [by apply Hskip|].
  apply Forall_cons in Hs as [[m' ->] _]. right.
  destruct (abs_cons q _ _ Hl) as (Hf & q' & Hpop & Hq'). rewrite Hf, Hpop.
  exists m', n, l, q, q'. repeat split; try done; [lia|by rewrite Hq'|lia].
Qed.

(** ** What is sent *)

(** Messages as writeAsync makes them: with a body whose sizes are up to date. *)
Definition sendable (mp : Message) : Prop := exists bs, m_body mp = Some bs /\ settled bs.

Definition sized (b : bytes) : bytes := le_bytes 4 (u32 (Z.of_nat (length b))) ++ b.

(** What a message is on the wire. *)
Definition frame (mp : Message) : bytes :=
  match m_header mp with Some h => sized h | None => [] end ++
  match m_body mp with Some bs => sized (contents bs) | None => [] end.

Lemma u32_u64 z : u32 (u64 z) = u32 z.
Proof. unfold u32, u64, wrap. apply Z.mod_mod_divide. by exists (2 ^ 32). Qed.

Lemma written_data ch l : written ch (map Data l) = concat l.
Proof. induction l as [|b l IH]; [done|]. unfold written in *. cbn. by rewrite IH. Qed.

Lemma written_app ch l l' : written ch (l ++ l') = written ch l ++ written ch l'.
Proof. apply flat_map_app. Qed.

(** Members that a step leaves alone. *)
Definition same_queues (ch ch' : TcpChannel) : Prop :=
  m_queue ch' = m_queue ch /\ length (m_queueWrittenBytes ch') = length (m_queueWrittenBytes ch).

Lemma doWrite_socket_spec mp ch :
  sendable mp ->
  exists ch' buf, doWrite_socket mp ch = Ret (ch', buf) /\ same_queues ch ch' /\
    m_writeInProgress ch' = m_writeInProgress ch /\ m_open ch' = m_open ch /\
    if m_open ch then exists b, buf = Some b /\ written ch' b = frame mp else buf = None.
Proof.
  intros (bs & Hb & Hs). unfold doWrite_socket, frame. destruct (m_open ch) eqn:Ho.
  2: { exists ch, None. by rewrite Ho. }
  destruct (settled_spec bs Hs) as (Ht & l & Hl & Hc & _). rewrite Hb, Hl, Ht, u32_u64.
  destruct (m_header mp) as [h|]; eexists _, _; (split; [reflexivity|]); cbn [m_open with_sizes];
    rewrite Ho; (repeat split; try done); (eexists; split; [reflexivity|]);
    rewrite !written_app, written_data, Hc; cbn; by rewrite ?app_nil_r.
Qed.

(** ** Invariant *)

Definition of_prio (p : nat) (l : list (Z * Message)) : list (option Message) :=
  omap (fun x => if decide (x.1 = Z.of_nat p) then Some (Some x.2) else None) l.

Lemma of_prio_snoc p l x :
  of_prio p (l ++ [x]) = of_prio p l ++ (if decide (x.1 = Z.of_nat p) then [Some x.2] else []).
Proof. unfold of_prio. rewrite omap_app. f_equal. cbn. by case_decide. Qed.

(** Where the one writer is: nowhere, posted to the event loop, between its locks, writing,
    or gone with the closed socket.  [fly] is the message it holds. *)
Inductive phase (ch : TcpChannel) (broken : bool) :
  nat -> list (Message * Z) -> list (Message * Z * list asio_buffer) -> list Message -> Prop :=
| ph_idle : m_writeInProgress ch = false ->
    (m_open ch = true -> broken = false -> forall p, (p < 10)%nat -> waiting (m_queue ch) p = []) ->
    phase ch broken 0 [] [] []
| ph_posted : m_writeInProgress ch = true -> phase ch broken 1 [] [] []
| ph_call mp i : m_writeInProgress ch = true -> 0 <= i < 10 -> sendable mp -> phase ch broken 0 [(mp, i)] [] [mp]
| ph_write mp i buf : m_writeInProgress ch = true -> 0 <= i < 10 -> written ch buf = frame mp ->
    phase ch broken 0 [] [(mp, i, buf)] [mp]
| ph_dead : m_writeInProgress ch = true -> m_open ch = false -> phase ch broken 0 [] [] [].

(** Messages are only lost, and cut short, when the socket is closed or the connection broken;
    then nothing is written behind them. *)
Definition intact (ch : TcpChannel) (broken : bool) (writes : list (Message * Z * list asio_buffer))
  (lost : list Message) (rest : bytes) : Prop :=
  (broken = false -> m_open ch = true \/ writes <> [] -> lost = [] /\ rest = []) /\
  (rest = [] \/ exists m l, lost = m :: l /\ rest `prefix_of` frame m).

(** [keep]: nobody changes the policy of priority 4. *)
Record qinv (keep : bool) (qs : list (option queue)) (pushed taken : list (Z * Message)) : Prop := {
  qinv_ok : queues_ok qs;
  qinv_sendable : Forall (fun x => sendable x.2) pushed;
  qinv_order : forall p, of_prio p taken ++ waiting qs p `sublist_of` of_prio p pushed;
  qinv_keep : keep = true ->
    (exists c, qs !! 4%nat = Some (Some (QLossless c))) /\
    of_prio 4 taken ++ waiting qs 4 = of_prio 4 pushed;
  qinv_taken : Forall (fun x => 0 <= x.1 < 10) taken
}.

Definition flow (w : world) : Prop := exists fly lost rest,
  phase (w_channel w) (w_broken w) (w_jobs w) (w_calls w) (w_writes w) fly /\
  intact (w_channel w) (w_broken w) (w_writes w) lost rest /\
  w_wire w = flat_map frame (w_sent w) ++ rest /\
  (w_taken w).*2 = w_sent w ++ lost ++ fly.

Definition inv (keep : bool) (w : world) : Prop :=
  qinv keep (m_queue (w_channel w)) (w_pushed w) (w_taken w) /\
  length (m_queueWrittenBytes (w_channel w)) = 10%nat /\ flow w.

Lemma waiting_new p : waiting (m_queue new_TcpChannel) p = [].
Proof.
  unfold waiting, new_TcpChannel. cbn.
  do 10 (destruct p as [|p]; [by cbn; rewrite ?cb_make_elements by (unfold kDefaultQueueCapacity; lia)|]).
  done.
Qed.

Lemma writer_start keep : inv keep start.
Proof.
  split; [split|split]; cbn [start w_channel w_pushed w_taken]; try done.
  - split; [done|split]; [intros p; by rewrite waiting_new|].
    intros p [<-|[<-|[<-|[]]]]; by eexists.
  - intros p. by rewrite waiting_new.
  - intros _. rewrite waiting_new. split; [by eexists|done].
  - exists [], [], []. split; [|split; [by split; [|left]|done]].
    constructor; [done|]. intros _ _ p _. apply waiting_new.
Qed.

(** ** Steps *)

(** Dispatching needs a queue of that priority, as the code assumes; setAsyncChannelPolicy an
    index of the vector. *)
Definition valid (keep : bool) (a : action) (w : world) : Prop :=
  match a with
  | Dispatch mp prio =>
      sendable mp /\ 0 <= prio < 10 /\ exists q, m_queue (w_channel w) !! Z.to_nat prio = Some (Some q)
  | Policy p _ _ => 0 <= p < 10 /\ (keep = true -> p <> 4)
  | _ => True
  end.

Lemma waiting_sendable keep qs pushed taken p mp :
  qinv keep qs pushed taken -> Some mp ∈ waiting qs p -> sendable mp.
Proof.
  intros [_ Hs Ho _ _] Hm. specialize (Ho p).
  assert (Some mp ∈ of_prio p pushed) as (x & Hx & He)%list_elem_of_omap.
  { eapply elem_of_sublist; [|exact Ho]. apply elem_of_app. by right. }
  case_decide; [|done]. injection He as <-.
  by apply (Forall_forall (fun x => sendable x.2) pushed).
Qed.

Lemma qinv_push keep qs pushed taken mp prio q :
  qinv keep qs pushed taken -> sendable mp -> 0 <= prio < 10 -> qs !! Z.to_nat prio = Some (Some q) ->
  qinv keep (<[Z.to_nat prio := Some (push_back (Some mp) q)]> qs) (pushed ++ [(prio, mp)]) taken.
Proof.
  intros [Hq Hs Ho Hk Ht] Hmp Hp Eq. pose proof Hq as (Hlen & Hsome & Hdef).
  destruct (a_push_props (Some mp) (abs q)) as (_ & _ & Hsub & Hall & _ & _).
  rewrite <- (abs_push (Some mp) q) in *. set (q' := push_back (Some mp) q) in *.
  assert (Hwq : waiting qs (Z.to_nat prio) = a_list (abs q)) by (unfold waiting; by rewrite Eq).
  split; [| | | |done].
  - apply queues_ok_insert; [done| |lia]. apply Forall_forall. intros x Hx.
    eapply elem_of_sublist in Hx; [|exact Hsub].
    apply elem_of_app in Hx as [Hx|Hx%list_elem_of_singleton]; [|subst x; by eexists].
    specialize (Hsome (Z.to_nat prio)). rewrite Hwq in Hsome.
    by apply (Forall_forall is_Some (a_list (abs q))).
  - apply Forall_app. split; [done|by apply Forall_singleton].
  - intros p. rewrite waiting_insert, of_prio_snoc by lia. cbn [fst snd]. specialize (Ho p).
    destruct (decide (p = Z.to_nat prio)) as [->|Hne].
    + rewrite decide_True by lia. rewrite Hwq in Ho.
      etrans; [apply sublist_app; [done|exact Hsub]|]. rewrite app_assoc. by apply sublist_app.
    + rewrite decide_False by lia. by rewrite app_nil_r.
  - intros Hkeep. destruct (Hk Hkeep) as [[c Hc] He].
    rewrite waiting_insert, of_prio_snoc by lia. cbn [fst snd].
    destruct (decide (4%nat = Z.to_nat prio)) as [E|E].
    + rewrite <- E in *. rewrite Hc in Eq. injection Eq as <-.
      rewrite decide_True by lia. split; [rewrite list_lookup_insert_eq by lia; by eexists|].
      rewrite Hall by (by left). by rewrite app_assoc, <- Hwq, He.
    + rewrite decide_False by lia. rewrite list_lookup_insert_ne by lia. rewrite app_nil_r. eauto.
Qed.

Lemma qinv_pop keep qs pushed taken i q mp l :
  qinv keep qs pushed taken -> (i < 10)%nat -> waiting qs i = Some mp :: l -> a_list (abs q) = l ->
  (keep = true -> i = 4%nat -> exists c, q = QLossless c) ->
  qinv keep (<[i := Some q]> qs) pushed (taken ++ [(Z.of_nat i, mp)]).
Proof.
  intros [Hq Hs Ho Hk Ht] Hi Hw Hl Hkq. pose proof Hq as (Hlen & Hsome & _).
  assert (Hflow : forall p, of_prio p (taken ++ [(Z.of_nat i, mp)]) ++ waiting (<[i := Some q]> qs) p =
    of_prio p taken ++ waiting qs p).
  { intros p. rewrite waiting_insert, of_prio_snoc by lia. cbn [fst snd].
    destruct (decide (p = i)) as [->|Hne].
    - rewrite decide_True by done. by rewrite <- app_assoc, Hw, Hl.
    - rewrite decide_False by lia. by rewrite app_nil_r. }
  split; [|done| | |].
  - apply queues_ok_insert; [done| |done]. specialize (Hsome i). rewrite Hw in Hsome.
    rewrite Hl. by apply Forall_cons in Hsome as [_ ?].
  - intros p. by rewrite Hflow.
  - intros Hkeep. rewrite Hflow. destruct (Hk Hkeep) as [[c Hc] He]. split; [|done].
    destruct (decide (i = 4%nat)) as [->|Hne].
    + rewrite list_lookup_insert_eq by lia. destruct (Hkq Hkeep eq_refl) as [c' ->]. by exists c'.
    + rewrite list_lookup_insert_ne by done. by exists c.
  - apply Forall_app. split; [done|]. apply Forall_singleton. cbn. lia.
Qed.

(** A new, empty queue, of which nobody says what becomes of it. *)
Lemma qinv_replace keep qs pushed taken i q :
  qinv keep qs pushed taken -> (i < 10)%nat -> a_list (abs q) = [] -> (keep = true -> i <> 4%nat) ->
  qinv keep (<[i := Some q]> qs) pushed taken.
Proof.
  intros [Hq Hs Ho Hk Ht] Hi Hl Hi4. pose proof Hq as (Hlen & _ & _).
  split; [|done| | |done].
  - apply queues_ok_insert; [done|by rewrite Hl|done].
  - intros p. rewrite waiting_insert by lia. case_decide; [|done].
    rewrite Hl, app_nil_r. etrans; [|apply (Ho p)]. by apply sublist_inserts_r.
  - intros Hkeep. specialize (Hi4 Hkeep). rewrite waiting_insert by lia.
    rewrite decide_False by done. rewrite list_lookup_insert_ne by done. auto.
Qed.

#[local] Arguments doWrite_loop : simpl never.
#[local] Arguments call_doWrite : simpl never.
#[local] Arguments doWrite_socket : simpl never.
#[local] Arguments doWriteHandler : simpl never.
#[local] Arguments written : simpl never.

Lemma call_doWrite_spec keep w lost rest :
  qinv keep (m_queue (w_channel w)) (w_pushed w) (w_taken w) ->
  length (m_queueWrittenBytes (w_channel w)) = 10%nat -> m_writeInProgress (w_channel w) = true ->
  w_jobs w = 0%nat -> w_calls w = [] -> w_writes w = [] -> intact (w_channel w) (w_broken w) [] lost rest ->
  w_wire w = flat_map frame (w_sent w) ++ rest -> (w_taken w).*2 = w_sent w ++ lost ->
  exists w', call_doWrite w = Ret w' /\ inv keep w'.
Proof.
  destruct w as [ch jobs calls writes closing broken wire pushed taken sent]; cbn.
  intros Hq Hb Hp -> -> -> Hin Hw Ht. unfold call_doWrite, doWrite; cbn -[doWrite_loop].
  destruct (doWrite_loop_spec 10 (m_queue ch) (qinv_ok _ _ _ _ Hq) ltac:(done))
    as [[-> Hempty]|(mp & i & l & q0 & q & -> & Hi & Hwi & Hl & Hq0 & Hpop & _)]; cbn.
  - eexists. split; [reflexivity|]. split; [done|split; [done|]].
    exists [], lost, rest. cbn. rewrite app_nil_r. split; [|done]. by constructor.
  - eexists. split; [reflexivity|]. split; [|split; [done|]]; cbn.
    + eapply qinv_pop; [done|done|done|done|]. intros Hkeep ->.
      destruct (qinv_keep _ _ _ _ Hq Hkeep) as [[c Hc] _]. rewrite Hc in Hq0. injection Hq0 as <-.
      cbn in Hpop. destruct (l_queue c); [done|]. injection Hpop as <-. by eexists.
    + exists [mp], lost, rest. cbn. split; [constructor; [done|lia|]|].
      * eapply waiting_sendable; [done|]. rewrite Hwi. by left.
      * split; [done|]. split; [done|]. by rewrite fmap_app, Ht, app_assoc.
Qed.

Lemma flow_queues w ch :
  flow w -> m_writeInProgress ch = m_writeInProgress (w_channel w) -> m_open ch = m_open (w_channel w) ->
  m_headerSize ch = m_headerSize (w_channel w) -> m_bodySize ch = m_bodySize (w_channel w) ->
  (forall p, waiting (m_queue (w_channel w)) p = [] -> waiting (m_queue ch) p = []) ->
  flow (on_channel w ch).
Proof.
  destruct w as [ch0 jobs calls writes closing broken wire pushed taken sent].
  intros (fly & lost & rest & Hph & Hin & Hw & Ht) Hp Ho Hh Hb Hq. cbn in *.
  exists fly, lost, rest. cbn. split; [|split; [|done]].
  - destruct Hph as [Hpr He|Hpr|mp i Hpr Hi Hs|mp i buf Hpr Hi Hwr|Hpr Hcl].
    + apply ph_idle; [congruence|]. intros Hop Hbr p Hp10. apply Hq, He; [congruence|done|done].
    + apply ph_posted. congruence.
    + by apply ph_call; [congruence|..].
    + apply ph_write; [congruence|done|]. unfold written, buffer_bytes. by rewrite Hh, Hb.
    + apply ph_dead; congruence.
  - unfold intact. by rewrite Ho.
Qed.

Lemma dispatch_step keep mp prio w :
  inv keep w -> valid keep (Dispatch mp prio) w ->
  exists w', exec (Dispatch mp prio) w = Some (Ret w') /\ inv keep w'.
Proof.
  destruct w as [ch jobs calls writes closing broken wire pushed taken sent].
  intros (Hq & Hb & (fly & lost & rest & Hph & Hin & Hw & Ht)) (Hmp & Hp & q & Eq). cbn in *.
  unfold dispatchWriteAsync, queue_at. destruct (Z.ltb_spec prio 0); [lia|]. rewrite Eq. cbn.
  pose proof (qinv_push _ _ _ _ _ _ _ Hq Hmp Hp Eq) as Hq'.
  destruct (m_writeInProgress ch) eqn:E; cbn.
  - eexists. split; [reflexivity|]. split; [done|split; [done|]]. rewrite Nat.add_0_r.
    exists fly, lost, rest. split; [|done]. inversion Hph; subst; try congruence.
    + by apply ph_posted.
    + by apply ph_call.
    + by apply ph_write.
    + by apply ph_dead.
  - eexists. split; [reflexivity|]. split; [done|split; [done|]].
    exists fly, lost, rest. split; [|done]. inversion Hph; subst; try congruence. by apply ph_posted.
Qed.

Lemma doWrite_step keep w r :
  inv keep w -> exec DoWrite w = Some r -> exists w', r = Ret w' /\ inv keep w'.
Proof.
  destruct w as [ch jobs calls writes closing broken wire pushed taken sent].
  intros (Hq & Hb & (fly & lost & rest & Hph & Hin & Hw & Ht)). cbn in *.
  inversion Hph; subst; try done. intros [= <-]. rewrite app_nil_r in Ht.
  by eapply (call_doWrite_spec keep _ lost rest).
Qed.

Lemma socket_step keep i w r :
  inv keep w -> exec (Socket i) w = Some r -> exists w', r = Ret w' /\ inv keep w'.
Proof.
  destruct w as [ch jobs calls writes closing broken wire pushed taken sent].
  intros (Hq & Hb & (fly & lost & rest & Hph & Hin & Hw & Ht)). cbn in *.
  inversion Hph; subst; try done. destruct i as [|i]; [|done]. cbn. intros [= <-].
  destruct (doWrite_socket_spec mp ch) as (ch' & buf & -> & [Hsq Hsl] & Hpr & Ho & Hbuf); [done|].
  cbn. eexists. split; [reflexivity|]. split; cbn; [by rewrite Hsq|split; [congruence|]].
  destruct (m_open ch) eqn:Hopen.
  - destruct Hbuf as (b & -> & Hfr). destruct Hin as [Hin Hrest].
    exists [mp], lost, rest. cbn. split; [constructor; try done; congruence|].
    split; [|done]. split; [|done]. intros Hbr _. apply Hin; [done|by left].
  - subst buf. exists [], (lost ++ [mp]), rest. cbn. rewrite app_nil_r.
    split; [apply ph_dead; congruence|]. split; [|split; [done|by rewrite Ht]].
    split; [intros _ [?|?]; [congruence|done]|]. destruct Hin as [_ [->|(m & l & -> & Hpre)]]; [by left|].
    right. exists m, (l ++ [mp]). by rewrite app_comm_cons.
Qed.

Lemma complete_step keep i ec n w r :
  inv keep w -> exec (Complete i ec n) w = Some r -> exists w', r = Ret w' /\ inv keep w'.
Proof.
  destruct w as [ch jobs calls writes closing broken wire pushed taken sent].
  intros (Hq & Hb & (fly & lost & rest & Hph & Hin & Hw & Ht)). cbn in *.
  inversion Hph as [| | |mp qi buf Hp Hi Hwr|]; subst; try done. destruct i as [|i]; [|done]. cbn.
  destruct (broken && (negb ec || negb (bool_decide (n = 0%nat)))) eqn:Hbroken; [done|].
  intros [= <-]. rewrite Hwr. unfold doWriteHandler.
  destruct (m_queueWrittenBytes ch !! Z.to_nat qi) as [wb|] eqn:Ewb; [|apply lookup_ge_None in Ewb; lia].
  destruct Hin as [Hin Hrest]. destruct ec; cbn.
  - eexists. split; [reflexivity|]. rewrite orb_true_r. split; cbn; [done|split; [by rewrite length_insert|]].
    assert (Hfail : rest = [] /\ lost = [] \/ n = 0%nat /\ broken = true).
    { destruct broken; cbn in Hbroken.
      - right. by case_bool_decide.
      - left. destruct Hin as [-> ->]; [done|by right|done]. }
    exists [], (lost ++ [mp]), (rest ++ take n (frame mp)). cbn. rewrite !app_nil_r.
    split; [by apply ph_idle|]. split; [|by rewrite <- app_assoc, Ht].
    split; [done|]. destruct Hfail as [[-> ->]|[-> _]]; cbn.
    + right. exists mp, []. split; [done|]. apply prefix_take.
    + rewrite app_nil_r. destruct Hrest as [->|(m & l & -> & Hpre)]; [by left|].
      right. exists m, (l ++ [mp]). by rewrite app_comm_cons.
  - assert (broken = false) as -> by (by destruct broken).
    destruct Hin as [-> ->]; [done|by right|].
    apply (call_doWrite_spec keep _ [] []); cbn; try done.
    + by rewrite length_insert.
    + by rewrite flat_map_app; cbn; rewrite !app_nil_r.
    + by rewrite app_nil_r, Ht.
Qed.

Lemma policy_step keep p name c w :
  inv keep w -> valid keep (Policy p name c) w ->
  exists w', exec (Policy p name c) w = Some (Ret w') /\ inv keep w'.
Proof.
  intros (Hq & Hb & Hf) [Hp H4]. cbn. unfold setAsyncChannelPolicy.
  set (cap := if 0 <? c then c else kDefaultQueueCapacity).
  assert (Hcap : 0 <= cap) by (subst cap; destruct (Z.ltb_spec 0 c); [lia|done]).
  assert (Hput : forall q, a_list (abs q) = [] -> exists w',
    match (_ ← queue_at p (m_queue (w_channel w));
           Ret (with_queues (<[Z.to_nat p := Some q]> (m_queue (w_channel w))) (w_channel w))) with
    | Ret ch => Ret (on_channel w ch) | Throw _ => Ret w | Undef => Undef | OutOfFuel => OutOfFuel
    end = Ret w' /\ inv keep w').
  { intros q Hl. pose proof (qinv_ok _ _ _ _ Hq) as (Hlen & _ & _). unfold queue_at.
    destruct (Z.ltb_spec p 0); [lia|].
    destruct (m_queue (w_channel w) !! Z.to_nat p) eqn:E; [|apply lookup_ge_None in E; lia].
    eexists. split; [reflexivity|]. split; [|split; [done|]].
    - apply qinv_replace; [done|lia|done|]. intros Hk Hi. specialize (H4 Hk). lia.
    - apply flow_queues; try done. intros p' Hp'. cbn. rewrite waiting_insert by lia. by case_decide. }
  destruct (String.eqb _ "LOSSLESS"); [|destruct (String.eqb _ "REJECT_NEWEST");
    [|destruct (String.eqb _ "REMOVE_OLDEST")]].
  - destruct (Hput (QLossless new_LosslessQueue)) as (w' & Hw' & Hi); [done|]. exists w'. by rewrite Hw'.
  - destruct (Hput (QRejectNewest (new_RejectNewestQueue cap))) as (w' & Hw' & Hi); [done|].
    exists w'. by rewrite Hw'.
  - destruct (Hput (QRemoveOldest (new_RemoveOldestQueue cap))) as (w' & Hw' & Hi).
    { by apply cb_make_elements. }
    exists w'. by rewrite Hw'.
  - by exists w.
Qed.

Lemma close_step keep w n :
  inv keep w ->
  inv keep (mkWorld (close (w_channel w)) (w_jobs w) (w_calls w) (w_writes w) n (w_broken w)
              (w_wire w) (w_pushed w) (w_taken w) (w_sent w)).
Proof.
  intros (Hq & Hb & (fly & lost & rest & Hph & Hin & Hw & Ht)).
  split; [done|split; [done|]]. destruct w as [ch jobs calls writes closing broken wire pushed taken sent]. cbn in *.
  exists fly, lost, rest. cbn. split; [|split; [|done]].
  - destruct Hph; [by apply ph_idle|by apply ph_posted|by apply ph_call|by apply ph_write|by apply ph_dead].
  - destruct Hin as [Hin Hr]. split; [|done]. intros Hbr [?|?]; [done|]. apply Hin; [done|by right].
Qed.

Lemma exec_inv keep a w r :
  inv keep w -> valid keep a w -> exec a w = Some r -> exists w', r = Ret w' /\ inv keep w'.
Proof.
  intros Hi Hv He. destruct a as [mp prio| |i|i ec n| | |p name c|].
  - destruct (dispatch_step keep mp prio w Hi Hv) as (w' & Hw' & Hi'). rewrite Hw' in He.
    injection He as <-. by exists w'.
  - by eapply doWrite_step.
  - by eapply socket_step.
  - by eapply complete_step.
  - cbn in He. destruct (w_closing w) as [|n]; [done|]. injection He as <-.
    eexists. split; [reflexivity|]. by apply close_step.
  - injection He as <-. eexists. split; [reflexivity|]. by apply close_step.
  - destruct (policy_step keep p name c w Hi Hv) as (w' & Hw' & Hi'). rewrite Hw' in He.
    injection He as <-. by exists w'.
  - injection He as <-. eexists. split; [reflexivity|]. destruct Hi as (Hq & Hb & Hf).
    split; [done|split; [done|]]. by apply flow_queues.
Qed.

(** The worlds that actions lead to from the opening of the channel. *)
Inductive reachable (keep : bool) : world -> Prop :=
| reach_start : reachable keep start
| reach_step a w w' :
    reachable keep w -> valid keep a w -> exec a w = Some (Ret w') -> reachable keep w'.

Lemma reachable_inv keep w : reachable keep w -> inv keep w.
Proof.
  induction 1 as [|a w w' _ IH Hv He]; [apply writer_start|].
  destruct (exec_inv keep a w (Ret w') IH Hv He) as (w1 & Hw1 & Hi). by injection Hw1 as <-.
Qed.

(** The actions of a list one after the other, those that are not possible left out. *)
Definition next (w : world) (a : action) : world :=
  match exec a w with Some (Ret w') => w' | _ => w end.
Definition run (l : list action) : world := foldl next start l.

(** Actions that are valid in every world: the channel has queues of priority 0, 2 and 4. *)
Definition always_valid (keep : bool) (a : action) : Prop :=
  match a with
  | Dispatch mp prio => sendable mp /\ In prio [0; 2; 4]
  | Policy p _ _ => 0 <= p < 10 /\ (keep = true -> p <> 4)
  | _ => True
  end.

Lemma reachable_run keep l : Forall (always_valid keep) l -> reachable keep (run l).
Proof.
  unfold run. generalize (reach_start keep). generalize start.
  induction l as [|a l IH]; intros w Hw Hl; [done|]. apply Forall_cons in Hl as [Ha Hl].
  apply IH; [|done]. unfold next. destruct (exec a w) as [[w'| | |]|] eqn:He; try done.
  eapply reach_step; [done| |done]. destruct a as [mp prio| | | | | |p name c|]; try done.
  destruct Ha as [Hs Hp]. destruct (reachable_inv _ _ Hw) as (Hq & _ & _).
  destruct (qinv_ok _ _ _ _ Hq) as (_ & _ & Hdef). split; [done|].
  split; [by destruct Hp as [<-|[<-|[<-|[]]]]|by apply Hdef].
Qed.

(** The number of handlers of the writing that exist. *)
Definition writers (w : world) : nat := (w_jobs w + length (w_calls w) + length (w_writes w))%nat.

(** C9: what reaches the peer.  However dispatching, the handlers and closing interleave, no
    step has undefined behaviour; at most one message is being written at any time (as
    async_write demands), and on an open and working connection there is a writer whenever a
    message waits, so that none is forgotten; the bytes sent are the frames of whole messages
    one after the other, the last one cut short only when a write fails; and no message is
    taken from a queue without being sent unless a write fails or the socket is closed. *)
Theorem writer_invariant (keep : bool) (w : world) :
  reachable keep w ->
  let works := m_open (w_channel w) = true /\ w_broken w = false in
  (forall a r, valid keep a w -> exec a w = Some r -> exists w', r = Ret w') /\
  (writers w <= 1)%nat /\
  (works -> (exists p, waiting (m_queue (w_channel w)) p <> []) -> writers w = 1%nat) /\
  exists fly lost rest,
    (length fly <= 1)%nat /\
    w_wire w = flat_map frame (w_sent w) ++ rest /\
    (w_taken w).*2 = w_sent w ++ lost ++ fly /\
    (works -> lost = [] /\ rest = []) /\
    (rest = [] \/ exists m l, lost = m :: l /\ rest `prefix_of` frame m).
Proof.
  intros Hr works. pose proof (reachable_inv keep w Hr) as Hi. split.
  { intros a r Hv He. destruct (exec_inv keep a w r Hi Hv He) as (w' & Hw' & _). by exists w'. }
  destruct Hi as (Hq & Hb & (fly & lost & rest & Hph & [Hin Hrest] & Hw & Ht)). unfold writers, works.
  split; [by inversion Hph; cbn; lia|]. split.
  { intros [Hopen Hbr] [p Hp]. inversion Hph; cbn; try done; try congruence.
    destruct Hp. destruct (decide (p < 10)%nat); [auto|].
    pose proof (qinv_ok _ _ _ _ Hq) as (Hlen & _ & _). unfold waiting.
    by rewrite lookup_ge_None_2 by lia. }
  exists fly, lost, rest. split; [by inversion Hph; cbn; lia|].
  split; [done|split; [done|split; [|done]]]. intros [Hopen Hbr]. apply Hin; [done|by left].
Qed.

(** C38: order.  doWrite takes the oldest message of the highest priority at which any waits.
    Messages of one priority are taken in the order in which they were dispatched, none twice;
    and of those dispatched with the default priority 4 none is missing, as long as nobody
    changes its policy. *)
Theorem writer_order (keep : bool) (w : world) :
  reachable keep w ->
  (forall p, of_prio p (w_taken w) ++ waiting (m_queue (w_channel w)) p `sublist_of` of_prio p (w_pushed w)) /\
  (keep = true -> of_prio 4 (w_taken w) ++ waiting (m_queue (w_channel w)) 4 = of_prio 4 (w_pushed w)) /\
  (forall ch m i, doWrite (w_channel w) = Ret (ch, Some (m, i)) ->
   exists p l, i = Z.of_nat p /\ waiting (m_queue (w_channel w)) p = Some m :: l /\
     waiting (m_queue ch) p = l /\ forall p', (p < p')%nat -> waiting (m_queue (w_channel w)) p' = []).
Proof.
  intros Hr. destruct (reachable_inv keep w Hr) as (Hq & _ & _).
  split; [apply Hq|]. split; [intros Hk; by apply (qinv_keep _ _ _ _ Hq)|].
  pose proof (qinv_ok _ _ _ _ Hq) as (Hlen & _ & _).
  intros ch m i. unfold doWrite.
  destruct (doWrite_loop_spec 10 (m_queue (w_channel w)) (qinv_ok _ _ _ _ Hq) ltac:(done))
    as [[-> Hempty]|(mp & j & l & q0 & q & -> & Hj & Hwj & Hl & _ & _ & Hhi)]; cbn; [done|].
  intros [= <- <- <-]. exists j, l. cbn. rewrite waiting_insert, decide_True by (lia || done).
  repeat split; try done. intros p' Hp'. destruct (decide (p' < 10)%nat); [auto|].
  unfold waiting. by rewrite lookup_ge_None_2 by lia.
Qed.
End TcpWriter.

(** A to_upper_copy for ASCII. *)
Definition ascii_upper (s : string) : string :=
  str (map (fun c => let n := byte_val c in
                     if (97 <=? n) && (n <=? 122) then byte_of (n - 32) else c) (chars s)).

Section examples.
#[local] Existing Instance libstdcxx.

Definition hello : Message :=
  mkMessage (Some (mkBufferSet [mkBuffer [] (chars "hello") 5 COPY] 0 false)) (Some (chars "h")).

(** Two messages: the one dispatched later has the higher priority, and is written first. *)
Definition example_actions : list action :=
  [Dispatch hello 2; Dispatch Message_default 4; DoWrite; Socket 0; Complete 0 false 0; Socket 0].

(** Only three of the ten priorities have a queue from the start; dispatching with another one
    dereferences a null pointer. *)
Example dispatch_without_queue mp : dispatchWriteAsync (B := @list_buffer Message) mp 1 new_TcpChannel = Undef.
Proof. reflexivity. Qed.

Definition example_world : @world (@list_buffer Message) := run ascii_upper example_actions.

Lemma example_valid : Forall (always_valid true) example_actions.
Proof.
  repeat constructor; try (by right; left); try (by right; right; left);
    (eexists; split; [reflexivity|by repeat constructor]).
Qed.

Lemma writer_invariant_witness :
  w_wire example_world = le_bytes 4 0 /\ (writers example_world <= 1)%nat.
Proof.
  split; [vm_compute; reflexivity|].
  apply (writer_invariant ascii_upper true). by apply (reachable_run _ true), example_valid.
Defined.

Lemma writer_order_witness :
  of_prio 2 (w_taken example_world) = [Some hello] /\
  (true = true -> of_prio 4 (w_taken example_world) ++ waiting (m_queue (w_channel example_world)) 4 =
     of_prio 4 (w_pushed example_world)).
Proof.
  split; [vm_compute; reflexivity|].
  apply (writer_order ascii_upper true). by apply (reachable_run _ true), example_valid.
Defined.
End examples.
