(* ===== verification/Memory.v ===== *)
(** The shared memory behind input and output channels (xms/Memory.hh, Memory.cc): for each
    channel an array of chunks with usage counts.

    The static vectors m_cache, m_metaData, m_isEndOfStream and m_chunkStatus, which are all
    indexed by channel and chunk, are one array of records here.  A call that throws leaves the
    memory as it was. *)

From Stdlib Require Import ZArith Lia Ascii String.
From stdpp Require Import base numbers list strings gmap.
From S2P Require Import Prelude Types Strings OrderedMap Hash HashAccess BinaryWriter BinaryReader BufferSet BinaryMulti Epochstamp.
Import Types.

Open Scope Z_scope.

Definition MAX_N_CHANNELS : nat := 128.
Definition MAX_N_CHUNKS : nat := 2056.

(** ** Meta data *)

(** Memory::MetaData is derived from Hash. *)
Definition setSource (source : string) (m : hash) : effect node_ptr := set "source" (VString source) k_defaultSep m.
Definition getSource (m : hash) : outcome string :=
  v ← get (Tscalar string_) "source" k_defaultSep m;
  match v with VString s => Ret s | _ => Undef (* not reached *) end.
Definition setTimestamp (timestamp : Timestamp) (m : hash) : effect unit :=
  let '(m, p) := set "timestamp" (VBool true) k_defaultSep m in
  eval p m (fun p =>
    (node_alter p (fun n => setAttributes (timestamp_toHashAttributes timestamp (nAttrs n)) n) m, Ret tt)).
Definition getTimestamp (m : hash) : outcome Timestamp :=
  n ← getNode "timestamp" k_defaultSep m; timestamp_fromHashAttributes (nAttrs n).
Definition MetaData (source : string) (timestamp : Timestamp) : effect unit :=
  let '(m, r) := setSource source [] in eval r m (fun _ => setTimestamp timestamp m).

(** ** State *)

Record chunk := mkChunk {
  k_data : list BufferSet;   (** m_cache *)
  k_meta : list hash;        (** m_metaData *)
  k_eos : bool;              (** m_isEndOfStream *)
  k_status : Z               (** m_chunkStatus *)
}.

Record channel := mkChannel { ch_status : Z; ch_chunks : list chunk }.

Abbreviation memory := (list channel).

Definition free_chunk : chunk := mkChunk [] [] false 0.
Definition initial_memory : memory :=
  replicate MAX_N_CHANNELS (mkChannel 0 (replicate MAX_N_CHUNKS free_chunk)).

(** Arithmetic of [int], whose overflow is undefined. *)
Definition int_op (z : Z) : outcome Z := if (- 2 ^ 31 <=? z) && (z <? 2 ^ 31) then Ret z else Undef.

Definition with_status (s : Z) (k : chunk) : chunk := mkChunk (k_data k) (k_meta k) (k_eos k) s.
Definition with_data (d : list BufferSet) (k : chunk) : chunk := mkChunk d (k_meta k) (k_eos k) (k_status k).

(** [v[channelIdx]], [v[channelIdx][chunkIdx]]: reading and changing *)
Definition at_ {A} (l : list A) (i : nat) : outcome A :=
  match l !! i with Some x => Ret x | None => Undef end.
Definition channel_at (channelIdx : nat) (m : memory) : outcome channel := at_ m channelIdx.
Definition chunk_at (channelIdx chunkIdx : nat) (m : memory) : outcome chunk :=
  ch ← channel_at channelIdx m; at_ (ch_chunks ch) chunkIdx.
Definition on_chunk (f : chunk -> outcome chunk) (channelIdx chunkIdx : nat) (m : memory) : outcome memory :=
  ch ← channel_at channelIdx m;
  k ← at_ (ch_chunks ch) chunkIdx;
  k ← f k;
  Ret (<[channelIdx := mkChannel (ch_status ch) (<[chunkIdx := k]> (ch_chunks ch))]> m).

(** ** Operations *)

Section read.
Context (format_float : pod -> Z -> string) (format_complex : cpx -> Z * Z -> string)
        (type_name : nat -> string).

(** read(data, ...): the BufferSet is rewound. *)
Definition read_Hash (dataIdx channelIdx chunkIdx : nat) (m : memory) : outcome (hash * memory) :=
  k ← chunk_at channelIdx chunkIdx m;
  bufferPtr ← at_ (k_data k) dataIdx;
  '(data, bs) ← load_multi format_float format_complex type_name [] bufferPtr;
  m ← on_chunk (fun k => Ret (with_data (<[dataIdx := bs]> (k_data k)) k)) channelIdx chunkIdx m;
  Ret (data, m).
End read.

Definition read (dataIdx channelIdx chunkIdx : nat) (m : memory) : outcome BufferSet :=
  k ← chunk_at channelIdx chunkIdx m; at_ (k_data k) dataIdx.
Definition readChunk (channelIdx chunkIdx : nat) (m : memory) : outcome (list BufferSet) :=
  k_data <$> chunk_at channelIdx chunkIdx m.

Definition write (data : hash) (channelIdx chunkIdx : nat) (metaData : hash) (copyAllData : bool) (m : memory)
  : outcome memory :=
  buffer ← save_multi data (new_BufferSet copyAllData);
  on_chunk (fun k => Ret (mkChunk (k_data k ++ [buffer]) (k_meta k ++ [metaData]) (k_eos k) (k_status k)))
    channelIdx chunkIdx m.

Definition writeChunk (c : list BufferSet) (channelIdx chunkIdx : nat) (metaData : list hash) (m : memory)
  : outcome memory :=
  if negb (Nat.eqb (length c) (length metaData)) then Throw LogicException
  else on_chunk (fun k => Ret (mkChunk (k_data k ++ c) (k_meta k ++ metaData) (k_eos k) (k_status k)))
         channelIdx chunkIdx m.

Definition setEndOfStream (channelIdx chunkIdx : nat) (isEos : bool) : memory -> outcome memory :=
  on_chunk (fun k => Ret (mkChunk (k_data k) (k_meta k) isEos (k_status k))) channelIdx chunkIdx.
Definition isEndOfStream (channelIdx chunkIdx : nat) (m : memory) : outcome bool :=
  k_eos <$> chunk_at channelIdx chunkIdx m.

(** The first index whose element satisfies [f]. *)
Fixpoint find_index {A} (f : A -> bool) (l : list A) : option nat :=
  match l with
  | [] => None
  | x :: l => if f x then Some O else S <$> find_index f l
  end.

Definition registerChannel (m : memory) : outcome (nat * memory) :=
  match find_index (fun ch => ch_status ch =? 0) m with
  | Some i => ch ← channel_at i m; Ret (i, <[i := mkChannel 1 (ch_chunks ch)]> m)
  | None => Throw MemoryInitException
  end.

Definition incrementChannelUsage (channelIdx : nat) (m : memory) : outcome memory :=
  ch ← channel_at channelIdx m; s ← int_op (ch_status ch + 1);
  Ret (<[channelIdx := mkChannel s (ch_chunks ch)]> m).

(** The last user frees all chunks; their end-of-stream marks stay. *)
Definition decrementChannelUsage (channelIdx : nat) (m : memory) : outcome memory :=
  ch ← channel_at channelIdx m; s ← int_op (ch_status ch - 1);
  let chunks := if s =? 0 then (fun k => mkChunk [] [] (k_eos k) 0) <$> ch_chunks ch else ch_chunks ch in
  Ret (<[channelIdx := mkChannel s chunks]> m).
Definition unregisterChannel (channelIdx : nat) : memory -> outcome memory := decrementChannelUsage channelIdx.

Definition registerChunk (channelIdx : nat) (m : memory) : outcome (nat * memory) :=
  ch ← channel_at channelIdx m;
  match find_index (fun k => k_status k =? 0) (ch_chunks ch) with
  | Some i => m ← on_chunk (fun _ => Ret (mkChunk [] [] false 1)) channelIdx i m; Ret (i, m)
  | None => Throw MemoryInitException
  end.

Definition incrementChunkUsage : nat -> nat -> memory -> outcome memory :=
  on_chunk (fun k => s ← int_op (k_status k + 1); Ret (with_status s k)).

(** clearChunkData *)
Definition cleared (k : chunk) : chunk := mkChunk [] [] false (k_status k).
Definition clearChunkData : nat -> nat -> memory -> outcome memory := on_chunk (fun k => Ret (cleared k)).

Definition released (k : chunk) : outcome chunk :=
  s ← int_op (k_status k - 1);
  let k := with_status s k in
  Ret (if s =? 0 then cleared k else k).
Definition decrementChunkUsage : nat -> nat -> memory -> outcome memory := on_chunk released.
Definition unregisterChunk : nat -> nat -> memory -> outcome memory := decrementChunkUsage.

Definition getChannelStatus (channelIdx : nat) (m : memory) : outcome Z := ch_status <$> channel_at channelIdx m.
Definition setChannelStatus (channelIdx : nat) (status : Z) (m : memory) : outcome memory :=
  ch ← channel_at channelIdx m; Ret (<[channelIdx := mkChannel status (ch_chunks ch)]> m).
Definition getChunkStatus (channelIdx chunkIdx : nat) (m : memory) : outcome Z :=
  k_status <$> chunk_at channelIdx chunkIdx m.

(** The buffers are put behind those given; the header is cleared first. *)
Definition readIntoBuffers (buffers : list BufferSet) (channelIdx chunkIdx : nat) (m : memory)
  : outcome (list BufferSet * hash) :=
  k ← chunk_at channelIdx chunkIdx m;
  Ret (buffers ++ k_data k, [mkNode "sourceInfo" [] (VVecHash (k_meta k))]).

Fixpoint mapM_outcome {A B} (f : A -> outcome B) (l : list A) : outcome (list B) :=
  match l with
  | [] => Ret []
  | x :: l => y ← f x; l ← mapM_outcome f l; Ret (y :: l)
  end.

Definition copy_set (bs : BufferSet) : outcome BufferSet :=
  copied ← appendTo false bs (new_BufferSet true); Ret (rewind copied).

Definition copied (k : chunk) : outcome chunk :=
  if negb (existsb containsNonCopies (k_data k)) then Ret k
  else d ← mapM_outcome copy_set (k_data k); Ret (with_data d k).
Definition assureAllDataIsCopied : nat -> nat -> memory -> outcome memory := on_chunk copied.

Definition writeFromBuffers (buffers : list BufferSet) (header : hash) : nat -> nat -> memory -> outcome memory :=
  on_chunk (fun k =>
    match afind "sourceInfo" header with
    | Some n =>
        newMetaData ← getValue_vector_Hash (nVal n);
        if negb (Nat.eqb (length buffers) (length newMetaData)) then Throw LogicException
        else Ret (mkChunk (k_data k ++ buffers) (k_meta k ++ newMetaData) (k_eos k) (k_status k))
    | None =>
        match buffers with
        | [] => Ret k
        | _ => Throw LogicException
        end
    end).

Definition size (channelIdx chunkIdx : nat) (m : memory) : outcome nat :=
  k ← chunk_at channelIdx chunkIdx m; Ret (length (k_data k)).
Definition getMetaData (channelIdx chunkIdx : nat) (m : memory) : outcome (list hash) :=
  k_meta <$> chunk_at channelIdx chunkIdx m.

(** ** Calls

    The calls that change the memory (read_Hash does so by the position in a BufferSet). *)
Inductive call : Type :=
| CRegisterChannel
| CIncrementChannelUsage (channelIdx : nat)
| CDecrementChannelUsage (channelIdx : nat)
| CSetChannelStatus (channelIdx : nat) (status : Z)
| CRegisterChunk (channelIdx : nat)
| CIncrementChunkUsage (channelIdx chunkIdx : nat)
| CDecrementChunkUsage (channelIdx chunkIdx : nat)
| CClearChunkData (channelIdx chunkIdx : nat)
| CWrite (data : hash) (channelIdx chunkIdx : nat) (metaData : hash) (copyAllData : bool)
| CWriteChunk (c : list BufferSet) (channelIdx chunkIdx : nat) (metaData : list hash)
| CWriteFromBuffers (buffers : list BufferSet) (header : hash) (channelIdx chunkIdx : nat)
| CSetEndOfStream (channelIdx chunkIdx : nat) (isEos : bool)
| CAssureAllDataIsCopied (channelIdx chunkIdx : nat).

Definition exec_call (c : call) (m : memory) : outcome memory :=
  match c with
  | CRegisterChannel => snd <$> registerChannel m
  | CIncrementChannelUsage i => incrementChannelUsage i m
  | CDecrementChannelUsage i => decrementChannelUsage i m
  | CSetChannelStatus i s => setChannelStatus i s m
  | CRegisterChunk i => snd <$> registerChunk i m
  | CIncrementChunkUsage i k => incrementChunkUsage i k m
  | CDecrementChunkUsage i k => decrementChunkUsage i k m
  | CClearChunkData i k => clearChunkData i k m
  | CWrite data i k metaData copyAllData => write data i k metaData copyAllData m
  | CWriteChunk c i k metaData => writeChunk c i k metaData m
  | CWriteFromBuffers buffers header i k => writeFromBuffers buffers header i k m
  | CSetEndOfStream i k isEos => setEndOfStream i k isEos m
  | CAssureAllDataIsCopied i k => assureAllDataIsCopied i k m
  end.

(** A sequence of calls of any users, each of which handles what its calls throw. *)
Fixpoint exec_calls (cs : list call) (m : memory) : outcome memory :=
  match cs with
  | [] => Ret m
  | c :: cs =>
      match exec_call c m with
      | Ret m => exec_calls cs m
      | Throw _ => exec_calls cs m
      | Undef => Undef
      | OutOfFuel => OutOfFuel
      end
  end.

(** ** One chunk *)

Lemma at_ret {A} (l : list A) i x : at_ l i = Ret x <-> l !! i = Some x.
Proof. unfold at_. destruct (l !! i); split; congruence. Qed.

Lemma chunk_at_ret c k m x :
  chunk_at c k m = Ret x <-> exists ch, m !! c = Some ch /\ ch_chunks ch !! k = Some x.
Proof.
  unfold chunk_at, channel_at. split.
  - intros H. outcome_inv. apply at_ret in Ha, H. by exists a.
  - intros (ch & H1 & H2). apply at_ret in H1, H2. by rewrite H1.
Qed.

Lemma on_chunk_ret f c k m m' :
  on_chunk f c k m = Ret m' <-> exists ch x y, m !! c = Some ch /\ ch_chunks ch !! k = Some x /\ f x = Ret y /\
    m' = <[c := mkChannel (ch_status ch) (<[k := y]> (ch_chunks ch))]> m.
Proof.
  unfold on_chunk, channel_at. split.
  - intros H. outcome_inv. apply at_ret in Ha, Ha0. by exists a, a0, a1.
  - intros (ch & x & y & H1 & H2 & H3 & ->). apply at_ret in H1, H2.
    rewrite H1. cbn. rewrite H2. cbn. by rewrite H3.
Qed.

Lemma on_chunk_same f c k m m' :
  on_chunk f c k m = Ret m' -> exists x y, chunk_at c k m = Ret x /\ f x = Ret y /\ chunk_at c k m' = Ret y.
Proof.
  rewrite on_chunk_ret. intros (ch & x & y & H1 & H2 & H3 & ->).
  exists x, y. rewrite !chunk_at_ret. split_and!; [by exists ch|done|].
  eexists. rewrite list_lookup_insert_eq by eauto using lookup_lt_Some. split; [done|].
  cbn. apply list_lookup_insert_eq. eauto using lookup_lt_Some.
Qed.

Lemma on_chunk_other f c k m m' c' k' :
  on_chunk f c k m = Ret m' -> (c', k') <> (c, k) -> chunk_at c' k' m' = chunk_at c' k' m.
Proof.
  rewrite on_chunk_ret. intros (ch & x & y & H1 & H2 & H3 & ->) N. unfold chunk_at, channel_at, at_.
  destruct (decide (c' = c)) as [->|Nc]; [|by rewrite list_lookup_insert_ne].
  rewrite list_lookup_insert_eq, H1 by eauto using lookup_lt_Some. cbn.
  destruct (decide (k' = k)) as [->|Nk]; [done|by rewrite list_lookup_insert_ne].
Qed.

Lemma on_chunk_intro f c k m x y :
  chunk_at c k m = Ret x -> f x = Ret y -> exists m', on_chunk f c k m = Ret m' /\ chunk_at c k m' = Ret y.
Proof.
  intros H E. apply chunk_at_ret in H as (ch & H1 & H2).
  assert (on_chunk f c k m = Ret (<[c := mkChannel (ch_status ch) (<[k := y]> (ch_chunks ch))]> m)) as Hm
    by (apply on_chunk_ret; by exists ch, x, y).
  destruct (on_chunk_same _ _ _ _ _ Hm) as (x' & y' & Hx & Hy & Hc).
  eexists. split; [exact Hm|]. rewrite Hc.
  assert (chunk_at c k m = Ret x) as Hx' by (apply chunk_at_ret; by exists ch). congruence.
Qed.

(** Channels change by their status only. *)
Lemma status_chunk c ch s c' k m :
  m !! c = Some ch -> chunk_at c' k (<[c := mkChannel s (ch_chunks ch)]> m) = chunk_at c' k m.
Proof.
  intros H. unfold chunk_at, channel_at, at_. destruct (decide (c' = c)) as [->|N].
  - by rewrite list_lookup_insert_eq, H by eauto using lookup_lt_Some.
  - by rewrite list_lookup_insert_ne.
Qed.

Lemma find_index_some {A} (f : A -> bool) l i :
  find_index f l = Some i <->
  exists x, l !! i = Some x /\ f x = true /\ forall j y, (j < i)%nat -> l !! j = Some y -> f y = false.
Proof.
  revert i. induction l as [|a l IH]; intros i; cbn; [split; [done|by intros (x & H & _)]|].
  destruct (f a) eqn:E.
  - split.
    + intros [= <-]. exists a. split_and!; [done|done|lia].
    + intros (x & H & Hf & Hm). destruct i; [done|]. specialize (Hm O a ltac:(lia) eq_refl). congruence.
  - rewrite fmap_Some. setoid_rewrite IH. split.
    + intros (i' & (x & H & Hf & Hm) & ->). exists x. split_and!; [done|done|].
      intros [|j] y Hj Hy; [by injection Hy as <-|]. apply (Hm j); [lia|done].
    + intros (x & H & Hf & Hm). destruct i as [|i]; [cbn in H; congruence|]. exists i. split; [|done].
      exists x. split_and!; [done|done|]. intros j y Hj Hy. apply (Hm (S j)); [lia|done].
Qed.

Lemma find_index_none {A} (f : A -> bool) l : find_index f l = None <-> Forall (fun x => f x = false) l.
Proof.
  induction l as [|a l IH]; cbn; [by split|]. rewrite Forall_cons, <- IH.
  destruct (f a); [split; [done|by intros [? _]]|].
  destruct (find_index f l); cbn; split; [done|by intros [_ ?]|done|done].
Qed.

(** ** The functions of the usage counts *)

Lemma registerChunk_ret c k m m' :
  registerChunk c m = Ret (k, m') ->
  (exists x, chunk_at c k m = Ret x /\ k_status x = 0) /\
  (forall j, (j < k)%nat -> exists y, chunk_at c j m = Ret y /\ k_status y <> 0) /\
  chunk_at c k m' = Ret (mkChunk [] [] false 1) /\
  (forall c' k', (c', k') <> (c, k) -> chunk_at c' k' m' = chunk_at c' k' m).
Proof.
  unfold registerChunk. intros H. apply outcome_bind_inv in H as (ch & Hch & H).
  apply at_ret in Hch. destruct (find_index _ _) as [i|] eqn:E; [|done].
  apply outcome_bind_inv in H as (m1 & Hm & H). injection H as -> ->.
  apply find_index_some in E as (x & Hx & Hf & Hmin). apply Z.eqb_eq in Hf.
  destruct (on_chunk_same _ _ _ _ _ Hm) as (x' & y & _ & [= <-] & Hy). split_and!.
  - exists x. split; [|done]. apply chunk_at_ret. by exists ch.
  - intros j Hj. destruct (lookup_lt_is_Some_2 (ch_chunks ch) j) as (y & Hyj).
    { apply lookup_lt_Some in Hx. lia. }
    exists y. split; [apply chunk_at_ret; by exists ch|]. apply Z.eqb_neq. exact (Hmin j y Hj Hyj).
  - exact Hy.
  - intros c' k' N. exact (on_chunk_other _ _ _ _ _ _ _ Hm N).
Qed.

Lemma registerChunk_throws c m e :
  registerChunk c m = Throw e ->
  e = MemoryInitException /\ exists ch, m !! c = Some ch /\ Forall (fun k => k_status k <> 0) (ch_chunks ch).
Proof.
  unfold registerChunk, channel_at, at_. destruct (m !! c) as [ch|] eqn:E; [|done]. cbn.
  destruct (find_index _ _) as [i|] eqn:Ef; cbn.
  - unfold on_chunk, channel_at, at_. rewrite E. cbn.
    apply find_index_some in Ef as (x & Hx & _). by rewrite Hx.
  - intros [= <-]. split; [done|]. exists ch. split; [done|]. apply find_index_none in Ef.
    eapply Forall_impl; [exact Ef|]. intros x Hx. by apply Z.eqb_neq.
Qed.

Lemma registerChunk_total c ch m :
  m !! c = Some ch -> (exists k m', registerChunk c m = Ret (k, m')) \/ registerChunk c m = Throw MemoryInitException.
Proof.
  intros E. unfold registerChunk, channel_at, at_. rewrite E. cbn.
  destruct (find_index _ _) as [i|] eqn:Ef; [left|by right].
  apply find_index_some in Ef as (x & Hx & _).
  destruct (on_chunk_intro (fun _ => Ret (mkChunk [] [] false 1)) c i m x (mkChunk [] [] false 1)) as (m' & Hm & _);
    [apply chunk_at_ret; by exists ch|done|].
  exists i, m'. by rewrite Hm.
Qed.

Lemma registerChannel_ret c m m' :
  registerChannel m = Ret (c, m') ->
  exists ch, m !! c = Some ch /\ ch_status ch = 0 /\ m' = <[c := mkChannel 1 (ch_chunks ch)]> m /\
    forall j y, (j < c)%nat -> m !! j = Some y -> ch_status y <> 0.
Proof.
  unfold registerChannel. destruct (find_index _ _) as [i|] eqn:E; [|done].
  apply find_index_some in E as (ch & Hx & Hf & Hmin). apply Z.eqb_eq in Hf.
  unfold channel_at, at_. rewrite Hx. cbn. intros [= <- <-]. exists ch. split_and!; try done.
  intros j y Hj Hy. apply Z.eqb_neq. eauto.
Qed.

(** ** What calls leave of a chunk in use *)

(** The change of the usage count of a chunk by a call *)
Definition usage (c k : nat) (x : call) : Z :=
  match x with
  | CIncrementChunkUsage i j => if bool_decide ((i, j) = (c, k)) then 1 else 0
  | CDecrementChunkUsage i j => if bool_decide ((i, j) = (c, k)) then -1 else 0
  | _ => 0
  end.
Fixpoint usages (c k : nat) (cs : list call) : Z :=
  match cs with [] => 0 | x :: cs => usage c k x + usages c k cs end.

(** The calls of those who do not own the chunk: they do not write to it and do not give up
    the channel. *)
Definition foreign (c k : nat) (x : call) : Prop :=
  match x with
  | CDecrementChannelUsage i => i <> c
  | CClearChunkData i j | CWrite _ i j _ _ | CWriteChunk _ i j _ | CWriteFromBuffers _ _ i j
  | CSetEndOfStream i j _ | CAssureAllDataIsCopied i j => (i, j) <> (c, k)
  | _ => True
  end.

Lemma int_op_ret z s : int_op z = Ret s -> s = z.
Proof. unfold int_op. by destruct (_ && _); intros [= <-]. Qed.

Lemma usage_call f d c k i j m m' x :
  on_chunk f i j m = Ret m' -> chunk_at c k m = Ret x ->
  (forall y, f x = Ret y -> y = with_status (k_status x + d) x) ->
  chunk_at c k m' = Ret (with_status (k_status x + (if bool_decide ((i, j) = (c, k)) then d else 0)) x).
Proof.
  intros H Hx Hf. case_bool_decide as E.
  - injection E as -> ->. destruct (on_chunk_same _ _ _ _ _ H) as (x' & y & Hx' & Hy & Hc).
    rewrite Hx in Hx'. injection Hx' as <-. apply Hf in Hy as <-. exact Hc.
  - rewrite (on_chunk_other _ _ _ _ _ c k H) by congruence. rewrite Z.add_0_r. rewrite Hx. by destruct x.
Qed.

Lemma with_status_same x : with_status (k_status x + 0) x = x.
Proof. rewrite Z.add_0_r. by destruct x. Qed.

Lemma channel_call_keeps c i ch s chs m x k :
  m !! i = Some ch -> (i = c -> chs = ch_chunks ch) -> chunk_at c k m = Ret x ->
  chunk_at c k (<[i := mkChannel s chs]> m) = Ret x.
Proof.
  intros E Hc Hx. destruct (decide (i = c)) as [->|N].
  - rewrite Hc by done. by rewrite (status_chunk c ch).
  - unfold chunk_at, channel_at, at_ in *. by rewrite list_lookup_insert_ne.
Qed.

Lemma exec_call_keeps c k (y : call) m m' x :
  exec_call y m = Ret m' -> foreign c k y -> chunk_at c k m = Ret x ->
  0 < k_status x -> 0 < k_status x + usage c k y ->
  chunk_at c k m' = Ret (with_status (k_status x + usage c k y) x).
Proof.
  intros H Hf Hx Hs Hu. destruct y as [|i|i|i s|i|i j|i j|i j|data i j metaData copy|l i j metaData|buffers header i j|i j eos|i j];
    cbn in H, Hf, Hu |- *; try rewrite with_status_same.
  - outcome_inv. destruct a as [c' m1]. apply registerChannel_ret in Ha as (ch & E & _ & -> & _). subst m'.
    by apply (channel_call_keeps c c' ch).
  - unfold incrementChannelUsage, channel_at in H. outcome_inv. apply at_ret in Ha.
    by apply (channel_call_keeps c i a).
  - unfold decrementChannelUsage, channel_at in H. outcome_inv. apply at_ret in Ha.
    by apply (channel_call_keeps c i a).
  - unfold setChannelStatus, channel_at in H. outcome_inv. apply at_ret in Ha.
    by apply (channel_call_keeps c i a).
  - outcome_inv. destruct a as [k' m1]. subst m'. apply registerChunk_ret in Ha as ((x' & Hx' & Es) & _ & _ & Ho).
    rewrite Ho; [done|]. intros [= -> ->]. rewrite Hx in Hx'. injection Hx' as <-. lia.
  - apply (usage_call _ 1 _ _ _ _ _ _ _ H Hx). intros y Hy. outcome_inv. by apply int_op_ret in Ha as ->.
  - case_bool_decide as E.
    + replace (-1) with (if bool_decide ((i, j) = (c, k)) then -1 else 0) by by rewrite bool_decide_true.
      apply (usage_call _ (-1) _ _ _ _ _ _ _ H Hx). intros y Hy. unfold released in Hy. outcome_inv. apply int_op_ret in Ha as ->.
      destruct (Z.eqb_spec (k_status x - 1) 0); [lia|done].
    + rewrite with_status_same. rewrite (on_chunk_other _ _ _ _ _ c k H); [done|congruence].
  - by rewrite (on_chunk_other _ _ _ _ _ c k H).
  - unfold write in H. outcome_inv. by rewrite (on_chunk_other _ _ _ _ _ c k H).
  - unfold writeChunk in H. case_match; [done|]. by rewrite (on_chunk_other _ _ _ _ _ c k H).
  - by rewrite (on_chunk_other _ _ _ _ _ c k H).
  - by rewrite (on_chunk_other _ _ _ _ _ c k H).
  - by rewrite (on_chunk_other _ _ _ _ _ c k H).
Qed.

(** The balance of the counts stays positive. *)
Fixpoint held (c k : nat) (s : Z) (cs : list call) : Prop :=
  match cs with
  | [] => True
  | y :: cs => 0 < s + usage c k y /\ held c k (s + usage c k y) cs
  end.

Lemma exec_call_throws c k (y : call) m e : exec_call y m = Throw e -> usage c k y = 0.
Proof.
  assert (forall f i j, (forall x, f x <> Throw e) -> on_chunk f i j m <> Throw e) as On.
  { intros f i j Hf. unfold on_chunk, channel_at, at_. destruct (m !! i) as [ch|]; [cbn|done].
    destruct (ch_chunks ch !! j) as [x|]; [cbn|done]. specialize (Hf x). destruct (f x); cbn; congruence. }
  destruct y; cbn; try done; intros H; exfalso; revert H; apply On; intros x; unfold released, int_op; by destruct (_ && _).
Qed.

Lemma exec_calls_keep c k (cs : list call) m m' x :
  exec_calls cs m = Ret m' -> Forall (foreign c k) cs -> chunk_at c k m = Ret x ->
  0 < k_status x -> held c k (k_status x) cs ->
  exists s, chunk_at c k m' = Ret (with_status s x) /\ s = k_status x + usages c k cs.
Proof.
  revert m x. induction cs as [|y cs IH]; intros m x H Hf Hx Hs Hh; cbn in H.
  - injection H as <-. exists (k_status x). rewrite Hx. split; [by destruct x|]. cbn. lia.
  - inversion_clear Hf as [|? ? Hy Hcs]. destruct Hh as [Hp Hh]. cbn -[usage].
    destruct (exec_call y m) as [m1|e| |] eqn:E; try done.
    + pose proof (exec_call_keeps c k y m m1 x E Hy Hx Hs Hp) as H1.
      destruct (IH m1 _ H Hcs H1 Hp Hh) as (s & Es & ->). eexists. split; [exact Es|]. cbn. lia.
    + pose proof (exec_call_throws c k y m e E) as U. rewrite U, Z.add_0_r in Hh.
      destruct (IH m x H Hcs Hx Hs Hh) as (s & Es & ->). eexists. split; [exact Es|]. lia.
Qed.

(** ** Copying *)

Lemma copy_set_spec bs : settled bs -> exists bs', copy_set bs = Ret bs' /\ settled bs' /\ contents bs' = contents bs.
Proof.
  intros H. unfold copy_set, appendTo.
  destruct (append_buffers_spec false (m_buffers bs) (new_BufferSet true) [] []) as (bs' & E & C & _ & S).
  - exact H.
  - exists [], 0. split_and!; done.
  - intros _. by repeat constructor.
  - rewrite E. exists (rewind bs'). split_and!; [done|exact (S eq_refl)|exact C].
Qed.

Lemma copied_spec k : Forall settled (k_data k) ->
  exists d, copied k = Ret (with_data d k) /\ Forall settled d /\ contents <$> d = contents <$> k_data k.
Proof.
  intros H. unfold copied. destruct (negb _); [exists (k_data k); by destruct k|].
  assert (exists d, mapM_outcome copy_set (k_data k) = Ret d /\ Forall settled d /\
    contents <$> d = contents <$> k_data k) as (d & E & S & C); [|exists d; by rewrite E].
  induction H as [|bs l Hb Hl (d & E & S & C)]; [by exists []|].
  destruct (copy_set_spec bs Hb) as (bs' & E' & S' & C'). exists (bs' :: d). cbn [mapM_outcome].
  rewrite E', E. split; [done|]. split; [by constructor|]. rewrite !fmap_cons. by rewrite C', C.
Qed.

(** ** Writing and reading *)

Definition write_all (items : list (hash * hash)) (c k : nat) (copyAllData : bool) : memory -> outcome memory :=
  foldM (fun '(data, metaData) => write data c k metaData copyAllData) items.

Definition writable (format_float : pod -> Z -> string) (format_complex : cpx -> Z * Z -> string)
    (type_name : nat -> string) (h : hash) : Prop :=
  serializable (VHash h) /\ loadable format_float format_complex type_name (VHash h).

(** The buffers hold the Hashes [hs]. *)
Definition holds (copyAllData : bool) (l : list BufferSet) (hs : list hash) : Prop :=
  Forall2 (fun bs h => save_multi h (new_BufferSet copyAllData) = Ret bs) l hs.

Lemma write_all_chunk items c k copy m x hs :
  Forall (fun p => serializable (VHash p.1)) items -> chunk_at c k m = Ret x -> holds copy (k_data x) hs ->
  exists m' d, write_all items c k copy m = Ret m' /\ holds copy d (hs ++ items.*1) /\
    chunk_at c k m' = Ret (mkChunk d (k_meta x ++ items.*2) (k_eos x) (k_status x)).
Proof.
  revert m x hs. induction items as [|[h meta] items IH]; intros m x hs Hs Hx Hd.
  - exists m, (k_data x). cbn. rewrite !app_nil_r. split_and!; try done. by destruct x.
  - inversion_clear Hs as [|? ? Hh Hs']. destruct (save_multi_shape h (new_BufferSet copy) Hh) as (bs & E & _).
    destruct (on_chunk_intro (fun k => Ret (mkChunk (k_data k ++ [bs]) (k_meta k ++ [meta]) (k_eos k) (k_status k)))
      c k m x _ Hx eq_refl) as (m1 & Hm & Hx1).
    destruct (IH m1 _ (hs ++ [h]) Hs' Hx1) as (m' & d & Hw & Hd' & Hc).
    { cbn. apply Forall2_app; [exact Hd|]. by constructor. }
    exists m', d. assert (write h c k meta copy m = Ret m1) as Hwr by (unfold write; by rewrite E).
    unfold write_all. cbn [foldM]. rewrite Hwr. split; [exact Hw|].
    cbn in *. rewrite <- !app_assoc in *. by split.
Qed.

Section round_trip.
Context (format_float : pod -> Z -> string) (format_complex : cpx -> Z * Z -> string)
        (type_name : nat -> string).

Lemma read_held c k m x copy hs i h :
  chunk_at c k m = Ret x -> holds copy (k_data x) hs -> hs !! i = Some h ->
  writable format_float format_complex type_name h ->
  exists m', read_Hash format_float format_complex type_name i c k m = Ret (h, m').
Proof.
  intros Hx Hd Hi [Hs Hl]. destruct (Forall2_lookup_r _ _ _ _ _ Hd Hi) as (bs & Hb & E).
  destruct (load_saved format_float format_complex type_name h _ bs Hs Hl E) as (bs' & Er & _).
  destruct (on_chunk_intro (fun k => Ret (with_data (<[i:=bs']> (k_data k)) k)) c k m x _ Hx eq_refl) as (m' & Hm & _).
  exists m'. unfold read_Hash. rewrite Hx. cbn. apply at_ret in Hb. rewrite Hb. cbn. rewrite Er. cbn. by rewrite Hm.
Qed.

(** C5: A registered chunk keeps what its owner writes to it.  Whatever calls of other users
    follow, to other chunks and channels, registering chunks and channels, and changing the usage
    count of the chunk as long as it stays positive, the items are read back as they were written,
    the meta data in the same order, and the count is the balance; when the last user releases
    the chunk it becomes empty and free. *)
Theorem memory_keeps_data (items : list (hash * hash)) (copyAllData : bool) (c k : nat) (m m0 : memory) :
  registerChunk c m = Ret (k, m0) ->
  Forall (fun p => writable format_float format_complex type_name p.1) items ->
  exists m1, write_all items c k copyAllData m0 = Ret m1 /\
    forall cs m2, exec_calls cs m1 = Ret m2 -> Forall (foreign c k) cs -> held c k 1 cs ->
      getMetaData c k m2 = Ret (items.*2) /\ size c k m2 = Ret (length items) /\
      getChunkStatus c k m2 = Ret (1 + usages c k cs) /\
      (forall i h metaData, items !! i = Some (h, metaData) ->
        exists m3, read_Hash format_float format_complex type_name i c k m2 = Ret (h, m3)) /\
      (usages c k cs = 0 -> exists m3, unregisterChunk c k m2 = Ret m3 /\
        chunk_at c k m3 = Ret free_chunk).
Proof.
  intros Hr Hw. destruct (registerChunk_ret _ _ _ _ Hr) as (_ & _ & H0 & _).
  destruct (write_all_chunk items c k copyAllData m0 _ [] ltac:(eapply Forall_impl; [exact Hw|by intros ? []])
    H0 ltac:(by constructor)) as (m1 & d & E & Hd & H1).
  exists m1. split; [exact E|]. intros cs m2 Hc Hf Hh.
  destruct (exec_calls_keep c k cs m1 m2 _ Hc Hf H1 eq_refl Hh) as (s & H2 & Es). cbn in Es, Hd.
  unfold getMetaData, size, getChunkStatus. rewrite H2. cbn. split_and!.
  - done.
  - by rewrite (Forall2_length _ _ _ Hd), length_fmap.
  - by rewrite Es.
  - intros i h metaData Hi. rewrite Forall_forall in Hw.
    apply (read_held c k m2 _ copyAllData (items.*1) i h H2 Hd).
    + by rewrite list_lookup_fmap, Hi.
    + apply (Hw (h, metaData)). by eapply list_elem_of_lookup_2.
  - intros U. rewrite U in Es. subst s.
    destruct (on_chunk_intro released c k m2 _ free_chunk H2 eq_refl) as (m3 & Hm & H3).
    by exists m3.
Qed.
End round_trip.

Definition small_memory : memory := replicate 2 (mkChannel 0 (replicate 2 free_chunk)).

Definition other_calls : list call :=
  [CRegisterChannel; CIncrementChunkUsage 1 0; CRegisterChunk 1; CWrite [] 1 1 [] true; CDecrementChunkUsage 1 0].

Lemma memory_keeps_data_witness :
  exists m0 m1 m2 m3, registerChunk 1 small_memory = Ret (0%nat, m0) /\
    write_all [(example_arrays, [])] 1 0 false m0 = Ret m1 /\ exec_calls other_calls m1 = Ret m2 /\
    read_Hash (fun _ _ => ""%string) (fun _ _ => ""%string) (fun _ => ""%string) 0 1 0 m2 = Ret (example_arrays, m3).
Proof.
  destruct (registerChunk 1 small_memory) as [[k m0]| | |] eqn:E; try discriminate E.
  injection E as <- E.
  destruct (memory_keeps_data (fun _ _ => ""%string) (fun _ _ => ""%string) (fun _ => ""%string)
    [(example_arrays, [])] false 1 0 small_memory m0) as (m1 & Hw & H).
  - rewrite <- E. reflexivity.
  - constructor; [|constructor]. split; [serializable|loadable].
  - destruct (exec_calls other_calls m1) as [m2| | |] eqn:Hc;
      try (exfalso; subst m0; vm_compute in Hw; injection Hw as <-; discriminate Hc).
    assert (Forall (foreign 1 0) other_calls) as Hf
      by (repeat (apply Forall_cons; split); [..|apply Forall_nil; exact I]; cbn; done).
    assert (held 1 0 1 other_calls) as Hh by (vm_compute; repeat split).
    destruct (H _ m2 Hc Hf Hh) as (_ & _ & _ & Hr & _).
    destruct (Hr 0%nat example_arrays [] eq_refl) as (m3 & H3). exists m0, m1, m2, m3.
    refine (conj _ (conj Hw (conj Hc H3))). rewrite <- E. reflexivity.
Defined.

(** ** Releases after the end of the channel *)

Lemma unregister_last c k ch x m :
  m !! c = Some ch -> ch_status ch = 1 -> ch_chunks ch !! k = Some x ->
  exists m1, unregisterChannel c m = Ret m1 /\ chunk_at c k m1 = Ret (mkChunk [] [] (k_eos x) 0).
Proof.
  intros H E Hx. unfold unregisterChannel, decrementChannelUsage, channel_at, at_. rewrite H. cbn. rewrite E.
  eexists. split; [reflexivity|]. apply chunk_at_ret. eexists.
  rewrite list_lookup_insert_eq by eauto using lookup_lt_Some. split; [done|]. cbn.
  change (1 - 1 =? 0) with true. cbv iota. by rewrite list_lookup_fmap, Hx.
Qed.

Lemma release_ret c k m x :
  chunk_at c k m = Ret x -> - 2 ^ 31 < k_status x <= 2 ^ 31 ->
  exists m', unregisterChunk c k m = Ret m' /\
    chunk_at c k m' = Ret (if k_status x - 1 =? 0 then free_chunk else with_status (k_status x - 1) x).
Proof.
  intros Hx Hs. eapply on_chunk_intro; [exact Hx|]. unfold released, int_op.
  destruct (Z.leb_spec (- 2 ^ 31) (k_status x - 1)); [|lia].
  destruct (Z.ltb_spec (k_status x - 1) (2 ^ 31)); [|lia]. cbn.
  by destruct (Z.eqb_spec (k_status x - 1) 0) as [->|].
Qed.

(** C39: The last user of a channel frees all its chunks, also those that are still in use: the
    handler of a pending write releases its chunk whether or not the OutputChannel still exists.
    If it does so before the chunk is registered again, the count becomes -1 and the chunk is not
    found free any more; if the chunk has a new owner by then, his data are lost and the chunk
    counts as free. *)
Theorem late_release (c k : nat) (ch : channel) (x : chunk) (m : memory) :
  m !! c = Some ch -> ch_status ch = 1 -> ch_chunks ch !! k = Some x ->
  exists m1, unregisterChannel c m = Ret m1 /\ getChunkStatus c k m1 = Ret 0 /\
    (exists m2, unregisterChunk c k m1 = Ret m2 /\ getChunkStatus c k m2 = Ret (-1) /\
      forall k' m3, registerChunk c m2 = Ret (k', m3) -> k' <> k) /\
    (forall m2 items copyAllData m3, registerChunk c m1 = Ret (k, m2) ->
      Forall (fun p => serializable (VHash p.1)) items -> write_all items c k copyAllData m2 = Ret m3 ->
      exists m4, unregisterChunk c k m3 = Ret m4 /\ chunk_at c k m4 = Ret free_chunk).
Proof.
  intros H E Hx. destruct (unregister_last c k ch x m H E Hx) as (m1 & Hm & H1).
  exists m1. unfold getChunkStatus. rewrite H1. split_and!; [exact Hm|done| |].
  - destruct (release_ret c k m1 _ H1) as (m2 & Hm2 & H2); [cbn; lia|]. cbn in H2.
    exists m2. rewrite H2. split_and!; [exact Hm2|done|]. intros k' m3 Hr ->.
    apply registerChunk_ret in Hr as ((y & Hy & Es) & _). rewrite H2 in Hy. by injection Hy as <-.
  - intros m2 items copy m3 Hr Hi Hw. apply registerChunk_ret in Hr as (_ & _ & H2 & _).
    destruct (write_all_chunk items c k copy m2 _ [] Hi H2 ltac:(by constructor)) as (m3' & d & Hw' & _ & H3).
    rewrite Hw in Hw'. injection Hw' as <-.
    destruct (release_ret c k m3 _ H3) as (m4 & Hm4 & H4); [cbn; lia|]. cbn in H4. by exists m4.
Qed.

Lemma late_release_witness :
  let ch := mkChannel 1 [mkChunk [] [] false 1; free_chunk] in
  let m1 := [mkChannel 0 [free_chunk; free_chunk]] in
  unregisterChannel 0 [ch] = Ret m1 /\ exists m2, unregisterChunk 0 0 m1 = Ret m2 /\ getChunkStatus 0 0 m2 = Ret (-1).
Proof.
  destruct (late_release 0 0 (mkChannel 1 [mkChunk [] [] false 1; free_chunk]) (mkChunk [] [] false 1)
    [mkChannel 1 [mkChunk [] [] false 1; free_chunk]] eq_refl eq_refl eq_refl) as (m1 & Hm & _ & (m2 & H2 & H3 & _) & _).
  injection Hm as <-. split; [reflexivity|]. exists m2. split; [exact H2|exact H3].
Defined.
