(* ===== verification/StdMap.v ===== *)
(** std::map with strings as keys, as the list of its entries in the order of the keys, in which
    the code iterates over it; and sums over lists, with which resources are counted. *)

From Stdlib Require Import ZArith Lia Ascii String.
From stdpp Require Import base numbers list strings.
From S2P Require Import Prelude.

Open Scope Z_scope.

(** ** Sums *)

Fixpoint zsum {A} (g : A -> Z) (l : list A) : Z :=
  match l with [] => 0 | x :: l => g x + zsum g l end.

Section sums.
Context {A : Type}.
Implicit Types (g : A -> Z) (l : list A).

Lemma zsum_app g l1 l2 : zsum g (l1 ++ l2) = zsum g l1 + zsum g l2.
Proof. induction l1; cbn; lia. Qed.

Lemma zsum_delete g l i x : l !! i = Some x -> zsum g (delete i l) = zsum g l - g x.
Proof.
  intros H. rewrite <- (take_drop_middle l i x H) at 2. rewrite delete_take_drop, !zsum_app. cbn. lia.
Qed.

Lemma zsum_insert g l i x y : l !! i = Some x -> zsum g (<[i:=y]> l) = zsum g l - g x + g y.
Proof.
  intros H. rewrite insert_take_drop by eauto using lookup_lt_Some.
  rewrite <- (take_drop_middle l i x H) at 3. rewrite !zsum_app. cbn. lia.
Qed.

Lemma zsum_nonneg g l : (forall x, 0 <= g x) -> 0 <= zsum g l.
Proof. intros H. induction l as [|a l IH]; cbn; [lia|]. specialize (H a). lia. Qed.

Lemma zsum_elem g l x : (forall x, 0 <= g x) -> x ∈ l -> g x <= zsum g l.
Proof.
  intros H E. induction l as [|a l IH]; [by apply not_elem_of_nil in E|]. cbn.
  apply elem_of_cons in E as [->|E].
  - pose proof (zsum_nonneg g l H). lia.
  - specialize (H a). specialize (IH E). lia.
Qed.

Lemma zsum_ext g1 g2 l : (forall x, g1 x = g2 x) -> zsum g1 l = zsum g2 l.
Proof. intros H. induction l as [|a l IH]; cbn; [done|]. by rewrite H, IH. Qed.
End sums.

(** The number of occurrences of an element *)
Definition one `{EqDecision A} (c x : A) : Z := if decide (c = x) then 1 else 0.
Definition occ `{EqDecision A} (c : A) (l : list A) : Z := zsum (one c) l.

Section occurrences.
Context `{EqDecision A}.
Implicit Types (c x : A) (l : list A).

Lemma one_nonneg c x : 0 <= one c x.
Proof. unfold one. case_decide; lia. Qed.
Lemma one_same c : one c c = 1.
Proof. unfold one. by rewrite decide_True. Qed.
Lemma one_other c x : c <> x -> one c x = 0.
Proof. intros. unfold one. by rewrite decide_False. Qed.
Lemma occ_nonneg c l : 0 <= occ c l.
Proof. apply zsum_nonneg, one_nonneg. Qed.
Lemma occ_app c l1 l2 : occ c (l1 ++ l2) = occ c l1 + occ c l2.
Proof. apply zsum_app. Qed.
Lemma occ_cons c x l : occ c (x :: l) = one c x + occ c l.
Proof. done. Qed.
Lemma occ_nil c : occ c [] = 0.
Proof. done. Qed.
Lemma occ_elem c l : c ∈ l -> 1 <= occ c l.
Proof. intros E. pose proof (zsum_elem (one c) l c (one_nonneg c) E) as E'. by rewrite one_same in E'. Qed.
Lemma occ_not_elem c l : c ∉ l -> occ c l = 0.
Proof.
  induction l as [|x l IH]; [done|]. rewrite not_elem_of_cons. intros [N E]. rewrite occ_cons, IH by done.
  by rewrite one_other.
Qed.
End occurrences.

Lemma occ_map_inj {A B} `{EqDecision A} `{EqDecision B} (f : A -> B) (c : A) (l : list A) :
  (forall x y, f x = f y -> x = y) -> occ (f c) (f <$> l) = occ c l.
Proof.
  intros Inj. induction l as [|x l IH]; [done|]. cbn [fmap list_fmap]. rewrite !occ_cons, <- IH. f_equal.
  unfold one. destruct (decide (c = x)) as [->|N]; [by rewrite decide_True|].
  rewrite decide_False; [done|]. intros E. by apply Inj in E.
Qed.

(** ** Maps *)

Section smap.
Context {V : Type}.
Implicit Types (m : list (string * V)) (k : string) (v : V).

(** find, operator[] with an assignment, erase, and a change of the mapped value through a reference *)
Fixpoint mfind k m : option V :=
  match m with
  | [] => None
  | (k', v) :: m => if String.eqb k k' then Some v else mfind k m
  end.

Fixpoint malter (f : V -> V) k m : list (string * V) :=
  match m with
  | [] => []
  | (k', v) :: m => (k', if String.eqb k k' then f v else v) :: malter f k m
  end.

Fixpoint minsert k v m : list (string * V) :=
  match m with
  | [] => [(k, v)]
  | (k', v') :: m' => if String.ltb k k' then (k, v) :: m else (k', v') :: minsert k v m'
  end.

Definition mset k v m : list (string * V) :=
  match mfind k m with Some _ => malter (fun _ => v) k m | None => minsert k v m end.

Fixpoint merase k m : list (string * V) :=
  match m with
  | [] => []
  | (k', v) :: m => if String.eqb k k' then merase k m else (k', v) :: merase k m
  end.

(** Every key has one entry. *)
Definition unique_keys m : Prop := NoDup m.*1.

(** The sum over the mapped values *)
Definition msum (g : V -> Z) m : Z := zsum (fun p => g p.2) m.

Lemma mfind_none k m : mfind k m = None <-> k ∉ m.*1.
Proof.
  induction m as [|[k' v] m IH]; cbn; [split; [intros _ H; inversion H|done]|].
  rewrite not_elem_of_cons, <- IH. destruct (String.eqb_spec k k'); [|naive_solver].
  split; [done|by intros [? _]].
Qed.

Lemma mfind_some k v m : mfind k m = Some v -> (k, v) ∈ m.
Proof.
  induction m as [|[k' v'] m IH]; cbn; [done|].
  destruct (String.eqb_spec k k') as [->|]; [intros [= ->]; by left|]. right. auto.
Qed.

Lemma mfind_elem k v m : unique_keys m -> (k, v) ∈ m -> mfind k m = Some v.
Proof.
  unfold unique_keys. induction m as [|[k' v'] m IH]; cbn; intros U H; [inversion H|].
  inversion_clear U as [|? ? N U']. apply elem_of_cons in H as [[= -> ->]|H].
  - by rewrite String.eqb_refl.
  - destruct (String.eqb_spec k k') as [->|]; [|auto].
    destruct N. by apply (list_elem_of_fmap_2 fst) in H.
Qed.

Lemma malter_keys f k m : (malter f k m).*1 = m.*1.
Proof. induction m as [|[k' v] m IH]; cbn; [done|]. rewrite <- IH. by destruct (String.eqb k k'). Qed.

Lemma malter_unique f k m : unique_keys m -> unique_keys (malter f k m).
Proof. unfold unique_keys. by rewrite malter_keys. Qed.

Lemma malter_length f k m : length (malter f k m) = length m.
Proof. rewrite <- (length_fmap fst), malter_keys. apply length_fmap. Qed.

Lemma malter_notin f k m : k ∉ m.*1 -> malter f k m = m.
Proof.
  induction m as [|[k' v] m IH]; cbn; [done|]. rewrite not_elem_of_cons. intros [N H].
  rewrite IH by done. by destruct (String.eqb_spec k k').
Qed.

Lemma mfind_malter f k k' m :
  mfind k' (malter f k m) = if String.eqb k k' then f <$> mfind k' m else mfind k' m.
Proof.
  induction m as [|[k0 v] m IH]; cbn; [by destruct (String.eqb k k')|].
  destruct (String.eqb_spec k k0) as [->|N]; cbn.
  - destruct (String.eqb_spec k' k0) as [->|N']; [by rewrite String.eqb_refl|exact IH].
  - destruct (String.eqb_spec k' k0) as [->|N']; [|exact IH].
    by destruct (String.eqb_spec k k0).
Qed.

Lemma msum_malter g f k v m : unique_keys m -> mfind k m = Some v ->
  msum g (malter f k m) = msum g m - g v + g (f v).
Proof.
  unfold unique_keys, msum. induction m as [|[k' v'] m IH]; cbn; intros U H; [done|].
  inversion_clear U as [|? ? N U']. destruct (String.eqb_spec k k') as [->|Nk]; cbn.
  - injection H as ->.  rewrite malter_notin by done. lia.
  -  rewrite (IH U' H). lia.
Qed.

Lemma msum_malter_same g f k m : (forall v, g (f v) = g v) -> msum g (malter f k m) = msum g m.
Proof.
  intros H. unfold msum. induction m as [|[k' v] m IH]; cbn; [done|].  rewrite IH.
  destruct (String.eqb k k'); cbn; by rewrite ?H.
Qed.

Lemma merase_notin k m : k ∉ m.*1 -> merase k m = m.
Proof.
  induction m as [|[k' v] m IH]; cbn; [done|]. rewrite not_elem_of_cons. intros [N H].
  destruct (String.eqb_spec k k'); cbn; [done|]. by rewrite IH.
Qed.

Lemma merase_elem k p m : p ∈ merase k m <-> p ∈ m /\ p.1 <> k.
Proof.
  induction m as [|[k' v] m IH]; cbn; [split; [intros H; inversion H|by intros [H _]; inversion H]|].
  destruct (String.eqb_spec k k') as [->|N]; rewrite ?elem_of_cons, IH; [|naive_solver].
  split; [naive_solver|]. intros [[->|H] Hk]; [done|by split].
Qed.

Lemma merase_key k k' m : k' ∈ (merase k m).*1 -> k' ∈ m.*1.
Proof. rewrite !list_elem_of_fmap. intros (p & -> & Hp). apply merase_elem in Hp as [Hp _]. by exists p. Qed.

Lemma merase_unique k m : unique_keys m -> unique_keys (merase k m).
Proof.
  unfold unique_keys. induction m as [|[k' v] m IH]; cbn; intros U; [done|].
  inversion_clear U as [|? ? N U']. destruct (String.eqb k k'); [auto|]. cbn. constructor; [|auto].
  intros H. by apply merase_key in H.
Qed.

Lemma mfind_merase k k' m : mfind k' (merase k m) = if String.eqb k k' then None else mfind k' m.
Proof.
  induction m as [|[k0 v] m IH]; cbn; [by destruct (String.eqb k k')|].
  destruct (String.eqb_spec k k0) as [->|N]; cbn.
  - rewrite IH. destruct (String.eqb_spec k0 k') as [->|N']; [done|].
    by destruct (String.eqb_spec k' k0) as [->|].
  - destruct (String.eqb_spec k' k0) as [->|N']; [by destruct (String.eqb_spec k k0)|exact IH].
Qed.

Lemma msum_merase g k v m : unique_keys m -> mfind k m = Some v -> msum g (merase k m) = msum g m - g v.
Proof.
  unfold unique_keys, msum. induction m as [|[k' v'] m IH]; cbn; intros U H; [done|].
  inversion_clear U as [|? ? N U']. destruct (String.eqb_spec k k') as [->|Nk]; cbn.
  - injection H as ->.  rewrite merase_notin by done. lia.
  -  rewrite (IH U' H). lia.
Qed.

Lemma minsert_perm k v m : minsert k v m ≡ₚ (k, v) :: m.
Proof.
  induction m as [|[k' v'] m IH]; cbn; [done|]. destruct (String.ltb k k'); [done|].
  rewrite IH. constructor.
Qed.

Lemma msum_perm g m1 m2 : m1 ≡ₚ m2 -> msum g m1 = msum g m2.
Proof. unfold msum. induction 1; cbn in *; lia. Qed.

Lemma mset_unique k v m : unique_keys m -> unique_keys (mset k v m).
Proof.
  intros U. unfold mset. destruct (mfind k m) eqn:E; [by apply malter_unique|].
  unfold unique_keys. rewrite minsert_perm. cbn. constructor; [by apply mfind_none|done].
Qed.

Lemma msum_mset_new g k v m : mfind k m = None -> msum g (mset k v m) = g v + msum g m.
Proof. intros H. unfold mset. rewrite H. rewrite (msum_perm g _ _ (minsert_perm k v m)). done. Qed.

Lemma mfind_minsert k v k' m : mfind k m = None ->
  mfind k' (minsert k v m) = if String.eqb k k' then Some v else mfind k' m.
Proof.
  induction m as [|[k0 v0] m IH]; cbn.
  - intros _. destruct (String.eqb_spec k k') as [->|]; [by rewrite String.eqb_refl|].
    by destruct (String.eqb_spec k' k).
  - destruct (String.eqb_spec k k0) as [|N]; [done|]. intros H. destruct (String.ltb k k0); cbn.
    + destruct (String.eqb_spec k k') as [->|N']; [by rewrite String.eqb_refl|].
      by destruct (String.eqb_spec k' k).
    + rewrite (IH H). destruct (String.eqb_spec k' k0) as [->|]; [|done].
      by destruct (String.eqb_spec k k0).
Qed.

Lemma mfind_mset k v k' m : mfind k' (mset k v m) = if String.eqb k k' then Some v else mfind k' m.
Proof.
  unfold mset. destruct (mfind k m) eqn:E.
  - rewrite mfind_malter. destruct (String.eqb_spec k k') as [->|]; [by rewrite E|done].
  - by apply mfind_minsert.
Qed.

Lemma msum_nonneg g m : (forall v, 0 <= g v) -> 0 <= msum g m.
Proof. intros H. apply zsum_nonneg. intros p. apply H. Qed.

Lemma msum_find g k v m : (forall v, 0 <= g v) -> mfind k m = Some v -> g v <= msum g m.
Proof. intros H E. apply mfind_some in E. by apply (zsum_elem (fun p : string * V => g p.2)) in E. Qed.
End smap.
