(* ===== verification/Messages.v ===== *)
(** Messages between input and output channels: Hashes whose entries are looked up by plain keys. *)

From Stdlib Require Import ZArith Lia Ascii String.
From stdpp Require Import base numbers list strings.
From S2P Require Import Prelude Types Strings OrderedMap Hash HashAccess.
Import Types.

Open Scope Z_scope.

(** message.get<std::string>(path) and message.get<unsigned int>(path) *)
Definition get_string (path : string) (message : hash) : outcome string :=
  v ← get (Tscalar string_) path k_defaultSep message;
  match v with VString s => Ret s | _ => Undef (* not reached *) end.
Definition get_unsigned (path : string) (message : hash) : outcome Z :=
  v ← get (Tscalar (pod_scalar PUInt32)) path k_defaultSep message;
  match v with VPod _ n => Ret n | _ => Undef (* not reached *) end.

(** ** What looking up can lead to *)

(** The call returns or throws. *)
Definition answers {A} (o : outcome A) : Prop := match o with Ret _ | Throw _ => True | Undef | OutOfFuel => False end.

Lemma answers_bind {A B} (o : outcome A) (f : A -> outcome B) : answers o -> (forall x, o = Ret x -> answers (f x)) -> answers (o ≫= f).
Proof. destruct o; cbn; auto. Qed.

Definition plain (path : string) : Prop :=
  (forall m, getLastHashPtr path k_defaultSep m = Ret (Some ([], path))) /\ getAndCropIndex path = Ret (-1, path).

Lemma has_plain path m : plain path -> has path k_defaultSep m = Ret (ahas path m).
Proof. intros [H1 H2]. unfold has. rewrite H1. cbn. rewrite H2. cbn. by destruct (ahas path m). Qed.

Lemma get_plain t path m : plain path ->
  (exists v, get t path k_defaultSep m = Ret v /\ type v = t) \/ exists e, get t path k_defaultSep m = Throw e.
Proof.
  intros [H1 H2]. unfold get, getNode, getLastHash. rewrite H1. cbn. rewrite H2. cbn. unfold container_getNode, getValue.
  destruct (afind path m) as [n|]; cbn; [|right; by eexists]. case_decide; [left; by eexists|right; by eexists].
Qed.

Lemma get_string_answers path m : plain path -> answers (get_string path m).
Proof.
  intros P. unfold get_string. destruct (get_plain (Tscalar string_) path m P) as [(v & -> & Hv)|(e & ->)]; [|done]. cbn.
  destruct v; try (match goal with t : pod |- _ => destruct t | t : cpx |- _ => destruct t end); cbn in *; congruence || done.
Qed.
Lemma get_unsigned_answers path m : plain path -> answers (get_unsigned path m).
Proof.
  intros P. unfold get_unsigned. destruct (get_plain (Tscalar (pod_scalar PUInt32)) path m P) as [(v & -> & Hv)|(e & ->)]; [|done]. cbn.
  destruct v; try (match goal with t : pod |- _ => destruct t | t : cpx |- _ => destruct t end); cbn in *; congruence || done.
Qed.
