(* ===== verification/OutputChannel.v ===== *)
(** The output channel of pipelines (xms/OutputChannel.cc, OutputChannel.hh): distribution of chunks
    of the shared memory to connected input channels.

    The state of the channel, of the memory and of the threads that run its functions is one record
    [world].  What the code does under its lock m_registeredInputsMutex is one step; a function
    that takes the lock several times is split into as many steps, between which others may
    occur. *)

From Stdlib Require Import ZArith Lia Ascii String.
From stdpp Require Import base numbers list strings gmap.
From S2P Require Import Prelude Types Strings OrderedMap Hash HashAccess BufferSet StdMap Memory Messages.
Import Types.

Open Scope Z_scope.

(** ** Data *)

Inductive distribution : Type := Shared | Copy.

(** An entry of m_registeredSharedInputs or m_registeredCopyInputs; its key is the instanceId.  The
    pointer to the TCP channel is the number of a connection. *)
Record InputChannelInfo := mkInput {
  i_memoryLocation : string;
  i_tcpChannel : nat;
  i_onSlowness : string;
  i_maxQueueLength : Z;
  i_queuedChunks : list nat;
  i_sendOngoing : bool
}.
Definition with_queue (q : list nat) (i : InputChannelInfo) : InputChannelInfo :=
  mkInput (i_memoryLocation i) (i_tcpChannel i) (i_onSlowness i) (i_maxQueueLength i) q (i_sendOngoing i).
Definition with_ongoing (b : bool) (i : InputChannelInfo) : InputChannelInfo :=
  mkInput (i_memoryLocation i) (i_tcpChannel i) (i_onSlowness i) (i_maxQueueLength i) (i_queuedChunks i) b.
Definition is_local (i : InputChannelInfo) : bool := String.eqb (i_memoryLocation i) "local".

(** A pointer to an entry *)
Abbreviation input := (distribution * string)%type.

(** The closures: singleWriteDone of the update [u] bound to an index or a function that only logs;
    singleUnblockTrigger of an update with what it is bound to. *)
Inductive done_handler : Type := SingleWriteDone (u n : nat) | LogOnly.
Record unblock := mkUnblock { b_update : nat; b_chunk : nat; b_block : nat; b_all : nat; b_copyIfLocal : bool }.

(** A call of asyncUpdateNoWait: the flags its closures share (doneFlags and doneBlockFlags),
    whether its writeDoneHandler is the finalSignal of asyncSignalEndOfStream, and for reference what
    it is to send: the end of stream, or the meta data and the contents of the buffers in its chunk. *)
Record update := mkUpdate {
  u_final : bool; u_doneFlags : list bool; u_blockFlags : list bool; u_eos : bool; u_meta : list hash; u_data : list bytes
}.
Definition with_flags (done block : list bool) (up : update) : update :=
  mkUpdate (u_final up) done block (u_eos up) (u_meta up) (u_data up).

(** What somebody is responsible for: a use of a chunk, setting a flag of an update, calling a
    handler of an update.  The world keeps a record of what gets lost. *)
Inductive resource : Type :=
| RChunk (chunkId : nat) | RDone (u n : nat) | RBlock (u n : nat) | RReady (u : nat) | RWriteDone (u : nat).

(** What is written to a connection: a header and buffers. *)
Record message := mkMessage { m_header : hash; m_data : list BufferSet }.

(** A message on its way: to which input and connection, from which update and chunk *)
Record sent := mkSent {
  s_to : input; s_tcp : nat; s_update : nat; s_chunk : nat; s_message : message
}.

(** An asynchronous write; [p_taken]: a local receiver has already processed the message. *)
Record pending := mkPending {
  p_id : string; p_chunk : nat; p_local : bool; p_done : done_handler; p_taken : bool
}.

Definition res_done (d : done_handler) : list resource :=
  match d with SingleWriteDone u n => [RDone u n] | LogOnly => [] end.
Definition res_unblock (b : unblock) : list resource :=
  [RChunk (b_chunk b); RBlock (b_update b) (b_block b); RDone (b_update b) (b_all b)].

(** Functions that the event loop has been asked to call *)
Inductive job : Type :=
| JAvailable (id : string)            (** onInputAvailable *)
| JReady (u : nat)                    (** readyForNextHandler of an update *)
| JWriteDone (u : nat)                (** writeDoneHandler of an update *)
| JDone (d : done_handler)
| JHello (id : string) (tcp : nat)    (** the rest of onTcpChannelRead *)
| JRead (tcp : nat).                  (** its end *)

Inductive event : Type := EReady (u : nat) | EWriteDone (u : nat).

(** Where the thread that calls write and update is: outside, in asyncUpdateNoWait before it has the
    lock, or sleeping in ensureValidChunkId. *)
Inductive phase : Type := Idle | Locking (u chunkId : nat) (safeNDArray : bool) | Sleeping.

(** finalSignal: not in use, to be called with the last update's completion, or called *)
Inductive signal : Type := NoSignal | SignalWaits | SignalRuns.

Record world := mkWorld {
  m_registeredSharedInputs : list (string * InputChannelInfo);
  m_registeredCopyInputs : list (string * InputChannelInfo);
  m_sharedLoadBalancedQueuedChunks : list nat;
  m_unblockSharedHandler : option unblock;
  m_unblockHandlers : list (string * unblock);
  m_shareNext : list string;
  m_copyNext : gset string;
  m_chunkId : option nat;                       (** None: m_invalidChunkId *)
  m_sharedInputSelector : option (list string -> string);
  m_inputNetChannels : list nat;
  w_memory : memory;
  w_alive : gset nat;                           (** connections that are not destroyed *)
  w_open : gset nat;
  w_jobs : list job;
  w_pending : list pending;
  w_completed : list pending;                   (** in the write handler, after resetSendOngoing; to be released *)
  w_updates : list update;
  w_phase : phase;
  w_signal : signal;
  w_free : bool;                                (** asyncUpdateNoWait may be called *)
  w_wire : list sent;                           (** the messages sent *)
  w_log : list event;                           (** the handlers called *)
  w_content : gmap nat nat;                     (** the update that sends a chunk *)
  w_local : list nat;                           (** references to chunks that local receivers have to release *)
  w_lost : list resource;                       (** what nobody takes care of any more *)
  w_hellos : list (input * nat * string)        (** the registrations: input, connection, memory location *)
}.

(** Assignments to the members *)
Definition set_shared v (w : world) : world :=
  mkWorld v (m_registeredCopyInputs w) (m_sharedLoadBalancedQueuedChunks w) (m_unblockSharedHandler w)
    (m_unblockHandlers w) (m_shareNext w) (m_copyNext w) (m_chunkId w) (m_sharedInputSelector w)
    (m_inputNetChannels w) (w_memory w) (w_alive w) (w_open w) (w_jobs w) (w_pending w) (w_completed w)
    (w_updates w) (w_phase w) (w_signal w) (w_free w) (w_wire w) (w_log w) (w_content w) (w_local w) (w_lost w) (w_hellos w).
Definition set_copy v (w : world) : world :=
  mkWorld (m_registeredSharedInputs w) v (m_sharedLoadBalancedQueuedChunks w) (m_unblockSharedHandler w)
    (m_unblockHandlers w) (m_shareNext w) (m_copyNext w) (m_chunkId w) (m_sharedInputSelector w)
    (m_inputNetChannels w) (w_memory w) (w_alive w) (w_open w) (w_jobs w) (w_pending w) (w_completed w)
    (w_updates w) (w_phase w) (w_signal w) (w_free w) (w_wire w) (w_log w) (w_content w) (w_local w) (w_lost w) (w_hellos w).
Definition set_sharedQueue v (w : world) : world :=
  mkWorld (m_registeredSharedInputs w) (m_registeredCopyInputs w) v (m_unblockSharedHandler w)
    (m_unblockHandlers w) (m_shareNext w) (m_copyNext w) (m_chunkId w) (m_sharedInputSelector w)
    (m_inputNetChannels w) (w_memory w) (w_alive w) (w_open w) (w_jobs w) (w_pending w) (w_completed w)
    (w_updates w) (w_phase w) (w_signal w) (w_free w) (w_wire w) (w_log w) (w_content w) (w_local w) (w_lost w) (w_hellos w).
Definition set_unblockShared v (w : world) : world :=
  mkWorld (m_registeredSharedInputs w) (m_registeredCopyInputs w) (m_sharedLoadBalancedQueuedChunks w) v
    (m_unblockHandlers w) (m_shareNext w) (m_copyNext w) (m_chunkId w) (m_sharedInputSelector w)
    (m_inputNetChannels w) (w_memory w) (w_alive w) (w_open w) (w_jobs w) (w_pending w) (w_completed w)
    (w_updates w) (w_phase w) (w_signal w) (w_free w) (w_wire w) (w_log w) (w_content w) (w_local w) (w_lost w) (w_hellos w).
Definition set_unblocks v (w : world) : world :=
  mkWorld (m_registeredSharedInputs w) (m_registeredCopyInputs w) (m_sharedLoadBalancedQueuedChunks w)
    (m_unblockSharedHandler w) v (m_shareNext w) (m_copyNext w) (m_chunkId w) (m_sharedInputSelector w)
    (m_inputNetChannels w) (w_memory w) (w_alive w) (w_open w) (w_jobs w) (w_pending w) (w_completed w)
    (w_updates w) (w_phase w) (w_signal w) (w_free w) (w_wire w) (w_log w) (w_content w) (w_local w) (w_lost w) (w_hellos w).
Definition set_shareNext v (w : world) : world :=
  mkWorld (m_registeredSharedInputs w) (m_registeredCopyInputs w) (m_sharedLoadBalancedQueuedChunks w)
    (m_unblockSharedHandler w) (m_unblockHandlers w) v (m_copyNext w) (m_chunkId w) (m_sharedInputSelector
    w) (m_inputNetChannels w) (w_memory w) (w_alive w) (w_open w) (w_jobs w) (w_pending w) (w_completed w)
    (w_updates w) (w_phase w) (w_signal w) (w_free w) (w_wire w) (w_log w) (w_content w) (w_local w) (w_lost w) (w_hellos w).
Definition set_copyNext v (w : world) : world :=
  mkWorld (m_registeredSharedInputs w) (m_registeredCopyInputs w) (m_sharedLoadBalancedQueuedChunks w)
    (m_unblockSharedHandler w) (m_unblockHandlers w) (m_shareNext w) v (m_chunkId w) (m_sharedInputSelector
    w) (m_inputNetChannels w) (w_memory w) (w_alive w) (w_open w) (w_jobs w) (w_pending w) (w_completed w)
    (w_updates w) (w_phase w) (w_signal w) (w_free w) (w_wire w) (w_log w) (w_content w) (w_local w) (w_lost w) (w_hellos w).
Definition set_chunkId v (w : world) : world :=
  mkWorld (m_registeredSharedInputs w) (m_registeredCopyInputs w) (m_sharedLoadBalancedQueuedChunks w)
    (m_unblockSharedHandler w) (m_unblockHandlers w) (m_shareNext w) (m_copyNext w) v (m_sharedInputSelector
    w) (m_inputNetChannels w) (w_memory w) (w_alive w) (w_open w) (w_jobs w) (w_pending w) (w_completed w)
    (w_updates w) (w_phase w) (w_signal w) (w_free w) (w_wire w) (w_log w) (w_content w) (w_local w) (w_lost w) (w_hellos w).
Definition set_selector v (w : world) : world :=
  mkWorld (m_registeredSharedInputs w) (m_registeredCopyInputs w) (m_sharedLoadBalancedQueuedChunks w)
    (m_unblockSharedHandler w) (m_unblockHandlers w) (m_shareNext w) (m_copyNext w) (m_chunkId w) v
    (m_inputNetChannels w) (w_memory w) (w_alive w) (w_open w) (w_jobs w) (w_pending w) (w_completed w)
    (w_updates w) (w_phase w) (w_signal w) (w_free w) (w_wire w) (w_log w) (w_content w) (w_local w) (w_lost w) (w_hellos w).
Definition set_net v (w : world) : world :=
  mkWorld (m_registeredSharedInputs w) (m_registeredCopyInputs w) (m_sharedLoadBalancedQueuedChunks w)
    (m_unblockSharedHandler w) (m_unblockHandlers w) (m_shareNext w) (m_copyNext w) (m_chunkId w)
    (m_sharedInputSelector w) v (w_memory w) (w_alive w) (w_open w) (w_jobs w) (w_pending w) (w_completed w)
    (w_updates w) (w_phase w) (w_signal w) (w_free w) (w_wire w) (w_log w) (w_content w) (w_local w) (w_lost w) (w_hellos w).
Definition set_memory v (w : world) : world :=
  mkWorld (m_registeredSharedInputs w) (m_registeredCopyInputs w) (m_sharedLoadBalancedQueuedChunks w)
    (m_unblockSharedHandler w) (m_unblockHandlers w) (m_shareNext w) (m_copyNext w) (m_chunkId w)
    (m_sharedInputSelector w) (m_inputNetChannels w) v (w_alive w) (w_open w) (w_jobs w) (w_pending w)
    (w_completed w) (w_updates w) (w_phase w) (w_signal w) (w_free w) (w_wire w) (w_log w) (w_content w)
    (w_local w) (w_lost w) (w_hellos w).
Definition set_alive v (w : world) : world :=
  mkWorld (m_registeredSharedInputs w) (m_registeredCopyInputs w) (m_sharedLoadBalancedQueuedChunks w)
    (m_unblockSharedHandler w) (m_unblockHandlers w) (m_shareNext w) (m_copyNext w) (m_chunkId w)
    (m_sharedInputSelector w) (m_inputNetChannels w) (w_memory w) v (w_open w) (w_jobs w) (w_pending w)
    (w_completed w) (w_updates w) (w_phase w) (w_signal w) (w_free w) (w_wire w) (w_log w) (w_content w)
    (w_local w) (w_lost w) (w_hellos w).
Definition set_open v (w : world) : world :=
  mkWorld (m_registeredSharedInputs w) (m_registeredCopyInputs w) (m_sharedLoadBalancedQueuedChunks w)
    (m_unblockSharedHandler w) (m_unblockHandlers w) (m_shareNext w) (m_copyNext w) (m_chunkId w)
    (m_sharedInputSelector w) (m_inputNetChannels w) (w_memory w) (w_alive w) v (w_jobs w) (w_pending w)
    (w_completed w) (w_updates w) (w_phase w) (w_signal w) (w_free w) (w_wire w) (w_log w) (w_content w)
    (w_local w) (w_lost w) (w_hellos w).
Definition set_jobs v (w : world) : world :=
  mkWorld (m_registeredSharedInputs w) (m_registeredCopyInputs w) (m_sharedLoadBalancedQueuedChunks w)
    (m_unblockSharedHandler w) (m_unblockHandlers w) (m_shareNext w) (m_copyNext w) (m_chunkId w)
    (m_sharedInputSelector w) (m_inputNetChannels w) (w_memory w) (w_alive w) (w_open w) v (w_pending w)
    (w_completed w) (w_updates w) (w_phase w) (w_signal w) (w_free w) (w_wire w) (w_log w) (w_content w)
    (w_local w) (w_lost w) (w_hellos w).
Definition set_pending v (w : world) : world :=
  mkWorld (m_registeredSharedInputs w) (m_registeredCopyInputs w) (m_sharedLoadBalancedQueuedChunks w)
    (m_unblockSharedHandler w) (m_unblockHandlers w) (m_shareNext w) (m_copyNext w) (m_chunkId w)
    (m_sharedInputSelector w) (m_inputNetChannels w) (w_memory w) (w_alive w) (w_open w) (w_jobs w) v
    (w_completed w) (w_updates w) (w_phase w) (w_signal w) (w_free w) (w_wire w) (w_log w) (w_content w)
    (w_local w) (w_lost w) (w_hellos w).
Definition set_completed v (w : world) : world :=
  mkWorld (m_registeredSharedInputs w) (m_registeredCopyInputs w) (m_sharedLoadBalancedQueuedChunks w)
    (m_unblockSharedHandler w) (m_unblockHandlers w) (m_shareNext w) (m_copyNext w) (m_chunkId w)
    (m_sharedInputSelector w) (m_inputNetChannels w) (w_memory w) (w_alive w) (w_open w) (w_jobs w)
    (w_pending w) v (w_updates w) (w_phase w) (w_signal w) (w_free w) (w_wire w) (w_log w) (w_content w)
    (w_local w) (w_lost w) (w_hellos w).
Definition set_updates v (w : world) : world :=
  mkWorld (m_registeredSharedInputs w) (m_registeredCopyInputs w) (m_sharedLoadBalancedQueuedChunks w)
    (m_unblockSharedHandler w) (m_unblockHandlers w) (m_shareNext w) (m_copyNext w) (m_chunkId w)
    (m_sharedInputSelector w) (m_inputNetChannels w) (w_memory w) (w_alive w) (w_open w) (w_jobs w)
    (w_pending w) (w_completed w) v (w_phase w) (w_signal w) (w_free w) (w_wire w) (w_log w) (w_content w)
    (w_local w) (w_lost w) (w_hellos w).
Definition set_phase v (w : world) : world :=
  mkWorld (m_registeredSharedInputs w) (m_registeredCopyInputs w) (m_sharedLoadBalancedQueuedChunks w)
    (m_unblockSharedHandler w) (m_unblockHandlers w) (m_shareNext w) (m_copyNext w) (m_chunkId w)
    (m_sharedInputSelector w) (m_inputNetChannels w) (w_memory w) (w_alive w) (w_open w) (w_jobs w)
    (w_pending w) (w_completed w) (w_updates w) v (w_signal w) (w_free w) (w_wire w) (w_log w) (w_content w)
    (w_local w) (w_lost w) (w_hellos w).
Definition set_signal v (w : world) : world :=
  mkWorld (m_registeredSharedInputs w) (m_registeredCopyInputs w) (m_sharedLoadBalancedQueuedChunks w)
    (m_unblockSharedHandler w) (m_unblockHandlers w) (m_shareNext w) (m_copyNext w) (m_chunkId w)
    (m_sharedInputSelector w) (m_inputNetChannels w) (w_memory w) (w_alive w) (w_open w) (w_jobs w)
    (w_pending w) (w_completed w) (w_updates w) (w_phase w) v (w_free w) (w_wire w) (w_log w) (w_content w)
    (w_local w) (w_lost w) (w_hellos w).
Definition set_free v (w : world) : world :=
  mkWorld (m_registeredSharedInputs w) (m_registeredCopyInputs w) (m_sharedLoadBalancedQueuedChunks w)
    (m_unblockSharedHandler w) (m_unblockHandlers w) (m_shareNext w) (m_copyNext w) (m_chunkId w)
    (m_sharedInputSelector w) (m_inputNetChannels w) (w_memory w) (w_alive w) (w_open w) (w_jobs w)
    (w_pending w) (w_completed w) (w_updates w) (w_phase w) (w_signal w) v (w_wire w) (w_log w) (w_content
    w) (w_local w) (w_lost w) (w_hellos w).
Definition set_wire v (w : world) : world :=
  mkWorld (m_registeredSharedInputs w) (m_registeredCopyInputs w) (m_sharedLoadBalancedQueuedChunks w)
    (m_unblockSharedHandler w) (m_unblockHandlers w) (m_shareNext w) (m_copyNext w) (m_chunkId w)
    (m_sharedInputSelector w) (m_inputNetChannels w) (w_memory w) (w_alive w) (w_open w) (w_jobs w)
    (w_pending w) (w_completed w) (w_updates w) (w_phase w) (w_signal w) (w_free w) v (w_log w) (w_content
    w) (w_local w) (w_lost w) (w_hellos w).
Definition set_log v (w : world) : world :=
  mkWorld (m_registeredSharedInputs w) (m_registeredCopyInputs w) (m_sharedLoadBalancedQueuedChunks w)
    (m_unblockSharedHandler w) (m_unblockHandlers w) (m_shareNext w) (m_copyNext w) (m_chunkId w)
    (m_sharedInputSelector w) (m_inputNetChannels w) (w_memory w) (w_alive w) (w_open w) (w_jobs w)
    (w_pending w) (w_completed w) (w_updates w) (w_phase w) (w_signal w) (w_free w) (w_wire w) v (w_content
    w) (w_local w) (w_lost w) (w_hellos w).
Definition set_content v (w : world) : world :=
  mkWorld (m_registeredSharedInputs w) (m_registeredCopyInputs w) (m_sharedLoadBalancedQueuedChunks w)
    (m_unblockSharedHandler w) (m_unblockHandlers w) (m_shareNext w) (m_copyNext w) (m_chunkId w)
    (m_sharedInputSelector w) (m_inputNetChannels w) (w_memory w) (w_alive w) (w_open w) (w_jobs w)
    (w_pending w) (w_completed w) (w_updates w) (w_phase w) (w_signal w) (w_free w) (w_wire w) (w_log w) v
    (w_local w) (w_lost w) (w_hellos w).
Definition set_local v (w : world) : world :=
  mkWorld (m_registeredSharedInputs w) (m_registeredCopyInputs w) (m_sharedLoadBalancedQueuedChunks w)
    (m_unblockSharedHandler w) (m_unblockHandlers w) (m_shareNext w) (m_copyNext w) (m_chunkId w)
    (m_sharedInputSelector w) (m_inputNetChannels w) (w_memory w) (w_alive w) (w_open w) (w_jobs w)
    (w_pending w) (w_completed w) (w_updates w) (w_phase w) (w_signal w) (w_free w) (w_wire w) (w_log w)
    (w_content w) v (w_lost w) (w_hellos w).
Definition set_lost v (w : world) : world :=
  mkWorld (m_registeredSharedInputs w) (m_registeredCopyInputs w) (m_sharedLoadBalancedQueuedChunks w)
    (m_unblockSharedHandler w) (m_unblockHandlers w) (m_shareNext w) (m_copyNext w) (m_chunkId w)
    (m_sharedInputSelector w) (m_inputNetChannels w) (w_memory w) (w_alive w) (w_open w) (w_jobs w)
    (w_pending w) (w_completed w) (w_updates w) (w_phase w) (w_signal w) (w_free w) (w_wire w) (w_log w)
    (w_content w) (w_local w) v (w_hellos w).
Definition set_hellos v (w : world) : world :=
  mkWorld (m_registeredSharedInputs w) (m_registeredCopyInputs w) (m_sharedLoadBalancedQueuedChunks w)
    (m_unblockSharedHandler w) (m_unblockHandlers w) (m_shareNext w) (m_copyNext w) (m_chunkId w)
    (m_sharedInputSelector w) (m_inputNetChannels w) (w_memory w) (w_alive w) (w_open w) (w_jobs w)
    (w_pending w) (w_completed w) (w_updates w) (w_phase w) (w_signal w) (w_free w) (w_wire w) (w_log w)
    (w_content w) (w_local w) (w_lost w) v.

(** ** Under the lock *)

Section output_channel.
Context (m_channelId : nat) (m_onNoSharedInputChannelAvailable : string).

Definition inputs (d : distribution) (w : world) : list (string * InputChannelInfo) :=
  match d with Shared => m_registeredSharedInputs w | Copy => m_registeredCopyInputs w end.
Definition set_inputs (d : distribution) (l : list (string * InputChannelInfo)) (w : world) : world :=
  match d with Shared => set_shared l w | Copy => set_copy l w end.

(** *channelInfo: an entry, and a change of it *)
Definition info_at (p : input) (w : world) : outcome InputChannelInfo :=
  match mfind p.2 (inputs p.1 w) with Some i => Ret i | None => Undef end.
Definition change_info (f : InputChannelInfo -> InputChannelInfo) (p : input) (w : world) : world :=
  set_inputs p.1 (malter f p.2 (inputs p.1 w)) w.

Definition on_memory (f : memory -> outcome memory) (w : world) : outcome world :=
  m ← f (w_memory w); Ret (set_memory m w).
Definition post (j : list job) (w : world) : world := set_jobs (w_jobs w ++ j) w.

Definition isEos (chunkId : nat) (w : world) : outcome bool :=
  isEndOfStream m_channelId chunkId (w_memory w).
Definition incrementUsage (chunkId : nat) : world -> outcome world :=
  on_memory (incrementChunkUsage m_channelId chunkId).
Definition unregisterWriterFromChunk (chunkId : nat) : world -> outcome world :=
  on_memory (decrementChunkUsage m_channelId chunkId).

(** tcpChannel.lock() and isOpen() *)
Definition usable (tcp : nat) (w : world) : bool :=
  bool_decide (tcp ∈ w_alive w) && bool_decide (tcp ∈ w_open w).

Definition pushShareNext (id : string) (w : world) : world :=
  if bool_decide (id ∈ m_shareNext w) then w else set_shareNext (m_shareNext w ++ [id]) w.
Definition popShareNext (w : world) : outcome (string * world) :=
  match m_shareNext w with
  | [] => Throw LogicException
  | id :: l => Ret (id, set_shareNext l w)
  end.
Definition isShareNextEmpty (w : world) : bool := match m_shareNext w with [] => true | _ => false end.
Definition hasSharedInput (id : string) (w : world) : bool := bool_decide (id ∈ m_shareNext w).
Fixpoint erase_first (id : string) (l : list string) : list string :=
  match l with [] => [] | x :: l => if String.eqb id x then l else x :: erase_first id l end.
Definition eraseSharedInput (id : string) (w : world) : world :=
  set_shareNext (erase_first id (m_shareNext w)) w.
Definition pushCopyNext (id : string) (w : world) : world := set_copyNext ({[id]} ∪ m_copyNext w) w.
Definition eraseCopyInput (id : string) (w : world) : bool * world :=
  (bool_decide (id ∈ m_copyNext w), set_copyNext (m_copyNext w ∖ {[id]}) w).

(** updateChunkId: whether there is a chunk *)
Definition updateChunkId (w : world) : outcome (bool * world) :=
  match registerChunk m_channelId (w_memory w) with
  | Ret (k, m) => Ret (true, set_chunkId (Some k) (set_memory m w))
  | Throw MemoryInitException => Ret (false, set_chunkId None w)
  | Throw e => Throw (if is_karabo_exception e then PropagatedException else e)
  | Undef => Undef
  | OutOfFuel => OutOfFuel
  end.

(** *** Handlers *)

Definition is_last (u : nat) (w : world) : bool := Nat.eqb (S u) (length (w_updates w)).

(** A handler of the last update says that the next one may come. *)
Definition call_ready (u : nat) (w : world) : world :=
  let w := set_log (w_log w ++ [EReady u]) w in
  if is_last u w then set_free true w else w.
Definition call_writeDone (u : nat) (w : world) : outcome world :=
  match w_updates w !! u with
  | Some up =>
      let w := set_log (w_log w ++ [EWriteDone u]) w in
      let w := if is_last u w then set_free true w else w in
      Ret (if u_final up then set_signal SignalRuns w else w)
  | None => Undef
  end.

Definition set_flag (n : nat) (l : list bool) : outcome (list bool) :=
  if (n <? length l)%nat then Ret (<[n:=true]> l) else Undef.
Definition on_update (f : update -> outcome update) (u : nat) (w : world) : outcome (update * world) :=
  match w_updates w !! u with
  | Some up => up ← f up; Ret (up, set_updates (<[u:=up]> (w_updates w)) w)
  | None => Undef
  end.

(** singleWriteDone(n) *)
Definition singleWriteDone (u n : nat) (w : world) : outcome world :=
  '(up, w) ← on_update (fun up => l ← set_flag n (u_doneFlags up); Ret (with_flags l (u_blockFlags up) up)) u w;
  if forallb id (u_doneFlags up) then call_writeDone u w else Ret w.
Definition call_done (d : done_handler) (w : world) : outcome world :=
  match d with SingleWriteDone u n => singleWriteDone u n w | LogOnly => Ret w end.

(** *** Sending *)

(** asyncSendOne; the header of a local or end-of-stream message. *)
Definition plain_header (local eos : bool) (chunkId : nat) : hash :=
  (if local then [mkNode "channelId" [] (VPod PUInt32 (Z.of_nat m_channelId));
                  mkNode "chunkId" [] (VPod PUInt32 (Z.of_nat chunkId))] else []) ++
  (if eos then [mkNode "endOfStream" [] (VBool true)] else []).

Definition asyncSendOne (chunkId : nat) (p : input) (doneHandler : done_handler) (w : world) : outcome world :=
  info ← info_at p w;
  let local := is_local info in
  if usable (i_tcpChannel info) w then
    eos ← isEos chunkId w;
    '(data, header) ← (if negb eos && negb local then readIntoBuffers [] m_channelId chunkId (w_memory w)
                       else Ret ([], plain_header local eos chunkId));
    let w := change_info (with_ongoing true) p w in
    let u := default 0%nat (w_content w !! chunkId) in
    let w := set_wire (w_wire w ++ [mkSent p (i_tcpChannel info) u chunkId (mkMessage header data)]) w in
    Ret (set_pending (w_pending w ++ [mkPending p.2 chunkId local doneHandler false]) w)
  else
    w ← unregisterWriterFromChunk chunkId w;
    Ret (post [JDone doneHandler] w).

(** singleUnblockTrigger(channelInfo, blockCounter, allCounter, copyIfLocal) *)
Definition singleUnblockTrigger (b : unblock) (p : input) (w : world) : outcome world :=
  info ← info_at p w;
  w ← (if b_copyIfLocal b && is_local info
       then on_memory (assureAllDataIsCopied m_channelId (b_chunk b)) w else Ret w);
  w ← asyncSendOne (b_chunk b) p (SingleWriteDone (b_update b) (b_all b)) w;
  '(up, w) ← on_update (fun up => l ← set_flag (b_block b) (u_blockFlags up);
                                  Ret (with_flags (u_doneFlags up) l up)) (b_update b) w;
  Ret (if forallb id (u_blockFlags up) then call_ready (b_update b) w else w).

(** Takes the first chunk of an individual queue and sends it. *)
Definition send_queued (p : input) (info : InputChannelInfo) (w : world) : outcome world :=
  match i_queuedChunks info with
  | [] => Undef
  | chunkId :: q =>
      w ← asyncSendOne chunkId p LogOnly w;
      Ret (change_info (fun i => with_queue q i) p w)
  end.

(** The end of stream in the common queue is copied to the queues of the other inputs. *)
Definition copy_eos (chunkId : nat) (id id2 : string) (w : world) : outcome world :=
  if String.eqb id2 id then Ret w
  else incrementUsage chunkId (change_info (fun i => with_queue (i_queuedChunks i ++ [chunkId]) i) (Shared, id2) w).

Definition onInputAvailable_shared (id : string) (info : InputChannelInfo) (w : world) : outcome world :=
  match m_unblockSharedHandler w with
  | Some b => w ← singleUnblockTrigger b (Shared, id) w; Ret (set_unblockShared None w)
  | None =>
  match mfind id (m_unblockHandlers w) with
  | Some b => w ← singleUnblockTrigger b (Shared, id) w; Ret (set_unblocks (merase id (m_unblockHandlers w)) w)
  | None =>
  match i_queuedChunks info with
  | _ :: _ => send_queued (Shared, id) info w
  | [] =>
  match m_sharedLoadBalancedQueuedChunks w with
  | chunkId :: rest =>
      eos ← isEos chunkId w;
      w ← (if eos : bool then foldM (fun id2 => copy_eos chunkId id id2) (m_registeredSharedInputs w).*1 w else Ret w);
      w ← asyncSendOne chunkId (Shared, id) LogOnly w;
      Ret (set_sharedQueue rest w)
  | [] => Ret (pushShareNext id w)
  end end end end.

Definition onInputAvailable_copy (id : string) (info : InputChannelInfo) (w : world) : outcome world :=
  match mfind id (m_unblockHandlers w) with
  | Some b => w ← singleUnblockTrigger b (Copy, id) w; Ret (set_unblocks (merase id (m_unblockHandlers w)) w)
  | None =>
  match i_queuedChunks info with
  | _ :: _ => send_queued (Copy, id) info w
  | [] => Ret (pushCopyNext id w)
  end end.

(** onInputAvailable: an input that is still being sent to is postponed. *)
Definition onInputAvailable (id : string) (w : world) : outcome world :=
  match mfind id (m_registeredSharedInputs w) with
  | Some info =>
      if i_sendOngoing info then Ret (post [JAvailable id] w) else onInputAvailable_shared id info w
  | None =>
  match mfind id (m_registeredCopyInputs w) with
  | Some info =>
      if i_sendOngoing info then Ret (post [JAvailable id] w) else onInputAvailable_copy id info w
  | None => Ret w
  end end.

(** *** Connections *)

(** If the instanceId blocks something, that is released. *)
Definition release_block (p : input) (w : world) : outcome world :=
  match mfind p.2 (m_unblockHandlers w) with
  | Some b => w ← singleUnblockTrigger b p w; Ret (set_unblocks (merase p.2 (m_unblockHandlers w)) w)
  | None => Ret w
  end.

(** Is the connection of the entry expired, or the given one ([None]: a null pointer)? *)
Definition gone (channel : option nat) (info : InputChannelInfo) (w : world) : bool :=
  negb (bool_decide (i_tcpChannel info ∈ w_alive w)) || bool_decide (channel = Some (i_tcpChannel info)).

(** The chunks in the common queue are released, and what waits for any shared input. *)
Definition release_shared (id : string) (w : world) : outcome world :=
  w ← foldM unregisterWriterFromChunk (m_sharedLoadBalancedQueuedChunks w) w;
  let w := set_sharedQueue [] w in
  match m_unblockSharedHandler w with
  | Some b => w ← singleUnblockTrigger b (Shared, id) w; Ret (set_unblockShared None w)
  | None => Ret w
  end.

(** onInputGone: the body of the loops over the shared and the copy inputs *)
Definition shared_gone (channel : option nat) (id : string) (w : world) : outcome world :=
  info ← info_at (Shared, id) w;
  if gone channel info w then
    w ← release_block (Shared, id) w;
    w ← foldM unregisterWriterFromChunk (i_queuedChunks info) w;
    w ← (if Nat.eqb (length (m_registeredSharedInputs w)) 1 then release_shared id w else Ret w);
    let w := eraseSharedInput id w in
    Ret (set_shared (merase id (m_registeredSharedInputs w)) w)
  else Ret w.

Definition copy_gone (channel : option nat) (id : string) (w : world) : outcome world :=
  info ← info_at (Copy, id) w;
  if gone channel info w then
    w ← release_block (Copy, id) w;
    w ← foldM unregisterWriterFromChunk (i_queuedChunks info) w;
    let w := (eraseCopyInput id w).2 in
    Ret (set_copy (merase id (m_registeredCopyInputs w)) w)
  else Ret w.

Definition erase_net (channel : option nat) (w : world) : world :=
  match channel with
  | Some tcp => set_net (filter (.≠ tcp) (m_inputNetChannels w)) w
  | None => w
  end.

Definition onInputGone (channel : option nat) (w : world) : outcome world :=
  w ← foldM (shared_gone channel) (m_registeredSharedInputs w).*1 w;
  w ← foldM (copy_gone channel) (m_registeredCopyInputs w).*1 w;
  Ret (erase_net channel w).

Definition close_connection (tcp : nat) (w : world) : world := set_open (w_open w ∖ {[tcp]}) w.

(** eraseOldChannel: the chunks in the queue of the entry are not released. *)
Definition eraseOldChannel (d : distribution) (id : string) (newChannel : nat) (w : world) : world :=
  match mfind id (inputs d w) with
  | Some info =>
      let old := i_tcpChannel info in
      let w := if bool_decide (old ∈ w_alive w) && negb (Nat.eqb old newChannel) then close_connection old w else w in
      set_lost (w_lost w ++ (RChunk <$> i_queuedChunks info)) (set_inputs d (merase id (inputs d w)) w)
  | None => w
  end.

Definition DEFAULT_MAX_QUEUE_LENGTH : Z := 2.

(** What onTcpChannelRead takes from a hello message *)
Definition hello_info (tcp : nat) (message : hash) : outcome (string * distribution * InputChannelInfo) :=
  instanceId ← get_string "instanceId" message;
  memoryLocation ← get_string "memoryLocation" message;
  dataDistribution ← get_string "dataDistribution" message;
  onSlowness ← get_string "onSlowness" message;
  hasLength ← has "maxQueueLength" k_defaultSep message;
  maxQueueLength ← (if hasLength : bool then get_unsigned "maxQueueLength" message else Ret DEFAULT_MAX_QUEUE_LENGTH);
  Ret (instanceId, if String.eqb dataDistribution "shared" then Shared else Copy,
       mkInput memoryLocation tcp onSlowness maxQueueLength [] false).

(** The registration of a hello *)
Definition register (id : string) (d : distribution) (info : InputChannelInfo) (w : world) : world :=
  let w := eraseOldChannel Shared id (i_tcpChannel info) w in
  let w := eraseOldChannel Copy id (i_tcpChannel info) w in
  let w := set_hellos (w_hellos w ++ [((d, id), i_tcpChannel info, i_memoryLocation info)]) w in
  set_inputs d (mset id info (inputs d w)) w.

(** onTcpChannelRead, up to its call of onInputAvailable, without which it goes on at its end *)
Definition onTcpChannelRead (ec : bool) (tcp : nat) (message : hash) (w : world) : outcome world :=
  if ec || negb (bool_decide (tcp ∈ w_alive w)) then
    onInputGone (if bool_decide (tcp ∈ w_alive w) then Some tcp else None) w
  else
    hasReason ← has "reason" k_defaultSep message;
    reason ← (if hasReason : bool then get_string "reason" message else Ret ""%string);
    if String.eqb reason "hello" then
      '(id, d, info) ← hello_info tcp message;
      Ret (post [JHello id tcp] (register id d info w))
    else if String.eqb reason "update" then
      hasId ← has "instanceId" k_defaultSep message;
      if hasId : bool then id ← get_string "instanceId" message; Ret (post [JHello id tcp] w)
      else Ret (post [JRead tcp] w)
    else Ret (post [JRead tcp] w).

(** *** Updating *)

Record plan := mkPlan { p_toSend : list input; p_toQueue : list input; p_toBlock : list input }.
Definition to_send (p : input) (l : plan) : plan := mkPlan (p_toSend l ++ [p]) (p_toQueue l) (p_toBlock l).
Definition to_queue (p : input) (l : plan) : plan := mkPlan (p_toSend l) (p_toQueue l ++ [p]) (p_toBlock l).
Definition to_block (p : input) (l : plan) : plan := mkPlan (p_toSend l) (p_toQueue l) (p_toBlock l ++ [p]).
Definition is_valid (chunkId : option nat) : bool := match chunkId with Some _ => true | None => false end.

(** The treatment of an input that is not ready *)
Definition prepare_slow (eos valid : bool) (info : InputChannelInfo) (p : input) (l : plan) : outcome plan :=
  let onSlowness := if eos && String.eqb (i_onSlowness info) "drop" then "queueDrop"%string else i_onSlowness info in
  if String.eqb onSlowness "drop" then Ret l
  else if String.eqb onSlowness "queueDrop" then
    if eos || (valid && (Z.of_nat (length (i_queuedChunks info)) <? i_maxQueueLength info))
    then Ret (to_queue p l) else Ret l
  else if String.eqb onSlowness "wait" then Ret (to_block p l)
  else Throw LogicException.

(** asyncPrepareCopy; the world after it also if it throws. *)
Fixpoint asyncPrepareCopy (chunkId : nat) (ins : list (string * InputChannelInfo)) (l : plan) (w : world)
  : world * outcome plan :=
  match ins with
  | [] => (w, Ret l)
  | (id, info) :: ins =>
      let '(ready, w) := eraseCopyInput id w in
      if ready : bool then asyncPrepareCopy chunkId ins (to_send (Copy, id) l) w
      else
        match (eos ← isEos chunkId w; prepare_slow eos (is_valid (m_chunkId w)) info (Copy, id) l) with
        | Ret l => asyncPrepareCopy chunkId ins l w
        | o => (w, o)
        end
  end.

Fixpoint distribute_eos (ids : list string) (l : plan) (w : world) : world * plan :=
  match ids with
  | [] => (w, l)
  | id :: ids =>
      if hasSharedInput id w then distribute_eos ids (to_send (Shared, id) l) (eraseSharedInput id w)
      else distribute_eos ids
             (if String.eqb m_onNoSharedInputChannelAvailable "wait" then to_block (Shared, id) l
              else to_queue (Shared, id) l) w
  end.

(** asyncPrepareDistributeEos: [true]: to be put into the common queue *)
Definition asyncPrepareDistributeEos (l : plan) (w : world) : world * plan * bool :=
  match m_sharedLoadBalancedQueuedChunks w with
  | _ :: _ => (w, l, true)
  | [] => (distribute_eos (m_registeredSharedInputs w).*1 l w, false)
  end.

Definition asyncPrepareDistributeSelected (selector : list string -> string) (l : plan) (w : world)
  : world * outcome plan :=
  let id := selector (m_registeredSharedInputs w).*1 in
  match mfind id (m_registeredSharedInputs w) with
  | None => (w, Ret l)
  | Some _ =>
      if hasSharedInput id w then (eraseSharedInput id w, Ret (to_send (Shared, id) l))
      else (w,
        if String.eqb m_onNoSharedInputChannelAvailable "drop" then Ret l
        else if String.eqb m_onNoSharedInputChannelAvailable "queueDrop" then
          Ret (if is_valid (m_chunkId w) then to_queue (Shared, id) l else l)
        else if String.eqb m_onNoSharedInputChannelAvailable "wait" then Ret (to_block (Shared, id) l)
        else Throw LogicException)
  end.

(** asyncPrepareDistributeLoadBal: the plan, [queue] and [block] *)
Definition asyncPrepareDistributeLoadBal (l : plan) (w : world) : world * outcome (plan * bool * bool) :=
  match popShareNext w with
  | Ret (id, w) =>
      (w, Ret (match mfind id (m_registeredSharedInputs w) with
               | None => (l, false, false)
               | Some _ => (to_send (Shared, id) l, false, false)
               end))
  | _ =>
      (w,
        if String.eqb m_onNoSharedInputChannelAvailable "drop" then Ret (l, false, false)
        else if String.eqb m_onNoSharedInputChannelAvailable "queueDrop" then
          Ret (l, is_valid (m_chunkId w), false)
        else if String.eqb m_onNoSharedInputChannelAvailable "wait" then Ret (l, false, true)
        else Throw LogicException)
  end.

Definition asyncPrepareDistribute (chunkId : nat) (l : plan) (w : world) : world * outcome (plan * bool * bool) :=
  match m_registeredSharedInputs w with
  | [] => (w, Ret (l, false, false))
  | _ :: _ =>
      match isEos chunkId w with
      | Ret true => let '(w, l, queue) := asyncPrepareDistributeEos l w in (w, Ret (l, queue, false))
      | Ret false =>
          match m_sharedInputSelector w with
          | Some selector =>
              let '(w, o) := asyncPrepareDistributeSelected selector l w in (w, (fun l => (l, false, false)) <$> o)
          | None => asyncPrepareDistributeLoadBal l w
          end
      | Throw e => (w, Throw e)
      | Undef => (w, Undef)
      | OutOfFuel => (w, OutOfFuel)
      end
  end.

(** Drops the oldest chunk of a queue that is no end of stream: the chunk and the rest of the queue. *)
Fixpoint drop_oldest (queue : list nat) (w : world) : outcome (option (nat * list nat)) :=
  match queue with
  | [] => Ret None
  | chunkId :: q =>
      eos ← isEos chunkId w;
      if negb eos then Ret (Some (chunkId, q))
      else
        r ← drop_oldest q w;
        Ret match r with Some (c, q') => Some (c, chunkId :: q') | None => None end
  end.

(** dropIndividualQueues *)
Fixpoint dropIndividualQueues (d : distribution) (ins : list (string * InputChannelInfo)) (w : world)
  : outcome (option world) :=
  match ins with
  | [] => Ret None
  | (id, info) :: ins =>
      r ← drop_oldest (i_queuedChunks info) w;
      match r with
      | Some (chunkId, q) =>
          w ← unregisterWriterFromChunk chunkId w; Ret (Some (change_info (with_queue q) (d, id) w))
      | None => dropIndividualQueues d ins w
      end
  end.

(** ensureValidChunkId until it returns or sleeps *)
Fixpoint ensureValidChunkId (fuel : nat) (w : world) : outcome world :=
  match fuel with
  | O => OutOfFuel
  | S fuel =>
      match m_chunkId w with
      | Some _ => Ret (set_phase Idle w)
      | None =>
          '(ok, w) ← updateChunkId w;
          if ok : bool then Ret (set_phase Idle w)
          else
            r ← dropIndividualQueues Copy (m_registeredCopyInputs w) w;
            match r with
            | Some w => ensureValidChunkId fuel w
            | None =>
                r ← dropIndividualQueues Shared (m_registeredSharedInputs w) w;
                match r with
                | Some w => ensureValidChunkId fuel w
                | None =>
                    r ← drop_oldest (m_sharedLoadBalancedQueuedChunks w) w;
                    match r with
                    | Some (chunkId, q) =>
                        w ← unregisterWriterFromChunk chunkId w; ensureValidChunkId fuel (set_sharedQueue q w)
                    | None => Ret (set_phase Sleeping w)
                    end
                end
            end
      end
  end.
Definition queue_length (l : list (string * InputChannelInfo)) : nat :=
  sum_list_with (fun p => length (i_queuedChunks p.2)) l.
Definition ensure (w : world) : outcome world :=
  ensureValidChunkId (3 + queue_length (m_registeredCopyInputs w) + queue_length (m_registeredSharedInputs w) +
    length (m_sharedLoadBalancedQueuedChunks w)) w.

(** The parts of asyncUpdateNoWait *)
Definition has_local (l : list input) (w : world) : bool :=
  existsb (fun p => match mfind p.2 (inputs p.1 w) with Some i => is_local i | None => false end) l.

Definition queue_for (chunkId : nat) (p : input) (w : world) : outcome world :=
  w ← incrementUsage chunkId w;
  Ret (change_info (fun i => with_queue (i_queuedChunks i ++ [chunkId]) i) p w).

Fixpoint send_all (u chunkId counter : nat) (l : list input) (w : world) : outcome world :=
  match l with
  | [] => Ret w
  | p :: l =>
      w ← incrementUsage chunkId w;
      w ← asyncSendOne chunkId p (SingleWriteDone u counter) w;
      send_all u chunkId (S counter) l w
  end.

Fixpoint block_all (u chunkId blockCounter counter : nat) (l : list input) (w : world) : outcome world :=
  match l with
  | [] => Ret w
  | p :: l =>
      w ← incrementUsage chunkId w;
      let lost := match mfind p.2 (m_unblockHandlers w) with Some b => res_unblock b | None => [] end in
      let w := set_lost (w_lost w ++ lost)
                 (set_unblocks (mset p.2 (mkUnblock u chunkId blockCounter counter false) (m_unblockHandlers w)) w) in
      block_all u chunkId (S blockCounter) (S counter) l w
  end.

Definition block_shared (u chunkId counter : nat) (safeNDArray : bool) (w : world) : outcome world :=
  w ← incrementUsage chunkId w;
  let lost := match m_unblockSharedHandler w with Some b => res_unblock b | None => [] end in
  Ret (set_lost (w_lost w ++ lost)
         (set_unblockShared (Some (mkUnblock u chunkId 0 counter (negb safeNDArray))) w)).

(** From the creation of the handlers on *)
Definition send_and_block (u chunkId : nat) (l : plan) (block safeNDArray : bool) (w : world) : outcome world :=
  if (match p_toSend l, p_toBlock l with [], [] => true | _, _ => false end) && negb block then
    Ret (post [JReady u; JWriteDone u] w)
  else
    let numBlock := (length (p_toBlock l) + (if block then 1 else 0))%nat in
    let numToWrite := (length (p_toSend l) + numBlock)%nat in
    '(_, w) ← on_update (fun up => Ret (with_flags (replicate numToWrite false) (replicate numBlock false) up)) u w;
    w ← send_all u chunkId 0 (p_toSend l) w;
    if (0 <? numBlock)%nat then
      let counter := length (p_toSend l) in
      if block then
        w ← block_shared u chunkId counter safeNDArray w;
        block_all u chunkId 1 (S counter) (p_toBlock l) w
      else block_all u chunkId 0 counter (p_toBlock l) w
    else Ret (post [JReady u] w).

(** asyncUpdateNoWait under the lock, after both preparations *)
Definition distribute_plan (u chunkId : nat) (safeNDArray : bool) (l : plan) (queue block : bool) (w : world)
  : outcome world :=
  w ← (if negb safeNDArray &&
          ((match p_toQueue l with [] => false | _ => true end) || queue || has_local (p_toSend l) w || has_local (p_toBlock l) w)
       then on_memory (assureAllDataIsCopied m_channelId chunkId) w else Ret w);
  w ← foldM (queue_for chunkId) (p_toQueue l) w;
  w ← (if queue then w ← incrementUsage chunkId w; Ret (set_sharedQueue (m_sharedLoadBalancedQueuedChunks w ++ [chunkId]) w)
       else Ret w);
  w ← send_and_block u chunkId l block safeNDArray w;
  w ← unregisterWriterFromChunk chunkId w;
  ensure (set_phase Sleeping w).

(** asyncUpdateNoWait before the lock *)
Definition asyncUpdateNoWait_start (final safeNDArray : bool) (w : world) : outcome world :=
  match m_chunkId w with
  | None => Undef
  | Some chunkId =>
      n ← size m_channelId chunkId (w_memory w);
      eos ← isEos chunkId w;
      meta ← getMetaData m_channelId chunkId (w_memory w);
      data ← readChunk m_channelId chunkId (w_memory w);
      let u := length (w_updates w) in
      let w := set_free false (set_updates (w_updates w ++ [mkUpdate final [] [] eos meta (contents <$> data)]) w) in
      if Nat.eqb n 0 && negb eos then Ret (post [JReady u; JWriteDone u] w)
      else
        '(_, w) ← updateChunkId w;
        Ret (set_content (<[chunkId := u]> (w_content w)) (set_phase (Locking u chunkId safeNDArray) w))
  end.

(** asyncUpdateNoWait under the lock; an exception leaves it without releasing the chunk. *)
Definition asyncUpdateNoWait_locked (u chunkId : nat) (safeNDArray : bool) (w : world) : outcome world :=
  let thrown w := Ret (set_free true (set_phase Idle (set_lost (w_lost w ++ [RChunk chunkId; RReady u; RWriteDone u]) w))) in
  let l := mkPlan [] [] [] in
  match asyncPrepareCopy chunkId (m_registeredCopyInputs w) l w with
  | (w, Ret l) =>
      match asyncPrepareDistribute chunkId l w with
      | (w, Ret (l, queue, block)) => distribute_plan u chunkId safeNDArray l queue block w
      | (w, Throw _) => thrown w
      | (_, Undef) => Undef
      | (_, OutOfFuel) => OutOfFuel
      end
  | (w, Throw _) => thrown w
  | (_, Undef) => Undef
  | (_, OutOfFuel) => OutOfFuel
  end.

(** asyncSignalEndOfStream: with data in the pipe, the end of stream is left to finalSignal *)
Definition asyncSignalEndOfStream (w : world) : outcome world :=
  match m_chunkId w with
  | None => Undef
  | Some chunkId =>
      n ← size m_channelId chunkId (w_memory w);
      if (0 <? n)%nat then asyncUpdateNoWait_start true false (set_signal SignalWaits w)
      else
        w ← on_memory (setEndOfStream m_channelId chunkId true) w;
        asyncUpdateNoWait_start false true w
  end.

(** finalSignal *)
Definition finalSignal (w : world) : outcome world :=
  match m_chunkId w with
  | None => Undef
  | Some chunkId =>
      w ← on_memory (setEndOfStream m_channelId chunkId true) w;
      asyncUpdateNoWait_start false true (set_signal NoSignal w)
  end.

(** write; the validation against the data schema is not modelled. *)
Definition write (data metaData : hash) (w : world) : outcome world :=
  match m_chunkId w with
  | None => Undef
  | Some chunkId => on_memory (Memory.write data m_channelId chunkId metaData false) w
  end.

(** *** Completion of a write *)

Definition resetSendOngoing (id : string) (w : world) : world :=
  match mfind id (m_registeredCopyInputs w) with
  | Some _ => change_info (with_ongoing false) (Copy, id) w
  | None =>
      match mfind id (m_registeredSharedInputs w) with
      | Some _ => change_info (with_ongoing false) (Shared, id) w
      | None => w
      end
  end.

(** The rest of the handler.  After a successful local write the receiver is responsible for the
    chunk, unless it has dealt with it already.  (A write with an error is entered here as not local.) *)
Definition release_written (p : pending) (w : world) : outcome world :=
  w ← (if negb (p_local p) then unregisterWriterFromChunk (p_chunk p) w
       else Ret (if p_taken p then w else set_local (w_local w ++ [p_chunk p]) w));
  call_done (p_done p) w.

(** ** Steps *)

Inductive action : Type :=
| Write (data metaData : hash)
| Update (safeNDArray : bool)                 (** asyncUpdateNoWait *)
| SignalEndOfStream                           (** asyncSignalEndOfStream *)
| FinalSignal                                 (** by the write handler, whatever the thread of an update does *)
| Lock                                        (** asyncUpdateNoWait gets the lock *)
| Retry                                       (** ensureValidChunkId after its sleep *)
| Read (ec : bool) (tcp : nat) (message : hash) (** onTcpChannelRead *)
| Run (i : nat)                               (** the event loop takes a posted call *)
| Complete (i : nat) (ec : bool)              (** a write ends, the handler up to resetSendOngoing *)
| Release (i : nat)                           (** the rest of the write handler *)
| TakeLocal (i : nat)                         (** a local receiver releases a chunk before its write has completed *)
| ReleaseLocal (i : nat)                      (** ... or later *)
| Connect (tcp : nat)                         (** onTcpConnect *)
| Close (tcp : nat)
| Expire (tcp : nat)                          (** the last pointer to a connection goes *)
| Disable                                     (** disable() *)
| Select (selector : option (list string -> string)) (** registerSharedInputSelector *)
| OtherChannel (c : call).                    (** calls of Memory for other channels *)

(** Does the call concern this channel? *)
Definition own_call (c : call) : bool :=
  match c with
  | CRegisterChannel => false
  | CIncrementChannelUsage i | CDecrementChannelUsage i | CSetChannelStatus i _ | CRegisterChunk i
  | CIncrementChunkUsage i _ | CDecrementChunkUsage i _ | CClearChunkData i _ | CWrite _ i _ _ _
  | CWriteChunk _ i _ _ | CWriteFromBuffers _ _ i _ | CSetEndOfStream i _ _ | CAssureAllDataIsCopied i _ =>
      Nat.eqb i m_channelId
  end.

(** An exception that leaves a call which has not changed anything *)
Definition unless_thrown (w : world) (o : outcome world) : outcome world :=
  match o with Throw _ => Ret w | _ => o end.

Definition run_job (j : job) (w : world) : outcome world :=
  match j with
  | JAvailable id => onInputAvailable id w
  | JReady u => Ret (call_ready u w)
  | JWriteDone u => call_writeDone u w
  | JDone d => call_done d w
  | JHello id tcp => w ← onInputAvailable id w; Ret (post [JRead tcp] w)
  | JRead tcp => if usable tcp w then Ret w else onInputGone (Some tcp) w
  end.

(** The user obeys the documented contract: write, update and signalEndOfStream do not overlap, and the
    next update waits for a handler of the last one, or for the end of finalSignal. *)
Definition may_update (w : world) : bool :=
  match w_phase w, w_signal w with Idle, NoSignal => w_free w | _, _ => false end.

Definition exec (a : action) (w : world) : option (outcome world) :=
  match a with
  | Write data metaData =>
      match w_phase w with Idle => Some (unless_thrown w (write data metaData w)) | _ => None end
  | Update safeNDArray => if may_update w then Some (asyncUpdateNoWait_start false safeNDArray w) else None
  | SignalEndOfStream => if may_update w then Some (asyncSignalEndOfStream w) else None
  | FinalSignal => match w_signal w with SignalRuns => Some (finalSignal w) | _ => None end
  | Lock =>
      match w_phase w with
      | Locking u chunkId safeNDArray => Some (asyncUpdateNoWait_locked u chunkId safeNDArray w)
      | _ => None
      end
  | Retry => match w_phase w with Sleeping => Some (ensure w) | _ => None end
  | Read ec tcp message => Some (unless_thrown w (onTcpChannelRead ec tcp message w))
  | Run i => j ← w_jobs w !! i; Some (run_job j (set_jobs (delete i (w_jobs w)) w))
  | Complete i ec =>
      p ← w_pending w !! i;
      if ec && p_taken p then None
      else Some (Ret (resetSendOngoing (p_id p)
             (set_completed (w_completed w ++ [mkPending (p_id p) (p_chunk p) (p_local p && negb ec) (p_done p) (p_taken p)])
               (set_pending (delete i (w_pending w)) w))))
  | Release i => p ← w_completed w !! i; Some (release_written p (set_completed (delete i (w_completed w)) w))
  | TakeLocal i =>
      p ← w_pending w !! i;
      if p_local p && negb (p_taken p) then
        Some (unregisterWriterFromChunk (p_chunk p)
          (set_pending (<[i := mkPending (p_id p) (p_chunk p) true (p_done p) true]> (w_pending w)) w))
      else None
  | ReleaseLocal i =>
      c ← w_local w !! i; Some (unregisterWriterFromChunk c (set_local (delete i (w_local w)) w))
  | Connect tcp =>
      if bool_decide (tcp ∈ w_alive w) then None
      else Some (Ret (set_net (m_inputNetChannels w ++ [tcp])
                   (set_alive ({[tcp]} ∪ w_alive w) (set_open ({[tcp]} ∪ w_open w) w))))
  | Close tcp => Some (Ret (close_connection tcp w))
  | Expire tcp =>
      if bool_decide (tcp ∈ m_inputNetChannels w) then None
      else Some (Ret (set_alive (w_alive w ∖ {[tcp]}) w))
  | Disable => Some (Ret (set_net [] (foldr close_connection w (m_inputNetChannels w))))
  | Select selector => Some (Ret (set_selector selector w))
  | OtherChannel c =>
      if own_call c then None else Some (unless_thrown w (on_memory (exec_call c) w))
  end.

(** A run of enabled actions *)
Fixpoint run (l : list action) (w : world) : option (outcome world) :=
  match l with
  | [] => Some (Ret w)
  | a :: l =>
      match exec a w with
      | Some (Ret w) => run l w
      | o => o
      end
  end.

(** The constructor, with the channel registered: its first chunk *)
Definition new_OutputChannel (m : memory) : outcome world :=
  '(k, m) ← registerChunk m_channelId m;
  Ret (mkWorld [] [] [] None [] [] ∅ (Some k) None [] m ∅ ∅ [] [] [] [] Idle NoSignal true [] [] ∅ [] [] []).
End output_channel.
