(* ===== verification/OutputResources.v ===== *)
(** Who takes care of what in an output channel: every use of a chunk of the memory, every flag of an
    update and every handler has exactly one holder at any time. *)

From Stdlib Require Import ZArith Lia Ascii String.
From stdpp Require Import base numbers list strings gmap.
From S2P Require Import Prelude Types Strings OrderedMap Hash HashAccess BinaryWriter BufferSet BinaryMulti StdMap Memory OutputChannel.
Import Types.

Open Scope Z_scope.

(** ** Holders *)

#[export] Instance resource_eq_dec : EqDecision resource.
Proof. solve_decision. Defined.

Definition res_job (j : job) : list resource :=
  match j with
  | JReady u => [RReady u]
  | JWriteDone u => [RWriteDone u]
  | JDone d => res_done d
  | JAvailable _ | JHello _ _ | JRead _ => []
  end.
Definition res_pending (p : pending) : list resource :=
  (if p_taken p then [] else [RChunk (p_chunk p)]) ++ res_done (p_done p).
Definition res_phase (p : phase) : list resource :=
  match p with Locking u c _ => [RChunk c; RReady u; RWriteDone u] | Idle | Sleeping => [] end.
Definition res_event (e : event) : resource :=
  match e with EReady u => RReady u | EWriteDone u => RWriteDone u end.
Definition res_queue (i : InputChannelInfo) : list resource := RChunk <$> i_queuedChunks i.
Definition res_unblockShared (o : option unblock) : list resource :=
  match o with Some b => res_unblock b | None => [] end.

(** An update with a flag that is not set will call its handler when all are. *)
Definition open_flags (l : list bool) : bool := existsb negb l.
Definition held_by_flags (r : resource) (ups : list update) : Z :=
  match r with
  | RReady u => match ups !! u with Some up => if open_flags (u_blockFlags up) then 1 else 0 | None => 0 end
  | RWriteDone u => match ups !! u with Some up => if open_flags (u_doneFlags up) then 1 else 0 | None => 0 end
  | _ => 0
  end.

(** The number of holders of a resource in a state: in the queues, among the handlers, in the writes and
    the running update, and the rest *)
Definition res_current (o : option nat) : list resource := match o with Some c => [RChunk c] | None => [] end.
Definition held_queues (r : resource) (w : world) : Z :=
  occ r (res_current (m_chunkId w)) +
  msum (fun i => occ r (res_queue i)) (m_registeredSharedInputs w) +
  msum (fun i => occ r (res_queue i)) (m_registeredCopyInputs w) +
  occ r (RChunk <$> m_sharedLoadBalancedQueuedChunks w).
Definition held_handlers (r : resource) (w : world) : Z :=
  occ r (res_unblockShared (m_unblockSharedHandler w)) +
  msum (fun b => occ r (res_unblock b)) (m_unblockHandlers w) +
  zsum (fun j => occ r (res_job j)) (w_jobs w).
Definition held_writes (r : resource) (w : world) : Z :=
  zsum (fun p => occ r (res_pending p)) (w_pending w) +
  zsum (fun p => occ r (res_pending p)) (w_completed w) +
  occ r (res_phase (w_phase w)).
Definition held_otherwise (r : resource) (w : world) : Z :=
  occ r (res_event <$> w_log w) +
  held_by_flags r (w_updates w) +
  occ r (RChunk <$> w_local w) +
  occ r (w_lost w).
Definition holders (r : resource) (w : world) : Z :=
  held_queues r w + held_handlers r w + held_writes r w + held_otherwise r w.

(** How often it is to be held *)
Definition flag_open (l : list bool) (n : nat) : Z := match l !! n with Some false => 1 | _ => 0 end.
Definition supply_updates (r : resource) (ups : list update) : Z :=
  match r with
  | RChunk _ => 0
  | RDone u n => match ups !! u with Some up => flag_open (u_doneFlags up) n | None => 0 end
  | RBlock u n => match ups !! u with Some up => flag_open (u_blockFlags up) n | None => 0 end
  | RReady u | RWriteDone u => if (u <? length ups)%nat then 1 else 0
  end.

Definition disjoint_keys {V W} (l : list (string * V)) (l' : list (string * W)) : Prop := forall k, k ∈ l.*1 -> k ∉ l'.*1.

Lemma malter_forall {V} (P : V -> Prop) f k (l : list (string * V)) :
  (forall v, P v -> P (f v)) -> Forall (fun p => P p.2) l -> Forall (fun p => P p.2) (malter f k l).
Proof.
  intros Hf. induction 1 as [|[k' v] l H Hl IH]; [constructor|]. cbn. constructor; [|done]. cbn in *.
  destruct (String.eqb k k'); auto.
Qed.
Lemma merase_forall {V} (P : V -> Prop) k (l : list (string * V)) :
  Forall (fun p => P p.2) l -> Forall (fun p => P p.2) (merase k l).
Proof. rewrite !Forall_forall. intros H x Hx. apply merase_elem in Hx as [Hx _]. by apply H. Qed.

(** The same for properties of the keys too *)
Lemma malter_forall_key {V} (P : string * V -> Prop) f k (l : list (string * V)) :
  (forall k' v, P (k', v) -> P (k', f v)) -> Forall P l -> Forall P (malter f k l).
Proof.
  intros Hf. induction 1 as [|[k' v] l H Hl IH]; [constructor|]. cbn. constructor; [|done].
  destruct (String.eqb k k'); auto.
Qed.
Lemma merase_forall_key {V} (P : string * V -> Prop) k (l : list (string * V)) : Forall P l -> Forall P (merase k l).
Proof. rewrite !Forall_forall. intros H x Hx. apply merase_elem in Hx as [Hx _]. by apply H. Qed.

(** The registration of an entry is on record. *)
Definition enrolled (hellos : list (input * nat * string)) (d : distribution) (p : string * InputChannelInfo) : Prop :=
  ((d, p.1), i_tcpChannel p.2, i_memoryLocation p.2) ∈ hellos.

Lemma enrolled_queue hellos d q k l : Forall (enrolled hellos d) l -> Forall (enrolled hellos d) (malter (with_queue q) k l).
Proof. by apply malter_forall_key. Qed.
Lemma enrolled_ongoing hellos d b k l : Forall (enrolled hellos d) l -> Forall (enrolled hellos d) (malter (with_ongoing b) k l).
Proof. by apply malter_forall_key. Qed.
Lemma enrolled_more hellos hellos' d l : hellos ⊆ hellos' ->
  Forall (enrolled hellos d) l -> Forall (enrolled hellos' d) l.
Proof. intros I F. eapply Forall_impl; [exact F|]. intros p. unfold enrolled. apply I. Qed.

Section disjointness.
Context {V W : Type}.
Implicit Types (l : list (string * V)).
Lemma disjoint_malter_l f k l l' : disjoint_keys l l' -> disjoint_keys (malter f k l) l'.
Proof. intros D x. rewrite malter_keys. apply D. Qed.
Lemma disjoint_malter_r f k l l' : disjoint_keys l l' -> disjoint_keys l (malter f k l').
Proof. intros D x. rewrite malter_keys. apply D. Qed.
Lemma disjoint_merase_l k l l' : disjoint_keys l l' -> disjoint_keys (merase k l) l'.
Proof. intros D x Hx. apply D. by eapply merase_key. Qed.
Lemma disjoint_merase_r k l l' : disjoint_keys l l' -> disjoint_keys l (merase k l').
Proof. intros D x Hx Hx'. apply (D x Hx). by eapply merase_key. Qed.
Lemma mset_keys {U} k (v : U) x (l : list (string * U)) : x ∈ (mset k v l).*1 -> x = k \/ x ∈ l.*1.
Proof.
  unfold mset. destruct (mfind k l) eqn:E; [rewrite malter_keys; auto|]. rewrite minsert_perm. cbn. rewrite elem_of_cons. auto.
Qed.
Lemma disjoint_mset_l k v l l' : mfind k l' = None -> disjoint_keys l l' -> disjoint_keys (mset k v l) l'.
Proof. intros E D x Hx. apply mset_keys in Hx as [->|Hx]; [by apply mfind_none|by apply D]. Qed.
Lemma disjoint_mset_r k v l l' : mfind k l = None -> disjoint_keys l l' -> disjoint_keys l (mset k v l').
Proof. intros E D x Hx Hx'. apply mset_keys in Hx' as [->|Hx']; [by apply mfind_none in E|by apply (D x)]. Qed.
End disjointness.

Create HintDb sound.
#[export] Hint Resolve malter_unique merase_unique mset_unique merase_forall disjoint_malter_l disjoint_malter_r
  disjoint_merase_l disjoint_merase_r disjoint_mset_l disjoint_mset_r merase_forall_key enrolled_queue enrolled_ongoing : sound.

(** Soundness after assignments that do not endanger it *)
Ltac sound_after S := destruct S; constructor; cbn; try done; auto with sound.

Definition spend (l : list resource) (own : resource -> Z) (r : resource) : Z := own r - occ r l.
Definition gain (l : list resource) (own : resource -> Z) (r : resource) : Z := own r + occ r l.
Definition nothing (r : resource) : Z := 0.


(** ** Counting *)

Lemma held_by_flags_nonneg r ups : 0 <= held_by_flags r ups.
Proof. destruct r; cbn; repeat case_match; lia. Qed.

(** That no summand of [holders r w] is negative *)
Ltac holder_parts r w :=
  pose proof (occ_nonneg r (res_current (m_chunkId w)));
  pose proof (msum_nonneg (fun i => occ r (res_queue i)) (m_registeredSharedInputs w) (fun i => occ_nonneg _ _));
  pose proof (msum_nonneg (fun i => occ r (res_queue i)) (m_registeredCopyInputs w) (fun i => occ_nonneg _ _));
  pose proof (occ_nonneg r (RChunk <$> m_sharedLoadBalancedQueuedChunks w));
  pose proof (occ_nonneg r (res_unblockShared (m_unblockSharedHandler w)));
  pose proof (msum_nonneg (fun b => occ r (res_unblock b)) (m_unblockHandlers w) (fun b => occ_nonneg _ _));
  pose proof (zsum_nonneg (fun j => occ r (res_job j)) (w_jobs w) (fun b => occ_nonneg _ _));
  pose proof (zsum_nonneg (fun p => occ r (res_pending p)) (w_pending w) (fun b => occ_nonneg _ _));
  pose proof (zsum_nonneg (fun p => occ r (res_pending p)) (w_completed w) (fun b => occ_nonneg _ _));
  pose proof (occ_nonneg r (res_phase (w_phase w)));
  pose proof (occ_nonneg r (res_event <$> w_log w));
  pose proof (held_by_flags_nonneg r (w_updates w));
  pose proof (occ_nonneg r (RChunk <$> w_local w));
  pose proof (occ_nonneg r (w_lost w)).

(** Unfolds what is counted; [supply] is added below. *)
Create HintDb balance.
#[export] Hint Unfold holders held_queues held_handlers held_writes held_otherwise spend gain nothing : balance.
Ltac unfold_balance := autounfold with balance in *.

(** [balanced] after assignments that nothing depends on *)
Ltac same B := let r := fresh "r" in intros r; specialize (B r); unfold_balance; cbn in *; exact B.

Lemma zsum_one {A} (g : A -> Z) x : zsum g [x] = g x.
Proof. unfold zsum. lia. Qed.

(** Solves [balanced own' w'] from [B : balanced own w] where [w'] is [w] after assignments. *)
Ltac count B :=
  let r := fresh "r" in intros r; specialize (B r); unfold_balance; cbn in *;
  rewrite ?fmap_app, ?list_fmap_singleton, ?zsum_app, ?occ_app, ?zsum_one, ?occ_cons, ?occ_nil in *; lia.

Section resources.
Context (m_channelId : nat) (m_onNoSharedInputChannelAvailable : string).

Definition status_of (m : memory) (c : nat) : Z :=
  match chunk_at m_channelId c m with Ret x => k_status x | _ => 0 end.
Definition supply (r : resource) (w : world) : Z :=
  match r with RChunk c => status_of (w_memory w) c | _ => 0 end + supply_updates r (w_updates w).

Hint Unfold supply : balance.

(** All is in balance but for what the running code holds. *)
Definition balanced (own : resource -> Z) (w : world) : Prop :=
  forall r, supply r w = holders r w + own r.

(** The uses of a chunk other than that by the channel itself, as m_chunkId *)
Definition spare (w : world) (c : nat) : Z := status_of (w_memory w) c - occ (RChunk c) (res_current (m_chunkId w)).

Definition slowness_ok (s : string) : Prop := s = "drop"%string \/ s = "queueDrop"%string \/ s = "wait"%string.

Definition chunk_ok (x : chunk) : Prop := Forall settled (k_data x).
Definition memory_ok (m : memory) : Prop :=
  exists ch, m !! m_channelId = Some ch /\ Forall chunk_ok (ch_chunks ch).

(** What holds also while a function is running *)
Record sound (w : world) : Prop := {
  s_shared : unique_keys (m_registeredSharedInputs w);
  s_copy : unique_keys (m_registeredCopyInputs w);
  s_unblocks : unique_keys (m_unblockHandlers w);
  s_memory : memory_ok (w_memory w);
  s_pending : Forall (fun p => p_taken p = true -> p_local p = true) (w_pending w);
  s_completed : Forall (fun p => p_taken p = true -> p_local p = true) (w_completed w);
  s_slowness : Forall (fun p => slowness_ok (i_onSlowness p.2)) (m_registeredCopyInputs w);
  s_disjoint : disjoint_keys (m_registeredSharedInputs w) (m_registeredCopyInputs w);
  s_current : forall c, m_chunkId w = Some c -> status_of (w_memory w) c = 1;
  s_helloShared : Forall (enrolled (w_hellos w) Shared) (m_registeredSharedInputs w);
  s_helloCopy : Forall (enrolled (w_hellos w) Copy) (m_registeredCopyInputs w)
}.

(** *** What is delivered *)

Definition alike (x x' : chunk) : Prop :=
  k_eos x' = k_eos x /\ k_meta x' = k_meta x /\ contents <$> k_data x' = contents <$> k_data x.

(** A chunk that is in use has been so, with the same contents. *)
Definition keeps (m m' : memory) : Prop :=
  forall c x', chunk_at m_channelId c m' = Ret x' -> 0 < k_status x' ->
    exists x, chunk_at m_channelId c m = Ret x /\ 0 < k_status x /\ alike x x'.

(** A message with what an update is to send: to a local receiver it only names the chunk. *)
Definition says (local : bool) (c : nat) (eos : bool) (meta : list hash) (data : list bytes) (m : message) : Prop :=
  m_header m = (if eos || local then plain_header m_channelId local eos c
                else [mkNode "sourceInfo" [] (VVecHash meta)]) /\ contents <$> m_data m = (if eos || local then [] else data).

(** A chunk in use, other than the current one *)
Definition uses (w : world) (c : nat) (x : chunk) : Prop :=
  m_chunkId w <> Some c /\ chunk_at m_channelId c (w_memory w) = Ret x /\ 0 < k_status x.

(** The message is that of a chunk in use, in the form for the memory location that the receiver has
    registered with. *)
Definition faithful (hellos : list (input * nat * string)) (w : world) (s : sent) : Prop :=
  exists x location, uses w (s_chunk s) x /\ s_update s = default 0%nat (w_content w !! s_chunk s) /\
    (s_to s, s_tcp s, location) ∈ hellos /\
    says (String.eqb location "local") (s_chunk s) (k_eos x) (k_meta x) (contents <$> k_data x) (s_message s).

(** The write is that of the message. *)
Definition carries (hellos : list (input * nat * string)) (q : pending) (s : sent) : Prop :=
  (s_to s).2 = p_id q /\ s_chunk s = p_chunk q /\
  exists location, (s_to s, s_tcp s, location) ∈ hellos /\ p_local q = String.eqb location "local".

Record delivers (w w' : world) : Prop := {
  d_keeps : forall c x', uses w' c x' -> exists x, uses w c x /\ alike x x';
  d_content : w_content w' = w_content w;
  d_hellos : w_hellos w ⊆ w_hellos w';
  d_wire : exists l, w_wire w' = w_wire w ++ l /\ Forall (faithful (w_hellos w') w) l /\
    forall q, q ∈ w_pending w' -> p_taken q = false -> q ∈ w_pending w \/ exists s, s ∈ l /\ carries (w_hellos w') q s
}.

#[export] Instance alike_refl : Reflexive alike.
Proof. by repeat split. Qed.
#[export] Instance alike_trans : Transitive alike.
Proof. intros x y z (E1 & M1 & C1) (E2 & M2 & C2). repeat split; congruence. Qed.
#[export] Instance keeps_refl : Reflexive keeps.
Proof. intros m c x H Hs. by exists x. Qed.
#[export] Instance keeps_trans : Transitive keeps.
Proof.
  intros m1 m2 m3 K1 K2 c x H Hs. destruct (K2 c x H Hs) as (y & Hy & Hsy & A2).
  destruct (K1 c y Hy Hsy) as (z & Hz & Hsz & A1). exists z. split_and!; [done..|]. by etransitivity.
Qed.

Lemma says_alike local c x x' m : alike x x' ->
  says local c (k_eos x') (k_meta x') (contents <$> k_data x') m -> says local c (k_eos x) (k_meta x) (contents <$> k_data x) m.
Proof. by intros (-> & -> & ->). Qed.

Lemma faithful_back hellos w w' s : delivers w w' -> faithful hellos w' s -> faithful hellos w s.
Proof.
  intros [K Co _ _] (x & location & Hx & Hu & Hl & Hm). destruct (K _ x Hx) as (y & Hy & A).
  exists y, location. rewrite Co in *. split_and!; try done. by eapply says_alike.
Qed.
Lemma faithful_more hellos hellos' w s : hellos ⊆ hellos' -> faithful hellos w s -> faithful hellos' w s.
Proof. intros I (x & location & Hx & Hu & Hl & Hm). exists x, location. split_and!; auto. Qed.
Lemma carries_more hellos hellos' q s : hellos ⊆ hellos' -> carries hellos q s -> carries hellos' q s.
Proof. intros I (Hi & Hc & location & Hl & Hp). split_and!; [done..|]. exists location. auto. Qed.

#[export] Instance delivers_refl : Reflexive delivers.
Proof.
  intros w. constructor; [intros c x H; by exists x|done|done|]. exists []. rewrite app_nil_r.
  split_and!; [done|done|by left].
Qed.
#[export] Instance delivers_trans : Transitive delivers.
Proof.
  intros w1 w2 w3 H1 H2. pose proof (fun s => faithful_back (w_hellos w3) w1 w2 s H1) as Hb.
  destruct H1 as [K1 Co1 I1 (l1 & L1 & F1 & P1)], H2 as [K2 Co2 I2 (l2 & L2 & F2 & P2)].
  constructor; [|congruence|by etransitivity|].
  - intros c x H. destruct (K2 c x H) as (y & Hy & A2). destruct (K1 c y Hy) as (z & Hz & A1).
    exists z. split; [done|by etransitivity].
  - exists (l1 ++ l2). rewrite L2, L1, app_assoc. split_and!; [done| |].
    + apply Forall_app. split; [|exact (Forall_impl _ _ _ F2 Hb)].
      eapply Forall_impl; [exact F1|]. intros s. by apply faithful_more.
    + intros q Hq Ht. destruct (P2 q Hq Ht) as [Hq'|(s & Hs & C)].
      * destruct (P1 q Hq' Ht) as [?|(s & Hs & C)]; [by left|right]. exists s.
        split; [apply elem_of_app; by left|by eapply carries_more].
      * right. exists s. split; [apply elem_of_app; by right|done].
Qed.

Lemma delivers_same w w' :
  w_memory w' = w_memory w -> m_chunkId w' = m_chunkId w -> w_content w' = w_content w -> w_wire w' = w_wire w ->
  w_hellos w ⊆ w_hellos w' -> (forall q, q ∈ w_pending w' -> p_taken q = false -> q ∈ w_pending w) -> delivers w w'.
Proof.
  intros M C Co W I P. constructor; [|done|done|exists []; rewrite app_nil_r; split_and!; [done|done|by left; apply P]].
  intros c x. unfold uses. rewrite M, C. intros H. by exists x.
Qed.
Lemma delivers_memory m w : keeps (w_memory w) m -> delivers w (set_memory m w).
Proof.
  intros K. constructor; [|done|done|exists []; rewrite app_nil_r; split_and!; [done|done|by left]].
  intros c x (Hc & Hx & Hs). destruct (K c x Hx Hs) as (y & ? & ? & ?). by exists y.
Qed.

(** [n] more uses of every chunk can be counted. *)
Definition room (n : nat) (w : world) : Prop := forall c, status_of (w_memory w) c + Z.of_nat n < 2 ^ 31.

Record running (n : nat) (own : resource -> Z) (w : world) : Prop := {
  r_sound : sound w; r_balanced : balanced own w; r_room : room n w
}.

(** What sending leaves as it is: the entries of the inputs but for sendOngoing, the queues, the
    handlers, ... *)
Definition unmark (l : list (string * InputChannelInfo)) : list (string * InputChannelInfo) :=
  (fun p => (p.1, with_ongoing false p.2)) <$> l.

Record frame (w w' : world) : Prop := {
  f_shared : unmark (m_registeredSharedInputs w') = unmark (m_registeredSharedInputs w);
  f_copy : unmark (m_registeredCopyInputs w') = unmark (m_registeredCopyInputs w);
  f_sharedQueue : m_sharedLoadBalancedQueuedChunks w' = m_sharedLoadBalancedQueuedChunks w;
  f_unblockShared : m_unblockSharedHandler w' = m_unblockSharedHandler w;
  f_unblocks : m_unblockHandlers w' = m_unblockHandlers w;
  f_shareNext : m_shareNext w' = m_shareNext w;
  f_copyNext : m_copyNext w' = m_copyNext w;
  f_chunkId : m_chunkId w' = m_chunkId w;
  f_selector : m_sharedInputSelector w' = m_sharedInputSelector w;
  f_net : m_inputNetChannels w' = m_inputNetChannels w;
  f_alive : w_alive w' = w_alive w;
  f_open : w_open w' = w_open w;
  f_phase : w_phase w' = w_phase w;
  f_content : w_content w' = w_content w;
  f_local : w_local w' = w_local w;
  f_lost : w_lost w' = w_lost w
}.

#[export] Instance frame_refl : Reflexive frame.
Proof. by constructor. Qed.
#[export] Instance frame_trans : Transitive frame.
Proof. intros w1 w2 w3 [] []. constructor; congruence. Qed.

(** ** Counting *)

Lemma running_ext n own own' w : (forall r, own r = own' r) -> running n own w -> running n own' w.
Proof. intros E []. constructor; [done| |done]. intros r. rewrite <- E. auto. Qed.

Lemma supply_chunk own c w : balanced own w -> status_of (w_memory w) c = holders (RChunk c) w + own (RChunk c).
Proof. intros B. specialize (B (RChunk c)). unfold supply in B. cbn in B. lia. Qed.

(** ** The memory *)

Lemma status_ret m c : 0 < status_of m c -> exists x, chunk_at m_channelId c m = Ret x /\ k_status x = status_of m c.
Proof. unfold status_of. destruct (chunk_at m_channelId c m) as [x| | |]; [by exists x|lia..]. Qed.

Lemma memory_ok_chunk m c x : memory_ok m -> chunk_at m_channelId c m = Ret x -> chunk_ok x.
Proof.
  intros (ch & E & H) Hx. apply chunk_at_ret in Hx as (ch' & E' & Hx). rewrite E in E'. injection E' as <-.
  rewrite Forall_forall in H. apply H. by eapply list_elem_of_lookup_2.
Qed.

Lemma on_chunk_ok f c m x y :
  memory_ok m -> chunk_at m_channelId c m = Ret x -> f x = Ret y -> chunk_ok y ->
  exists m', on_chunk f m_channelId c m = Ret m' /\ memory_ok m' /\
    (forall c', status_of m' c' = status_of m c' + (k_status y - k_status x) * one c c') /\
    chunk_at m_channelId c m' = Ret y /\
    (forall c', c' <> c -> chunk_at m_channelId c' m' = chunk_at m_channelId c' m) /\
    ((0 < k_status y -> 0 < k_status x /\ alike x y) -> keeps m m').
Proof.
  intros (ch & E & H) Hx Hf Hy. destruct (on_chunk_intro f m_channelId c m x y Hx Hf) as (m' & Hm & Hc).
  assert (forall c', c' <> c -> chunk_at m_channelId c' m' = chunk_at m_channelId c' m) as Ho
    by (intros c' N; apply (on_chunk_other _ _ _ _ _ _ _ Hm); congruence).
  exists m'. split; [exact Hm|]. split; [|split; [|split; [done|split; [done|]]]].
  - apply on_chunk_ret in Hm as (ch' & x' & y' & E' & Hx' & Hf' & ->).
    rewrite E in E'. injection E' as <-. eexists. rewrite list_lookup_insert_eq by eauto using lookup_lt_Some.
    split; [done|]. cbn. apply Forall_insert; [done|].
    apply chunk_at_ret in Hx as (ch2 & E2 & Hx). rewrite E in E2. injection E2 as <-. congruence.
  - intros c'. unfold status_of. unfold one. case_decide as Ec; [subst c'|rewrite Ho by congruence; lia].
    rewrite Hc, Hx. lia.
  - intros Hk c' x' Hx' Hs'. destruct (decide (c' = c)) as [->|N].
    + rewrite Hc in Hx'. injection Hx' as <-. exists x. by destruct (Hk Hs').
    + rewrite Ho in Hx' by done. by exists x'.
Qed.

Lemma holders_memory r m w : holders r (set_memory m w) = holders r w.
Proof. unfold_balance. cbn. reflexivity. Qed.

Lemma sound_memory m w : sound w -> memory_ok m ->
  (forall c, m_chunkId w = Some c -> status_of m c = status_of (w_memory w) c) -> sound (set_memory m w).
Proof. intros [] Hm Hc. constructor; cbn; try done. intros c E. rewrite Hc; auto. Qed.

Lemma spare_status w c : 0 < spare w c -> 0 < status_of (w_memory w) c.
Proof. unfold spare. pose proof (occ_nonneg (RChunk c) (res_current (m_chunkId w))). lia. Qed.
Lemma spare_current w c : sound w -> 0 < spare w c -> m_chunkId w <> Some c.
Proof.
  intros S H E. unfold spare in H. rewrite (s_current _ S c E), E in H. cbn [res_current] in H.
  rewrite occ_cons, occ_nil, one_same in H. lia.
Qed.

(** A change of the memory by which the use of chunks changes by [d] *)
Lemma running_memory n n' own own' m w :
  running n own w -> memory_ok m ->
  (forall c, status_of m c = status_of (w_memory w) c + (own' (RChunk c) - own (RChunk c))) ->
  (forall r, (forall c, r <> RChunk c) -> own' r = own r) ->
  (forall c, own' (RChunk c) + Z.of_nat n' <= own (RChunk c) + Z.of_nat n) ->
  (forall c, m_chunkId w = Some c -> own' (RChunk c) = own (RChunk c)) ->
  running n' own' (set_memory m w).
Proof.
  intros [S B R] Hm Hst Ho Hn Hc. constructor.
  - apply sound_memory; [done|done|]. intros c E. rewrite Hst, (Hc c E). lia.
  - intros r. specialize (B r). unfold supply in *. cbn -[holders status_of] in *. rewrite holders_memory in *.
    destruct r; cbn -[holders status_of] in *; try (rewrite Ho by done; lia). rewrite Hst. lia.
  - intros c. cbn. rewrite Hst. specialize (R c). specialize (Hn c). lia.
Qed.

Lemma int_op_small z : - 2 ^ 31 <= z < 2 ^ 31 -> int_op z = Ret z.
Proof. intros. unfold int_op. destruct (Z.leb_spec (- 2 ^ 31) z); [|lia]. destruct (Z.ltb_spec z (2 ^ 31)); [done|lia]. Qed.

Lemma one_chunk c c' : one (RChunk c) (RChunk c') = one c c'.
Proof. unfold one. destruct (decide (c = c')) as [->|]; [by rewrite decide_True|]. rewrite decide_False; congruence. Qed.
Lemma one_comm `{EqDecision A} (x y : A) : one x y = one y x.
Proof. unfold one. repeat case_decide; congruence. Qed.

Lemma incrementUsage_spec n own c w :
  running (S n) own w -> 0 < spare w c ->
  exists m, incrementUsage m_channelId c w = Ret (set_memory m w) /\
    running n (gain [RChunk c] own) (set_memory m w) /\ keeps (w_memory w) m.
Proof.
  intros H Hsp. pose proof (spare_current _ _ (r_sound _ _ _ H) Hsp) as Hcur. pose proof (spare_status _ _ Hsp) as Hs.
  destruct (status_ret _ _ Hs) as (x & Hx & Es).
  assert (int_op (k_status x + 1) = Ret (k_status x + 1)) as Hi.
  { apply int_op_small. pose proof (r_room _ _ _ H c). lia. }
  destruct (on_chunk_ok (fun k => s ← int_op (k_status k + 1); Ret (with_status s k)) c (w_memory w) x (with_status (k_status x + 1) x))
    as (m & Hm & Ho & Hst & _ & _ & Hk); [apply H|done|by rewrite Hi|exact (memory_ok_chunk _ _ _ (s_memory _ (r_sound _ _ _ H)) Hx)|].
  exists m. unfold incrementUsage, on_memory, incrementChunkUsage. rewrite Hm. split; [done|].
  split; [|apply Hk; by split; [lia|]].
  apply (running_memory (S n) n own); [done|done| | | |].
  - intros c'. rewrite Hst. unfold gain. rewrite occ_cons, occ_nil, one_chunk, (one_comm c' c). cbn. lia.
  - intros r Hr. unfold gain. rewrite occ_cons, occ_nil, one_other by done. lia.
  - intros c'. unfold gain. rewrite occ_cons, occ_nil. unfold one. case_decide; lia.
  - intros c' E. unfold gain. rewrite occ_cons, occ_nil, one_other by congruence. lia.
Qed.

Lemma unregister_spec n own c w :
  running n own w -> 0 < spare w c ->
  exists m, unregisterWriterFromChunk m_channelId c w = Ret (set_memory m w) /\
    running n (spend [RChunk c] own) (set_memory m w) /\ keeps (w_memory w) m.
Proof.
  intros H Hsp. pose proof (spare_current _ _ (r_sound _ _ _ H) Hsp) as Hcur. pose proof (spare_status _ _ Hsp) as Hs.
  destruct (status_ret _ _ Hs) as (x & Hx & Es).
  assert (int_op (k_status x - 1) = Ret (k_status x - 1)) as Hi.
  { apply int_op_small. pose proof (r_room _ _ _ H c). lia. }
  set (k := with_status (k_status x - 1) x).
  destruct (on_chunk_ok released c (w_memory w) x (if k_status x - 1 =? 0 then cleared k else k))
    as (m & Hm & Ho & Hst & _ & _ & Hk); [apply H|done|unfold released; by rewrite Hi| |].
  { case_match; [by constructor|]. exact (memory_ok_chunk _ _ _ (s_memory _ (r_sound _ _ _ H)) Hx). }
  exists m. unfold unregisterWriterFromChunk, on_memory, decrementChunkUsage. rewrite Hm. split; [done|].
  split; [|apply Hk; destruct (Z.eqb_spec (k_status x - 1) 0); cbn; [lia|by split; [lia|]]].
  apply (running_memory n n own); [done|done| | | |].
  - intros c'. rewrite Hst. unfold spend. rewrite occ_cons, occ_nil, one_chunk, (one_comm c' c).
    replace (k_status (if k_status x - 1 =? 0 then cleared k else k)) with (k_status x - 1) by by case_match. lia.
  - intros r Hr. unfold spend. rewrite occ_cons, occ_nil, one_other by done. lia.
  - intros c'. unfold spend. rewrite occ_cons, occ_nil. unfold one. case_decide; lia.
  - intros c' E. unfold spend. rewrite occ_cons, occ_nil, one_other by congruence. lia.
Qed.

Lemma assure_spec n own c w :
  running n own w -> 0 < status_of (w_memory w) c ->
  exists m, on_memory (assureAllDataIsCopied m_channelId c) w = Ret (set_memory m w) /\
    running n own (set_memory m w) /\ keeps (w_memory w) m.
Proof.
  intros H Hs. destruct (status_ret _ _ Hs) as (x & Hx & Es).
  destruct (copied_spec x (memory_ok_chunk _ _ _ (s_memory _ (r_sound _ _ _ H)) Hx)) as (d & Hd & Hset & Hcont).
  destruct (on_chunk_ok copied c (w_memory w) x _ (s_memory _ (r_sound _ _ _ H)) Hx Hd Hset) as (m & Hm & Ho & Hst & _ & _ & Hk).
  exists m. unfold on_memory, assureAllDataIsCopied. rewrite Hm. split; [done|].
  split; [|apply Hk; split; [lia|by repeat split]].
  apply (running_memory n n own); [done|done| |done|lia|done].
  intros c'. rewrite Hst. cbn. lia.
Qed.

(** Releasing all chunks of a queue *)
Lemma unregister_all_spec n own l w :
  running n own w -> (forall c, occ c l <= spare w c) ->
  exists m, foldM (unregisterWriterFromChunk m_channelId) l w = Ret (set_memory m w) /\
    running n (spend (RChunk <$> l) own) (set_memory m w) /\ keeps (w_memory w) m.
Proof.
  revert own w. induction l as [|c l IH]; intros own w H Hl.
  - exists (w_memory w). split; [by destruct w|]. replace (set_memory (w_memory w) w) with w by by destruct w.
    split; [|done]. revert H. apply running_ext. intros r. unfold spend. cbn. lia.
  - assert (0 < spare w c) as Hs.
    { specialize (Hl c). rewrite occ_cons, one_same in Hl. pose proof (occ_nonneg c l). lia. }
    destruct (unregister_spec n own c w H Hs) as (m & E & H1 & K1).
    destruct (IH _ _ H1) as (m' & E' & H2 & K2).
    { intros c'. unfold spare in *. cbn [set_memory w_memory m_chunkId]. specialize (Hl c'). rewrite occ_cons in Hl.
      pose proof (supply_chunk _ c' _ (r_balanced _ _ _ H1)) as B1. pose proof (supply_chunk _ c' _ (r_balanced _ _ _ H)) as B.
      rewrite holders_memory in B1.
      unfold spend in B1. rewrite occ_cons, occ_nil, one_chunk in B1. cbn [set_memory w_memory] in B1. lia. }
    exists m'. cbn [foldM]. rewrite E. split; [exact E'|]. split; [|by etransitivity]. revert H2. apply running_ext.
    intros r. unfold spend. cbn [fmap list_fmap]. rewrite !occ_cons, occ_nil. lia.
Qed.

(** ** Sending *)

#[local] Arguments occ : simpl never.
#[local] Arguments zsum : simpl never.
#[local] Arguments msum : simpl never.
#[local] Arguments status_of : simpl never.
#[local] Arguments held_by_flags : simpl never.
#[local] Arguments supply_updates : simpl never.

Lemma unmark_ongoing b k l : unmark (malter (with_ongoing b) k l) = unmark l.
Proof. unfold unmark. induction l as [|[k' i] l IH]; [done|]. cbn. rewrite IH. by destruct (String.eqb k k'). Qed.

Lemma unmark_keys l l' : unmark l = unmark l' -> l.*1 = l'.*1.
Proof.
  intros E. assert (forall l, (unmark l).*1 = l.*1) as H by (intros l0; unfold unmark; rewrite <- list_fmap_compose; done).
  by rewrite <- H, E, H.
Qed.

Lemma unmark_find l l' k i : unmark l = unmark l' -> mfind k l = Some i ->
  exists b, mfind k l' = Some (with_ongoing b i).
Proof.
  revert l'. induction l as [|[k1 i1] l IH]; intros [|[k2 i2] l'] E H; try done. injection E as -> Ei E. cbn in *.
  destruct (String.eqb k k2); [|by apply IH]. injection H as ->. exists (i_sendOngoing i2). f_equal.
  destruct i, i2. cbn in *. unfold with_ongoing in *. cbn in *. congruence.
Qed.

Lemma ongoing_spec n own b p w : running n own w ->
  running n own (change_info (with_ongoing b) p w) /\ frame w (change_info (with_ongoing b) p w).
Proof.
  intros [S B R]. destruct p as [[] id]; unfold change_info, set_inputs, inputs; cbn; split.
  - constructor; [|intros r; specialize (B r); unfold_balance; cbn; by rewrite msum_malter_same|done].
    sound_after S.
  - constructor; cbn; try done. apply unmark_ongoing.
  - constructor; [|intros r; specialize (B r); unfold_balance; cbn; by rewrite msum_malter_same|done].
    sound_after S. by apply (malter_forall (fun i => slowness_ok (i_onSlowness i))).
  - constructor; cbn; try done. apply unmark_ongoing.
Qed.

(** What sending does not even change in the updates *)
Record quiet (w w' : world) : Prop := {
  q_updates : w_updates w' = w_updates w; q_log : w_log w' = w_log w;
  q_free : w_free w' = w_free w; q_signal : w_signal w' = w_signal w
}.

Lemma pending_spec n own (q : pending) s w : p_taken q = false -> running n own w ->
  running n (spend (RChunk (p_chunk q) :: res_done (p_done q)) own) (set_pending (w_pending w ++ [q]) (set_wire s w)).
Proof.
  intros Hq [S B R]. constructor; [|intros r; specialize (B r)|done].
  - sound_after S. apply Forall_app. split; [done|]. constructor; [congruence|done].
  - unfold_balance. cbn in *. rewrite zsum_app, zsum_one. unfold res_pending at 2. rewrite Hq, occ_app, !occ_cons, !occ_nil. lia.
Qed.

Lemma post_spec n own (l : list job) w : running n own w ->
  running n (spend (flat_map res_job l) own) (post l w).
Proof.
  intros [S B R]. constructor; [by destruct S|intros r; specialize (B r)|done].
  unfold_balance. cbn in *. rewrite zsum_app.
  assert (zsum (fun j => occ r (res_job j)) l = occ r (flat_map res_job l)) as ->; [|lia].
  induction l as [|j l IH]; [done|]. cbn [flat_map]. by rewrite occ_app, <- IH.
Qed.

Lemma enrolled_entry n own (p : input) info w : running n own w -> mfind p.2 (inputs p.1 w) = Some info ->
  (p, i_tcpChannel info, i_memoryLocation info) ∈ w_hellos w.
Proof.
  intros [S _ _] Hp. apply mfind_some in Hp. destruct p as [[] id]; cbn in Hp.
  - exact (proj1 (Forall_forall _ _) (s_helloShared _ S) _ Hp).
  - exact (proj1 (Forall_forall _ _) (s_helloCopy _ S) _ Hp).
Qed.

Lemma asyncSendOne_spec n own c p d info w :
  running n own w -> mfind p.2 (inputs p.1 w) = Some info -> 0 < spare w c ->
  exists w', asyncSendOne m_channelId c p d w = Ret w' /\ running n (spend (RChunk c :: res_done d) own) w' /\
    frame w w' /\ quiet w w' /\ delivers w w'.
Proof.
  intros H Hp Hsp. unfold asyncSendOne, info_at. rewrite Hp. cbn [mbind outcome_bind].
  pose proof (spare_current _ _ (r_sound _ _ _ H) Hsp) as Hcur. pose proof (spare_status _ _ Hsp) as Hs.
  destruct (status_ret _ _ Hs) as (x & Hx & Es). destruct (usable _ w).
  - unfold isEos, isEndOfStream. rewrite Hx. cbn [fmap outcome_fmap mbind outcome_bind].
    assert (exists data header, (if negb (k_eos x) && negb (is_local info)
      then readIntoBuffers [] m_channelId c (w_memory w)
      else Ret ([], plain_header m_channelId (is_local info) (k_eos x) c)) = Ret (data, header) /\
      says (is_local info) c (k_eos x) (k_meta x) (contents <$> k_data x) (mkMessage header data)) as (data & header & -> & Hsay).
    { unfold readIntoBuffers, says. rewrite Hx. destruct (k_eos x), (is_local info); cbn; eauto. }
    cbn [mbind outcome_bind]. destruct (ongoing_spec n own true p w H) as [H1 F1].
    eexists. split; [reflexivity|]. split;
      [exact (pending_spec n own (mkPending p.2 c (is_local info) d false) _ (change_info (with_ongoing true) p w) eq_refl H1)|].
    split; [etransitivity; [exact F1|by constructor]|]. split; [by destruct p as [[] ?]|].
    pose proof (enrolled_entry _ _ _ _ _ H Hp) as He.
    constructor; [|by destruct p as [[] ?]|by destruct p as [[] ?]|].
    { intros c' x' Hx'. exists x'. split; [|done]. by destruct p as [[] ?]. }
    eexists. split_and!; [destruct p as [[] ?]; reflexivity| |].
    + constructor; [|done]. exists x, (i_memoryLocation info).
      split_and!; [split_and!; [done|done|cbn; lia]|by destruct p as [[] ?]|by destruct p as [[] ?]|done].
    + intros q [Hq|Hq]%elem_of_app Ht; [left; by destruct p as [[] ?]|right]. apply list_elem_of_singleton in Hq as ->.
      eexists. split; [by apply list_elem_of_singleton|]. split_and!; [done|done|]. exists (i_memoryLocation info).
      split; [by destruct p as [[] ?]|done].
  - destruct (unregister_spec n own c w H Hsp) as (m & E & H1 & K1). rewrite E. eexists. split; [reflexivity|].
    split; [|split; [by constructor|split; [by constructor|]]].
    2:{ etransitivity; [by apply delivers_memory|by apply delivers_same]. }
    apply (post_spec _ _ [JDone d]) in H1. revert H1. apply running_ext.
    intros r. unfold spend. cbn. rewrite app_nil_r, !occ_cons, occ_nil. lia.
Qed.

(** ** Flags *)

#[local] Arguments open_flags : simpl never.
#[local] Arguments flag_open : simpl never.

Lemma open_flags_set l n : l !! n = Some false -> open_flags (<[n:=true]> l) = true \/ open_flags (<[n:=true]> l) = false.
Proof. destruct (open_flags _); auto. Qed.

Lemma open_flags_false l : open_flags l = false <-> forall n b, l !! n = Some b -> b = true.
Proof.
  unfold open_flags. induction l as [|b l IH]; cbn; [split; [done|done]|]. rewrite orb_false_iff, IH. split.
  - intros [Hb H] [|n] b' E; [injection E as <-; by destruct b|by apply (H n)].
  - intros H. split; [by rewrite (H O b eq_refl)|]. intros n b' E. by apply (H (S n)).
Qed.

Lemma open_flags_at l n : l !! n = Some false -> open_flags l = true.
Proof.
  intros E. destruct (open_flags l) eqn:H; [done|]. rewrite open_flags_false in H. by specialize (H n false E).
Qed.

Lemma forallb_open l : forallb id l = negb (open_flags l).
Proof. unfold open_flags. induction l as [|b l IH]; [done|]. cbn. rewrite IH. by destruct b. Qed.

Lemma flag_open_set l n m : l !! n = Some false -> flag_open (<[n:=true]> l) m = flag_open l m - (if decide (m = n) then 1 else 0).
Proof.
  intros E. unfold flag_open. case_decide as D.
  - subst m. rewrite list_lookup_insert_eq by eauto using lookup_lt_Some. by rewrite E.
  - rewrite list_lookup_insert_ne by congruence. lia.
Qed.

Lemma lookup_insert_cases {A} (l : list A) i x j : (i < length l)%nat ->
  <[i:=x]> l !! j = if decide (j = i) then Some x else l !! j.
Proof.
  intros. case_decide as D; [subst; by apply list_lookup_insert_eq|by apply list_lookup_insert_ne].
Qed.

(** Setting a flag of doneFlags *)
Lemma done_flag_counts ups u up n r :
  ups !! u = Some up -> u_doneFlags up !! n = Some false ->
  let up' := with_flags (<[n:=true]> (u_doneFlags up)) (u_blockFlags up) up in
  supply_updates r (<[u:=up']> ups) = supply_updates r ups - one r (RDone u n) /\
  held_by_flags r (<[u:=up']> ups) = held_by_flags r ups - (if open_flags (u_doneFlags up') then 0 else one r (RWriteDone u)).
Proof.
  intros Eu Ef up'. pose proof (lookup_lt_Some _ _ _ Eu) as Lu.
  assert (forall u' m, one (RDone u' m) (RDone u n) = if decide (u' = u) then if decide (m = n) then 1 else 0 else 0) as E1.
  { intros. unfold one. repeat case_decide; congruence. }
  assert (forall u', one (RWriteDone u') (RWriteDone u) = if decide (u' = u) then 1 else 0) as E2.
  { intros. unfold one. repeat case_decide; congruence. }
  unfold supply_updates, held_by_flags. rewrite !length_insert.
  destruct r as [c|u' m|u' m|u'|u']; rewrite ?lookup_insert_cases by done;
    rewrite ?E1, ?E2, ?(one_other _ (RDone u n)), ?(one_other _ (RWriteDone u)) by done.
  - repeat case_match; lia.
  - split; [|repeat case_match; lia]. case_decide; [subst|lia]. rewrite Eu. cbn. by apply flag_open_set.
  - split; [|repeat case_match; lia]. case_decide; [subst; rewrite Eu; cbn|]; lia.
  - split; [lia|]. case_decide; [subst; rewrite Eu; cbn|]; repeat case_match; lia.
  - split; [lia|]. case_decide; [subst|repeat case_match; lia].
    rewrite Eu, (open_flags_at _ _ Ef). change (u_doneFlags up') with (<[n:=true]> (u_doneFlags up)).
    repeat case_match; lia.
Qed.

(** ... and of blockFlags *)
Lemma block_flag_counts ups u up n r :
  ups !! u = Some up -> u_blockFlags up !! n = Some false ->
  let up' := with_flags (u_doneFlags up) (<[n:=true]> (u_blockFlags up)) up in
  supply_updates r (<[u:=up']> ups) = supply_updates r ups - one r (RBlock u n) /\
  held_by_flags r (<[u:=up']> ups) = held_by_flags r ups - (if open_flags (u_blockFlags up') then 0 else one r (RReady u)).
Proof.
  intros Eu Ef up'. pose proof (lookup_lt_Some _ _ _ Eu) as Lu.
  assert (forall u' m, one (RBlock u' m) (RBlock u n) = if decide (u' = u) then if decide (m = n) then 1 else 0 else 0) as E1.
  { intros. unfold one. repeat case_decide; congruence. }
  assert (forall u', one (RReady u') (RReady u) = if decide (u' = u) then 1 else 0) as E2.
  { intros. unfold one. repeat case_decide; congruence. }
  unfold supply_updates, held_by_flags. rewrite !length_insert.
  destruct r as [c|u' m|u' m|u'|u']; rewrite ?lookup_insert_cases by done;
    rewrite ?E1, ?E2, ?(one_other _ (RBlock u n)), ?(one_other _ (RReady u)) by done.
  - repeat case_match; lia.
  - split; [|repeat case_match; lia]. case_decide; [subst; rewrite Eu; cbn|]; lia.
  - split; [|repeat case_match; lia]. case_decide; [subst|lia]. rewrite Eu. cbn. by apply flag_open_set.
  - split; [lia|]. case_decide; [subst|repeat case_match; lia].
    rewrite Eu, (open_flags_at _ _ Ef). change (u_blockFlags up') with (<[n:=true]> (u_blockFlags up)).
    repeat case_match; lia.
  - split; [lia|]. case_decide; [subst; rewrite Eu; cbn|]; repeat case_match; lia.
Qed.

(** An update on its way: what it was to do stays, flags are only set. *)
Record evolve (up up' : update) : Prop := {
  e_final : u_final up' = u_final up; e_eos : u_eos up' = u_eos up; e_meta : u_meta up' = u_meta up; e_data : u_data up' = u_data up;
  e_done : length (u_doneFlags up') = length (u_doneFlags up);
  e_block : length (u_blockFlags up') = length (u_blockFlags up)
}.
Definition evolves (ups ups' : list update) : Prop := Forall2 evolve ups ups'.

#[export] Instance evolve_refl : Reflexive evolve.
Proof. by constructor. Qed.
#[export] Instance evolve_trans : Transitive evolve.
Proof. intros x y z [] []. constructor; congruence. Qed.

#[export] Instance evolves_refl : Reflexive evolves.
Proof. unfold evolves. intros l. reflexivity. Qed.
#[export] Instance evolves_trans : Transitive evolves.
Proof. unfold evolves. intros l1 l2 l3. apply transitivity. Qed.

Lemma evolves_length ups ups' : evolves ups ups' -> length ups' = length ups.
Proof. intros H. symmetry. by eapply Forall2_length. Qed.

Lemma evolves_set ups u up up' : ups !! u = Some up -> evolve up up' -> evolves ups (<[u:=up']> ups).
Proof.
  intros E H. rewrite insert_take_drop by eauto using lookup_lt_Some. unfold evolves.
  rewrite <- (take_drop_middle ups u up E) at 1. apply Forall2_app; [reflexivity|]. constructor; [done|reflexivity].
Qed.

Lemma held_flags own r w : balanced own w -> 0 < holders r w + own r -> 0 < supply r w.
Proof. intros B H. specialize (B r). lia. Qed.

Lemma set_flag_at l n : l !! n = Some false -> set_flag n l = Ret (<[n:=true]> l).
Proof.
  intros E. unfold set_flag. apply lookup_lt_Some in E. by destruct (Nat.ltb_spec n (length l)); [|lia].
Qed.

Lemma supply_done_flag u n w : 0 < supply (RDone u n) w ->
  exists up, w_updates w !! u = Some up /\ u_doneFlags up !! n = Some false.
Proof.
  unfold supply, supply_updates, flag_open. destruct (w_updates w !! u) as [up|]; intros H; [|lia].
  exists up. split; [done|]. by destruct (u_doneFlags up !! n) as [[]|].
Qed.
Lemma supply_block_flag u n w : 0 < supply (RBlock u n) w ->
  exists up, w_updates w !! u = Some up /\ u_blockFlags up !! n = Some false.
Proof.
  unfold supply, supply_updates, flag_open. destruct (w_updates w !! u) as [up|]; intros H; [|lia].
  exists up. split; [done|]. by destruct (u_blockFlags up !! n) as [[]|].
Qed.

(** Assignments that change nothing that is counted *)
Lemma sound_updates ups w : sound w -> sound (set_updates ups w).
Proof. intros []. by constructor. Qed.
Lemma running_free n own b w : running n own w -> running n own (set_free b w).
Proof. intros [S B R]. constructor; [by destruct S; constructor|same B|exact R]. Qed.
Lemma running_signal n own b w : running n own w -> running n own (set_signal b w).
Proof. intros [S B R]. constructor; [by destruct S; constructor|same B|exact R]. Qed.
Lemma running_log n own e w : running n own w ->
  running n (spend [res_event e] own) (set_log (w_log w ++ [e]) w).
Proof. intros [S B R]. constructor; [by destruct S; constructor| |exact R]. count B. Qed.

Lemma call_ready_spec n own u w : running n own w -> running n (spend [RReady u] own) (call_ready u w).
Proof. intros H. unfold call_ready. apply (running_log n own (EReady u)) in H. case_match; [by apply running_free|done]. Qed.

(** The handler of a write *)
Lemma singleWriteDone_spec n own u m w :
  running n own w -> 0 < supply (RDone u m) w ->
  exists w' up, singleWriteDone u m w = Ret w' /\ running n (spend [RDone u m] own) w' /\
    w_updates w !! u = Some up /\
    let up' := with_flags (<[m:=true]> (u_doneFlags up)) (u_blockFlags up) up in
    let w1 := set_updates (<[u:=up']> (w_updates w)) w in
    (if open_flags (u_doneFlags up') then w' = w1 else call_writeDone u w1 = Ret w').
Proof.
  intros H Hs. destruct (supply_done_flag _ _ _ Hs) as (up & Eu & Ef).
  set (up' := with_flags (<[m:=true]> (u_doneFlags up)) (u_blockFlags up) up).
  set (w1 := set_updates (<[u:=up']> (w_updates w)) w).
  assert (singleWriteDone u m w = if open_flags (u_doneFlags up') then Ret w1 else call_writeDone u w1) as E.
  { unfold singleWriteDone, on_update. rewrite Eu, (set_flag_at _ _ Ef). cbn [mbind outcome_bind].
    rewrite forallb_open. by destruct (open_flags _). }
  assert (forall r, supply r w1 = supply r w - one r (RDone u m) /\
    holders r w1 = holders r w - (if open_flags (u_doneFlags up') then 0 else one r (RWriteDone u))) as C.
  { intros r. destruct (done_flag_counts _ _ _ _ r Eu Ef) as [C1 C2]. unfold_balance. cbn in *. fold up' in C1, C2.
    rewrite C1, C2. lia. }
  rewrite E. clear E. destruct H as [S B R]. destruct (open_flags (u_doneFlags up')) eqn:Eo.
  - exists w1, up. split; [done|]. split; [|split; [done|]; cbv zeta; fold up'; fold w1; by rewrite Eo]. constructor; [by apply sound_updates| |exact R].
    intros r. specialize (B r). specialize (C r). unfold spend. rewrite occ_cons, occ_nil. lia.
  - assert (running n (gain [RWriteDone u] (spend [RDone u m] own)) w1) as H1.
    { constructor; [by apply sound_updates| |exact R].
      intros r. specialize (B r). specialize (C r). unfold spend, gain. rewrite !occ_cons, !occ_nil. lia. }
    apply (running_log _ _ (EWriteDone u)) in H1.
    assert (w_updates w1 !! u = Some up') as Eu' by (apply list_lookup_insert_eq; eauto using lookup_lt_Some).
    unfold call_writeDone. rewrite Eu'. eexists _, up. split; [reflexivity|].
    split; [|split; [done|]; cbv zeta; fold up'; fold w1; rewrite Eo; by rewrite Eu'].
    apply (running_ext _ _ (spend [RDone u m] own)) in H1;
      [|intros r; unfold spend, gain; rewrite !occ_cons, !occ_nil; cbn; lia].
    repeat case_match; by repeat first [apply running_signal|apply running_free].
Qed.

(** ** The trigger of a blocked input *)

Record triggers (w w' : world) : Prop := {
  t_frame : frame w w';
  t_delivers : delivers w w';
  t_updates : evolves (w_updates w) (w_updates w');
  t_signal : w_signal w' = w_signal w;
  t_log : w_log w' = w_log w \/ exists u, w_log w' = w_log w ++ [EReady u];
  t_free : w_free w' = w_free w \/ w_free w' = true /\ exists u, S u = length (w_updates w') /\ EReady u ∈ w_log w'
}.

Lemma call_ready_free u w : frame w (call_ready u w) /\ w_updates (call_ready u w) = w_updates w /\
  w_signal (call_ready u w) = w_signal w /\ w_log (call_ready u w) = w_log w ++ [EReady u] /\
  (w_free (call_ready u w) = w_free w \/ w_free (call_ready u w) = true /\ S u = length (w_updates w)).
Proof.
  unfold call_ready, is_last. cbn -[Nat.eqb]. destruct (Nat.eqb_spec (S u) (length (w_updates w))); split_and!; auto; by constructor.
Qed.

Lemma singleUnblockTrigger_spec n own b p info w :
  running n own w -> mfind p.2 (inputs p.1 w) = Some info -> 0 < spare w (b_chunk b) ->
  0 < supply (RBlock (b_update b) (b_block b)) w ->
  exists w', singleUnblockTrigger m_channelId b p w = Ret w' /\ running n (spend (res_unblock b) own) w' /\ triggers w w'.
Proof.
  intros H Hp Hs Hb. unfold singleUnblockTrigger, info_at. rewrite Hp. cbn [mbind outcome_bind].
  assert (exists m, (if b_copyIfLocal b && is_local info then on_memory (assureAllDataIsCopied m_channelId (b_chunk b)) w
      else Ret w) = Ret (set_memory m w) /\ running n own (set_memory m w) /\ keeps (w_memory w) m) as (m & -> & H1 & K1).
  { destruct (_ && _); [apply assure_spec; [done|by apply spare_status]|]. exists (w_memory w). by destruct w. }
  cbn [mbind outcome_bind].
  assert (0 < spare (set_memory m w) (b_chunk b)) as Hs1.
  { unfold spare in *. rewrite (supply_chunk _ _ _ (r_balanced _ _ _ H1)). by rewrite (supply_chunk _ _ _ (r_balanced _ _ _ H)) in Hs. }
  destruct (asyncSendOne_spec n own (b_chunk b) p (SingleWriteDone (b_update b) (b_all b)) info (set_memory m w))
    as (w2 & -> & H2 & F & Q & D2); [done|by destruct p as [[] ?]|done|].
  assert (delivers w w2) as D by (etransitivity; [by apply delivers_memory|exact D2]).
  cbn [mbind outcome_bind].
  assert (0 < supply (RBlock (b_update b) (b_block b)) w2) as Hb2.
  { unfold supply in *. by rewrite (q_updates _ _ Q). }
  destruct (supply_block_flag _ _ _ Hb2) as (up & Eu & Ef).
  set (up' := with_flags (u_doneFlags up) (<[b_block b:=true]> (u_blockFlags up)) up).
  set (w3 := set_updates (<[b_update b:=up']> (w_updates w2)) w2).
  unfold on_update. rewrite Eu, (set_flag_at _ _ Ef). cbn [mbind outcome_bind]. fold up'. fold w3.
  rewrite forallb_open. change (u_blockFlags up') with (<[b_block b:=true]> (u_blockFlags up)).
  assert (evolve up up') as Ev by (constructor; cbn; rewrite ?length_insert; auto).
  assert (evolves (w_updates w) (w_updates w3)) as Evs.
  { change (w_updates w) with (w_updates (set_memory m w)). rewrite <- (q_updates _ _ Q). by apply (evolves_set _ _ up). }
  assert (frame w w3) as F3 by (etransitivity; [|etransitivity; [exact F|]]; by constructor).
  assert (w_updates w3 !! b_update b = Some up') as Eu3 by (apply list_lookup_insert_eq; eauto using lookup_lt_Some).
  assert (forall r, supply r w3 = supply r w2 - one r (RBlock (b_update b) (b_block b)) /\
    holders r w3 = holders r w2 - (if open_flags (u_blockFlags up') then 0 else one r (RReady (b_update b)))) as C.
  { intros r. destruct (block_flag_counts _ _ _ _ r Eu Ef) as [C1 C2]. unfold_balance. cbn in *. fold up' in C1, C2.
    rewrite C1, C2. lia. }
  destruct H2 as [S2 B2 R2]. change (u_blockFlags up') with (<[b_block b:=true]> (u_blockFlags up)) in C.
  destruct (open_flags (<[b_block b:=true]> (u_blockFlags up))) eqn:Eo.
  - exists w3. split; [done|]. split.
    + constructor; [by apply sound_updates| |exact R2].
      intros r. specialize (B2 r). specialize (C r). unfold spend, res_unblock in *. cbn [res_done] in *. rewrite !occ_cons, !occ_nil in *. lia.
    + constructor; [done|etransitivity; [exact D|by apply delivers_same]|done|apply (q_signal _ _ Q)|left; apply (q_log _ _ Q)|left; apply (q_free _ _ Q)].
  - exists (call_ready (b_update b) w3). split; [done|]. split.
    + apply (running_ext _ (spend [RReady (b_update b)] (gain [RReady (b_update b)] (spend (res_unblock b) own))));
        [intros r; unfold spend, gain; lia|].
      apply call_ready_spec. constructor; [by apply sound_updates| |exact R2].
      intros r. specialize (B2 r). specialize (C r). unfold spend, gain, res_unblock in *. cbn [res_done] in *. rewrite !occ_cons, !occ_nil in *. lia.
    + destruct (call_ready_free (b_update b) w3) as (Fc & Uc & Sc & Lc & Frc).
      constructor; [by etransitivity|etransitivity; [exact D|unfold call_ready; case_match; by apply delivers_same]|by rewrite Uc|rewrite Sc; apply (q_signal _ _ Q)| |].
      * right. exists (b_update b). rewrite Lc. f_equal. apply (q_log _ _ Q).
      * destruct Frc as [->|[Et El]]; [left; apply (q_free _ _ Q)|right]. split; [done|]. exists (b_update b). rewrite Uc, Lc. split; [done|].
        apply elem_of_app. right. by left.
Qed.

(** ** Serving inputs *)

Definition blocks (w : world) : list unblock := option_list (m_unblockSharedHandler w) ++ (m_unblockHandlers w).*2.

(** What the functions that serve inputs do to the rest of the state *)
Record serves (w w' : world) : Prop := {
  v_phase : w_phase w' = w_phase w;
  v_chunkId : m_chunkId w' = m_chunkId w;
  v_delivers : delivers w w';
  v_updates : evolves (w_updates w) (w_updates w');
  v_signal : w_signal w' = w_signal w;
  v_log : exists l, w_log w' = w_log w ++ l;
  v_free : w_free w' = w_free w \/ w_free w' = true /\ exists u, S u = length (w_updates w') /\ EReady u ∈ w_log w';
  v_lost : w_lost w' = w_lost w;
  v_blocks : forall b, b ∈ blocks w' -> b ∈ blocks w
}.

#[export] Instance serves_refl : Reflexive serves.
Proof. intros w. constructor; [done|done|reflexivity|reflexivity|done|exists []; by rewrite app_nil_r|by left|done|done]. Qed.
#[export] Instance serves_trans : Transitive serves.
Proof.
  intros w1 w2 w3 H1 H2. pose proof (v_updates _ _ H2) as E2. destruct H1 as [P1 C1 D1 E1 S1 (l1 & L1) F1 X1 B1], H2 as [P2 C2 D2 _ S2 (l2 & L2) F2 X2 B2].
  constructor; [congruence|congruence|etransitivity; eassumption|etransitivity; eassumption|congruence| | |congruence|auto].
  - exists (l1 ++ l2). by rewrite L2, L1, app_assoc.
  - destruct F2 as [F2|F2]; [|by right]. destruct F1 as [F1|(Ft & u & Eu & Hu)]; [left; congruence|right].
    split; [congruence|]. exists u. rewrite (evolves_length _ _ E2), L2, elem_of_app. auto.
Qed.

Lemma serves_same w w' :
  w_phase w' = w_phase w -> m_chunkId w' = m_chunkId w -> delivers w w' -> w_updates w' = w_updates w -> w_signal w' = w_signal w ->
  w_log w' = w_log w -> w_free w' = w_free w -> w_lost w' = w_lost w -> (forall b, b ∈ blocks w' -> b ∈ blocks w) -> serves w w'.
Proof.
  intros P C D U S L F X B. constructor; [done|done|done|rewrite U; reflexivity|done| |by left|done|done].
  exists []. by rewrite L, app_nil_r.
Qed.

Lemma frame_blocks w w' : frame w w' -> blocks w' = blocks w.
Proof. intros []. unfold blocks. congruence. Qed.

Lemma serves_sends w w' : frame w w' -> quiet w w' -> delivers w w' -> serves w w'.
Proof. intros F Q D. pose proof (frame_blocks _ _ F) as E. pose proof (f_chunkId _ _ F). destruct F, Q. apply serves_same; try done. intros b. by rewrite E. Qed.

Lemma serves_triggers w w' : triggers w w' -> serves w w'.
Proof.
  intros [F D U S L Fr]. pose proof (frame_blocks _ _ F) as E. constructor; try apply F; try done.
  - destruct L as [->|(u & ->)]; [exists []; by rewrite app_nil_r|by eexists].
  - intros b. by rewrite E.
Qed.

Lemma serves_memory m w : keeps (w_memory w) m -> serves w (set_memory m w).
Proof. intros K. apply serves_same; try done. by apply delivers_memory. Qed.

(** Assignments to members that are not listed above *)
Ltac serves_by_assignment := apply serves_same; [done|done|by apply delivers_same|done..|try done].

Lemma serves_change f p w : serves w (change_info f p w).
Proof. destruct p as [[] id]; serves_by_assignment. Qed.

Lemma running_less n n' own w : (n' <= n)%nat -> running n own w -> running n' own w.
Proof. intros L [S B R]. constructor; [done|done|]. intros c. specialize (R c). lia. Qed.

Lemma running_weaken k n own w : running (k + n) own w -> running n own w.
Proof. apply running_less. lia. Qed.

(** A handler is called and removed. *)
Lemma unblock_facts n w b : running n nothing w -> b ∈ blocks w ->
  forall r, r ∈ res_unblock b -> occ r (res_current (m_chunkId w)) < supply r w.
Proof.
  intros [S B R] Hb. assert (forall r, r ∈ res_unblock b -> occ r (res_current (m_chunkId w)) + 1 <= holders r w) as H.
  { intros r Hr. apply occ_elem in Hr. unfold_balance. holder_parts r w.
    unfold blocks in Hb. apply elem_of_app in Hb as [Hb|Hb].
    - destruct (m_unblockSharedHandler w) as [b'|]; cbn in Hb; [|inversion Hb].
      apply list_elem_of_singleton in Hb as ->. cbn [res_unblockShared] in *. lia.
    - apply list_elem_of_fmap in Hb as ([k b'] & -> & Hb).
      pose proof (zsum_elem (fun p : string * unblock => occ r (res_unblock p.2)) _ _ (fun p => occ_nonneg r _) Hb) as Hz.
      unfold msum in *. cbn in *. lia. }
  intros r Hr. specialize (H r Hr). specialize (B r). unfold nothing in B. lia.
Qed.

Lemma erase_unblock n own id b w :
  running n (spend (res_unblock b) own) w -> mfind id (m_unblockHandlers w) = Some b ->
  running n own (set_unblocks (merase id (m_unblockHandlers w)) w).
Proof.
  intros [S B R] E. constructor; [sound_after S| |done].
  intros r. specialize (B r). unfold_balance. cbn in *. rewrite (msum_merase _ _ _ _ (s_unblocks _ S) E). lia.
Qed.

Lemma erase_unblockShared n own b w :
  running n (spend (res_unblock b) own) w -> m_unblockSharedHandler w = Some b ->
  running n own (set_unblockShared None w).
Proof.
  intros [S B R] E. constructor; [by destruct S; constructor| |done].
  intros r. specialize (B r). unfold_balance. cbn in *. rewrite E in B. cbn in B. rewrite occ_nil. lia.
Qed.

(** ** Queues *)

Lemma mfind_value {V} (P : V -> Prop) k v (l : list (string * V)) : Forall (fun p => P p.2) l -> mfind k l = Some v -> P v.
Proof. intros H E. apply mfind_some in E. rewrite Forall_forall in H. exact (H _ E). Qed.

(** A change of the queue of an input *)
Definition same_terms (i i' : InputChannelInfo) : Prop :=
  i_onSlowness i' = i_onSlowness i /\ i_tcpChannel i' = i_tcpChannel i /\ i_memoryLocation i' = i_memoryLocation i.

Lemma enrolled_terms hellos d f k l : (forall i, same_terms i (f i)) ->
  Forall (enrolled hellos d) l -> Forall (enrolled hellos d) (malter f k l).
Proof.
  intros Hf. apply malter_forall_key. intros k' i. unfold enrolled. cbn. by destruct (Hf i) as (_ & -> & ->).
Qed.

Lemma change_queue n own f p info w :
  (forall i, same_terms i (f i)) ->
  running n own w -> mfind p.2 (inputs p.1 w) = Some info ->
  running n (fun r => own r + occ r (res_queue info) - occ r (res_queue (f info))) (change_info f p w).
Proof.
  intros Hf [S B R] Hp. destruct p as [[] id]; cbn in Hp; unfold change_info, set_inputs, inputs; cbn.
  - constructor; [|intros r; specialize (B r); unfold_balance; cbn|done].
    + sound_after S; by apply enrolled_terms.
    + rewrite (msum_malter _ _ _ _ _ (s_shared _ S) Hp). lia.
  - constructor; [|intros r; specialize (B r); unfold_balance; cbn|done].
    + sound_after S; [|by apply enrolled_terms].
      apply (malter_forall (fun i => slowness_ok (i_onSlowness i))); [|done]. intros v. by destruct (Hf v) as (-> & _).
    + rewrite (msum_malter _ _ _ _ _ (s_copy _ S) Hp). lia.
Qed.

Lemma queued_status n c p info w : running n nothing w -> mfind p.2 (inputs p.1 w) = Some info ->
  occ c (i_queuedChunks info) <= spare w c.
Proof.
  intros [S B R] Hp. unfold spare. rewrite (supply_chunk _ _ _ B). unfold_balance. holder_parts (RChunk c) w.
  assert (occ (RChunk c) (res_queue info) = occ c (i_queuedChunks info)) as <- by (apply occ_map_inj; congruence).
  destruct p as [[] id]; cbn in Hp; apply (msum_find (fun i => occ (RChunk c) (res_queue i))) in Hp;
    try (intros; apply occ_nonneg); lia.
Qed.

Lemma sharedQueue_status n c w : running n nothing w ->
  occ c (m_sharedLoadBalancedQueuedChunks w) <= spare w c.
Proof.
  intros [S B R]. unfold spare. rewrite (supply_chunk _ _ _ B). unfold_balance. holder_parts (RChunk c) w.
  assert (occ (RChunk c) (RChunk <$> m_sharedLoadBalancedQueuedChunks w) = occ c (m_sharedLoadBalancedQueuedChunks w)) as <-
    by (apply occ_map_inj; congruence).
  lia.
Qed.

Lemma cons_status (c : nat) q s : (occ c (c :: q) <= s) -> 0 < s.
Proof. rewrite occ_cons, one_same. pose proof (occ_nonneg c q). lia. Qed.

(** A frame keeps the entries of the inputs but for sendOngoing. *)
Lemma frame_input w w' p info : frame w w' -> mfind p.2 (inputs p.1 w) = Some info ->
  exists b, mfind p.2 (inputs p.1 w') = Some (with_ongoing b info).
Proof. intros F. destruct p as [[] id]; cbn; apply unmark_find; symmetry; apply F. Qed.

Lemma send_queued_spec n p info w :
  running n nothing w -> mfind p.2 (inputs p.1 w) = Some info -> i_queuedChunks info <> [] ->
  exists w', send_queued m_channelId p info w = Ret w' /\ running n nothing w' /\ serves w w'.
Proof.
  intros H Hp Hq. unfold send_queued. destruct (i_queuedChunks info) as [|c q] eqn:Eq; [done|].
  assert (0 < spare w c) as Hs.
  { apply (cons_status c q). rewrite <- Eq. by apply (queued_status n c p info). }
  destruct (asyncSendOne_spec n nothing c p LogOnly info w H Hp Hs) as (w1 & -> & H1 & F & Q & D).
  cbn [mbind outcome_bind]. destruct (frame_input _ _ _ _ F Hp) as (b & Hp1).
  eexists. split; [reflexivity|]. split.
  - apply (change_queue n _ (fun i => with_queue q i) p (with_ongoing b info) w1 (fun i => conj eq_refl (conj eq_refl eq_refl))) in H1; [|done].
    revert H1. apply running_ext. intros r. unfold spend, nothing, res_queue. cbn. rewrite Eq. cbn.
    rewrite !occ_cons, occ_nil. lia.
  - etransitivity; [by apply serves_sends|apply serves_change].
Qed.

(** ** onInputAvailable *)

Lemma copy_eos_spec n c id ids w :
  running (length ids + n) nothing w -> c ∈ m_sharedLoadBalancedQueuedChunks w ->
  (forall id2, id2 ∈ ids -> id2 ∈ (m_registeredSharedInputs w).*1) ->
  exists w', foldM (fun id2 => copy_eos m_channelId c id id2) ids w = Ret w' /\ running n nothing w' /\
    (m_registeredSharedInputs w').*1 = (m_registeredSharedInputs w).*1 /\
    m_sharedLoadBalancedQueuedChunks w' = m_sharedLoadBalancedQueuedChunks w /\ serves w w'.
Proof.
  revert w. induction ids as [|id2 ids IH]; intros w H Hc Hk; [by exists w|]. cbn [foldM].
  destruct (String.eqb_spec id2 id) as [->|N].
  { replace (copy_eos m_channelId c id id w) with (Ret w) by (unfold copy_eos; by rewrite String.eqb_refl).
    apply IH; [apply (running_less (length (id :: ids) + n)); [cbn; lia|done]|done|intros; apply Hk; by right]. }
  destruct (mfind id2 (m_registeredSharedInputs w)) as [info|] eqn:E;
    [|apply mfind_none in E; destruct E; apply Hk; by left].
  pose (f := fun i => with_queue (i_queuedChunks i ++ [c]) i).
  pose proof (change_queue _ _ f (Shared, id2) info w (fun i => conj eq_refl (conj eq_refl eq_refl)) H E) as H1.
  assert (0 < spare (change_info f (Shared, id2) w) c) as Hs.
  { pose proof (sharedQueue_status _ c w H) as L. apply occ_elem in Hc. unfold change_info, spare in *. cbn in *. lia. }
  destruct (incrementUsage_spec _ _ c _ H1 Hs) as (m & Em & H2 & K2).
  replace (copy_eos m_channelId c id id2 w) with (Ret (set_memory m (change_info f (Shared, id2) w)))
    by (unfold copy_eos; rewrite <- Em; by destruct (String.eqb_spec id2 id)).
  cbn [mbind outcome_bind].
  destruct (IH (set_memory m (change_info f (Shared, id2) w))) as (w' & E' & H' & K' & Q' & V').
  - revert H2. apply running_ext. intros r. unfold gain, nothing, res_queue, f. cbn.
    rewrite fmap_app, occ_app, list_fmap_singleton, !occ_cons, occ_nil. lia.
  - done.
  - intros id3 H3. cbn. rewrite malter_keys. apply Hk. by right.
  - exists w'. split; [exact E'|]. split; [done|]. cbn in K'. rewrite malter_keys in K'. split; [done|]. split; [done|].
    etransitivity; [|exact V']. etransitivity; [apply serves_change|]. by apply serves_memory.
Qed.

(** What is in a handler can be used. *)
Definition ready_block (w : world) (b : unblock) : Prop :=
  0 < spare w (b_chunk b) /\ 0 < supply (RBlock (b_update b) (b_block b)) w.
Lemma block_ready w b :
  (forall r, r ∈ res_unblock b -> occ r (res_current (m_chunkId w)) < supply r w) -> ready_block w b.
Proof.
  intros H. split.
  - specialize (H (RChunk (b_chunk b)) ltac:(by left)). unfold spare, supply, supply_updates in *. lia.
  - specialize (H (RBlock (b_update b) (b_block b)) ltac:(right; by left)).
    pose proof (occ_nonneg (RBlock (b_update b) (b_block b)) (res_current (m_chunkId w))). lia.
Qed.

Lemma trigger_block n b p info w :
  running n nothing w -> b ∈ blocks w -> mfind p.2 (inputs p.1 w) = Some info ->
  exists w', singleUnblockTrigger m_channelId b p w = Ret w' /\ running n (spend (res_unblock b) nothing) w' /\ triggers w w'.
Proof.
  intros H Hb Hp. destruct (block_ready _ _ (unblock_facts n w b H Hb)). by apply (singleUnblockTrigger_spec _ _ _ _ info).
Qed.

(** The call of a handler and its removal *)
Lemma unblock_one n p info b w :
  running n nothing w -> mfind p.2 (inputs p.1 w) = Some info -> mfind p.2 (m_unblockHandlers w) = Some b ->
  exists w', singleUnblockTrigger m_channelId b p w = Ret w' /\
    running n nothing (set_unblocks (merase p.2 (m_unblockHandlers w')) w') /\
    serves w (set_unblocks (merase p.2 (m_unblockHandlers w')) w') /\ frame w w'.
Proof.
  intros H Hp Eb. assert (b ∈ blocks w) as Hb.
  { unfold blocks. apply elem_of_app. right. apply mfind_some in Eb. by apply (list_elem_of_fmap_2 snd) in Eb. }
  destruct (trigger_block n b p info w H Hb Hp) as (w1 & E & H1 & T).
  pose proof (t_frame _ _ T) as F. exists w1. split; [done|]. split; [|split; [|exact F]].
  - apply (erase_unblock _ _ _ b); [done|]. by rewrite (f_unblocks _ _ F).
  - etransitivity; [by apply serves_triggers|]. serves_by_assignment.
    intros b'. unfold blocks. cbn. rewrite !elem_of_app. intros [Hb'|Hb']; [by left|right].
    apply list_elem_of_fmap in Hb' as (x & -> & Hx). apply merase_elem in Hx as [Hx _]. by apply (list_elem_of_fmap_2 snd).
Qed.

Lemma unblock_shared n own p info b w :
  running n own w -> ready_block w b ->
  mfind p.2 (inputs p.1 w) = Some info -> m_unblockSharedHandler w = Some b ->
  exists w', singleUnblockTrigger m_channelId b p w = Ret w' /\
    running n own (set_unblockShared None w') /\ serves w (set_unblockShared None w') /\ frame w w'.
Proof.
  intros H [Hs Hr] Hp Eb.
  destruct (singleUnblockTrigger_spec n own b p info w H Hp Hs Hr) as (w1 & E & H1 & T).
  pose proof (t_frame _ _ T) as F. exists w1. split; [done|]. split; [|split; [|exact F]].
  - apply (erase_unblockShared _ _ b); [done|]. by rewrite (f_unblockShared _ _ F).
  - etransitivity; [by apply serves_triggers|]. serves_by_assignment.
    intros b'. unfold blocks. cbn. rewrite elem_of_app. by right.
Qed.

Lemma isEos_ret c w : 0 < status_of (w_memory w) c -> exists b, isEos m_channelId c w = Ret b.
Proof. intros H. destruct (status_ret _ _ H) as (x & Hx & _). unfold isEos, isEndOfStream. rewrite Hx. by eexists. Qed.

Lemma keys_find {V} k (l : list (string * V)) : k ∈ l.*1 -> exists v, mfind k l = Some v.
Proof. intros H. destruct (mfind k l) as [v|] eqn:E; [by exists v|]. by apply mfind_none in E. Qed.
Lemma find_keys {V} k v (l : list (string * V)) : mfind k l = Some v -> k ∈ l.*1.
Proof. intros H. apply mfind_some in H. by apply (list_elem_of_fmap_2 fst) in H. Qed.

(** The head of the common queue is sent. *)
Lemma send_shared n id c rest w :
  running (length (m_registeredSharedInputs w) + n) nothing w -> id ∈ (m_registeredSharedInputs w).*1 ->
  m_sharedLoadBalancedQueuedChunks w = c :: rest ->
  exists w', (eos ← isEos m_channelId c w;
      w ← (if eos : bool then foldM (fun id2 => copy_eos m_channelId c id id2) (m_registeredSharedInputs w).*1 w else Ret w);
      w ← asyncSendOne m_channelId c (Shared, id) LogOnly w;
      Ret (set_sharedQueue rest w)) = Ret w' /\ running n nothing w' /\ serves w w'.
Proof.
  intros H Hid Eq.
  assert (forall m w, running m nothing w -> m_sharedLoadBalancedQueuedChunks w = c :: rest -> 0 < spare w c) as Hst.
  { intros m w0 H0 E0. apply (cons_status c rest). rewrite <- E0. by apply (sharedQueue_status m). }
  destruct (isEos_ret c w (spare_status _ _ (Hst _ _ H Eq))) as (eos & ->). cbn [mbind outcome_bind].
  assert (exists w1, (if eos : bool then foldM (fun id2 => copy_eos m_channelId c id id2) (m_registeredSharedInputs w).*1 w else Ret w) = Ret w1 /\
    running n nothing w1 /\ (m_registeredSharedInputs w1).*1 = (m_registeredSharedInputs w).*1 /\
    m_sharedLoadBalancedQueuedChunks w1 = c :: rest /\ serves w w1) as (w1 & -> & H1 & K1 & Q1 & V1).
  { destruct eos.
    - destruct (copy_eos_spec n c id (m_registeredSharedInputs w).*1 w) as (w1 & E1 & ? & ? & Q & ?);
        [by rewrite length_fmap|rewrite Eq; by left|done|]. exists w1. rewrite Q. by split_and!.
    - exists w. split_and!; try done. exact (running_weaken _ _ _ _ H). }
  cbn [mbind outcome_bind]. rewrite <- K1 in Hid. apply keys_find in Hid as (info & Hid).
  destruct (asyncSendOne_spec n nothing c (Shared, id) LogOnly info w1 H1 Hid (Hst _ _ H1 Q1)) as (w2 & -> & H2 & F & Q & D).
  eexists. split; [reflexivity|]. split.
  - destruct H2 as [S B R]. constructor; [by destruct S|intros r; specialize (B r)|done].
    unfold_balance. cbn in *. rewrite (f_sharedQueue _ _ F), Q1 in B. cbn in B.
    rewrite !occ_cons, occ_nil in B. lia.
  - etransitivity; [exact V1|]. etransitivity; [by apply serves_sends|]. serves_by_assignment.
Qed.

Lemma postpone_spec n l w : (flat_map res_job l = []) -> running n nothing w ->
  running n nothing (post l w) /\ serves w (post l w).
Proof.
  intros E H. split; [|serves_by_assignment]. apply (post_spec _ _ l) in H. rewrite E in H. revert H.
  apply running_ext. intros r. unfold spend. rewrite occ_nil. lia.
Qed.

Lemma onInputAvailable_spec n id w :
  running (length (m_registeredSharedInputs w) + n) nothing w ->
  exists w', onInputAvailable m_channelId id w = Ret w' /\ running n nothing w' /\ serves w w'.
Proof.
  intros H. assert (running n nothing w) as Hn by (exact (running_weaken _ _ _ _ H)).
  unfold onInputAvailable. destruct (mfind id (m_registeredSharedInputs w)) as [info|] eqn:Es.
  - destruct (i_sendOngoing info); [eexists; split; [done|]; by apply postpone_spec|]. unfold onInputAvailable_shared.
    destruct (m_unblockSharedHandler w) as [b|] eqn:Eb.
    { pose proof (unblock_facts n w b Hn ltac:(unfold blocks; rewrite Eb; by left)) as Hr. apply block_ready in Hr.
      destruct (unblock_shared n nothing (Shared, id) info b w Hn Hr Es Eb) as (w1 & -> & ? & ? & _). by eexists. }
    destruct (mfind id (m_unblockHandlers w)) as [b|] eqn:Eu.
    { destruct (unblock_one n (Shared, id) info b w Hn Es Eu) as (w1 & -> & ? & ? & _). by eexists. }
    destruct (i_queuedChunks info) as [|c q] eqn:Eq.
    + destruct (m_sharedLoadBalancedQueuedChunks w) as [|c rest] eqn:Esq.
      * eexists. split; [done|]. unfold pushShareNext. case_match; [by split|]. split; [|serves_by_assignment].
        destruct Hn as [S B R]. constructor; [by destruct S|same B|done].
      * apply send_shared; [done|by eapply find_keys|done].
    + apply send_queued_spec; [done|done|by rewrite Eq].
  - destruct (mfind id (m_registeredCopyInputs w)) as [info|] eqn:Ec; [|by exists w].
    destruct (i_sendOngoing info); [eexists; split; [done|]; by apply postpone_spec|]. unfold onInputAvailable_copy.
    destruct (mfind id (m_unblockHandlers w)) as [b|] eqn:Eu.
    { destruct (unblock_one n (Copy, id) info b w Hn Ec Eu) as (w1 & -> & ? & ? & _). by eexists. }
    destruct (i_queuedChunks info) as [|c q] eqn:Eq.
    + eexists. split; [done|]. split; [|serves_by_assignment]. destruct Hn as [S B R]. constructor; [by destruct S|same B|done].
    + apply send_queued_spec; [done|done|by rewrite Eq].
Qed.

(** ** onInputGone *)

(** What others hold is there although the queue of an input is being released. *)
Lemma other_holders own w r p info :
  balanced own w -> mfind p.2 (inputs p.1 w) = Some info -> 0 <= own r + occ r (res_queue info) ->
  occ r (RChunk <$> m_sharedLoadBalancedQueuedChunks w) + occ r (res_unblockShared (m_unblockSharedHandler w)) +
    occ r (res_current (m_chunkId w)) <= supply r w.
Proof.
  intros B Hp Ho. specialize (B r). rewrite B. unfold_balance. holder_parts r w.
  destruct p as [[] id]; cbn in Hp; apply (msum_find (fun i => occ r (res_queue i))) in Hp; try (intros; apply occ_nonneg); lia.
Qed.

Lemma release_block_spec n p info w :
  running n nothing w -> mfind p.2 (inputs p.1 w) = Some info ->
  exists w', release_block m_channelId p w = Ret w' /\ running n nothing w' /\ serves w w' /\
    unmark (m_registeredSharedInputs w') = unmark (m_registeredSharedInputs w) /\
    unmark (m_registeredCopyInputs w') = unmark (m_registeredCopyInputs w).
Proof.
  intros H Hp. unfold release_block. destruct (mfind p.2 (m_unblockHandlers w)) as [b|] eqn:Eb; [|by exists w].
  destruct (unblock_one n p info b w H Hp Eb) as (w1 & -> & H1 & V & F). eexists. split; [reflexivity|].
  split; [done|]. split; [done|]. by destruct F.
Qed.

Lemma erase_input n own p info w :
  running n (spend (res_queue info) own) w -> mfind p.2 (inputs p.1 w) = Some info ->
  running n own (set_inputs p.1 (merase p.2 (inputs p.1 w)) w).
Proof.
  intros [S B R] Hp. destruct p as [[] id]; cbn in *.
  - constructor; [sound_after S| |done].
    intros r. specialize (B r). unfold_balance. cbn in *. rewrite (msum_merase _ _ _ _ (s_shared _ S) Hp). lia.
  - constructor; [sound_after S; by apply (merase_forall (fun i => slowness_ok (i_onSlowness i)))| |done].
    intros r. specialize (B r). unfold_balance. cbn in *. rewrite (msum_merase _ _ _ _ (s_copy _ S) Hp). lia.
Qed.

(** The common queue and the handler of the shared inputs go with the last shared input. *)
Lemma release_shared_spec n own id info w :
  running n own w -> mfind id (m_registeredSharedInputs w) = Some info ->
  (forall r, 0 <= own r + occ r (res_queue info)) ->
  exists w', release_shared m_channelId id w = Ret w' /\ running n own w' /\ serves w w' /\
    unmark (m_registeredSharedInputs w') = unmark (m_registeredSharedInputs w) /\
    unmark (m_registeredCopyInputs w') = unmark (m_registeredCopyInputs w).
Proof.
  intros H Hp Ho. unfold release_shared. set (q := m_sharedLoadBalancedQueuedChunks w).
  destruct (unregister_all_spec n own q w H) as (m & -> & H1 & K1).
  { intros c. pose proof (other_holders own w (RChunk c) (Shared, id) info (r_balanced _ _ _ H) Hp (Ho _)) as L.
    pose proof (occ_nonneg (RChunk c) (res_unblockShared (m_unblockSharedHandler w))).
    fold q in L. rewrite (occ_map_inj RChunk) in L by congruence. unfold spare, supply, supply_updates in *. lia. }
  cbn [mbind outcome_bind]. set (w1 := set_sharedQueue [] (set_memory m w)).
  assert (running n own w1) as H2.
  { destruct H1 as [S B R]. constructor; [by destruct S|intros r; specialize (B r)|done].
    unfold_balance. cbn in *. fold q in B. rewrite occ_nil. lia. }
  assert (serves w w1) as V1 by (etransitivity; [by apply serves_memory|serves_by_assignment]).
  cbv zeta. destruct (m_unblockSharedHandler w1) as [b|] eqn:Eb; [|exists w1; by split_and!].
  assert (ready_block w1 b) as Hr.
  { apply block_ready. intros r Hr. apply occ_elem in Hr. pose proof (other_holders own w1 r (Shared, id) info (r_balanced _ _ _ H2) Hp (Ho _)) as L.
    change (m_sharedLoadBalancedQueuedChunks w1) with (@nil nat) in L.
    rewrite Eb in L. cbn [res_unblockShared fmap list_fmap] in L. rewrite occ_nil in L. lia. }
  destruct (unblock_shared n own (Shared, id) info b w1 H2 Hr Hp Eb) as (w2 & -> & H3 & V2 & F).
  eexists. split; [reflexivity|]. split; [done|]. split; [by etransitivity|]. by destruct F.
Qed.

Lemma shared_gone_spec n channel id w :
  running n nothing w -> id ∈ (m_registeredSharedInputs w).*1 ->
  exists w', shared_gone m_channelId channel id w = Ret w' /\ running n nothing w' /\ serves w w' /\
    (forall k, k <> id -> k ∈ (m_registeredSharedInputs w).*1 -> k ∈ (m_registeredSharedInputs w').*1) /\
    (m_registeredCopyInputs w').*1 = (m_registeredCopyInputs w).*1.
Proof.
  intros H Hid. apply keys_find in Hid as (info & Hid). unfold shared_gone, info_at. cbn [fst snd inputs]. rewrite Hid. cbn [mbind outcome_bind].
  destruct (gone channel info w); [|by exists w].
  destruct (release_block_spec n (Shared, id) info w H Hid) as (w1 & -> & H1 & V1 & Us & Uc). cbn [mbind outcome_bind].
  destruct (unmark_find _ (m_registeredSharedInputs w1) _ _ (eq_sym Us) Hid) as (b & Hid1).
  destruct (unregister_all_spec n nothing (i_queuedChunks info) w1 H1) as (m & -> & H2 & K2).
  { intros c. by apply (queued_status n c (Shared, id) (with_ongoing b info)). }
  cbn [mbind outcome_bind]. set (w2 := set_memory m w1) in *.
  assert (exists w3, (if Nat.eqb (length (m_registeredSharedInputs w2)) 1 then release_shared m_channelId id w2 else Ret w2) = Ret w3 /\ running n (spend (res_queue info) nothing) w3 /\ serves w2 w3 /\
         unmark (m_registeredSharedInputs w3) = unmark (m_registeredSharedInputs w2) /\
         unmark (m_registeredCopyInputs w3) = unmark (m_registeredCopyInputs w2)) as (w3 & -> & H3 & V3 & Us3 & Uc3).
  { destruct (Nat.eqb _ 1); [|exists w2; by split_and!].
    apply (release_shared_spec n _ id (with_ongoing b info)); [done|done|]. intros r. unfold spend, nothing, res_queue. cbn. lia. }
  cbn [mbind outcome_bind]. destruct (unmark_find _ (m_registeredSharedInputs w3) _ _ (eq_sym Us3) Hid1) as (b3 & Hid3).
  eexists. split; [reflexivity|]. split; [|split; [|split]].
  - refine (erase_input n nothing (Shared, id) (with_ongoing b3 (with_ongoing b info)) (eraseSharedInput id w3) _ Hid3).
    destruct H3 as [S B R]. constructor; [by destruct S|same B|done].
  - etransitivity; [exact V1|]. transitivity w2; [by apply serves_memory|]. etransitivity; [exact V3|serves_by_assignment].
  - intros k Hk Hin. cbn. apply unmark_keys in Us, Us3. rewrite <- Us in Hin. change (m_registeredSharedInputs w1) with (m_registeredSharedInputs w2) in Hin.
    rewrite <- Us3 in Hin. apply list_elem_of_fmap in Hin as ([k' i] & -> & Hx). apply (list_elem_of_fmap_2 fst). by apply merase_elem.
  - cbn. apply unmark_keys in Uc, Uc3. cbn in Uc3. by rewrite Uc3.
Qed.

Lemma copy_gone_spec n channel id w :
  running n nothing w -> id ∈ (m_registeredCopyInputs w).*1 ->
  exists w', copy_gone m_channelId channel id w = Ret w' /\ running n nothing w' /\ serves w w' /\
    (forall k, k <> id -> k ∈ (m_registeredCopyInputs w).*1 -> k ∈ (m_registeredCopyInputs w').*1).
Proof.
  intros H Hid. apply keys_find in Hid as (info & Hid). unfold copy_gone, info_at. cbn [fst snd inputs]. rewrite Hid. cbn [mbind outcome_bind].
  destruct (gone channel info w); [|by exists w].
  destruct (release_block_spec n (Copy, id) info w H Hid) as (w1 & -> & H1 & V1 & Us & Uc). cbn [mbind outcome_bind].
  destruct (unmark_find _ (m_registeredCopyInputs w1) _ _ (eq_sym Uc) Hid) as (b & Hid1).
  destruct (unregister_all_spec n nothing (i_queuedChunks info) w1 H1) as (m & -> & H2 & K2).
  { intros c. by apply (queued_status n c (Copy, id) (with_ongoing b info)). }
  cbn [mbind outcome_bind]. set (w2 := (eraseCopyInput id (set_memory m w1)).2).
  eexists. split; [reflexivity|]. split; [|split].
  - refine (erase_input n nothing (Copy, id) (with_ongoing b info) w2 _ Hid1).
    destruct H2 as [S B R]. constructor; [by destruct S|same B|done].
  - etransitivity; [exact V1|]. etransitivity; [by apply serves_memory|serves_by_assignment].
  - intros k Hk Hin. cbn. apply unmark_keys in Uc. rewrite <- Uc in Hin.
    apply list_elem_of_fmap in Hin as ([k' i] & -> & Hx). apply (list_elem_of_fmap_2 fst). by apply merase_elem.
Qed.

(** A loop over the keys of the entries at its start *)
Lemma loop_keys (f : string -> world -> outcome world) (g : world -> list string) n ids w :
  (forall id w, running n nothing w -> id ∈ g w -> exists w', f id w = Ret w' /\ running n nothing w' /\ serves w w' /\
     forall k, k <> id -> k ∈ g w -> k ∈ g w') ->
  NoDup ids -> (forall id, id ∈ ids -> id ∈ g w) -> running n nothing w ->
  exists w', foldM f ids w = Ret w' /\ running n nothing w' /\ serves w w'.
Proof.
  intros Hf. revert w. induction ids as [|id ids IH]; intros w N Hk H; [by exists w|].
  inversion_clear N as [|? ? Nid Nids].
  destruct (Hf id w H (Hk id ltac:(by left))) as (w1 & E & H1 & V1 & K1).
  destruct (IH w1 Nids) as (w2 & E2 & H2 & V2); [|done|].
  - intros k Hin. apply K1; [by intros ->|]. apply Hk. by right.
  - exists w2. cbn [foldM]. rewrite E. split; [exact E2|]. split; [done|by etransitivity].
Qed.

Lemma onInputGone_spec n channel w : running n nothing w ->
  exists w', onInputGone m_channelId channel w = Ret w' /\ running n nothing w' /\ serves w w'.
Proof.
  intros H. unfold onInputGone.
  destruct (loop_keys (shared_gone m_channelId channel) (fun w => (m_registeredSharedInputs w).*1) n (m_registeredSharedInputs w).*1 w)
    as (w1 & -> & H1 & V1); [|apply H|done|done|].
  { intros id w0 H0 Hid. destruct (shared_gone_spec n channel id w0 H0 Hid) as (w' & ? & ? & ? & ? & _). by exists w'. }
  cbn [mbind outcome_bind].
  destruct (loop_keys (copy_gone m_channelId channel) (fun w => (m_registeredCopyInputs w).*1) n (m_registeredCopyInputs w1).*1 w1)
    as (w2 & -> & H2 & V2); [|apply H1|done|done|].
  { intros id w0 H0 Hid. destruct (copy_gone_spec n channel id w0 H0 Hid) as (w' & ? & ? & ? & ?). by exists w'. }
  eexists. split; [reflexivity|]. unfold erase_net. split.
  - destruct channel; [|done]. destruct H2 as [S B R]. constructor; [by destruct S|same B|done].
  - etransitivity; [exact V1|]. etransitivity; [exact V2|]. destruct channel; serves_by_assignment.
Qed.

(** ** A new hello *)

(** The chunks that go with the entries of an instanceId *)
Definition queue_of (d : distribution) (id : string) (w : world) : list nat :=
  match mfind id (inputs d w) with Some info => i_queuedChunks info | None => [] end.
Definition losing (l : list nat) (w : world) : world := set_lost (w_lost w ++ (RChunk <$> l)) w.

Lemma serves_losing l w w' : serves w w' -> serves (losing l w) (losing l w').
Proof. intros [? ? [] ? ? ? ? ? ?]. constructor; cbn; first [done|by constructor|congruence]. Qed.
Lemma losing_app l l' w : losing l' (losing l w) = losing (l ++ l') w.
Proof. unfold losing. cbn. by rewrite fmap_app, app_assoc. Qed.

Lemma eraseOldChannel_spec n d id tcp w : running n nothing w ->
  running n nothing (eraseOldChannel d id tcp w) /\ serves (losing (queue_of d id w) w) (eraseOldChannel d id tcp w) /\
  mfind id (inputs d (eraseOldChannel d id tcp w)) = None /\
  (forall d', d' <> d -> inputs d' (eraseOldChannel d id tcp w) = inputs d' w).
Proof.
  intros H. unfold eraseOldChannel, queue_of, losing. destruct (mfind id (inputs d w)) as [info|] eqn:E.
  2:{ split_and!; try done. cbn. rewrite app_nil_r. by destruct w. }
  set (w1 := if bool_decide (i_tcpChannel info ∈ w_alive w) && negb (Nat.eqb (i_tcpChannel info) tcp)
    then close_connection (i_tcpChannel info) w else w).
  assert (exists o, w1 = set_open o w) as (o & ->) by (unfold w1; case_match; [by eexists|exists (w_open w); by destruct w]).
  split; [|split; [|split]].
  - assert (running n (spend (res_queue info) nothing) (set_lost (w_lost w ++ res_queue info) (set_open o w))) as H1.
    { destruct H as [S B R]. constructor; [by destruct S|intros r; specialize (B r)|done].
      unfold_balance. cbn in *. rewrite occ_app. lia. }
    apply (erase_input n nothing (d, id) info) in H1; [|by destruct d]. by destruct d.
  - destruct d; serves_by_assignment.
  - destruct d; cbn; rewrite mfind_merase, String.eqb_refl; done.
  - intros d' N. by destruct d, d'.
Qed.

Lemma enrolled_mset hellos d id info l : mfind id l = None -> Forall (enrolled hellos d) l ->
  Forall (enrolled (hellos ++ [((d, id), i_tcpChannel info, i_memoryLocation info)]) d) (mset id info l).
Proof.
  intros N F. unfold mset. rewrite N, minsert_perm. constructor.
  - unfold enrolled. apply elem_of_app. right. by apply list_elem_of_singleton.
  - eapply enrolled_more; [|exact F]. intros x Hx. apply elem_of_app. by left.
Qed.
Lemma enrolled_app hellos new d l : Forall (enrolled hellos d) l -> Forall (enrolled (hellos ++ new) d) l.
Proof. apply enrolled_more. intros x Hx. apply elem_of_app. by left. Qed.

Lemma register_spec n id d info w :
  running n nothing w -> i_queuedChunks info = [] -> (d = Copy -> slowness_ok (i_onSlowness info)) ->
  running n nothing (register id d info w) /\
    serves (losing (queue_of Shared id w ++ queue_of Copy id w) w) (register id d info w).
Proof.
  intros H Hq Hs. unfold register.
  destruct (eraseOldChannel_spec n Shared id (i_tcpChannel info) w H) as (H1 & V1 & N1 & O1).
  set (w1 := eraseOldChannel Shared id (i_tcpChannel info) w) in *.
  destruct (eraseOldChannel_spec n Copy id (i_tcpChannel info) w1 H1) as (H2 & V2 & N2 & O2).
  set (w2 := eraseOldChannel Copy id (i_tcpChannel info) w1) in *.
  assert (mfind id (inputs d w2) = None) as N.
  { destruct d; [|done]. by rewrite O2. }
  assert (mfind id (m_registeredSharedInputs w2) = None) as Ns by (change (mfind id (inputs Shared w2) = None); by rewrite O2).
  assert (res_queue info = []) as Er by (unfold res_queue; by rewrite Hq).
  replace (queue_of Copy id w1) with (queue_of Copy id w) in V2 by (unfold queue_of, w1; by rewrite O1).
  clearbody w2. split.
  2:{ rewrite <- losing_app. etransitivity; [apply serves_losing, V1|]. etransitivity; [exact V2|].
    assert (w_hellos w2 ⊆ w_hellos w2 ++ [((d, id), i_tcpChannel info, i_memoryLocation info)]) by (intros x Hx; apply elem_of_app; by left).
    destruct d; serves_by_assignment. }
  destruct H2 as [S B R]. destruct d; cbn in *.
  - constructor; [sound_after S; by first [apply enrolled_mset|apply enrolled_app]|intros r; specialize (B r)|done].
    unfold_balance. cbn in *. rewrite msum_mset_new, Er, occ_nil by done. lia.
  - constructor; [sound_after S; try (by first [apply enrolled_mset|apply enrolled_app])|intros r; specialize (B r)|done].
    + unfold mset. rewrite N, minsert_perm. constructor; [by apply Hs|done].
    + unfold_balance. cbn in *. rewrite msum_mset_new, Er, occ_nil by done. lia.
Qed.
End resources.
#[export] Hint Unfold supply : balance.

(** The tactic once more, for the clients *)
Ltac serves_by_assignment := apply serves_same; [done|done|by apply delivers_same|done..|try done].
