(* ===== verification/OutputUpdate.v ===== *)
(** Updates of an output channel (asyncUpdateNoWait): that they keep the balance of what is held and
    used, and finish. *)

From Stdlib Require Import ZArith Lia Ascii String.
From stdpp Require Import base numbers list strings gmap.
From S2P Require Import Prelude Types Strings OrderedMap Hash HashAccess BinaryWriter BufferSet BinaryMulti StdMap Memory OutputChannel OutputResources.
Import Types.

Open Scope Z_scope.

#[local] Arguments occ : simpl never.
#[local] Arguments zsum : simpl never.
#[local] Arguments msum : simpl never.
#[local] Arguments status_of : simpl never.
#[local] Arguments held_by_flags : simpl never.
#[local] Arguments supply_updates : simpl never.
#[local] Arguments open_flags : simpl never.
#[local] Arguments flag_open : simpl never.

(** ** Plans *)

(** A plan to which inputs of one kind have been added, each at most once *)
Definition extends (d : distribution) (ids : list string) (l l' : plan) : Prop :=
  exists s q b, p_toSend l' = p_toSend l ++ (pair d <$> s) /\ p_toQueue l' = p_toQueue l ++ (pair d <$> q) /\
    p_toBlock l' = p_toBlock l ++ (pair d <$> b) /\ s ++ q ++ b ⊆+ ids.

Lemma extends_nil d l ids : extends d ids l l.
Proof. exists [], [], []. cbn. rewrite !app_nil_r. split_and!; [done|done|done|apply submseteq_nil_l]. Qed.
Lemma extends_skip d id ids l l' : extends d ids l l' -> extends d (id :: ids) l l'.
Proof. intros (s & q & b & ? & ? & ? & ?). exists s, q, b. split_and!; try done. by apply submseteq_cons. Qed.
Lemma extends_send d id ids l l' : extends d ids (to_send (d, id) l) l' -> extends d (id :: ids) l l'.
Proof.
  intros (s & q & b & Es & ? & ? & ?). exists (id :: s), q, b. cbn in *. rewrite Es, <- app_assoc.
  split_and!; try done. by apply submseteq_skip.
Qed.
Lemma extends_queue d id ids l l' : extends d ids (to_queue (d, id) l) l' -> extends d (id :: ids) l l'.
Proof.
  intros (s & q & b & ? & Eq & ? & ?). exists s, (id :: q), b. cbn in *. rewrite Eq, <- app_assoc.
  split_and!; try done. rewrite <- Permutation_middle. by apply submseteq_skip.
Qed.
Lemma extends_block d id ids l l' : extends d ids (to_block (d, id) l) l' -> extends d (id :: ids) l l'.
Proof.
  intros (s & q & b & ? & ? & Eb & H). exists s, q, (id :: b). cbn in *. rewrite Eb, <- app_assoc.
  split_and!; try done. rewrite app_assoc in *. rewrite <- Permutation_middle. by apply submseteq_skip.
Qed.
Lemma extends_one d id ids l l' : id ∈ ids -> extends d [id] l l' -> extends d ids l l'.
Proof.
  intros Hid (s & q & b & ? & ? & ? & H). exists s, q, b. split_and!; try done. etransitivity; [exact H|].
  by apply singleton_submseteq_l.
Qed.
Create HintDb plans.
#[local] Hint Resolve extends_nil extends_skip extends_send extends_queue extends_block : plans.

Section updates.
Context (m_channelId : nat) (m_onNoSharedInputChannelAvailable : string).
Context (policy_ok : slowness_ok m_onNoSharedInputChannelAvailable).

Abbreviation running := (running m_channelId).
Abbreviation status_of := (status_of m_channelId).

(** asyncPrepareCopy *)
Lemma prepare_slow_spec eos valid info id l : slowness_ok (i_onSlowness info) ->
  exists l', prepare_slow eos valid info (Copy, id) l = Ret l' /\
    (l' = l \/ l' = to_queue (Copy, id) l \/ l' = to_block (Copy, id) l).
Proof.
  unfold prepare_slow. intros [-> | [-> | ->]]; destruct eos; cbn; try case_match; eauto.
Qed.

Lemma asyncPrepareCopy_spec c ins l w :
  0 < status_of (w_memory w) c -> Forall (fun p => slowness_ok (i_onSlowness p.2)) ins ->
  exists S l', asyncPrepareCopy m_channelId c ins l w = (set_copyNext S w, Ret l') /\ extends Copy ins.*1 l l'.
Proof.
  intros Hs Hi. revert l w Hs. induction Hi as [|[id info] ins Hi Hins IH]; intros l w Hs; cbn -[prepare_slow].
  - exists (m_copyNext w), l. split; [by destruct w|apply extends_nil].
  - destruct (bool_decide (id ∈ m_copyNext w)).
    + destruct (IH (to_send (Copy, id) l) (set_copyNext (m_copyNext w ∖ {[id]}) w) Hs) as (S & l' & -> & E).
      exists S, l'. split; [done|auto with plans].
    + set (w1 := set_copyNext (m_copyNext w ∖ {[id]}) w).
      destruct (isEos_ret m_channelId c w1 Hs) as (eos & ->). cbn [mbind outcome_bind].
      destruct (prepare_slow_spec eos (is_valid (m_chunkId w)) info id l Hi) as (l1 & -> & H1).
      destruct (IH l1 w1 Hs) as (S & l' & -> & E). exists S, l'. split; [done|].
      destruct H1 as [-> | [-> | ->]]; auto with plans.
Qed.

(** asyncPrepareDistribute *)
Lemma distribute_eos_spec ids l w :
  exists s l', distribute_eos m_onNoSharedInputChannelAvailable ids l w = (set_shareNext s w, l') /\ extends Shared ids l l'.
Proof.
  revert l w. induction ids as [|id ids IH]; intros l w; cbn.
  - exists (m_shareNext w), l. split; [by destruct w|apply extends_nil].
  - destruct (hasSharedInput id w).
    + destruct (IH (to_send (Shared, id) l) (eraseSharedInput id w)) as (s & l' & -> & E). exists s, l'. auto with plans.
    + destruct (String.eqb _ "wait").
      * destruct (IH (to_block (Shared, id) l) w) as (s & l' & -> & E). exists s, l'. auto with plans.
      * destruct (IH (to_queue (Shared, id) l) w) as (s & l' & -> & E). exists s, l'. auto with plans.
Qed.

Lemma keep_shareNext w : w = set_shareNext (m_shareNext w) w.
Proof. by destruct w. Qed.

Lemma asyncPrepareDistribute_spec c l w :
  0 < status_of (w_memory w) c ->
  exists s l' queue block, asyncPrepareDistribute m_channelId m_onNoSharedInputChannelAvailable c l w =
      (set_shareNext s w, Ret (l', queue, block)) /\
    extends Shared (m_registeredSharedInputs w).*1 l l' /\ (queue && block = false).
Proof.
  intros Hs. unfold asyncPrepareDistribute. destruct (m_registeredSharedInputs w) as [|e es] eqn:Ee.
  { exists (m_shareNext w), l, false, false. rewrite <- keep_shareNext. split_and!; auto using extends_nil. }
  destruct (isEos_ret m_channelId c w Hs) as ([] & ->).
  - unfold asyncPrepareDistributeEos. destruct (m_sharedLoadBalancedQueuedChunks w).
    + destruct (distribute_eos_spec (m_registeredSharedInputs w).*1 l w) as (s & l' & -> & E).
      exists s, l', false, false. rewrite Ee in E. by split_and!.
    + exists (m_shareNext w), l, true, false. rewrite <- keep_shareNext. split_and!; auto using extends_nil.
  - destruct (m_sharedInputSelector w) as [sel|].
    + unfold asyncPrepareDistributeSelected. set (id := sel _).
      destruct (mfind id (m_registeredSharedInputs w)) as [i|] eqn:Ei; cbn.
      2:{ exists (m_shareNext w), l, false, false. rewrite <- keep_shareNext. split_and!; auto using extends_nil. }
      assert (id ∈ (e :: es).*1) as Hid by (rewrite <- Ee; by eapply find_keys).
      destruct (hasSharedInput id w).
      { eexists _, _, false, false. split; [reflexivity|]. split; [|done]. apply (extends_one _ id); auto with plans. }
      exists (m_shareNext w). rewrite <- keep_shareNext.
      destruct policy_ok as [-> | [-> | ->]]; cbn; eexists _, false, false; (split; [reflexivity|]); (split; [|done]).
      * apply extends_nil.
      * case_match; [apply (extends_one _ id); auto with plans|apply extends_nil].
      * apply (extends_one _ id); auto with plans.
    + unfold asyncPrepareDistributeLoadBal, popShareNext. destruct (m_shareNext w) as [|id ids] eqn:En; cbn.
      * exists (m_shareNext w), l. rewrite <- keep_shareNext.
        destruct policy_ok as [-> | [-> | ->]]; cbn; eexists _, _; (split; [reflexivity|]); split; auto using extends_nil, andb_false_r.
      * destruct (mfind id (m_registeredSharedInputs w)) as [i|] eqn:Ei.
        -- assert (id ∈ (e :: es).*1) as Hid by (rewrite <- Ee; by eapply find_keys).
           eexists _, _, false, false. split; [reflexivity|]. split; [|done]. apply (extends_one _ id); auto with plans.
        -- eexists _, _, false, false. split; [reflexivity|]. split; [apply extends_nil|done].
Qed.

(** ** Queueing, sending and blocking *)

(** The chunk of the running update *)
Lemma locking_spare n own u c safe w :
  running n own w -> w_phase w = Locking u c safe -> 0 <= own (RChunk c) -> 0 < spare m_channelId w c.
Proof.
  intros [S B R] Hp Ho. unfold spare. rewrite (supply_chunk _ _ c _ B). unfold_balance. holder_parts (RChunk c) w. rewrite Hp in *. cbn [res_phase] in *. rewrite occ_cons, one_same in *.
  pose proof (occ_nonneg (RChunk c) [RReady u; RWriteDone u]). lia.
Qed.

Definition registered (w : world) (p : input) : Prop := is_Some (mfind p.2 (inputs p.1 w)).

Lemma registered_keys w p : registered w p <-> p.2 ∈ (inputs p.1 w).*1.
Proof. split; [intros [i H]; by eapply find_keys|]. intros H. apply keys_find in H as (i & H). by exists i. Qed.

Lemma frame_registered w w' p : frame w w' -> registered w p -> registered w' p.
Proof. intros F [i H]. destruct (frame_input _ _ _ _ F H) as (b & H'). by eexists. Qed.

(** What an update has to do does not change. *)
Record retains (up up' : update) : Prop := {
  t_final : u_final up' = u_final up; t_eos : u_eos up' = u_eos up; t_meta : u_meta up' = u_meta up;
  t_data : u_data up' = u_data up
}.
#[export] Instance retains_refl : Reflexive retains.
Proof. by constructor. Qed.
#[export] Instance retains_trans : Transitive retains.
Proof. intros x y z [] []. constructor; congruence. Qed.

(** What an update does to the rest of the state, *)
Record works (u : nat) (w w' : world) : Prop := {
  k_delivers : delivers m_channelId w w';
  k_updates : Forall2 retains (w_updates w) (w_updates w');
  k_signal : w_signal w' = w_signal w;
  k_log : w_log w' = w_log w;
  k_free : w_free w' = w_free w;
  k_lost : w_lost w' = w_lost w;
  k_blocks : forall b, b ∈ blocks w' -> b ∈ blocks w \/ b_update b = u
}.
(** ... and until it releases its chunk *)
Record lays (u : nat) (w w' : world) : Prop := {
  l_phase : w_phase w' = w_phase w; l_chunkId : m_chunkId w' = m_chunkId w; l_works : works u w w'
}.

#[export] Instance works_refl u : Reflexive (works u).
Proof. intros w. constructor; first [done|reflexivity|by left]. Qed.
#[export] Instance works_trans u : Transitive (works u).
Proof.
  intros w1 w2 w3 [] []. constructor; try congruence; [by etransitivity|by etransitivity|].
  intros b Hb. destruct (k_blocks1 b Hb); auto.
Qed.
#[export] Instance lays_refl u : Reflexive (lays u).
Proof. intros w. by constructor. Qed.
#[export] Instance lays_trans u : Transitive (lays u).
Proof. intros w1 w2 w3 [] []. constructor; [congruence..|by etransitivity]. Qed.

Lemma works_same u w w' :
  delivers m_channelId w w' -> w_updates w' = w_updates w -> w_signal w' = w_signal w -> w_log w' = w_log w ->
  w_free w' = w_free w -> w_lost w' = w_lost w -> (forall b, b ∈ blocks w' -> b ∈ blocks w \/ b_update b = u) -> works u w w'.
Proof. intros D U. constructor; try done. by rewrite U. Qed.

Lemma lays_sends u w w' : frame w w' -> quiet w w' -> delivers m_channelId w w' -> lays u w w'.
Proof.
  intros F Q D. pose proof (frame_blocks _ _ F) as E. destruct F, Q. constructor; [done..|].
  apply works_same; try done. rewrite E. by left.
Qed.

Lemma lays_memory u m w : keeps m_channelId (w_memory w) m -> lays u w (set_memory m w).
Proof. intros K. constructor; [done..|]. apply works_same; try done; [by apply delivers_memory|by left]. Qed.

(** What is planned can still be done. *)
Record still (w w' : world) : Prop := {
  z_updates : w_updates w' = w_updates w; z_blocks : blocks w' = blocks w;
  z_registered : forall p, registered w p -> registered w' p
}.
#[export] Instance still_refl : Reflexive still.
Proof. by constructor. Qed.
#[export] Instance still_trans : Transitive still.
Proof. intros w1 w2 w3 [] []. constructor; [congruence..|auto]. Qed.

Lemma queue_for_spec n u c safe p w :
  running (S n) nothing w -> w_phase w = Locking u c safe -> registered w p ->
  exists w', queue_for m_channelId c p w = Ret w' /\ running n nothing w' /\ lays u w w' /\ still w w'.
Proof.
  intros H Hp [info Hi]. unfold queue_for.
  destruct (incrementUsage_spec _ _ _ c w H ltac:(by eapply locking_spare)) as (m & -> & H1 & K).
  cbn [mbind outcome_bind]. set (f := fun i => with_queue (i_queuedChunks i ++ [c]) i).
  eexists. split; [reflexivity|]. split; [|split].
  - apply (change_queue _ _ _ f p info _ (fun i => conj eq_refl (conj eq_refl eq_refl))) in H1; [|by destruct p as [[] ?]].
    revert H1. apply running_ext. intros r. unfold gain, nothing, res_queue, f. cbn.
    rewrite fmap_app, occ_app, list_fmap_singleton, !occ_cons, occ_nil. lia.
  - etransitivity; [by apply lays_memory|]. destruct p as [[] ?]; (constructor; [done..|]);
      (apply works_same; first [done|by apply delivers_same|by left]).
  - constructor; [by destruct p as [[] ?]..|]. intros [d id]. rewrite !registered_keys.
    destruct p as [[] ?], d; cbn; by rewrite ?malter_keys.
Qed.

Lemma queue_all_spec n u c safe l w :
  running (length l + n) nothing w -> w_phase w = Locking u c safe -> Forall (registered w) l ->
  exists w', foldM (queue_for m_channelId c) l w = Ret w' /\ running n nothing w' /\ lays u w w' /\ still w w'.
Proof.
  revert w. induction l as [|p l IH]; intros w H Hp Hl; [by exists w|]. inversion_clear Hl as [|? ? Hr Hl'].
  destruct (queue_for_spec (length l + n) u c safe p w H Hp Hr) as (w1 & E & H1 & L1 & Z1).
  destruct (IH w1 H1) as (w2 & E2 & H2 & L2 & Z2);
    [by rewrite (l_phase _ _ _ L1)|eapply Forall_impl; [exact Hl'|]; by apply z_registered|].
  exists w2. cbn [foldM]. rewrite E. split; [exact E2|]. split; [done|]. split; by etransitivity.
Qed.

Definition dones (u k n : nat) : list resource := RDone u <$> seq k n.
Definition blks (u k n : nat) : list resource := RBlock u <$> seq k n.

Lemma send_all_spec n u c safe l k own w :
  running (length l + n) own w -> w_phase w = Locking u c safe -> 0 <= own (RChunk c) -> Forall (registered w) l ->
  exists w', send_all m_channelId u c k l w = Ret w' /\ running n (spend (dones u k (length l)) own) w' /\
    frame w w' /\ quiet w w' /\ delivers m_channelId w w'.
Proof.
  revert k own w. induction l as [|p l IH]; intros k own w H Hp Ho Hl.
  - exists w. split; [done|]. split; [|by split_and!]. revert H. apply running_ext. intros r. unfold spend, dones. cbn. rewrite occ_nil. lia.
  - inversion_clear Hl as [|? ? [info Hi] Hl']. cbn [send_all].
    destruct (incrementUsage_spec _ (length l + n) _ c w H ltac:(by eapply locking_spare)) as (m & -> & H1 & K).
    cbn [mbind outcome_bind].
    assert (0 < spare m_channelId (set_memory m w) c) as Hs.
    { eapply locking_spare; [exact H1|exact Hp|]. unfold gain. rewrite occ_cons, occ_nil, one_same. lia. }
    destruct (asyncSendOne_spec _ _ _ c p (SingleWriteDone u k) info _ H1 ltac:(by destruct p as [[] ?]) Hs)
      as (w1 & -> & H2 & F & Q & D). cbn [mbind outcome_bind].
    destruct (IH (S k) (spend [RDone u k] own) w1) as (w2 & E2 & H3 & F2 & Q2 & D2).
    + revert H2. apply running_ext. intros r. unfold spend, gain. cbn. rewrite !occ_cons, occ_nil. lia.
    + by rewrite (f_phase _ _ F).
    + unfold spend. rewrite occ_cons, occ_nil, one_other by done. lia.
    + eapply Forall_impl; [exact Hl'|]. intros q. apply frame_registered. etransitivity; [|exact F]. by constructor.
    + exists w2. split; [exact E2|]. split; [|split; [|split]].
      * revert H3. apply running_ext. intros r. unfold spend, dones. cbn. rewrite !occ_cons, occ_nil. lia.
      * etransitivity; [|exact F2]. etransitivity; [|exact F]. by constructor.
      * destruct Q, Q2. constructor; cbn in *; congruence.
      * etransitivity; [by apply delivers_memory|by etransitivity].
Qed.

Lemma occ_unblock r u c k j b :
  occ r (res_unblock (mkUnblock u c k j b)) = one r (RChunk c) + one r (RBlock u k) + one r (RDone u j).
Proof. unfold res_unblock. cbn. rewrite !occ_cons, occ_nil. lia. Qed.

Lemma block_shared_spec n u c safe k s own w :
  running (S n) own w -> w_phase w = Locking u c safe -> 0 <= own (RChunk c) -> m_unblockSharedHandler w = None ->
  exists w', block_shared m_channelId u c k s w = Ret w' /\
    running n (spend [RBlock u 0; RDone u k] own) w' /\ lays u w w' /\ m_unblockHandlers w' = m_unblockHandlers w.
Proof.
  intros H Hp Ho E. unfold block_shared.
  destruct (incrementUsage_spec _ _ _ c w H ltac:(by eapply locking_spare)) as (m & -> & H1 & K).
  cbn [mbind outcome_bind set_memory m_unblockSharedHandler]. rewrite E. eexists. split; [reflexivity|]. split; [|split; [|done]].
  - destruct H1 as [Sd B R]. constructor; [by destruct Sd|intros r; specialize (B r)|done].
    unfold_balance. cbn in *. rewrite E in B. cbn in B. rewrite occ_unblock, app_nil_r, !occ_cons, !occ_nil in *. lia.
  - constructor; [done..|]. apply works_same; cbn; try done.
    + etransitivity; [by apply delivers_memory|by apply delivers_same].
    + by rewrite app_nil_r.
    + intros b. unfold blocks. cbn. rewrite E. cbn. rewrite elem_of_cons. intros [->|Hb]; auto.
Qed.

Lemma block_all_spec n u c safe l k j own w :
  running (length l + n) own w -> w_phase w = Locking u c safe -> 0 <= own (RChunk c) ->
  NoDup l.*2 -> (forall id, id ∈ l.*2 -> mfind id (m_unblockHandlers w) = None) ->
  exists w', block_all m_channelId u c k j l w = Ret w' /\
    running n (spend (blks u k (length l) ++ dones u j (length l)) own) w' /\ lays u w w'.
Proof.
  revert k j own w. induction l as [|p l IH]; intros k j own w H Hp Ho Nd Hl.
  - exists w. split; [done|]. split; [|done]. revert H. apply running_ext. intros r. unfold spend, dones, blks. cbn. rewrite occ_nil. lia.
  - rewrite fmap_cons in Nd. inversion_clear Nd as [|? ? Np Nl]. cbn [block_all].
    destruct (incrementUsage_spec _ (length l + n) _ c w H ltac:(by eapply locking_spare)) as (m & -> & H1 & K).
    cbn [mbind outcome_bind set_memory m_unblockHandlers]. rewrite (Hl p.2 ltac:(by left)).
    set (w1 := set_lost _ _).
    assert (running (length l + n) (spend [RBlock u k; RDone u j] own) w1) as H2.
    { destruct H1 as [Sd B R]. constructor; [subst w1; sound_after Sd|intros r; specialize (B r); subst w1|done].
      unfold_balance. cbn in *. rewrite msum_mset_new by (apply Hl; by left). rewrite occ_unblock, app_nil_r, !occ_cons, !occ_nil in *. lia. }
    assert (lays u w w1) as L1.
    { constructor; [done..|]. apply works_same; cbn; try done.
      - etransitivity; [by apply delivers_memory|by apply delivers_same].
      - by rewrite app_nil_r.
      - intros b. unfold blocks. cbn. rewrite !elem_of_app. unfold mset. rewrite (Hl p.2 ltac:(by left)).
        rewrite minsert_perm. cbn. rewrite elem_of_cons. intros [Hb|[->|Hb]]; auto. }
    destruct (IH (S k) (S j) (spend [RBlock u k; RDone u j] own) w1) as (w2 & E2 & H3 & L2); [done|done| |done| |].
    + unfold spend. rewrite !occ_cons, occ_nil, !one_other by done. lia.
    + intros id Hid. cbn. rewrite mfind_mset. destruct (String.eqb_spec p.2 id) as [<-|]; [done|]. apply Hl. by right.
    + exists w2. split; [exact E2|]. split; [|by etransitivity].
      revert H3. apply running_ext. intros r. unfold spend, dones, blks. cbn [seq length fmap list_fmap app].
      rewrite !occ_app, !occ_cons, !occ_app, !occ_cons, !occ_nil. lia.
Qed.

(** New flags *)
Lemma occ_seq n k a : occ n (seq k a) = if decide (k <= n < k + a)%nat then 1 else 0.
Proof.
  revert k. induction a as [|a IH]; intros k; cbn [seq].
  - rewrite occ_nil. case_decide; lia.
  - rewrite occ_cons, IH. unfold one. repeat case_decide; lia.
Qed.

Lemma occ_dones r u a : occ r (dones u 0 a) =
  match r with RDone u' n => if decide (u' = u) then if decide (n < a)%nat then 1 else 0 else 0 | _ => 0 end.
Proof.
  assert (forall l, (forall n, r <> RDone u n) -> occ r (RDone u <$> l) = 0) as Ho.
  { intros l N. apply occ_not_elem. intros H. apply list_elem_of_fmap in H as (n & -> & _). by apply (N n). }
  unfold dones. destruct r as [c|u' n|u' n|u'|u']; try (by apply Ho). case_decide as D; [subst u'|apply Ho; congruence].
  rewrite (occ_map_inj (RDone u)) by congruence. rewrite occ_seq. repeat case_decide; lia.
Qed.

Lemma occ_blks r u a : occ r (blks u 0 a) =
  match r with RBlock u' n => if decide (u' = u) then if decide (n < a)%nat then 1 else 0 else 0 | _ => 0 end.
Proof.
  assert (forall l, (forall n, r <> RBlock u n) -> occ r (RBlock u <$> l) = 0) as Ho.
  { intros l N. apply occ_not_elem. intros H. apply list_elem_of_fmap in H as (n & -> & _). by apply (N n). }
  unfold blks. destruct r as [c|u' n|u' n|u'|u']; try (by apply Ho). case_decide as D; [subst u'|apply Ho; congruence].
  rewrite (occ_map_inj (RBlock u)) by congruence. rewrite occ_seq. repeat case_decide; lia.
Qed.

Lemma flag_open_fresh a n : flag_open (replicate a false) n = if decide (n < a)%nat then 1 else 0.
Proof.
  unfold flag_open. case_decide.
  - rewrite lookup_replicate_2; done.
  - assert (replicate a false !! n = None) as -> by (apply lookup_ge_None_2; rewrite length_replicate; lia). done.
Qed.
Lemma open_flags_fresh a : open_flags (replicate a false) = (0 <? a)%nat.
Proof. by destruct a. Qed.

Definition fresh (a b : nat) (up : update) : update := with_flags (replicate a false) (replicate b false) up.

Lemma fresh_flags_counts ups u up a b r :
  ups !! u = Some up -> u_doneFlags up = [] -> u_blockFlags up = [] ->
  supply_updates r (<[u:=fresh a b up]> ups) = supply_updates r ups + occ r (dones u 0 a) + occ r (blks u 0 b) /\
  held_by_flags r (<[u:=fresh a b up]> ups) = held_by_flags r ups +
    (if (0 <? a)%nat then one r (RWriteDone u) else 0) + (if (0 <? b)%nat then one r (RReady u) else 0).
Proof.
  intros Eu Ed Eb. pose proof (lookup_lt_Some _ _ _ Eu) as Lu. rewrite occ_dones, occ_blks.
  assert (forall u', one (RWriteDone u') (RWriteDone u) = if decide (u' = u) then 1 else 0) as E1.
  { intros. unfold one. repeat case_decide; congruence. }
  assert (forall u', one (RReady u') (RReady u) = if decide (u' = u) then 1 else 0) as E2.
  { intros. unfold one. repeat case_decide; congruence. }
  assert (flag_open [] = fun _ => 0) as Ef by reflexivity.
  unfold supply_updates, held_by_flags. rewrite !length_insert.
  destruct r as [c|u' m|u' m|u'|u']; rewrite ?lookup_insert_cases by done;
    rewrite ?E1, ?E2, ?(one_other _ (RReady u)), ?(one_other _ (RWriteDone u)) by done.
  - repeat case_match; lia.
  - split; [|repeat case_match; lia]. case_decide; [subst|lia]. rewrite Eu. cbn. rewrite Ed, Ef, flag_open_fresh. lia.
  - split; [|repeat case_match; lia]. case_decide; [subst|lia]. rewrite Eu. cbn. rewrite Eb, Ef, flag_open_fresh. lia.
  - split; [lia|]. case_decide; [subst; rewrite Eu; cbn; rewrite Eb, open_flags_fresh|]; repeat case_match; done || lia.
  - split; [lia|]. case_decide; [subst; rewrite Eu; cbn; rewrite Ed, open_flags_fresh|]; repeat case_match; done || lia.
Qed.

Lemma dones_app u k a b : dones u k (a + b) = dones u k a ++ dones u (k + a) b.
Proof. unfold dones. by rewrite seq_app, fmap_app. Qed.

(** New flags for the update that is running, and what is to be done with them *)
Definition started (u a b : nat) (r : resource) : Z :=
  occ r (dones u 0 a) + occ r (blks u 0 b) - (if (0 <? a)%nat then one r (RWriteDone u) else 0) -
    (if (0 <? b)%nat then one r (RReady u) else 0).

Lemma fresh_flags_spec n u a b up w :
  running n nothing w -> w_updates w !! u = Some up -> u_doneFlags up = [] -> u_blockFlags up = [] ->
  running n (started u a b) (set_updates (<[u:=fresh a b up]> (w_updates w)) w) /\
  lays u w (set_updates (<[u:=fresh a b up]> (w_updates w)) w).
Proof.
  intros [Sd B R] Eu Ed Eb. split.
  - constructor; [by apply sound_updates| |done]. intros r. specialize (B r).
    destruct (fresh_flags_counts _ u up a b r Eu Ed Eb) as [C1 C2]. unfold_balance. unfold started. cbn in *. rewrite C1, C2. lia.
  - constructor; [done..|]. constructor; try done; [by apply delivers_same| |by left]. cbn.
    rewrite insert_take_drop by eauto using lookup_lt_Some. rewrite <- (take_drop_middle _ u up Eu) at 1.
    apply Forall2_app; [reflexivity|]. constructor; [done|reflexivity].
Qed.

Lemma lays_post u l w : lays u w (post l w).
Proof. constructor; [done..|]. apply works_same; first [done|by apply delivers_same|by left]. Qed.

(** Setting up the handlers of blocked inputs *)
Lemma block_spec n u c safe s (block : bool) l k own w :
  running (length l + (if block then 1 else 0) + n) own w -> w_phase w = Locking u c safe -> 0 <= own (RChunk c) ->
  blocks w = [] -> NoDup l.*2 ->
  let b := (length l + (if block then 1 else 0))%nat in
  exists w', (if block then
        w ← block_shared m_channelId u c k s w; block_all m_channelId u c 1 (S k) l w
      else block_all m_channelId u c 0 k l w) = Ret w' /\
    running n (spend (blks u 0 b ++ dones u k b) own) w' /\ lays u w w'.
Proof.
  intros H Hp Ho Hb Nd b. unfold blocks in Hb. apply app_eq_nil in Hb as [Hs Hu].
  assert (m_unblockSharedHandler w = None) as Es by by destruct (m_unblockSharedHandler w).
  assert (m_unblockHandlers w = []) as Eu by by apply fmap_nil_inv in Hu.
  destruct block; cbn in b.
  - destruct (block_shared_spec (length l + n) u c safe k s own w) as (w1 & -> & H1 & L1 & E1);
      [eapply running_less; [|exact H]; lia|done..|]. cbn [mbind outcome_bind].
    destruct (block_all_spec n u c safe l 1 (S k) _ w1 H1) as (w2 & -> & H2 & L2);
      [by rewrite (l_phase _ _ _ L1)| |done|intros; by rewrite E1, Eu|].
    { unfold spend. rewrite !occ_cons, occ_nil, !one_other by done. lia. }
    eexists. split; [reflexivity|]. split; [|by etransitivity]. revert H2. apply running_ext. intros r.
    unfold spend, b. rewrite Nat.add_1_r. unfold dones, blks. cbn [seq fmap list_fmap].
    rewrite !occ_app, !occ_cons, ?occ_app, ?occ_cons, ?occ_nil. lia.
  - destruct (block_all_spec n u c safe l 0 k own w) as (w2 & -> & H2 & L2);
      [eapply running_less; [|exact H]; lia|done..|intros; by rewrite Eu|].
    eexists. split; [reflexivity|]. unfold b. by rewrite Nat.add_0_r.
Qed.

Lemma send_and_block_spec n u c safe l block s up w :
  running (length (p_toSend l) + length (p_toBlock l) + 1 + n) nothing w -> w_phase w = Locking u c safe ->
  w_updates w !! u = Some up -> u_doneFlags up = [] -> u_blockFlags up = [] -> blocks w = [] ->
  Forall (registered w) (p_toSend l) -> NoDup (p_toBlock l).*2 ->
  exists w', send_and_block m_channelId u c l block s w = Ret w' /\
    running n (spend [RReady u; RWriteDone u] nothing) w' /\ lays u w w'.
Proof.
  intros H Hp Eu Ed Eb Hb Hs Nd. unfold send_and_block.
  destruct ((match p_toSend l, p_toBlock l with [], [] => true | _, _ => false end) && negb block) eqn:Ee.
  { eexists. split; [reflexivity|]. split; [|apply lays_post].
    apply (post_spec _ _ _ [JReady u; JWriteDone u]). eapply running_less; [|exact H]. lia. }
  set (b := (length (p_toBlock l) + (if block then 1 else 0))%nat). set (a := (length (p_toSend l) + b)%nat).
  assert (0 < a)%nat as Ha by (unfold a, b; destruct (p_toSend l), (p_toBlock l), block; cbn in *; done || lia).
  unfold on_update. rewrite Eu. cbn [mbind outcome_bind]. fold (fresh a b up).
  destruct (fresh_flags_spec _ u a b up w H Eu Ed Eb) as [H1 L1]. set (w1 := set_updates _ w) in *.
  assert (forall c, started u a b (RChunk c) = 0) as Hst.
  { intros c'. unfold started. rewrite occ_dones, occ_blks. repeat case_match; try lia; by rewrite !one_other. }
  destruct (send_all_spec (b + n) u c safe (p_toSend l) 0 (started u a b) w1) as (w2 & -> & H2 & F2 & Q2 & D2);
    [eapply running_less; [|exact H1]; unfold b; destruct block; lia|done|by rewrite Hst|exact Hs|].
  cbn [mbind outcome_bind]. pose proof (lays_sends u _ _ F2 Q2 D2) as L2.
  destruct (Nat.ltb_spec 0 b) as [Lb|Lb].
  - destruct (block_spec n u c safe s block (p_toBlock l) (length (p_toSend l)) _ w2 H2) as (w3 & -> & H3 & L3); [|
      |by rewrite (frame_blocks _ _ F2)|done|].
    + by rewrite (f_phase _ _ F2).
    + unfold spend. rewrite Hst, occ_dones. lia.
    + eexists. split; [reflexivity|]. split; [|etransitivity; [exact L1|by etransitivity]]. revert H3. apply running_ext. intros r.
      unfold spend, started, nothing. fold b. unfold a at 1. rewrite dones_app, !occ_app, !occ_cons, occ_nil.
      rewrite (proj2 (Nat.ltb_lt 0 a) Ha), (proj2 (Nat.ltb_lt 0 b) Lb). cbn [Nat.add]. lia.
  - assert (b = O) as E0 by lia. eexists. split; [reflexivity|].
    split; [|etransitivity; [exact L1|etransitivity; [exact L2|apply lays_post]]].
    apply (post_spec _ _ _ [JReady u]) in H2. apply (running_less _ (b + n)); [lia|]. revert H2. apply running_ext. intros r.
    unfold spend, started, nothing. unfold a at 1. rewrite dones_app, !occ_app, E0. cbn [flat_map res_job app].
    unfold blks, dones. cbn [seq fmap list_fmap]. rewrite !occ_cons, !occ_nil.
    rewrite (proj2 (Nat.ltb_lt 0 a) Ha). cbn [Nat.ltb Nat.leb]. lia.
Qed.

(** ** The next chunk *)

Lemma register_memory m : memory_ok m_channelId m ->
  registerChunk m_channelId m = Throw MemoryInitException \/
  exists k m', registerChunk m_channelId m = Ret (k, m') /\ memory_ok m_channelId m' /\ status_of m k = 0 /\
    (forall c, status_of m' c = status_of m c + one k c) /\
    (forall c, c <> k -> chunk_at m_channelId c m' = chunk_at m_channelId c m).
Proof.
  intros Hm. pose proof Hm as (ch & E & H). destruct (registerChunk_total m_channelId ch m E) as [(k & m' & Er)|Er]; [right|by left].
  exists k, m'. split; [done|]. destruct (registerChunk_ret _ _ _ _ Er) as ((x & Hx & Es) & _ & _ & Ho).
  destruct (on_chunk_ok m_channelId (fun _ => Ret (mkChunk [] [] false 1)) k m x (mkChunk [] [] false 1) Hm Hx eq_refl)
    as (m1 & Em & Hm1 & Hst & _); [by constructor|].
  assert (m1 = m') as <-.
  { unfold registerChunk in Er. outcome_inv. destruct (find_index _ _) as [i|]; [|done]. outcome_inv. congruence. }
  split; [done|]. assert (status_of m k = 0) as E0 by (unfold OutputResources.status_of; by rewrite Hx).
  split; [done|]. split; [|intros c N; apply Ho; congruence]. intros c. rewrite Hst, Es. cbn. lia.
Qed.

Lemma updateChunkId_spec n own w : running (S n) own w ->
  exists m o, updateChunkId m_channelId w = Ret (is_valid o, set_chunkId o (set_memory m w)) /\
    running n (gain (res_current (m_chunkId w)) own) (set_chunkId o (set_memory m w)) /\
    (forall c x, o <> Some c -> chunk_at m_channelId c m = Ret x -> chunk_at m_channelId c (w_memory w) = Ret x) /\
    (o = None -> m = w_memory w).
Proof.
  intros H. unfold updateChunkId. destruct (register_memory _ (s_memory _ _ (r_sound _ _ _ _ H))) as [->|(k & m & -> & Hm & E0 & Hst & Ho)].
  - exists (w_memory w), None. cbn. split; [by destruct w|]. split; [|by split].
    apply (running_less _ (S n)); [lia|]. destruct H as [Sd B R]. constructor; [by destruct Sd|intros r; specialize (B r)|done].
    unfold_balance. cbn in *. rewrite occ_nil. lia.
  - exists m, (Some k). cbn. split; [done|]. split.
    + destruct H as [Sd B R]. constructor.
      * destruct Sd. constructor; cbn; try done. intros c [= <-]. rewrite Hst, E0, one_same. lia.
      * intros r. specialize (B r). unfold_balance. cbn in *. rewrite occ_cons, occ_nil.
        destruct r as [c| | | |]; rewrite ?(one_other _ (RChunk k)) by done; [|lia..]. rewrite Hst, one_chunk, one_comm. lia.
      * intros c. cbn. rewrite Hst. pose proof (R c). unfold one. case_decide; lia.
    + split; [|done]. intros c x N Hx. rewrite Ho in Hx; [done|]. congruence.
Qed.

(** ** Making room for the next chunk *)

Lemma drop_oldest_spec q w : (forall c, c ∈ q -> 0 < status_of (w_memory w) c) ->
  exists r, drop_oldest m_channelId q w = Ret r /\ match r with Some (c, q') => q ≡ₚ c :: q' | None => True end.
Proof.
  induction q as [|c q IH]; intros H; [by exists None|]. cbn [drop_oldest].
  destruct (isEos_ret m_channelId c w (H c ltac:(by left))) as (eos & ->). cbn [mbind outcome_bind].
  destruct eos; cbn [negb]; [|by exists (Some (c, q))].
  destruct IH as (r & -> & Hr); [intros; apply H; by right|]. cbn [mbind outcome_bind].
  destruct r as [[c' q']|]; [|by exists None]. exists (Some (c', c :: q')). split; [done|]. rewrite Hr. apply perm_swap.
Qed.

Lemma occ_perm `{EqDecision A} (x : A) l l' : l ≡ₚ l' -> occ x l = occ x l'.
Proof. induction 1; rewrite ?occ_cons; lia. Qed.

Lemma queue_length_malter f k i l : unique_keys l -> mfind k l = Some i ->
  (queue_length (malter f k l) + length (i_queuedChunks i) = queue_length l + length (i_queuedChunks (f i)))%nat.
Proof.
  unfold queue_length, unique_keys. induction l as [|[k' i'] l IH]; intros U E; [done|]. cbn in *.
  inversion_clear U as [|? ? Nk Ul]. destruct (String.eqb_spec k k') as [->|N].
  - injection E as ->. cbn. assert (malter f k' l = l) as ->; [|lia].
    clear -Nk. induction l as [|[k i'] l IH]; [done|]. cbn in *. rewrite elem_of_cons in Nk.
    destruct (String.eqb_spec k' k); [tauto|]. by rewrite IH by tauto.
  - cbn. specialize (IH Ul E). lia.
Qed.

(** The number of chunks in the queues *)
Definition queued (w : world) : nat :=
  queue_length (m_registeredCopyInputs w) + queue_length (m_registeredSharedInputs w) +
  length (m_sharedLoadBalancedQueuedChunks w).

(** Dropping a chunk *)
Record drops (w w' : world) : Prop := {
  o_phase : w_phase w' = w_phase w; o_chunkId : m_chunkId w' = m_chunkId w;
  o_works : forall u, works u w w'; o_queued : (queued w' < queued w)%nat
}.

Lemma dropIndividualQueues_spec n d ins w :
  running n nothing w -> (forall id info, (id, info) ∈ ins -> mfind id (inputs d w) = Some info) ->
  exists r, dropIndividualQueues m_channelId d ins w = Ret r /\
    match r with Some w' => running n nothing w' /\ drops w w' | None => True end.
Proof.
  intros H Hi. induction ins as [|[id info] ins IH]; [by exists None|]. cbn [dropIndividualQueues].
  pose proof (Hi id info ltac:(by left)) as Hid.
  assert (forall c, occ c (i_queuedChunks info) <= spare m_channelId w c) as Hq by (intros; by apply (queued_status _ n _ (d, id))).
  destruct (drop_oldest_spec (i_queuedChunks info) w) as (r & -> & Hr).
  { intros c Hc. apply spare_status. specialize (Hq c). apply occ_elem in Hc. lia. }
  cbn [mbind outcome_bind]. destruct r as [[c q]|]; [|apply IH; intros; apply Hi; by right].
  destruct (unregister_spec _ n _ c w H) as (m & -> & H1 & K).
  { specialize (Hq c). rewrite (occ_perm _ _ _ Hr) in Hq. by apply cons_status in Hq. }
  cbn [mbind outcome_bind]. eexists. split; [reflexivity|]. split.
  - apply (change_queue _ _ _ (with_queue q) (d, id) info _ (fun i => conj eq_refl (conj eq_refl eq_refl))) in H1; [|by destruct d].
    revert H1. apply running_ext. intros r. unfold spend, nothing, res_queue. cbn.
    rewrite (occ_perm r (RChunk <$> i_queuedChunks info) (RChunk <$> (c :: q))) by by rewrite Hr.
    cbn. rewrite !occ_cons, occ_nil. lia.
  - assert (forall l i, unique_keys l -> mfind id l = Some i -> i_queuedChunks i ≡ₚ c :: q ->
      (queue_length (malter (with_queue q) id l) < queue_length l)%nat) as Hlt.
    { intros l i U E P. pose proof (queue_length_malter (with_queue q) _ _ _ U E) as L. rewrite P in L. cbn in L. lia. }
    destruct H as [Sd _ _]. constructor; [by destruct d..| |].
    + intros u. apply works_same; try (by destruct d); [|destruct d; by left].
      etransitivity; [by apply delivers_memory|]. destruct d; by apply delivers_same.
    + unfold queued. destruct d; cbn -[queue_length] in *.
      * pose proof (Hlt _ _ (s_shared _ _ Sd) Hid Hr). lia.
      * pose proof (Hlt _ _ (s_copy _ _ Sd) Hid Hr). lia.
Qed.

(** ensureValidChunkId has a chunk or sleeps. *)
Definition settled_phase (w : world) : Prop :=
  (w_phase w = Idle /\ is_Some (m_chunkId w)) \/ (w_phase w = Sleeping /\ m_chunkId w = None).

Lemma rest_spec n p own w : running n own w -> res_phase (w_phase w) = [] -> res_phase p = [] ->
  running n own (set_phase p w) /\ forall u, works u w (set_phase p w).
Proof.
  intros [Sd B R] E E'. split.
  - constructor; [by destruct Sd|intros r; specialize (B r)|done]. unfold_balance. cbn in *. rewrite E in B. by rewrite E'.
  - intros u. apply works_same; first [done|by apply delivers_same|by left].
Qed.

Lemma ensureValidChunkId_spec fuel n w :
  (queued w < fuel)%nat -> running (S n) nothing w -> res_phase (w_phase w) = [] ->
  exists w', ensureValidChunkId m_channelId fuel w = Ret w' /\ running n nothing w' /\ (forall u, works u w w') /\ settled_phase w'.
Proof.
  revert w. induction fuel as [|fuel IH]; intros w Hf H Hp; [lia|]. cbn [ensureValidChunkId].
  assert (forall w1, drops w w1 -> running (S n) nothing w1 ->
    exists w', ensureValidChunkId m_channelId fuel w1 = Ret w' /\ running n nothing w' /\ (forall u, works u w w') /\ settled_phase w') as Next.
  { intros w1 D H1. destruct (IH w1) as (w' & E & H' & K & P); [|done|by rewrite (o_phase _ _ D)|].
    - pose proof (o_queued _ _ D). lia.
    - exists w'. split_and!; try done. intros u. etransitivity; [apply D|apply K]. }
  destruct (m_chunkId w) as [c|] eqn:Ec.
  { destruct (rest_spec n Idle nothing w) as [Hr K]; [apply (running_less _ (S n)); [lia|done]|done|done|].
    exists (set_phase Idle w). split_and!; try done. left. split; [done|]. by exists c. }
  destruct (updateChunkId_spec n nothing w H) as (m & o & -> & H1 & Ho & Hn). cbn [mbind outcome_bind]. rewrite Ec in H1.
  destruct o as [k|]; cbn [is_valid].
  { destruct (rest_spec n Idle nothing (set_chunkId (Some k) (set_memory m w))) as [Hr K]; [|done|done|].
    - revert H1. apply running_ext. intros r. unfold gain. cbn. rewrite occ_nil. lia.
    - eexists. split; [reflexivity|]. split; [done|]. split; [|left; split; [done|by exists k]].
      intros u. etransitivity; [|apply K]. apply works_same; try done; [|by left].
      constructor; [|done|done|exists []; rewrite app_nil_r; split_and!; [done|done|by left]].
      intros c x (Hc & Hx & Hs). exists x. split; [|done]. split_and!; [by rewrite Ec|by apply Ho|done]. }
  rewrite (Hn eq_refl). replace (set_chunkId None (set_memory (w_memory w) w)) with w by (rewrite <- Ec; by destruct w).
  assert (forall d id info, (id, info) ∈ inputs d w -> mfind id (inputs d w) = Some info) as Hf'.
  { intros d id info. apply mfind_elem. destruct d; apply H. }
  destruct (dropIndividualQueues_spec (S n) Copy _ w H (Hf' Copy)) as (r & Er & Hr). cbn [inputs] in Er. rewrite Er. clear Er. cbn [mbind outcome_bind].
  destruct r as [w1|]; [by destruct Hr; apply Next|].
  destruct (dropIndividualQueues_spec (S n) Shared _ w H (Hf' Shared)) as (r & Er & Hr'). cbn [inputs] in Er. rewrite Er. clear Er. cbn [mbind outcome_bind].
  destruct r as [w1|]; [by destruct Hr'; apply Next|].
  pose proof (fun c => sharedQueue_status _ (S n) c w H) as Hq.
  destruct (drop_oldest_spec (m_sharedLoadBalancedQueuedChunks w) w) as (r & -> & Hr2).
  { intros c Hc. apply spare_status. specialize (Hq c). apply occ_elem in Hc. lia. }
  cbn [mbind outcome_bind]. destruct r as [[c q]|].
  - destruct (unregister_spec _ (S n) _ c w H) as (m' & -> & H2 & K).
    { specialize (Hq c). rewrite (occ_perm _ _ _ Hr2) in Hq. by apply cons_status in Hq. }
    cbn [mbind outcome_bind]. apply Next.
    + constructor; [done..| |].
      * intros u. apply works_same; try done; [|by left]. etransitivity; [by apply delivers_memory|by apply delivers_same].
      * unfold queued. cbn -[queue_length]. rewrite Hr2. cbn. lia.
    + destruct H2 as [Sd2 B2 R2]. constructor; [by destruct Sd2|intros r; specialize (B2 r)|done]. unfold_balance. cbn in *.
      rewrite (occ_perm r (RChunk <$> m_sharedLoadBalancedQueuedChunks w) (RChunk <$> (c :: q))) in B2 by by rewrite Hr2.
      cbn in B2. rewrite !occ_cons, occ_nil in B2. lia.
  - destruct (rest_spec n Sleeping nothing w) as [Hs K]; [apply (running_less _ (S n)); [lia|done]|done|done|].
    eexists. split; [reflexivity|]. split; [done|]. split; [done|by right].
Qed.

Lemma ensure_spec n w : running (S n) nothing w -> res_phase (w_phase w) = [] ->
  exists w', ensure m_channelId w = Ret w' /\ running n nothing w' /\ (forall u, works u w w') /\ settled_phase w'.
Proof. apply ensureValidChunkId_spec. unfold queued. lia. Qed.

(** ** The update under the lock *)

(** The common queue takes the chunk. *)
Lemma queue_shared_spec n u c safe (queue : bool) w :
  running (S n) nothing w -> w_phase w = Locking u c safe ->
  exists w', (if queue then w ← incrementUsage m_channelId c w; Ret (set_sharedQueue (m_sharedLoadBalancedQueuedChunks w ++ [c]) w)
      else Ret w) = Ret w' /\ running n nothing w' /\ lays u w w' /\ still w w'.
Proof.
  intros H Hp. destruct queue; [|exists w; split_and!; try done; by apply (running_less _ (S n)); [lia|]].
  destruct (incrementUsage_spec _ _ _ c w H ltac:(by eapply locking_spare)) as (m & -> & H1 & K).
  cbn [mbind outcome_bind]. eexists. split; [reflexivity|]. split_and!; try done.
  - destruct H1 as [Sd B R]. constructor; [by destruct Sd| |done]. count B.
  - etransitivity; [by apply lays_memory|]. constructor; [done..|]. apply works_same; first [done|by apply delivers_same|by left].
Qed.


Record plan_ok (w : world) (l : plan) : Prop := {
  n_send : Forall (registered w) (p_toSend l);
  n_queue : Forall (registered w) (p_toQueue l);
  n_block : NoDup (p_toBlock l).*2
}.
Definition plan_size (l : plan) : nat := length (p_toSend l) + length (p_toQueue l) + length (p_toBlock l).

Lemma distribute_plan_spec n u c safe s l queue block up w :
  running (plan_size l + 3 + n) nothing w -> w_phase w = Locking u c safe -> plan_ok w l ->
  w_updates w !! u = Some up -> u_doneFlags up = [] -> u_blockFlags up = [] -> blocks w = [] ->
  exists w', distribute_plan m_channelId u c s l queue block w = Ret w' /\ running n nothing w' /\ works u w w' /\ settled_phase w'.
Proof.
  intros H Hp [Hs Hq Hb] Eu Ed Eb Hbl. unfold distribute_plan, plan_size in *.
  set (g := negb s && _). assert (exists w1, (if g then on_memory (assureAllDataIsCopied m_channelId c) w else Ret w) = Ret w1 /\
    running (plan_size l + 3 + n) nothing w1 /\ lays u w w1 /\ still w w1) as (w1 & -> & H1 & L1 & Z1).
  { destruct g; [|by exists w]. destruct (assure_spec _ _ _ c w H) as (m & -> & H1 & K);
      [apply spare_status; by eapply locking_spare|]. eexists. split; [reflexivity|]. split_and!; try done. by apply lays_memory. }
  cbn [mbind outcome_bind]. clearbody g. unfold plan_size in H1.
  destruct (queue_all_spec (length (p_toSend l) + length (p_toBlock l) + 3 + n) u c safe (p_toQueue l) w1) as (w2 & -> & H2 & L2 & Z2);
    [eapply running_less; [|exact H1]; lia|by rewrite (l_phase _ _ _ L1)|eapply Forall_impl; [exact Hq|]; by apply z_registered|].
  cbn [mbind outcome_bind].
  destruct (queue_shared_spec (length (p_toSend l) + length (p_toBlock l) + 2 + n) u c safe queue w2) as (w3 & -> & H3 & L3 & Z3);
    [eapply running_less; [|exact H2]; lia|by rewrite (l_phase _ _ _ L2), (l_phase _ _ _ L1)|].
  cbn [mbind outcome_bind].
  assert (still w w3) as Z by (etransitivity; [exact Z1|by etransitivity]).
  assert (lays u w w3) as L by (etransitivity; [exact L1|by etransitivity]).
  destruct (send_and_block_spec (S n) u c safe l block s up w3) as (w4 & -> & H4 & L4);
    [eapply running_less; [|exact H3]; lia|by rewrite (l_phase _ _ _ L)|by rewrite (z_updates _ _ Z)|done|done
    |by rewrite (z_blocks _ _ Z)|eapply Forall_impl; [exact Hs|]; by apply z_registered|done|].
  cbn [mbind outcome_bind]. assert (w_phase w4 = Locking u c safe) as Hp4 by by rewrite (l_phase _ _ _ L4), (l_phase _ _ _ L).
  destruct (unregister_spec _ _ _ c w4 H4) as (m & -> & H5 & K5).
  { eapply locking_spare; [exact H4|exact Hp4|]. unfold spend. rewrite !occ_cons, occ_nil, !one_other by done. unfold nothing. lia. }
  cbn [mbind outcome_bind]. destruct (ensure_spec n (set_phase Sleeping (set_memory m w4))) as (w6 & -> & H6 & K6 & P6); [|done|].
  { destruct H5 as [Sd B R]. constructor; [by destruct Sd|intros r; specialize (B r)|done]. unfold_balance. cbn in *.
    rewrite Hp4 in B. cbn in B. rewrite !occ_cons, !occ_nil in *. lia. }
  exists w6. split_and!; try done. etransitivity; [apply L|]. etransitivity; [apply L4|]. etransitivity; [|apply K6].
  etransitivity; [apply (lays_memory u m w4 K5)|]. apply works_same; first [done|by apply delivers_same|by left].
Qed.

Lemma submseteq_NoDup {A} (l k : list A) : NoDup k -> l ⊆+ k -> NoDup l.
Proof. intros N [l' E]%submseteq_Permutation. rewrite E in N. by apply NoDup_app in N as [? _]. Qed.

Lemma plan_extends w l l' :
  sound m_channelId w ->
  extends Copy (m_registeredCopyInputs w).*1 (mkPlan [] [] []) l -> extends Shared (m_registeredSharedInputs w).*1 l l' ->
  plan_ok w l' /\ (plan_size l' <= length (m_registeredCopyInputs w) + length (m_registeredSharedInputs w))%nat.
Proof.
  intros Sd (s1 & q1 & b1 & Es1 & Eq1 & Eb1 & H1) (s2 & q2 & b2 & Es2 & Eq2 & Eb2 & H2). cbn in *.
  rewrite Es1 in Es2. rewrite Eq1 in Eq2. rewrite Eb1 in Eb2. cbn in *.
  pose proof (s_disjoint _ _ Sd) as D. pose proof (s_copy _ _ Sd) as Uc. pose proof (s_shared _ _ Sd) as Us. unfold unique_keys in *.
  assert (forall x, x ∈ s1 ++ q1 ++ b1 -> x ∈ (m_registeredCopyInputs w).*1) as In1 by (intros x Hx; by eapply elem_of_submseteq).
  assert (forall x, x ∈ s2 ++ q2 ++ b2 -> x ∈ (m_registeredSharedInputs w).*1) as In2 by (intros x Hx; by eapply elem_of_submseteq).
  assert (forall a b, (forall x, x ∈ a -> x ∈ s1 ++ q1 ++ b1) -> (forall x, x ∈ b -> x ∈ s2 ++ q2 ++ b2) ->
    Forall (registered w) ((pair Copy <$> a) ++ (pair Shared <$> b))) as Reg.
  { intros a b Ha Hb. apply Forall_app. split; apply Forall_fmap, Forall_forall; intros x Hx; apply registered_keys; cbn; auto. }
  split; [constructor|].
  - rewrite Es2. apply Reg; intros x Hx; set_solver.
  - rewrite Eq2. apply Reg; intros x Hx; set_solver.
  - rewrite Eb2, fmap_app, <- !list_fmap_compose. cbn.
    assert (forall l : list string, (fun x => x) <$> l = l) as Eid by (intros l0; apply list_fmap_id).
    change (NoDup (((fun x => x) <$> b1) ++ ((fun x => x) <$> b2))). rewrite !Eid. apply NoDup_app. split_and!.
    + pose proof (submseteq_NoDup _ _ Uc H1) as N. rewrite !NoDup_app in N. tauto.
    + intros x Hx Hx'. apply (D x); [apply In2|apply In1]; set_solver.
    + pose proof (submseteq_NoDup _ _ Us H2) as N. rewrite !NoDup_app in N. tauto.
  - unfold plan_size. rewrite Es2, Eq2, Eb2, !length_app, !length_fmap.
    apply submseteq_length in H1, H2. rewrite !length_app, !length_fmap in *. lia.
Qed.

Lemma prepared_spec n own u S w : running n own w ->
  running n own (set_copyNext S w) /\ lays u w (set_copyNext S w) /\
  forall s, running n own (set_shareNext s (set_copyNext S w)) /\ lays u w (set_shareNext s (set_copyNext S w)).
Proof.
  intros [Sd B R]. split_and!; [constructor; [by destruct Sd|same B|done]| |intros s; split; [constructor; [by destruct Sd|same B|done]|]].
  all: constructor; [done..|]; apply works_same; first [done|by apply delivers_same|by left].
Qed.

Lemma asyncUpdateNoWait_locked_spec n u c s up w :
  running (length (m_registeredCopyInputs w) + length (m_registeredSharedInputs w) + 3 + n) nothing w ->
  w_phase w = Locking u c s -> w_updates w !! u = Some up -> u_doneFlags up = [] -> u_blockFlags up = [] -> blocks w = [] ->
  exists w', asyncUpdateNoWait_locked m_channelId m_onNoSharedInputChannelAvailable u c s w = Ret w' /\
    running n nothing w' /\ works u w w' /\ settled_phase w'.
Proof.
  intros H Hp Eu Ed Eb Hb. unfold asyncUpdateNoWait_locked. pose proof (r_sound _ _ _ _ H) as Sd.
  assert (0 < status_of (w_memory w) c) as Hs by (apply spare_status; by eapply locking_spare).
  destruct (asyncPrepareCopy_spec c (m_registeredCopyInputs w) (mkPlan [] [] []) w Hs (s_slowness _ _ Sd)) as (S & l & -> & X1).
  destruct (asyncPrepareDistribute_spec c l (set_copyNext S w) Hs) as (sn & l' & queue & block & -> & X2 & _).
  destruct (plan_extends w l l' Sd X1 X2) as [Pok Psz].
  destruct (prepared_spec _ _ u S w H) as (_ & _ & Hsn). destruct (Hsn sn) as [H2 L2].
  destruct (distribute_plan_spec n u c s s l' queue block up (set_shareNext sn (set_copyNext S w))) as (w' & E & H' & K & P);
    [eapply running_less; [|exact H2]; lia|done|by destruct Pok; constructor|done..|].
  exists w'. split_and!; try done. etransitivity; [apply L2|exact K].
Qed.
End updates.
