(* ===== verification/OutputRun.v ===== *)
(** Runs of an output channel: every step keeps the balance and the order of the updates, none is
    undefined. *)

From Stdlib Require Import ZArith Lia Ascii String.
From stdpp Require Import base numbers list strings gmap.
From S2P Require Import Prelude Types Strings OrderedMap Hash HashAccess BinaryWriter BufferSet BinaryMulti StdMap Memory Messages OutputChannel OutputResources OutputUpdate.
Import Types.

Open Scope Z_scope.

#[local] Arguments occ : simpl never.
#[local] Arguments zsum : simpl never.
#[local] Arguments msum : simpl never.
#[local] Arguments status_of : simpl never.
#[local] Arguments held_by_flags : simpl never.
#[local] Arguments supply_updates : simpl never.
#[local] Arguments open_flags : simpl never.
#[local] Arguments flag_open : simpl never.

Section runs.
Context (m_channelId : nat) (m_onNoSharedInputChannelAvailable : string).
Context (policy_ok : slowness_ok m_onNoSharedInputChannelAvailable).

Abbreviation running := (running m_channelId).
Abbreviation status_of := (status_of m_channelId).
Abbreviation uses := (uses m_channelId).
Abbreviation says := (says m_channelId).
Abbreviation serves := (serves m_channelId).

(** ** Invariant *)

(** The update sends what is in the chunk. *)
Definition sends (up : update) (x : chunk) : Prop :=
  k_eos x = u_eos up /\ k_meta x = u_meta up /\ contents <$> k_data x = u_data up.

(** The message is one that the update is to send, in the form for the location that its receiver has
    given in a hello on this connection. *)
Definition from_update (hellos : list (input * nat * string)) (ups : list update) (s : sent) : Prop :=
  exists up location, ups !! s_update s = Some up /\ (s_to s, s_tcp s, location) ∈ hellos /\
    says (String.eqb location "local") (s_chunk s) (u_eos up) (u_meta up) (u_data up) (s_message s).

(** A write under way is that of a message, whose chunk still has what the update sends. *)
Definition written (w : world) (q : pending) : Prop :=
  exists s, s ∈ w_wire w /\ carries (w_hellos w) q s /\ w_content w !! p_chunk q = Some (s_update s).

(** The end of finalSignal's waiting has been called, or will be. *)
Definition final_done (w : world) : Prop :=
  forall u up, w_updates w !! u = Some up -> u_final up = true -> EWriteDone u ∈ w_log w.

Record tidy (w : world) : Prop := {
  i_free : w_free w = true -> forall u, S u = length (w_updates w) -> EReady u ∈ w_log w \/ EWriteDone u ∈ w_log w;
  i_blocks : forall b, b ∈ blocks w -> S (b_update b) = length (w_updates w);
  i_locking : forall u c s, w_phase w = Locking u c s -> S u = length (w_updates w) /\ blocks w = [] /\
    exists up, w_updates w !! u = Some up /\ u_doneFlags up = [] /\ u_blockFlags up = [];
  i_idle : w_phase w = Idle -> is_Some (m_chunkId w);
  i_sleeping : w_phase w = Sleeping -> m_chunkId w = None;
  i_signal : w_signal w = SignalRuns -> w_free w = true;
  i_final : forall u up, w_updates w !! u = Some up -> u_final up = true ->
    EWriteDone u ∈ w_log w \/ (S u = length (w_updates w) /\ w_signal w = SignalWaits);
  i_content : forall c x, uses w c x -> exists u up, w_content w !! c = Some u /\ w_updates w !! u = Some up /\ sends up x;
  i_wire : Forall (from_update (w_hellos w) (w_updates w)) (w_wire w);
  i_written : forall q, q ∈ w_pending w -> p_taken q = false -> written w q;
  i_lost : Forall (fun r => exists c, r = RChunk c) (w_lost w)
}.

Lemma sends_alike up x x' : sends up x -> alike x x' -> sends up x'.
Proof. intros (E & M & C) (E' & M' & C'). repeat split; congruence. Qed.
Lemma sends_retains up up' x : retains up up' -> sends up x -> sends up' x.
Proof. intros [_ E M D] (E' & M' & C'). repeat split; congruence. Qed.
Lemma evolve_retains up up' : evolve up up' -> retains up up'.
Proof. by intros []. Qed.

Lemma from_retains hellos hellos' ups ups' s : hellos ⊆ hellos' -> Forall2 retains ups ups' ->
  from_update hellos ups s -> from_update hellos' ups' s.
Proof.
  intros I H (up & location & Hu & Hl & Hs). destruct (Forall2_lookup_l _ _ _ _ _ H Hu) as (up' & Hu' & [_ E M D]).
  exists up', location. split_and!; [done|by apply I|]. by rewrite E, M, D.
Qed.

(** What is delivered comes from the updates. *)
Lemma tidy_content w w' :
  tidy w -> delivers m_channelId w w' -> Forall2 retains (w_updates w) (w_updates w') ->
  (forall c x, uses w' c x -> exists u up, w_content w' !! c = Some u /\ w_updates w' !! u = Some up /\ sends up x) /\
  Forall (from_update (w_hellos w') (w_updates w')) (w_wire w') /\
  (forall q, q ∈ w_pending w' -> p_taken q = false -> written w' q).
Proof.
  intros T [K Co I (l & L & F & P)] R. split_and!.
  - intros c x Hx. destruct (K c x Hx) as (y & Hy & A). destruct (i_content _ T c y Hy) as (u & up & Hc & Hu & Hs).
    destruct (Forall2_lookup_l _ _ _ _ _ R Hu) as (up' & Hu' & Hr). exists u, up'. rewrite Co.
    split_and!; [done|done|]. eapply sends_retains; [exact Hr|]. by eapply sends_alike.
  - rewrite L. apply Forall_app. split; [eapply Forall_impl; [apply T|]; intros s; by apply from_retains|].
    eapply Forall_impl; [exact F|]. intros s (x & location & Hx & Hu & Hl & Hm).
    destruct (i_content _ T _ x Hx) as (u & up & Hc & Hup & Es & Em & Ed). apply (from_retains _ _ _ _ _ (reflexivity _) R).
    rewrite Hc in Hu. cbn in Hu. exists up, location. rewrite Hu. split_and!; [done|done|]. by rewrite <- Es, <- Em, <- Ed.
  - intros q Hq Ht. destruct (P q Hq Ht) as [Hq'|(s & Hs & C)].
    + destruct (i_written _ T q Hq' Ht) as (s & Hs & C & Hc). exists s. rewrite L, Co.
      split_and!; [apply elem_of_app; by left|by eapply carries_more|done].
    + exists s. split; [rewrite L; apply elem_of_app; by right|]. split; [done|].
      destruct (proj1 (Forall_forall _ _) F s Hs) as (x & location & Hx & Hu & _).
      destruct (i_content _ T _ x Hx) as (u & up & Hc & _). destruct C as (_ & <- & _). rewrite Co, Hu, Hc. done.
Qed.

Lemma evolves_retains ups ups' : evolves ups ups' -> Forall2 retains ups ups'.
Proof. intros H. exact (Forall2_impl _ _ _ _ H evolve_retains). Qed.

Lemma tidy_serves w w' : tidy w -> serves w w' -> tidy w'.
Proof.
  intros T V. pose proof (evolves_length _ _ (v_updates _ _ _ V)) as Len.
  destruct (v_log _ _ _ V) as (l & Log).
  destruct (tidy_content w w' T (v_delivers _ _ _ V) (evolves_retains _ _ (v_updates _ _ _ V))) as (C & W & P).
  constructor; [..|exact C|exact W|exact P|by rewrite (v_lost _ _ _ V); apply T].
  - intros Fr u Hu. destruct (v_free _ _ _ V) as [E|(_ & v & Hv & Hin)].
    + rewrite E in Fr. rewrite Len in Hu. rewrite Log, !elem_of_app. destruct (i_free _ T Fr u Hu); auto.
    + left. by replace u with v by congruence.
  - intros b Hb. rewrite Len. apply T. by apply (v_blocks _ _ _ V).
  - intros u c s Hp. rewrite (v_phase _ _ _ V) in Hp. destruct (i_locking _ T u c s Hp) as (Hu & Hb & up & Hup & Ed & Eb).
    split; [congruence|]. split.
    + destruct (blocks w') as [|b l'] eqn:E; [done|]. assert (b ∈ blocks w) as Hin by (apply (v_blocks _ _ _ V); rewrite E; by left).
      rewrite Hb in Hin. inversion Hin.
    + destruct (Forall2_lookup_l _ _ _ _ _ (v_updates _ _ _ V) Hup) as (up' & Hup' & Ev). exists up'. split; [done|].
      pose proof (e_done _ _ Ev) as L1. pose proof (e_block _ _ Ev) as L2. rewrite Ed in L1. rewrite Eb in L2.
      by destruct (u_doneFlags up'), (u_blockFlags up').
  - rewrite (v_phase _ _ _ V), (v_chunkId _ _ _ V). apply T.
  - rewrite (v_phase _ _ _ V), (v_chunkId _ _ _ V). apply T.
  - rewrite (v_signal _ _ _ V). intros E. destruct (v_free _ _ _ V) as [->|(-> & _)]; [by apply T|done].
  - intros u up Hup Hf. destruct (Forall2_lookup_r _ _ _ _ _ (v_updates _ _ _ V) Hup) as (up0 & Hup0 & Ev).
    rewrite (e_final _ _ Ev) in Hf. rewrite Len, (v_signal _ _ _ V), Log, elem_of_app.
    destruct (i_final _ T u up0 Hup0 Hf); auto.
Qed.

(** ensureValidChunkId and what comes before it in an update *)
Lemma tidy_works w w' : tidy w -> (forall b, b ∈ blocks w' -> S (b_update b) = length (w_updates w)) ->
  (exists u, works m_channelId u w w') -> settled_phase w' -> tidy w'.
Proof.
  intros T Hb [u K] P. pose proof (Forall2_length _ _ _ (k_updates _ _ _ _ K)) as Len.
  destruct (tidy_content w w' T (k_delivers _ _ _ _ K) (k_updates _ _ _ _ K)) as (C & W & Pw).
  constructor; [..|exact C|exact W|exact Pw|by rewrite (k_lost _ _ _ _ K); apply T].
  - rewrite (k_free _ _ _ _ K), (k_log _ _ _ _ K), <- Len. apply T.
  - intros b Hin. rewrite <- Len. by apply Hb.
  - intros v c s E. destruct P as [[P _]|[P _]]; congruence.
  - intros E. destruct P as [[_ P]|[P _]]; [done|congruence].
  - intros E. destruct P as [[P _]|[_ P]]; [congruence|done].
  - rewrite (k_signal _ _ _ _ K), (k_free _ _ _ _ K). apply T.
  - intros v up Hup Hf. destruct (Forall2_lookup_r _ _ _ _ _ (k_updates _ _ _ _ K) Hup) as (up0 & Hup0 & Ev).
    rewrite (t_final _ _ Ev) in Hf. rewrite <- Len, (k_signal _ _ _ _ K), (k_log _ _ _ _ K). by apply (i_final _ T v up0).
Qed.

(** ** Handlers that are yet to be called *)

Lemma not_logged n own e w :
  running n own w -> 0 <= own (res_event e) -> 1 <= own (res_event e) + held_by_flags (res_event e) (w_updates w) ->
  e ∉ w_log w.
Proof.
  intros [_ B _] Ho H Hin. specialize (B (res_event e)).
  assert (1 <= occ (res_event e) (res_event <$> w_log w)) as Hl by by apply occ_elem, list_elem_of_fmap_2.
  assert (supply m_channelId (res_event e) w <= 1) as Hs.
  { unfold supply, OutputResources.supply_updates. destruct e; cbn; case_match; lia. }
  unfold holders, held_queues, held_handlers, held_writes, held_otherwise in B. holder_parts (res_event e) w. lia.
Qed.

Lemma own_supply n own r w : running n own w -> own r <= supply m_channelId r w.
Proof. intros [_ B _]. specialize (B r). unfold holders, held_queues, held_handlers, held_writes, held_otherwise in B. holder_parts r w. lia. Qed.

Lemma own_spare n own c w : running n own w -> own (RChunk c) <= spare m_channelId w c.
Proof.
  intros [_ B _]. unfold spare. rewrite (supply_chunk _ _ c _ B). unfold holders, held_queues, held_handlers, held_writes, held_otherwise.
  holder_parts (RChunk c) w. lia.
Qed.

Lemma open_done n u m own w : running n own w -> 0 <= own (RWriteDone u) -> 0 < supply m_channelId (RDone u m) w -> EWriteDone u ∉ w_log w.
Proof.
  intros H Ho Hs. destruct (supply_done_flag _ _ _ _ Hs) as (up & Eu & Ef). apply (not_logged _ _ (EWriteDone u) _ H Ho).
  cbn. unfold OutputResources.held_by_flags. rewrite Eu, (open_flags_at _ _ Ef). lia.
Qed.
Lemma open_block n u m own w : running n own w -> 0 <= own (RReady u) -> 0 < supply m_channelId (RBlock u m) w -> EReady u ∉ w_log w.
Proof.
  intros H Ho Hs. destruct (supply_block_flag _ _ _ _ Hs) as (up & Eu & Ef). apply (not_logged _ _ (EReady u) _ H Ho).
  cbn. unfold OutputResources.held_by_flags. rewrite Eu, (open_flags_at _ _ Ef). lia.
Qed.

(** When the next update may come, nothing is blocked. *)
Lemma free_blocks n w : running n nothing w -> tidy w -> w_free w = true -> blocks w = [].
Proof.
  intros H T Fr. destruct (blocks w) as [|b l] eqn:E; [done|]. assert (b ∈ blocks w) as Hb by (rewrite E; by left).
  pose proof (i_blocks _ T b Hb) as Hu. pose proof (unblock_facts _ _ _ _ H Hb) as Hr.
  assert (forall r, r ∈ res_unblock b -> 0 < supply m_channelId r w) as Hr'.
  { intros r Hin. specialize (Hr r Hin). pose proof (occ_nonneg r (res_current (m_chunkId w))). lia. }
  destruct (i_free _ T Fr _ Hu) as [L|L]; exfalso; revert L.
  - eapply open_block; [exact H|done|apply Hr'; right; by left].
  - eapply open_done; [exact H|done|apply Hr'; right; right; by left].
Qed.

(** ** Completion *)

Lemma tidy_flags w ups : tidy w -> evolves (w_updates w) ups -> tidy (set_updates ups w).
Proof.
  intros T E. apply (tidy_serves w); [done|]. constructor; try done; [by apply delivers_same|exists []; by rewrite app_nil_r|by left].
Qed.

Lemma tidy_writeDone u w w' :
  tidy w -> call_writeDone u w = Ret w' -> EWriteDone u ∉ w_log w -> tidy w' /\ w_lost w' = w_lost w.
Proof.
  intros T E Hn. unfold call_writeDone in E. destruct (w_updates w !! u) as [up|] eqn:Hu; [|done]. injection E as <-.
  split; [|by repeat case_match].
  assert (u_final up = true -> S u = length (w_updates w)) as Hf.
  { intros Hf. by destruct (i_final _ T u up Hu Hf) as [|[? _]]. }
  set (w1 := set_log (w_log w ++ [EWriteDone u]) w). unfold is_last. cbn [w1 set_log w_updates].
  assert (tidy (if Nat.eqb (S u) (length (w_updates w)) then set_free true w1 else w1)) as T1.
  { destruct T. destruct (Nat.eqb_spec (S u) (length (w_updates w))) as [El|Nl]; constructor; try done; cbn;
      setoid_rewrite elem_of_app; intros.
    - right. right. replace u0 with u by congruence. by left.
    - destruct (i_final0 u0 up0); auto.
    - destruct (i_free0 ltac:(done) u0); auto.
    - destruct (i_final0 u0 up0); auto. }
  destruct (u_final up) eqn:Ef; [|done]. rewrite (proj2 (Nat.eqb_eq _ _) (Hf eq_refl)) in *.
  destruct T1. constructor; try done. cbn in *. intros v up0 Hv Hfv. destruct (i_final0 v up0 Hv Hfv) as [|[Ev _]]; [by left|].
  left. specialize (Hf eq_refl). replace v with u by congruence. apply elem_of_app. right. by left.
Qed.

Lemma call_writeDone_spec n own u w :
  running n own w -> tidy w -> 1 <= own (RWriteDone u) ->
  exists w', call_writeDone u w = Ret w' /\ running n (spend [RWriteDone u] own) w' /\ tidy w' /\ w_lost w' = w_lost w.
Proof.
  intros H T Ho. pose proof (own_supply _ _ (RWriteDone u) _ H) as Hs. unfold supply, OutputResources.supply_updates in Hs.
  assert (exists up, w_updates w !! u = Some up) as [up Hu] by (apply lookup_lt_is_Some_2; destruct (Nat.ltb_spec u (length (w_updates w))); lia).
  assert (EWriteDone u ∉ w_log w) as Hn.
  { pose proof (held_by_flags_nonneg (RWriteDone u) (w_updates w)). apply (not_logged _ _ (EWriteDone u) _ H); cbn; lia. }
  assert (exists w', call_writeDone u w = Ret w') as [w' E] by (unfold call_writeDone; rewrite Hu; by eexists).
  exists w'. split; [done|]. split; [|by eapply tidy_writeDone]. revert E. unfold call_writeDone. rewrite Hu. intros [= <-].
  apply (running_log _ _ _ (EWriteDone u)) in H. repeat case_match; by repeat first [apply running_signal|apply running_free].
Qed.

Lemma call_done_spec n d w :
  running n (gain (res_done d) nothing) w -> tidy w ->
  exists w', call_done d w = Ret w' /\ running n nothing w' /\ tidy w' /\ w_lost w' = w_lost w.
Proof.
  intros H T. destruct d as [u m|]; cbn [call_done res_done] in *.
  2:{ exists w. by split_and!. }
  pose proof (own_supply _ _ (RDone u m) _ H) as Hs. unfold gain at 1 in Hs. rewrite occ_cons, occ_nil, one_same in Hs. unfold nothing in Hs.
  assert (EWriteDone u ∉ w_log w) as Hn.
  { eapply open_done; [exact H| |instantiate (1 := m); lia]. unfold gain. rewrite occ_cons, occ_nil, one_other by done. done. }
  destruct (singleWriteDone_spec _ n _ u m w H ltac:(lia)) as (w' & up & E & H' & Hu & Hw). cbv zeta in Hw.
  exists w'. split; [exact E|].
  assert (running n nothing w') as Hr by (revert H'; apply running_ext; intros r; unfold spend, gain; lia).
  set (up' := with_flags _ _ up) in Hw. set (w1 := set_updates _ w) in Hw.
  assert (tidy w1) as T1.
  { apply tidy_flags; [done|]. apply (evolves_set _ _ up); [done|]. by constructor; cbn; rewrite ?length_insert. }
  destruct (open_flags (u_doneFlags up')); [by subst w'|].
  destruct (tidy_writeDone u w1 w' T1 Hw Hn) as [T2 L2]. by split_and!.
Qed.

(** ** The begin of an update *)

Lemma supply_updates_new r ups up : u_doneFlags up = [] -> u_blockFlags up = [] ->
  supply_updates r (ups ++ [up]) = supply_updates r ups + occ r [RReady (length ups); RWriteDone (length ups)] /\
  held_by_flags r (ups ++ [up]) = held_by_flags r ups.
Proof.
  intros Ed Eb. assert (forall u, (ups ++ [up]) !! u = if decide (u = length ups) then Some up else ups !! u) as L.
  { intros u. destruct (lt_eq_lt_dec u (length ups)) as [[Hu| ->]|Hu].
    - rewrite lookup_app_l by done. case_decide; [lia|done].
    - rewrite lookup_app_r, Nat.sub_diag by done. by rewrite decide_True.
    - rewrite lookup_ge_None_2 by (rewrite length_app; cbn; lia). rewrite decide_False, lookup_ge_None_2 by lia. done. }
  assert (forall u v, one (RReady u) (RReady v) = if decide (u = v) then 1 else 0) as E1 by (intros; unfold one; repeat case_decide; congruence).
  assert (forall u v, one (RWriteDone u) (RWriteDone v) = if decide (u = v) then 1 else 0) as E2 by (intros; unfold one; repeat case_decide; congruence).
  rewrite !occ_cons, occ_nil. unfold OutputResources.supply_updates, OutputResources.held_by_flags. rewrite length_app. cbn [length].
  destruct r as [c|u m|u m|u|u]; rewrite ?L, ?E1, ?E2, ?(one_other _ (RReady _)), ?(one_other _ (RWriteDone _)) by done.
  - done.
  - split; [|done]. case_decide as D; [|lia]. subst u. rewrite Ed, lookup_ge_None_2 by done. done.
  - split; [|done]. case_decide as D; [|lia]. subst u. rewrite Eb, lookup_ge_None_2 by done. done.
  - split; [repeat (case_decide || case_match); rewrite ?Nat.ltb_lt, ?Nat.ltb_ge in *; lia|].
    case_decide; [subst; by rewrite Eb, lookup_ge_None_2|done].
  - split; [repeat (case_decide || case_match); rewrite ?Nat.ltb_lt, ?Nat.ltb_ge in *; lia|].
    case_decide; [subst; by rewrite Ed, lookup_ge_None_2|done].
Qed.

(** What the update finds in the current chunk *)
Lemma current_chunk n own c w : running n own w -> m_chunkId w = Some c ->
  exists x, chunk_at m_channelId c (w_memory w) = Ret x /\ k_status x = 1.
Proof.
  intros [Sd _ _] E. pose proof (s_current _ _ Sd c E) as Es. destruct (status_ret m_channelId (w_memory w) c ltac:(lia)) as (x & Hx & Hs).
  exists x. split; [done|]. lia.
Qed.

(** The state after a new update has been entered *)
Definition entered (up : update) (w : world) : world := set_free false (set_updates (w_updates w ++ [up]) w).

Lemma entered_spec n final x w :
  running n nothing w -> tidy w -> w_phase w = Idle -> w_free w = true -> final_done w -> (final = true -> w_signal w = SignalWaits) ->
  w_signal w <> SignalRuns ->
  let up := mkUpdate final [] [] (k_eos x) (k_meta x) (contents <$> k_data x) in
  running n (gain [RReady (length (w_updates w)); RWriteDone (length (w_updates w))] nothing) (entered up w) /\
  tidy (entered up w) /\ blocks (entered up w) = [] /\ w_updates (entered up w) !! length (w_updates w) = Some up.
Proof.
  intros H T Hp Fr Fd Hf Hr up. pose proof (free_blocks _ _ H T Fr) as Hb.
  assert (w_updates (entered up w) !! length (w_updates w) = Some up) as Hl.
  { cbn. by rewrite lookup_app_r, Nat.sub_diag. }
  assert (forall u up0, w_updates w !! u = Some up0 -> w_updates (entered up w) !! u = Some up0) as Hmono.
  { intros u up0 Hu. cbn. rewrite lookup_app_l; [done|]. by eapply lookup_lt_Some. }
  split; [|split; [|split; [exact Hb|exact Hl]]].
  - destruct H as [Sd B R]. constructor; [by destruct Sd|intros r; specialize (B r)|done]. unfold_balance. cbn in *.
    destruct (supply_updates_new r (w_updates w) up eq_refl eq_refl) as [-> ->]. lia.
  - destruct T. constructor; try done.
    + intros b. change (blocks (entered up w)) with (blocks w). rewrite Hb. intros Hin. inversion Hin.
    + intros u c s E. cbn in E. congruence.
    + intros u up0 Hu Hfu. cbn in Hu. apply lookup_app_Some in Hu as [Hu|[Hge Hu]]; [left; by apply (Fd u up0)|right].
      apply list_lookup_singleton_Some in Hu as [Hz <-]. split; [cbn; rewrite length_app; cbn; lia|by apply Hf].
    + intros c y Hx. destruct (i_content0 c y Hx) as (u & up0 & ? & ? & ?). exists u, up0. auto.
    + eapply Forall_impl; [exact i_wire0|]. intros s (up0 & location & Hu & Hs). exists up0, location. auto.
Qed.

(** The chunk of a write under way is not the current one. *)
Lemma pending_held (q : pending) w : q ∈ w_pending w -> p_taken q = false ->
  1 <= zsum (fun p => occ (RChunk (p_chunk q)) (res_pending p)) (w_pending w).
Proof.
  intros Hq Ht. pose proof (zsum_elem (fun p => occ (RChunk (p_chunk q)) (res_pending p)) _ _ (fun p => occ_nonneg _ _) Hq) as L.
  cbn in L. unfold res_pending at 1 in L. rewrite Ht, occ_app, occ_cons, one_same in L.
  pose proof (occ_nonneg (RChunk (p_chunk q)) []). pose proof (occ_nonneg (RChunk (p_chunk q)) (res_done (p_done q))). lia.
Qed.

Lemma pending_not_current n w c (q : pending) :
  running n nothing w -> m_chunkId w = Some c -> q ∈ w_pending w -> p_taken q = false -> p_chunk q <> c.
Proof.
  intros [Sd B _] Ec Hq Ht <-. pose proof (supply_chunk _ _ (p_chunk q) _ B) as E. rewrite (s_current _ _ Sd _ Ec) in E.
  pose proof (pending_held q w Hq Ht) as L. set (c := p_chunk q) in *.
  revert E. unfold nothing, holders, held_queues, held_handlers, held_writes, held_otherwise. holder_parts (RChunk c) w.
  rewrite Ec in *. cbn [res_current] in *. rewrite occ_cons, one_same in *. pose proof (occ_nonneg (RChunk c) []). lia.
Qed.

Lemma start_spec n final safe w :
  running (S n) nothing w -> tidy w -> w_phase w = Idle -> w_free w = true -> final_done w -> (final = true -> w_signal w = SignalWaits) ->
  w_signal w <> SignalRuns ->
  exists w', asyncUpdateNoWait_start m_channelId final safe w = Ret w' /\ running n nothing w' /\ tidy w' /\ w_lost w' = w_lost w.
Proof.
  intros H T Hp Fr Fd Hf Hr. destruct (i_idle _ T Hp) as [c Ec]. destruct (current_chunk _ _ _ _ H Ec) as (x & Hx & Es).
  unfold asyncUpdateNoWait_start, isEos, isEndOfStream, size, getMetaData, readChunk. rewrite Ec, Hx. cbn [mbind outcome_bind fmap outcome_fmap].
  set (up := mkUpdate _ _ _ _ _ _). fold (entered up w). set (u := length (w_updates w)).
  destruct (entered_spec _ final x w H T Hp Fr Fd Hf Hr) as (H1 & T1 & Hb & Hu). fold up u in H1, T1, Hb, Hu.
  set (w1 := entered up w) in *. destruct (_ && _).
  - eexists. split; [reflexivity|]. split; [|split; [|done]].
    + apply (post_spec _ _ _ [JReady u; JWriteDone u]) in H1. apply (running_less _ (S n)); [lia|]. revert H1.
      apply running_ext. intros r. unfold spend, gain. cbn. lia.
    + apply (tidy_serves w1); [done|]. serves_by_assignment.
  - destruct (updateChunkId_spec _ n _ w1 H1) as (m & o & -> & H2 & Ho & _). cbn [mbind outcome_bind].
    eexists. split; [reflexivity|]. change (m_chunkId w1) with (m_chunkId w) in H2. rewrite Ec in H2. split; [|split; [|done]].
    + destruct H2 as [Sd B R]. constructor; [by destruct Sd|intros r; specialize (B r)|done]. unfold_balance. cbn in *.
      rewrite Hp in B. cbn in B. rewrite !occ_cons, !occ_nil in *. lia.
    + destruct T1. constructor; try done.
      * intros u' c' s' [= <- <- <-]. split; [cbn; rewrite length_app; cbn; unfold u; lia|]. split; [exact Hb|]. by exists up.
      * intros c' x' (Hc & Hx' & Hs'). cbn in Hc, Hx'. apply Ho in Hx'; [|done]. change (w_memory w1) with (w_memory w) in Hx'.
        cbn. destruct (decide (c' = c)) as [->|N].
        -- exists u, up. rewrite lookup_insert_eq. split_and!; [done|exact Hu|]. rewrite Hx in Hx'. injection Hx' as <-. by repeat split.
        -- rewrite lookup_insert_ne by congruence. apply i_content0. split_and!; [|exact Hx'|done].
           change (m_chunkId w1) with (m_chunkId w). rewrite Ec. congruence.
      * intros q Hq Ht. destruct (i_written0 q Hq Ht) as (s & Hs & C & Hcs). exists s. split_and!; [done|done|]. cbn.
        rewrite lookup_insert_ne; [exact Hcs|]. apply not_eq_sym. by apply (pending_not_current _ _ _ _ H Ec).
Qed.

(** ** Changes of the current chunk *)

Lemma change_current n own c f w :
  running n own w -> m_chunkId w = Some c ->
  (forall x, chunk_ok x -> exists y, f x = Ret y /\ k_status y = k_status x /\ chunk_ok y) ->
  exists m, on_memory (on_chunk f m_channelId c) w = Ret (set_memory m w) /\ running n own (set_memory m w) /\
    serves w (set_memory m w).
Proof.
  intros H Ec Hf. destruct (current_chunk _ _ _ _ H Ec) as (x & Hx & Es). pose proof (s_memory _ _ (r_sound _ _ _ _ H)) as Hm.
  destruct (Hf x (memory_ok_chunk _ _ _ _ Hm Hx)) as (y & Hy & Esy & Oky).
  destruct (on_chunk_ok _ f c _ x y Hm Hx Hy Oky) as (m & Em & Hm' & Hst & _ & Ho & _).
  assert (forall c', status_of m c' = status_of (w_memory w) c') as Hst' by (intros c'; rewrite Hst; lia).
  exists m. unfold on_memory. rewrite Em. split; [done|]. split.
  - apply (running_memory _ n n own); [done|done| |done|lia|done]. intros c'. rewrite Hst'. lia.
  - apply serves_same; try done. constructor; [|done|done|exists []; rewrite app_nil_r; split_and!; [done|done|by left]].
    intros c' x' (Hc & Hx' & Hs'). exists x'. split; [|done]. split_and!; [exact Hc| |done].
    cbn in Hx', Hc. rewrite Ho in Hx'; [done|]. congruence.
Qed.

Lemma setEndOfStream_spec n own c w : running n own w -> m_chunkId w = Some c ->
  exists m, on_memory (setEndOfStream m_channelId c true) w = Ret (set_memory m w) /\ running n own (set_memory m w) /\
    serves w (set_memory m w).
Proof. intros H Ec. apply change_current; [done|done|]. intros x Hx. eexists. by split_and!. Qed.

Lemma write_spec n data metaData w : running n nothing w -> tidy w -> w_phase w = Idle -> serializable (VHash data) ->
  exists w', write m_channelId data metaData w = Ret w' /\ running n nothing w' /\ serves w w'.
Proof.
  intros H T Hp Hs. destruct (i_idle _ T Hp) as [c Ec]. destruct (save_multi_shape data (new_BufferSet false) Hs) as (bs & E & Set_ & _).
  unfold write. rewrite Ec.
  destruct (change_current n nothing c (fun k => Ret (mkChunk (k_data k ++ [bs]) (k_meta k ++ [metaData]) (k_eos k) (k_status k))) w H Ec)
    as (m & Em & H' & V).
  { intros x Hx. eexists. split; [reflexivity|]. split; [done|]. apply Forall_app. split; [exact Hx|by constructor]. }
  exists (set_memory m w). split; [|done]. unfold Memory.write. rewrite E. exact Em.
Qed.

(** ** Signals *)

Lemma tidy_signal g w : tidy w -> final_done w -> (g = SignalRuns -> w_free w = true) -> tidy (set_signal g w).
Proof. intros [] Fd Hg. constructor; try done. intros u up Hu Hf. left. by apply (Fd u up). Qed.

Lemma final_done_intro w : tidy w -> w_signal w <> SignalWaits -> final_done w.
Proof. intros T N u up Hu Hf. by destruct (i_final _ T u up Hu Hf) as [|[_ ?]]. Qed.

Lemma asyncSignalEndOfStream_spec n w :
  running (S n) nothing w -> tidy w -> may_update w = true ->
  exists w', asyncSignalEndOfStream m_channelId w = Ret w' /\ running n nothing w' /\ tidy w' /\ w_lost w' = w_lost w.
Proof.
  intros H T Hm. unfold may_update in Hm. destruct (w_phase w) eqn:Hp; try done. destruct (w_signal w) eqn:Hg; try done.
  assert (final_done w) as Fd by (apply final_done_intro; [done|congruence]).
  destruct (i_idle _ T Hp) as [c Ec]. destruct (current_chunk _ _ _ _ H Ec) as (x & Hx & Es).
  unfold asyncSignalEndOfStream, size. rewrite Ec, Hx. cbn [mbind outcome_bind]. destruct (0 <? _)%nat.
  - apply (start_spec n true false (set_signal SignalWaits w)); try done; [by apply running_signal|by apply tidy_signal].
  - destruct (setEndOfStream_spec _ _ c w H Ec) as (m & -> & H1 & V1). cbn [mbind outcome_bind].
    apply (start_spec n false true (set_memory m w)); try done; [by apply (tidy_serves w)|by rewrite (v_signal _ _ _ V1), Hg].
Qed.

Lemma finalSignal_spec n w :
  running (S n) nothing w -> tidy w -> w_phase w = Idle -> w_signal w = SignalRuns ->
  exists w', finalSignal m_channelId w = Ret w' /\ running n nothing w' /\ tidy w' /\ w_lost w' = w_lost w.
Proof.
  intros H T Hp Hg. assert (final_done w) as Fd by (apply final_done_intro; [done|congruence]).
  destruct (i_idle _ T Hp) as [c Ec]. unfold finalSignal. rewrite Ec.
  destruct (setEndOfStream_spec _ _ c w H Ec) as (m & -> & H1 & V1). cbn [mbind outcome_bind].
  apply (start_spec n false true (set_signal NoSignal (set_memory m w))); try done;
    [by apply running_signal|apply tidy_signal; [by apply (tidy_serves w)|done|done]|exact (i_signal _ T Hg)].
Qed.

(** ** Messages *)

(** The keys that onTcpChannelRead looks up *)
Lemma plain_paths : plain "reason" /\ plain "instanceId" /\ plain "memoryLocation" /\ plain "dataDistribution" /\
  plain "onSlowness" /\ plain "maxQueueLength".
Proof. repeat split; vm_compute; reflexivity. Qed.
Ltac plain := destruct plain_paths as (? & ? & ? & ? & ? & ?); match goal with H : ?P |- ?P => exact H end.

Lemma hello_info_answers tcp m : answers (hello_info tcp m).
Proof.
  unfold hello_info. repeat (apply answers_bind; [apply get_string_answers; plain|intros ? _]).
  rewrite has_plain by plain. cbn [mbind outcome_bind]. apply answers_bind; [|intros; exact I]. destruct (ahas _ m); [apply get_unsigned_answers; plain|exact I].
Qed.

Lemma hello_info_queue tcp m id d info : hello_info tcp m = Ret (id, d, info) -> i_queuedChunks info = [].
Proof. unfold hello_info. intros H. outcome_inv. done. Qed.

(** ** Other channels *)

Lemma on_chunk_channel f c k m m' i ch :
  on_chunk f c k m = Ret m' -> c <> i -> m !! i = Some ch -> m' !! i = Some ch.
Proof. intros H N E. apply on_chunk_ret in H as (ch' & x & y & _ & _ & _ & ->). by rewrite list_lookup_insert_ne. Qed.

Lemma other_call_channel c m m' ch :
  exec_call c m = Ret m' -> own_call m_channelId c = false -> m !! m_channelId = Some ch ->
  exists s, m' !! m_channelId = Some (mkChannel s (ch_chunks ch)).
Proof.
  assert (forall i, Nat.eqb i m_channelId = false -> i <> m_channelId) as Ne by (intros i; by rewrite Nat.eqb_neq).
  intros H Ho E. assert (m !! m_channelId = Some (mkChannel (ch_status ch) (ch_chunks ch))) as E' by by destruct ch.
  destruct c; cbn in H, Ho; try (apply Ne in Ho).
  { outcome_inv. destruct a as [i m1]. subst m'. apply registerChannel_ret in Ha as (ch2 & Ei & _ & -> & _). cbn [snd].
    destruct (decide (i = m_channelId)) as [->|N]; [|exists (ch_status ch); by rewrite list_lookup_insert_ne].
    exists 1. rewrite list_lookup_insert_eq by by eapply lookup_lt_Some. congruence. }
  all: exists (ch_status ch).
  1-3: unfold incrementChannelUsage, decrementChannelUsage, setChannelStatus in H; outcome_inv; by rewrite list_lookup_insert_ne.
  { outcome_inv. destruct a as [k m1]. subst m'. unfold registerChunk in Ha. outcome_inv. destruct (find_index _ _); [|done].
    outcome_inv. by eapply on_chunk_channel. }
  4: unfold Memory.write in H; outcome_inv.
  5: unfold writeChunk in H; case_match; [done|].
  all: by eapply on_chunk_channel.
Qed.

Lemma other_call_spec n c w : running n nothing w -> own_call m_channelId c = false -> answers (exec_call c (w_memory w)) ->
  exists w', unless_thrown w (on_memory (exec_call c) w) = Ret w' /\ running n nothing w' /\ serves w w'.
Proof.
  intros H Ho Ha. unfold on_memory. destruct (exec_call c (w_memory w)) as [m|e| |] eqn:E; try done; [|by exists w].
  pose proof (s_memory _ _ (r_sound _ _ _ _ H)) as (ch & Ech & Hch).
  destruct (other_call_channel c _ m ch E Ho Ech) as (s & Em).
  assert (forall k, chunk_at m_channelId k m = chunk_at m_channelId k (w_memory w)) as Hk.
  { intros k. unfold chunk_at, channel_at, at_. rewrite Em, Ech. done. }
  exists (set_memory m w). split; [done|]. split.
  - apply (running_memory _ n n nothing); [done| | |done|lia|done].
    + by exists (mkChannel s (ch_chunks ch)).
    + intros k. unfold OutputResources.status_of. rewrite Hk. lia.
  - apply serves_memory. intros k x. rewrite Hk. intros Hx Hs. by exists x.
Qed.

(** ** Steps *)

(** The policies that a hello message names are known. *)
Definition message_ok (message : hash) : Prop :=
  forall tcp id d info, hello_info tcp message = Ret (id, d, info) -> d = Copy -> slowness_ok (i_onSlowness info).

Definition valid (a : action) (w : world) : Prop :=
  match a with
  | Write data _ => serializable (VHash data)
  | Read _ _ message => message_ok message
  | OtherChannel c => answers (exec_call c (w_memory w))
  | _ => True
  end.

Definition reason_of (message : hash) : outcome string :=
  hasReason ← has "reason" k_defaultSep message;
  if hasReason : bool then get_string "reason" message else Ret ""%string.

(** The chunks in the queue of an input that says hello again *)
Definition leaks (a : action) (w : world) : list nat :=
  match a with
  | Read false tcp message =>
      if bool_decide (tcp ∈ w_alive w) then
        match reason_of message, hello_info tcp message with
        | Ret reason, Ret (id, _, _) =>
            if String.eqb reason "hello" then queue_of Shared id w ++ queue_of Copy id w else []
        | _, _ => []
        end
      else []
  | _ => []
  end.

(** What every step leads to *)
Definition leads (l : list nat) (w : world) (o : outcome world) : Prop :=
  exists w', o = Ret w' /\ running 0 nothing w' /\ tidy w' /\ w_lost w' = w_lost w ++ (RChunk <$> l).

Lemma leads_serves w w' : tidy w -> running 0 nothing w' -> serves w w' -> leads [] w (Ret w').
Proof.
  intros T H V. exists w'. split_and!; [done|done|by apply (tidy_serves w)|]. rewrite (v_lost _ _ _ V). cbn. by rewrite app_nil_r.
Qed.
Lemma leads_same w o : (exists w', o = Ret w' /\ running 0 nothing w' /\ tidy w' /\ w_lost w' = w_lost w) -> leads [] w o.
Proof. intros (w' & -> & H & T & L). exists w'. split_and!; [done..|]. rewrite L. cbn. by rewrite app_nil_r. Qed.
Lemma leads_from w0 w o : w_lost w0 = w_lost w -> leads [] w0 o -> leads [] w o.
Proof. intros E (w' & -> & H & T & L). exists w'. rewrite <- E. by split_and!. Qed.

Lemma serves_jobs l w : serves w (set_jobs l w).
Proof. serves_by_assignment. Qed.

(** A job that has been taken from the list *)
Lemma take_job n i j w : running n nothing w -> w_jobs w !! i = Some j ->
  running n (gain (res_job j) nothing) (set_jobs (delete i (w_jobs w)) w).
Proof.
  intros [Sd B R] E. constructor; [by destruct Sd|intros r; specialize (B r)|done]. unfold_balance. cbn in *.
  rewrite (zsum_delete _ _ _ _ E). lia.
Qed.
Lemma running_nil n w : running n (gain [] nothing) w -> running n nothing w.
Proof. apply running_ext. intros r. unfold gain. rewrite occ_nil. lia. Qed.

Lemma serves_ready u w : serves w (call_ready u w).
Proof.
  destruct (call_ready_free u w) as (F & U & S & L & Fr). constructor; try apply F; try done.
  - unfold call_ready. case_match; by apply delivers_same.
  - rewrite U. reflexivity.
  - by eexists.
  - destruct Fr as [->|[-> E]]; [by left|right]. split; [done|]. exists u. rewrite U, L. split; [done|]. apply elem_of_app. right. by left.
  - intros b. by rewrite (frame_blocks _ _ F).
Qed.

Lemma run_job_spec j w :
  running (length (m_registeredSharedInputs w)) (gain (res_job j) nothing) w -> tidy w -> leads [] w (run_job m_channelId j w).
Proof.
  intros H T. set (n := length _) in H. destruct j as [id|u|u|d|id tcp|tcp]; cbn [run_job res_job] in *.
  - apply running_nil in H. destruct (onInputAvailable_spec m_channelId 0 id w) as (w' & -> & H' & V); [by rewrite Nat.add_0_r|].
    by apply leads_serves.
  - apply leads_serves; [done| |apply serves_ready]. apply (call_ready_spec _ _ _ u), (running_less _ n 0) in H; [|lia].
    revert H. apply running_ext. intros r. unfold spend, gain. lia.
  - apply leads_same. destruct (call_writeDone_spec n _ u w H T) as (w' & -> & H' & T' & L).
    { unfold gain. rewrite occ_cons, one_same. pose proof (occ_nonneg (RWriteDone u) []). unfold nothing. lia. }
    exists w'. split_and!; try done. apply (running_less _ n); [lia|]. revert H'. apply running_ext. intros r. unfold spend, gain. lia.
  - apply leads_same. apply call_done_spec; [|done]. apply (running_less _ n); [lia|done].
  - apply running_nil in H. destruct (onInputAvailable_spec m_channelId 0 id w) as (w' & -> & H' & V); [by rewrite Nat.add_0_r|].
    cbn [mbind outcome_bind]. destruct (postpone_spec m_channelId 0 [JRead tcp] w' eq_refl H') as [H2 V2].
    apply leads_serves; [done|done|by etransitivity].
  - apply running_nil, (running_less _ n 0) in H; [|lia]. case_match; [by apply leads_serves|].
    destruct (onInputGone_spec m_channelId 0 (Some tcp) w H) as (w' & -> & H' & V). by apply leads_serves.
Qed.

Lemma post_read n j w : running n nothing w -> res_job j = [] -> running n nothing (post [j] w) /\ serves w (post [j] w).
Proof. intros H E. apply postpone_spec; [|done]. cbn. by rewrite E. Qed.

Lemma tidy_losing l w : tidy w -> tidy (losing l w).
Proof.
  intros []. constructor; try done. cbn. apply Forall_app. split; [done|]. apply Forall_fmap, Forall_forall. intros c _. by exists c.
Qed.

Lemma leads_throw e w : tidy w -> running 0 nothing w -> leads [] w (unless_thrown w (Throw e)).
Proof. intros T H. by apply leads_serves. Qed.

Lemma read_spec ec tcp message w : running 0 nothing w -> tidy w -> message_ok message ->
  leads (leaks (Read ec tcp message) w) w (unless_thrown w (onTcpChannelRead m_channelId ec tcp message w)).
Proof.
  intros H T Hm. unfold onTcpChannelRead, leaks. destruct ec; cbn [orb negb].
  { destruct (onInputGone_spec m_channelId 0 (if bool_decide (tcp ∈ w_alive w) then Some tcp else None) w H) as (w' & -> & H' & V).
    by apply leads_serves. }
  destruct (bool_decide (tcp ∈ w_alive w)); cbn [negb].
  2:{ destruct (onInputGone_spec m_channelId 0 None w H) as (w' & -> & H' & V). by apply leads_serves. }
  assert (forall j, res_job j = [] -> leads [] w (unless_thrown w (Ret (post [j] w)))) as Post.
  { intros j E. destruct (post_read 0 j w H E) as [H1 V1]. by apply leads_serves. }
  unfold reason_of. rewrite !has_plain by plain. cbn [mbind outcome_bind].
  assert (answers (if ahas "reason" message then get_string "reason" message else Ret ""%string)) as Ar
    by (case_match; [apply get_string_answers; plain|exact I]).
  destruct (if ahas "reason" message then _ else _) as [reason|e| |]; try done; cbn [mbind outcome_bind]; [|by apply leads_throw].
  pose proof (hello_info_answers tcp message) as Ah.
  destruct (String.eqb reason "hello").
  - destruct (hello_info tcp message) as [[[id d] info]|e| |] eqn:Eh; try done; cbn [mbind outcome_bind]; [|by apply leads_throw].
    destruct (register_spec m_channelId 0 id d info w H (hello_info_queue _ _ _ _ _ Eh) (Hm _ _ _ _ Eh)) as [H1 V1].
    destruct (post_read 0 (JHello id tcp) _ H1 eq_refl) as [H2 V2]. eexists. split; [reflexivity|]. split; [done|].
    assert (serves (losing (queue_of Shared id w ++ queue_of Copy id w) w) (post [JHello id tcp] (register id d info w))) as V by by etransitivity.
    split; [eapply tidy_serves; [|exact V]; by apply tidy_losing|by rewrite (v_lost _ _ _ V)].
  - replace (match hello_info tcp message with Ret (_, _, _) => [] | _ => [] end) with (@nil nat) by by destruct (hello_info tcp message) as [[[? ?] ?]|e| |].
    destruct (String.eqb reason "update"); [|by apply Post].
    destruct (ahas "instanceId" message); [|by apply Post].
    pose proof (get_string_answers "instanceId" message ltac:(plain)) as Ai.
    destruct (get_string "instanceId" message) as [id|e| |]; try done; [by apply Post|by apply leads_throw].
Qed.

(** *** Writes *)

Lemma serves_pending l w : (forall q, q ∈ l -> p_taken q = false -> q ∈ w_pending w) -> serves w (set_pending l w).
Proof. intros P. apply serves_same; try done. by apply delivers_same. Qed.

Lemma complete_spec i ec p w : running 0 nothing w -> tidy w -> w_pending w !! i = Some p -> (ec && p_taken p = false) ->
  let q := mkPending (p_id p) (p_chunk p) (p_local p && negb ec) (p_done p) (p_taken p) in
  leads [] w (Ret (resetSendOngoing (p_id p) (set_completed (w_completed w ++ [q]) (set_pending (delete i (w_pending w)) w)))).
Proof.
  intros H T Hp He q. set (w1 := set_completed _ _).
  assert (running 0 nothing w1) as H1.
  { destruct H as [Sd B R]. pose proof (proj1 (Forall_lookup _ _) (s_pending _ _ Sd) i p Hp) as Tk. constructor; [|intros r; specialize (B r)|done].
    - destruct Sd. constructor; cbn; try done; [by apply Forall_delete|]. apply Forall_app. split; [done|]. constructor; [|done].
      cbn. intros Et. rewrite Et in *. destruct ec; [done|]. by rewrite Tk.
    - unfold_balance. cbn in *. rewrite (zsum_delete _ _ _ _ Hp), zsum_app, zsum_one. change (res_pending q) with (res_pending p). lia. }
  assert (serves w w1) as V1.
  { etransitivity; [apply (serves_pending (delete i (w_pending w))); intros ? Hd%list_elem_of_delete_inv ?; exact Hd|]. serves_by_assignment. }
  assert (forall p, running 0 nothing (change_info (with_ongoing false) p w1) /\ serves w (change_info (with_ongoing false) p w1)) as C.
  { intros p'. split; [by apply ongoing_spec|]. etransitivity; [exact V1|apply serves_change]. }
  unfold resetSendOngoing. repeat case_match; (apply leads_serves; [done|by first [apply C|exact H1]|by first [apply C|exact V1]]).
Qed.

Lemma release_written_spec i p w : running 0 nothing w -> tidy w -> w_completed w !! i = Some p ->
  leads [] w (release_written m_channelId p (set_completed (delete i (w_completed w)) w)).
Proof.
  intros H T Hp. set (w1 := set_completed _ w).
  assert (running 0 (gain (res_pending p) nothing) w1) as H1.
  { destruct H as [Sd B R]. constructor; [|intros r; specialize (B r)|done].
    - destruct Sd. constructor; cbn; try done. by apply Forall_delete.
    - unfold_balance. cbn in *. rewrite (zsum_delete _ _ _ _ Hp). lia. }
  assert (tidy w1) as T1 by (apply (tidy_serves w); [done|serves_by_assignment]).
  pose proof (proj1 (Forall_lookup _ _) (s_completed _ _ (r_sound _ _ _ _ H)) i p Hp) as Tk. unfold release_written, res_pending in *.
  assert (exists w2, (if negb (p_local p) then unregisterWriterFromChunk m_channelId (p_chunk p) w1
      else Ret (if p_taken p then w1 else set_local (w_local w1 ++ [p_chunk p]) w1)) = Ret w2 /\
    running 0 (gain (res_done (p_done p)) nothing) w2 /\ serves w1 w2) as (w2 & -> & H2 & V2).
  { destruct (p_local p); cbn [negb].
    - destruct (p_taken p); [by exists w1|]. eexists. split; [done|]. split; [|serves_by_assignment].
      destruct H1 as [Sd B R]. constructor; [by destruct Sd| |done]. count B.
    - destruct (p_taken p); [by specialize (Tk eq_refl)|].
      destruct (unregister_spec _ _ _ (p_chunk p) w1 H1) as (m & -> & H2 & K).
      { eapply Z.lt_le_trans; [|apply (own_spare _ _ _ _ H1)]. unfold gain. rewrite occ_app, occ_cons, one_same.
        pose proof (occ_nonneg (RChunk (p_chunk p)) []). pose proof (occ_nonneg (RChunk (p_chunk p)) (res_done (p_done p))). unfold nothing. lia. }
      exists (set_memory m w1). split; [done|]. split; [|by apply serves_memory]. revert H2. apply running_ext.
      intros r. unfold gain, spend. rewrite occ_app. lia. }
  cbn [mbind outcome_bind]. apply (leads_from w2); [by rewrite (v_lost _ _ _ V2)|]. apply leads_same, call_done_spec; [done|by apply (tidy_serves w1)].
Qed.

(** A local receiver releases a chunk. *)
Lemma release_local_spec n c w : running n (gain [RChunk c] nothing) w ->
  exists w', unregisterWriterFromChunk m_channelId c w = Ret w' /\ running n nothing w' /\ serves w w'.
Proof.
  intros H. destruct (unregister_spec _ _ _ c w H) as (m & -> & H' & K).
  { eapply Z.lt_le_trans; [|apply (own_spare _ _ _ _ H)]. unfold gain. rewrite occ_cons, occ_nil, one_same. done. }
  exists (set_memory m w). split; [done|]. split; [|by apply serves_memory]. revert H'. apply running_ext. intros r. unfold gain, spend. lia.
Qed.

Lemma take_local_spec i p w : running 0 nothing w -> tidy w -> w_pending w !! i = Some p -> p_local p = true -> p_taken p = false ->
  leads [] w (unregisterWriterFromChunk m_channelId (p_chunk p)
    (set_pending (<[i := mkPending (p_id p) (p_chunk p) true (p_done p) true]> (w_pending w)) w)).
Proof.
  intros H T Hp Hl Ht. set (w1 := set_pending _ w). destruct (release_local_spec 0 (p_chunk p) w1) as (w' & -> & H' & V).
  - destruct H as [Sd B R]. constructor; [|intros r; specialize (B r)|done].
    + destruct Sd. constructor; cbn; try done. by apply Forall_insert.
    + unfold_balance. cbn in *. rewrite (zsum_insert _ _ _ _ _ Hp). unfold res_pending at 2 3. rewrite Ht. cbn.
      rewrite !occ_cons, occ_nil. lia.
  - apply leads_serves; [done|done|]. etransitivity; [|exact V]. apply serves_pending. intros q Hq Hqt.
    apply list_elem_of_lookup in Hq as [j Hj]. apply list_lookup_insert_Some in Hj as [(_ & <- & _)|[_ Hj]]; [done|].
    by eapply list_elem_of_lookup_2.
Qed.

Lemma drop_local_spec i c w : running 0 nothing w -> tidy w -> w_local w !! i = Some c ->
  leads [] w (unregisterWriterFromChunk m_channelId c (set_local (delete i (w_local w)) w)).
Proof.
  intros H T Hc. set (w1 := set_local _ w). destruct (release_local_spec 0 c w1) as (w' & -> & H' & V).
  - destruct H as [Sd B R]. constructor; [by destruct Sd|intros r; specialize (B r)|done].
    unfold_balance. cbn in *. rewrite <- (take_drop_middle (w_local w) i c Hc) in B at 1.
    rewrite delete_take_drop, !fmap_app, fmap_cons, !occ_app, !occ_cons, occ_nil in *. lia.
  - apply leads_serves; [done|done|]. etransitivity; [|exact V]. serves_by_assignment.
Qed.

(** *** Any step *)

Abbreviation exec := (exec m_channelId m_onNoSharedInputChannelAvailable).

(** As many more uses of a chunk can be counted as a step may need. *)
Definition room_for_step (w : world) : Prop :=
  room m_channelId (length (m_registeredCopyInputs w) + length (m_registeredSharedInputs w) + 3) w.

Lemma with_room n own w : running 0 own w -> room m_channelId n w -> running n own w.
Proof. by intros [Sd B _] R. Qed.

Lemma lock_spec u c s w :
  running 0 nothing w -> tidy w -> room_for_step w -> w_phase w = Locking u c s ->
  leads [] w (asyncUpdateNoWait_locked m_channelId m_onNoSharedInputChannelAvailable u c s w).
Proof.
  intros H T R Hp. destruct (i_locking _ T u c s Hp) as (Hu & Hb & up & Eu & Ed & Eb).
  destruct (asyncUpdateNoWait_locked_spec m_channelId _ policy_ok 0 u c s up w) as (w' & -> & H' & K & P);
    [rewrite Nat.add_0_r; by apply with_room|done..|].
  apply leads_same. exists w'. split_and!; [done|done| |by apply K]. apply (tidy_works w); [done| |by exists u|done].
  intros b Hin. destruct (k_blocks _ _ _ _ K b Hin) as [Hin'| ->]; [by rewrite Hb in Hin'; inversion Hin'|done].
Qed.

Lemma retry_spec w : running 0 nothing w -> tidy w -> room_for_step w -> w_phase w = Sleeping -> leads [] w (ensure m_channelId w).
Proof.
  intros H T R Hp. destruct (ensure_spec m_channelId 0 w) as (w' & -> & H' & K & P);
    [apply (running_less _ (length (m_registeredCopyInputs w) + length (m_registeredSharedInputs w) + 3)); [lia|by apply with_room]|by rewrite Hp|].
  apply leads_same. exists w'. split_and!; [done|done| |by apply (K O)]. apply (tidy_works w); [done| |by exists O|done].
  intros b Hin. apply T. destruct (k_blocks _ _ _ _ (K (S (b_update b))) b Hin) as [?|E]; [done|lia].
Qed.

Lemma close_all l w : exists o, foldr close_connection w l = set_open o w.
Proof.
  induction l as [|tcp l [o E]]; [exists (w_open w); by destruct w|]. cbn. rewrite E. by eexists.
Qed.

(** Assignments that concern neither what is held nor the updates *)
Ltac by_assignment H :=
  let Sd := fresh "Sd" in let B := fresh "B" in let R := fresh "R" in
  apply leads_serves; [done|destruct H as [Sd B R]; constructor; [by destruct Sd|same B|done]|serves_by_assignment].

(** finalSignal called while the thread that updates sleeps in ensureValidChunkId *)
Definition races (a : action) (w : world) : bool :=
  match a, w_phase w with FinalSignal, Sleeping => true | _, _ => false end.

Lemma race_undef a w o : tidy w -> races a w = true -> exec a w = Some o -> o = Undef.
Proof.
  intros T. unfold races. destruct a; try done. destruct (w_phase w) eqn:Hp; try done. intros _. cbn.
  unfold finalSignal. rewrite (i_sleeping _ T Hp). destruct (w_signal w); try done. by intros [= <-].
Qed.

(** During the update itself finalSignal is not called. *)
Lemma locking_not_free n u c s w : running n nothing w -> tidy w -> w_phase w = Locking u c s -> w_free w = false.
Proof.
  intros H T Hp. destruct (w_free w) eqn:Fr; [exfalso|done]. destruct (i_locking _ T u c s Hp) as (Hu & _).
  assert (forall e, e = EReady u \/ e = EWriteDone u -> e ∉ w_log w) as N.
  { intros e He Hin. destruct H as [_ B _]. specialize (B (res_event e)).
    assert (1 <= occ (res_event e) (res_event <$> w_log w)) as Hl by by apply occ_elem, list_elem_of_fmap_2.
    assert (supply m_channelId (res_event e) w <= 1) as Hs.
    { unfold supply, OutputResources.supply_updates. destruct e; cbn; case_match; lia. }
    assert (1 <= occ (res_event e) (res_phase (w_phase w))) as Hph.
    { rewrite Hp. apply occ_elem. destruct He as [-> | ->]; cbn; rewrite !elem_of_cons; auto. }
    unfold nothing, holders, held_queues, held_handlers, held_writes, held_otherwise in B. holder_parts (res_event e) w. lia. }
  destruct (i_free _ T Fr u Hu) as [L|L]; revert L; apply N; auto.
Qed.

Lemma step_leads a w o :
  running 0 nothing w -> tidy w -> valid a w -> room_for_step w -> exec a w = Some o -> races a w = false ->
  leads (leaks a w) w o.
Proof.
  intros H T V R E Nr.
  assert (running (S 0) nothing w) as H1 by (apply (running_less _ (length (m_registeredCopyInputs w) + length (m_registeredSharedInputs w) + 3)); [lia|by apply with_room]).
  assert (may_update w = true -> w_phase w = Idle /\ w_signal w = NoSignal /\ w_free w = true) as May.
  { unfold may_update. by destruct (w_phase w), (w_signal w). }
  destruct a as [data metaData|safe| | | | |ec tcp message|i|i ec|i|i|i|tcp|tcp|tcp| |sel|c]; cbn [OutputChannel.exec leaks] in *.
  - destruct (w_phase w) eqn:Hp; try done. injection E as <-.
    destruct (write_spec 0 data metaData w H T Hp V) as (w' & -> & H' & V'). by apply leads_serves.
  - destruct (may_update w) eqn:Em; [|done]. injection E as <-. destruct (May eq_refl) as (Hp & Hg & Hf).
    apply leads_same, start_spec; try done; [apply final_done_intro; [done|congruence]|congruence].
  - destruct (may_update w) eqn:Em; [|done]. injection E as <-. by apply leads_same, asyncSignalEndOfStream_spec.
  - destruct (w_signal w) eqn:Hg; try done. injection E as <-. unfold races in Nr. destruct (w_phase w) eqn:Hp; try done.
    + by apply leads_same, finalSignal_spec.
    + pose proof (i_signal _ T Hg) as Fr. by rewrite (locking_not_free _ _ _ _ _ H T Hp) in Fr.
  - destruct (w_phase w) eqn:Hp; try done. injection E as <-. by apply lock_spec.
  - destruct (w_phase w) eqn:Hp; try done. injection E as <-. by apply retry_spec.
  - injection E as <-. by apply read_spec.
  - destruct (w_jobs w !! i) as [j|] eqn:Ej; [|done]. injection E as <-.
    apply (leads_from (set_jobs (delete i (w_jobs w)) w)); [done|]. apply run_job_spec.
    + apply take_job; [|done]. cbn.
      apply (running_less _ (length (m_registeredCopyInputs w) + length (m_registeredSharedInputs w) + 3)); [lia|by apply with_room].
    + apply (tidy_serves w); [done|apply serves_jobs].
  - destruct (w_pending w !! i) as [p|] eqn:Ep; [|done]. cbn in E. destruct (ec && p_taken p) eqn:Et; [done|]. injection E as <-.
    by apply complete_spec.
  - destruct (w_completed w !! i) as [p|] eqn:Ep; [|done]. injection E as <-. by apply release_written_spec.
  - destruct (w_pending w !! i) as [p|] eqn:Ep; [|done]. cbn in E. destruct (p_local p) eqn:El, (p_taken p) eqn:Et; try done.
    injection E as <-. by apply take_local_spec.
  - destruct (w_local w !! i) as [c|] eqn:Ec; [|done]. injection E as <-. by apply drop_local_spec.
  - case_bool_decide; [done|]. injection E as <-. by_assignment H.
  - injection E as <-. by_assignment H.
  - case_bool_decide; [done|]. injection E as <-. by_assignment H.
  - injection E as <-. destruct (close_all (m_inputNetChannels w) w) as [o ->]. by_assignment H.
  - injection E as <-. by_assignment H.
  - destruct (own_call m_channelId c) eqn:Eo; [done|]. injection E as <-.
    destruct (other_call_spec 0 c w H Eo V) as (w' & -> & H' & V'). by apply leads_serves.
Qed.

(** ** Runs *)

(** A channel of the memory that has just been registered *)
Definition new_channel (m : memory) : Prop :=
  exists ch, m !! m_channelId = Some ch /\ Forall (fun k => k_status k = 0 /\ k_data k = []) (ch_chunks ch).

(** The states that an output channel gets to *)
Inductive reached : world -> Prop :=
| reached_new m w : new_channel m -> new_OutputChannel m_channelId m = Ret w -> reached w
| reached_step a w w' : reached w -> valid a w -> room_for_step w -> exec a w = Some (Ret w') -> reached w'.

Lemma new_spec m w : new_channel m -> new_OutputChannel m_channelId m = Ret w ->
  running 0 nothing w /\ tidy w.
Proof.
  intros (ch & E & H) Hw.
  assert (memory_ok m_channelId m) as Hm.
  { exists ch. split; [done|]. eapply Forall_impl; [exact H|]. intros x [_ Ed]. unfold chunk_ok. by rewrite Ed. }
  assert (forall c, status_of m c = 0) as H0.
  { intros c. unfold OutputResources.status_of. destruct (chunk_at m_channelId c m) as [x| | |] eqn:Hx; try done.
    apply chunk_at_ret in Hx as (ch' & E' & Hx). rewrite E in E'. injection E' as <-. by apply (Forall_lookup_1 _ _ _ _ H Hx). }
  unfold new_OutputChannel in Hw. destruct (register_memory m_channelId m Hm) as [Er|(k & m' & Er & Hm' & _ & Hst & Ho)]; rewrite Er in Hw; [done|].
  injection Hw as <-. assert (forall c, status_of m' c = one k c) as Hs by (intros c; by rewrite Hst, H0).
  split; [constructor|].
  - constructor; cbn; try first [done|apply NoDup_nil_2|apply Forall_nil_2].
    + intros x Hx. inversion Hx.
    + intros c [= <-]. by rewrite Hs, one_same.
  - intros r. unfold_balance. cbn. rewrite !occ_nil, occ_cons, occ_nil.
    destruct r as [c|u n|u n|u|u]; rewrite ?(one_other _ (RChunk k)) by done; try reflexivity.
    rewrite Hs, one_chunk, one_comm. cbn. unfold held_by_flags, OutputResources.supply_updates, msum, zsum. cbn. lia.
  - intros c. cbn. rewrite Hs. unfold one. case_decide; lia.
  - constructor; cbn; try done.
    + intros b Hb. inversion Hb.
    + intros c x (Hc & Hx & Hs'). cbn in Hc, Hx. specialize (Hs c). unfold OutputResources.status_of in Hs. rewrite Hx in Hs.
      rewrite one_other in Hs; [lia|congruence].
    + intros q Hq. inversion Hq.
Qed.

Lemma reached_kept w : reached w -> running 0 nothing w /\ tidy w.
Proof.
  induction 1 as [m w Hm Hw|a w w' _ [H T] V R E]; [by eapply new_spec|].
  destruct (races a w) eqn:Nr; [by apply (race_undef a w _ T Nr) in E|].
  destruct (step_leads a w _ H T V R E Nr) as (w1 & [= <-] & ? & ? & _). done.
Qed.

(** ** What runs guarantee *)


(** Nothing is under way. *)
Definition at_rest (w : world) : Prop :=
  w_pending w = [] /\ w_completed w = [] /\ blocks w = [] /\ Forall (fun j => res_job j = []) (w_jobs w) /\
  res_phase (w_phase w) = [].

Lemma zsum_none {A} (g : A -> Z) l : Forall (fun x => g x = 0) l -> zsum g l = 0.
Proof. unfold zsum. induction 1 as [|x l E _ IH]; [done|]. cbn in *. lia. Qed.

Lemma blocks_nil w : blocks w = [] -> m_unblockSharedHandler w = None /\ m_unblockHandlers w = [].
Proof.
  intros [Hs Hu]%app_eq_nil. apply fmap_nil_inv in Hu. split; [by destruct (m_unblockSharedHandler w)|done].
Qed.

(** The holders at rest *)
Lemma holders_at_rest r w : at_rest w -> tidy w -> (forall c, r <> RChunk c) ->
  holders r w = occ r (res_event <$> w_log w) + held_by_flags r (w_updates w).
Proof.
  intros (Ep & Ec & Eb & Ej & Eph) T Hr. apply blocks_nil in Eb as [Es Eu]. unfold_balance. rewrite Ep, Ec, Es, Eu, Eph.
  assert (forall l, occ r (RChunk <$> l) = 0) as H0.
  { intros l. apply occ_not_elem. intros H. apply list_elem_of_fmap in H as (c & -> & _). by apply (Hr c). }
  rewrite (zsum_none _ (w_jobs w)) by (eapply Forall_impl; [exact Ej|]; intros j ->; apply occ_nil).
  assert (forall l : list (string * InputChannelInfo), msum (fun i => occ r (res_queue i)) l = 0) as Hm.
  { intros l. unfold msum. apply zsum_none, Forall_true. intros i. apply H0. }
  assert (occ r (w_lost w) = 0) as Hl.
  { apply occ_not_elem. intros H. destruct (proj1 (Forall_forall _ _) (i_lost _ T) r H) as [c ->]. by apply (Hr c). }
  rewrite !Hm, !H0, Hl. destruct (m_chunkId w) as [c|]; cbn [res_current res_unblockShared];
    rewrite ?occ_cons, ?occ_nil, ?one_other by done; unfold msum, zsum; cbn; lia.
Qed.

Lemma queue_length_0 l r : queue_length l = O -> msum (fun i => occ r (res_queue i)) l = 0.
Proof.
  unfold queue_length, msum. intros H. apply zsum_none. induction l as [|[k i] l IH]; [constructor|]. cbn in *.
  constructor; [|apply IH; lia]. cbn. unfold res_queue. destruct (i_queuedChunks i); [apply occ_nil|cbn in *; lia].
Qed.

(** C7: The count of uses of every chunk is the number of those who hold it: the channel itself, the
    queues of the inputs and the common queue, the handlers of blocked inputs, the writes under way, a
    running update, the local receivers, and the record of what got lost.  So when nothing is under way
    and the queues are empty, a chunk is in use exactly if it is the current one or a local receiver has
    it - or if it got lost. *)
Theorem chunk_uses (w : world) (c : nat) :
  reached w ->
  status_of (w_memory w) c = holders (RChunk c) w /\
  (at_rest w -> queued w = 0%nat ->
   status_of (w_memory w) c = (if decide (m_chunkId w = Some c) then 1 else 0) + occ c (w_local w) + occ (RChunk c) (w_lost w)).
Proof.
  intros Hw. destruct (reached_kept w Hw) as [[Sd B R] T]. pose proof (supply_chunk _ _ c _ B) as E. unfold nothing in E.
  split; [lia|]. intros (Ep & Ec & Eb & Ej & Eph) Q. apply blocks_nil in Eb as [Es Eu]. unfold queued in Q.
  revert E. unfold_balance. rewrite Ep, Ec, Es, Eu, Eph.
  rewrite (zsum_none _ (w_jobs w)) by (eapply Forall_impl; [exact Ej|]; intros j ->; apply occ_nil).
  rewrite !queue_length_0 by lia. assert (m_sharedLoadBalancedQueuedChunks w = []) as -> by (apply length_zero_iff_nil; lia).
  assert (occ (RChunk c) (res_event <$> w_log w) = 0) as ->.
  { apply occ_not_elem. intros H. apply list_elem_of_fmap in H as ([] & H & _); discriminate. }
  rewrite (occ_map_inj RChunk c (w_local w)) by congruence. assert (occ (RChunk c) (res_current (m_chunkId w)) = if decide (m_chunkId w = Some c) then 1 else 0) as ->.
  { destruct (m_chunkId w) as [k|]; cbn [res_current]; rewrite ?occ_cons, occ_nil; [|by case_decide].
    rewrite one_chunk. unfold one. repeat case_decide; congruence || lia. }
  cbn [res_unblockShared fmap list_fmap]. rewrite !occ_nil. unfold msum, zsum. cbn. unfold OutputResources.held_by_flags. lia.
Qed.

(** Flags that are not set have somebody to set them. *)
Lemma closed_at_rest w u up : running 0 nothing w -> tidy w -> at_rest w -> w_updates w !! u = Some up ->
  open_flags (u_doneFlags up) = false /\ open_flags (u_blockFlags up) = false.
Proof.
  intros [_ B _] T A Hu. split; apply open_flags_false; intros n b Hn; destruct b; try done; exfalso.
  - specialize (B (RDone u n)). rewrite (holders_at_rest _ _ A T) in B by done.
    rewrite occ_not_elem in B by (intros H; apply list_elem_of_fmap in H as ([] & H & _); discriminate).
    unfold supply, OutputResources.supply_updates, OutputResources.held_by_flags, OutputResources.flag_open, nothing in B. rewrite Hu, Hn in B. lia.
  - specialize (B (RBlock u n)). rewrite (holders_at_rest _ _ A T) in B by done.
    rewrite occ_not_elem in B by (intros H; apply list_elem_of_fmap in H as ([] & H & _); discriminate).
    unfold supply, OutputResources.supply_updates, OutputResources.held_by_flags, OutputResources.flag_open, nothing in B. rewrite Hu, Hn in B. lia.
Qed.

Definition calls (e : event) (w : world) : Z := occ (res_event e) (res_event <$> w_log w).

(** C8: Both handlers of an update - the one that says that the next update may come and the one that
    says that all has been written - are called at most once, and when nothing is under way any more
    they have been called, whatever became of the inputs meanwhile. *)
Theorem handlers_called (w : world) (u : nat) :
  reached w -> (u < length (w_updates w))%nat ->
  calls (EReady u) w <= 1 /\ calls (EWriteDone u) w <= 1 /\
  (at_rest w -> calls (EReady u) w = 1 /\ calls (EWriteDone u) w = 1).
Proof.
  intros Hw Hu. destruct (reached_kept w Hw) as [H T]. pose proof (r_balanced _ _ _ _ H) as B.
  assert (forall r, r = RReady u \/ r = RWriteDone u -> supply m_channelId r w = 1) as Hs.
  { intros r [-> | ->]; unfold supply, OutputResources.supply_updates; by rewrite (proj2 (Nat.ltb_lt _ _) Hu). }
  assert (forall r, r = RReady u \/ r = RWriteDone u -> occ r (res_event <$> w_log w) <= 1) as Hle.
  { intros r Hr. specialize (B r). rewrite (Hs r Hr) in B. unfold nothing, holders, held_queues, held_handlers, held_writes, held_otherwise in B.
    holder_parts r w. lia. }
  unfold calls. split; [apply Hle; by left|]. split; [apply Hle; by right|]. intros A.
  apply lookup_lt_is_Some_2 in Hu as [up Hup]. destruct (closed_at_rest w u up H T A Hup) as [Cd Cb].
  assert (forall r, r = RReady u \/ r = RWriteDone u -> held_by_flags r (w_updates w) = 0) as Hf.
  { intros r [-> | ->]; unfold OutputResources.held_by_flags; rewrite Hup; [by rewrite Cb|by rewrite Cd]. }
  assert (forall r, r = RReady u \/ r = RWriteDone u -> occ r (res_event <$> w_log w) = 1) as He.
  { intros r Hr. specialize (B r). rewrite (Hs r Hr) in B. rewrite (holders_at_rest _ _ A T), (Hf r Hr) in B by by intros c ->; destruct Hr.
    unfold nothing in B. lia. }
  split; apply He; auto.
Qed.





(** ** Examples *)

(** [room_for_step] and runs, to be computed *)
Definition roomy (w : world) : bool :=
  let n := Z.of_nat (length (m_registeredCopyInputs w) + length (m_registeredSharedInputs w) + 3) in
  (n <? 2 ^ 31) &&
  match w_memory w !! m_channelId with
  | Some ch => forallb (fun k => k_status k + n <? 2 ^ 31) (ch_chunks ch)
  | None => true
  end.
Fixpoint roomy_run (l : list action) (w : world) : bool :=
  match l with
  | [] => true
  | a :: l => roomy w && match exec a w with Some (Ret w) => roomy_run l w | _ => false end
  end.

Lemma roomy_ok w : roomy w = true -> room_for_step w.
Proof.
  unfold roomy, room_for_step, room. intros [Hn Hc]%andb_prop c. set (n := (_ + _ + 3)%nat) in *. apply Z.ltb_lt in Hn.
  unfold OutputResources.status_of. destruct (chunk_at m_channelId c (w_memory w)) as [x| | |] eqn:Hx; try lia.
  apply chunk_at_ret in Hx as (ch & E & Hx). rewrite E in Hc. rewrite forallb_forall in Hc.
  apply Z.ltb_lt, Hc, list_elem_of_In. by eapply list_elem_of_lookup_2.
Qed.

Lemma run_reached l w w' :
  reached w -> Forall (fun a => forall w, valid a w) l -> roomy_run l w = true ->
  run m_channelId m_onNoSharedInputChannelAvailable l w = Some (Ret w') -> reached w'.
Proof.
  intros Hw Hl. revert w Hw. induction Hl as [|a l Ha Hl IH]; intros w Hw Hr E; cbn in Hr, E; [by injection E as <-|].
  apply andb_prop in Hr as [R Hr]. destruct (exec a w) as [[w1|e| |]|] eqn:Ex; try done.
  apply (IH w1); [|done|done]. eapply reached_step; [exact Hw|apply Ha|by apply roomy_ok|exact Ex].
Qed.
End runs.

Section examples.
Local Open Scope string_scope.

Definition hello (id location distribution onSlowness : string) : hash :=
  [mkNode "reason" [] (VString "hello"); mkNode "instanceId" [] (VString id);
   mkNode "memoryLocation" [] (VString location); mkNode "dataDistribution" [] (VString distribution);
   mkNode "onSlowness" [] (VString onSlowness)].
Definition available (id : string) : hash :=
  [mkNode "reason" [] (VString "update"); mkNode "instanceId" [] (VString id)].

(** A channel of three chunks, and an output channel that uses it *)
Definition some_memory : memory := [mkChannel 1 (replicate 3 free_chunk)].
Definition world_of (m : memory) (l : list action) : option world :=
  match new_OutputChannel 0 m with
  | Ret w => match run 0 "wait" l w with Some (Ret w) => Some w | _ => None end
  | _ => None
  end.
Definition some_world (l : list action) : option world := world_of some_memory l.
Definition roomy_of (m : memory) (l : list action) : bool :=
  match new_OutputChannel 0 m with Ret w => roomy_run 0 "wait" l w | _ => false end.

(** A copy input and a local one, two updates, for the second of which the inputs are not ready *)
Definition some_actions : list action :=
  [Connect 7; Read false 7 (hello "a" "remote" "copy" "wait"); Run 0; Run 0;
   Connect 8; Read false 8 (hello "b" "local" "copy" "queueDrop"); Run 0; Run 0;
   Write [mkNode "x" [] (VBool true)] []; Update false; Lock; Run 0;
   Complete 0 false; Complete 0 false; Release 0; Release 0;
   Write [mkNode "x" [] (VBool false)] []; Update false; Lock;
   Read false 7 (available "a"); Run 0].

Lemma message_ok_hello id location distribution onSlowness :
  slowness_ok onSlowness -> message_ok (hello id location distribution onSlowness).
Proof. intros Hs tcp id' d info H _. vm_compute in H. by injection H as _ _ <-. Qed.
Lemma message_ok_available id : message_ok (available id).
Proof. intros tcp id' d info H _. vm_compute in H. discriminate H. Qed.

Lemma wait_ok : slowness_ok "wait".
Proof. by right; right. Qed.

Lemma some_new : new_channel 0 some_memory.
Proof. eexists. split; [reflexivity|]. by repeat constructor. Qed.

Lemma valid_actions : Forall (fun a => forall w, valid a w) some_actions.
Proof.
  repeat (apply Forall_cons; split); [..|apply Forall_nil; exact I]; intros w; cbn [valid];
    match goal with
    | |- True => exact I
    | |- message_ok (hello ?i ?l ?d ?s) => apply (message_ok_hello i l d s); unfold slowness_ok; auto
    | |- message_ok (available ?i) => exact (message_ok_available i)
    | |- serializable _ => serializable
    end.
Qed.

Lemma world_reached m l w : new_channel 0 m -> Forall (fun a => forall w, valid a w) l -> roomy_of m l = true ->
  world_of m l = Some w -> reached 0 "wait" w.
Proof.
  unfold world_of, roomy_of. intros N V R E. destruct (new_OutputChannel 0 m) as [w0| | |] eqn:E0; try done.
  destruct (run 0 "wait" l w0) as [[w1| | |]|] eqn:Er; try done. injection E as <-.
  apply (run_reached 0 "wait" l w0); [|done..]. by apply (reached_new _ _ m).
Qed.

Lemma some_reached : exists w, some_world some_actions = Some w /\ reached 0 "wait" w /\ roomy 0 w = true.
Proof.
  destruct (some_world some_actions) as [w|] eqn:E; [|vm_compute in E; discriminate E].
  exists w. split; [done|]. split.
  - apply (world_reached some_memory some_actions); [exact some_new|exact valid_actions|vm_compute; reflexivity|exact E].
  - vm_compute in E. injection E as <-. vm_compute. reflexivity.
Qed.

Ltac run_example w E := vm_compute in E; injection E as <-.


Lemma chunk_uses_witness :
  exists w, some_world some_actions = Some w /\ status_of 0 (w_memory w) 1 = 2 /\ holders (RChunk 1) w = 2.
Proof.
  destruct some_reached as (w & E & R & _). destruct (chunk_uses 0 "wait" wait_ok w 1 R) as [H _].
  exists w. split; [exact E|]. rewrite <- H. split; run_example w E; reflexivity.
Defined.

Lemma handlers_called_witness :
  exists w, some_world some_actions = Some w /\ calls (EReady 1) w = 1 /\ calls (EWriteDone 1) w <= 1.
Proof.
  destruct some_reached as (w & E & R & _). exists w. split; [exact E|].
  destruct (handlers_called 0 "wait" wait_ok w 1 R) as (H1 & H2 & _); [run_example w E; cbn; lia|].
  split; [run_example w E; reflexivity|exact H2].
Defined.



(** *** Behaviour that the theorems exclude or do not speak of *)

Ltac by_computation :=
  match goal with |- exists w, ?o = Some w /\ _ =>
    let v := eval vm_compute in o in
    match v with Some ?w => exists w; split; [vm_compute; reflexivity|vm_compute; repeat split] end
  end.

(** A channel with a single chunk: its write completes while the thread that has called
    asyncSignalEndOfStream still sleeps in ensureValidChunkId. *)
Definition one_chunk_memory : memory := [mkChannel 1 [free_chunk]].
Definition racing_actions : list action :=
  [Connect 7; Read false 7 (hello "a" "remote" "copy" "wait"); Run 0; Run 0; Write [] []; SignalEndOfStream; Lock;
   Run 0; Complete 0 false; Release 0].

Lemma valid_racing : Forall (fun a => forall w, valid a w) racing_actions.
Proof.
  repeat (apply Forall_cons; split); [..|apply Forall_nil; exact I]; intros v; cbn [valid];
    match goal with
    | |- True => exact I
    | |- message_ok _ => exact (message_ok_hello "a" "remote" "copy" "wait" wait_ok)
    | |- serializable _ => serializable
    end.
Qed.

Example final_signal_races :
  exists w, world_of one_chunk_memory racing_actions = Some w /\ reached 0 "wait" w /\
    races FinalSignal w = true /\ exec 0 "wait" FinalSignal w = Some Undef.
Proof.
  destruct (world_of one_chunk_memory racing_actions) as [w|] eqn:E; [|vm_compute in E; discriminate E].
  exists w. split; [done|]. split.
  - apply (world_reached one_chunk_memory racing_actions); [|exact valid_racing|vm_compute; reflexivity|exact E].
    eexists. split; [reflexivity|]. by repeat constructor.
  - vm_compute in E. injection E as <-. vm_compute. by split.
Qed.

(** An unknown policy in a hello message is only noticed by the update, which throws: its chunk is
    never released and neither handler is called. *)
Example unknown_policy_loses_chunk :
  exists w, some_world [Connect 7; Read false 7 (hello "a" "remote" "copy" "slow"); Write [] []; Update false; Lock] = Some w /\
    (w_lost w = [RChunk 0; RReady 0; RWriteDone 0] /\ w_log w = []).
Proof. by_computation. Qed.

(** What is written between the return of asyncSignalEndOfStream and finalSignal goes with the mark of
    the end of stream, in one chunk, and is not sent. *)
Example data_with_end_of_stream_lost :
  exists w, some_world [Connect 7; Read false 7 (hello "a" "remote" "copy" "wait"); Run 0; Run 0; Write [] []; SignalEndOfStream;
      Lock; Run 0; Write [] []; Read false 7 (available "a"); Run 0; Complete 0 false; Release 0; Run 0; Run 0; FinalSignal; Lock] = Some w /\
    ((fun s => (m_header (s_message s), length (m_data (s_message s)))) <$> w_wire w =
       [([mkNode "sourceInfo" [] (VVecHash [[]])], 1%nat); ([mkNode "endOfStream" [] (VBool true)], 0%nat)] /\
     (fun up => (u_eos up, length (u_data up))) <$> w_updates w = [(false, 1%nat); (true, 1%nat)]).
Proof. by_computation. Qed.

(** An input that says hello again with another distribution stays among the shared inputs that are
    ready; the next data for the shared inputs is lost with it although one of them could wait. *)
Example moved_input_swallows_data :
  exists w, some_world [Connect 7; Read false 7 (hello "a" "remote" "shared" "wait"); Run 0; Run 0; Connect 8;
      Read false 8 (hello "a" "remote" "copy" "drop"); Connect 9; Read false 9 (hello "b" "remote" "shared" "wait");
      Write [] []; Update false; Lock; Run 2; Run 2] = Some w /\
    (w_log w = [EReady 0; EWriteDone 0] /\ w_wire w = [] /\ m_unblockSharedHandler w = None /\ (m_registeredSharedInputs w).*1 = ["b"]).
Proof. by_computation. Qed.
End examples.
