(* ===== verification/Effect.v ===== *)
(** Calls that change a state and may throw: what has been changed before an exception stays changed. *)

From Stdlib Require Import ZArith.
From stdpp Require Import base list.
From S2P Require Import Prelude.

(** A call with the state [S] *)
Definition io (S A : Type) : Type := S -> S * outcome A.

#[export] Instance io_ret {S} : MRet (io S) := fun A a s => (s, Ret a).
#[export] Instance io_bind {S} : MBind (io S) := fun A B f x s =>
  match x s with
  | (s, Ret a) => f a s
  | (s, Throw e) => (s, Throw e)
  | (s, Undef) => (s, Undef)
  | (s, OutOfFuel) => (s, OutOfFuel)
  end.

Section io.
Context {S : Type}.

(** A call that does not change the state, an access to it, and an assignment *)
Definition lift {A} (x : outcome A) : io S A := fun s => (s, x).
Definition reads {A} (f : S -> A) : io S A := fun s => (s, Ret (f s)).
Definition modify (f : S -> S) : io S unit := fun s => (f s, Ret tt).

(** try { x } catch (const std::exception&) { handler }: all modelled exceptions but the thrown C string *)
Definition is_std (e : exn) : bool := match e with BadFormat => false | _ => true end.
Definition catching {A} (x : io S A) (handler : exn -> io S A) : io S A := fun s =>
  match x s with
  | (s, Throw e) => if is_std e then handler e s else (s, Throw e)
  | r => r
  end.

(** for each element *)
Fixpoint for_each {A} (l : list A) (f : A -> io S unit) : io S unit :=
  match l with
  | [] => mret tt
  | x :: l => f x ;; for_each l f
  end.
End io.
