(* ===== verification/InputData.v ===== *)
(** What an input channel offers to its handlers (xms/InputChannel.cc): the data and meta data of a
    chunk, with maps from sources and train ids to indices. *)

From Stdlib Require Import ZArith Lia Ascii String OrderedTypeEx Sorted.
From stdpp Require Import base numbers list strings gmap.
From S2P Require Import Prelude Types Hash BufferSet BinaryMulti Epochstamp Memory.

Open Scope Z_scope.

(** ** std::multimap

    A multimap as the list of its entries in the order in which they are iterated: new ones come
    behind those of the same key. *)
Section multimap.
Context {K V : Type} (ltb : K -> K -> bool).
Implicit Types (k : K) (v : V) (m : list (K * V)).

Fixpoint emplace k v m : list (K * V) :=
  match m with
  | [] => [(k, v)]
  | (k', v') :: m' => if ltb k k' then (k, v) :: m else (k', v') :: emplace k v m'
  end.

Fixpoint lower_bound k m : list (K * V) :=
  match m with
  | [] => []
  | (k', v') :: m' => if ltb k' k then lower_bound k m' else m
  end.

Fixpoint until_upper_bound k m : list (K * V) :=
  match m with
  | [] => []
  | (k', v') :: m' => if ltb k k' then [] else (k', v') :: until_upper_bound k m'
  end.

Definition equal_range k m : list (K * V) := until_upper_bound k (lower_bound k m).
End multimap.

(** ** Data *)

(** The cached data; None is a null pointer. *)
Record input_data := mkInputData {
  m_metaDataList : list hash;
  m_dataList : list (option hash);
  m_sourceMap : list (string * nat);
  m_trainIdMap : list (Z * nat);
  m_reverseMetaDataMap : gmap nat hash
}.
Definition no_data : input_data := mkInputData [] [] [] [] ∅.

Definition with_dataList (l : list (option hash)) (d : input_data) : input_data :=
  mkInputData (m_metaDataList d) l (m_sourceMap d) (m_trainIdMap d) (m_reverseMetaDataMap d).
Definition with_metaDataList (l : list hash) (d : input_data) : input_data :=
  mkInputData l (m_dataList d) (m_sourceMap d) (m_trainIdMap d) (m_reverseMetaDataMap d).

Definition emplace_source (source : string) (i : nat) (d : input_data) : input_data :=
  mkInputData (m_metaDataList d) (m_dataList d) (emplace String.ltb source i (m_sourceMap d)) (m_trainIdMap d)
    (m_reverseMetaDataMap d).
Definition emplace_train (tid : Z) (i : nat) (d : input_data) : input_data :=
  mkInputData (m_metaDataList d) (m_dataList d) (m_sourceMap d) (emplace Z.ltb tid i (m_trainIdMap d))
    (m_reverseMetaDataMap d).
Definition emplace_reverse (i : nat) (metaData : hash) (d : input_data) : input_data :=
  mkInputData (m_metaDataList d) (m_dataList d) (m_sourceMap d) (m_trainIdMap d)
    (match m_reverseMetaDataMap d !! i with
     | Some _ => m_reverseMetaDataMap d
     | None => <[i := metaData]> (m_reverseMetaDataMap d)
     end).

(** A computation with the cached data and the memory.  An exception leaves what has been changed. *)
Definition data_effect (A : Type) : Type := input_data * memory * outcome A.

(** Continues with the value of an outcome *)
Definition given {A B} (x : outcome A) (d : input_data) (m : memory) (f : A -> data_effect B) : data_effect B :=
  match x with
  | Ret a => f a
  | Throw e => (d, m, Throw e)
  | Undef => (d, m, Undef)
  | OutOfFuel => (d, m, OutOfFuel)
  end.

(** ** Preparation *)

Section prepare.
Context (format_float : pod -> Z -> string) (format_complex : cpx -> Z * Z -> string)
        (type_name : nat -> string).
Context (m_channelId : nat).

(** What prepareData records of the item of index [i] after reading it *)
Definition record_item (i : nat) (metaData : hash) (d : input_data) (m : memory) : data_effect unit :=
  given (getSource metaData) d m (fun source =>
  let d := emplace_source source i d in
  given (getTimestamp metaData) d m (fun timestamp =>
  let d := emplace_train (m_timeId timestamp) i d in
  (emplace_reverse i metaData d, m, Ret tt))).

(** What prepareData does about an item that cannot be read; getSource is for the log. *)
Definition skip_item (i : nat) (metaData : hash) (d : input_data) (m : memory) : data_effect unit :=
  given (getSource metaData) d m (fun _ =>
  let d := with_dataList (<[i := None]> (m_dataList d)) d in
  let d := with_dataList (resize (length (m_dataList d) - 1) None (m_dataList d)) d in
  (with_metaDataList (delete i (m_metaDataList d)) d, m, Ret tt)).

(** The loop of prepareData; [todo] is the meta data from the iterator on. *)
Fixpoint prepare_loop (chunkId : nat) (todo : list hash) (i : nat) (d : input_data) (m : memory) : data_effect unit :=
  match todo with
  | [] => (d, m, Ret tt)
  | metaData :: todo =>
      if negb (Nat.ltb i (length (m_dataList d))) then (d, m, Undef) else
      let d := with_dataList (<[i := Some []]> (m_dataList d)) d in
      match read_Hash format_float format_complex type_name i m_channelId chunkId m with
      | Ret (h, m) =>
          let d := with_dataList (<[i := Some h]> (m_dataList d)) d in
          let '(d, m, r) := record_item i metaData d m in
          given r d m (fun _ => prepare_loop chunkId todo (S i) d m)
      | Throw e =>
          if is_karabo_exception e then
            let '(d, m, r) := skip_item i metaData d m in
            given r d m (fun _ => prepare_loop chunkId todo i d m)
          else (d, m, Throw e)
      | Undef => (d, m, Undef)
      | OutOfFuel => (d, m, OutOfFuel)
      end
  end.

Definition prepareData (chunkId : nat) (d : input_data) (m : memory) : data_effect unit :=
  given (Memory.getMetaData m_channelId chunkId m) d m (fun metaData =>
  prepare_loop chunkId metaData 0
    (mkInputData metaData (resize (length metaData) None (m_dataList d)) [] [] ∅) m).
End prepare.

(** ** Access by handlers *)

(** read(idx): the pointer *)
Definition read_pointer (idx : nat) (d : input_data) : outcome (option hash) := at_ (m_dataList d) idx.
(** read(idx, metaData) *)
Definition read_with_meta (idx : nat) (d : input_data) : outcome (option hash * hash) :=
  metaData ← at_ (m_metaDataList d) idx; data ← at_ (m_dataList d) idx; Ret (data, metaData).
(** read(data, idx): a copy of the data *)
Definition read_copy (idx : nat) (d : input_data) : outcome (hash * hash) :=
  p ← at_ (m_dataList d) idx;
  match p with
  | None => Undef
  | Some data => metaData ← at_ (m_metaDataList d) idx; Ret (data, metaData)
  end.
Definition size (d : input_data) : nat := length (m_dataList d).
Definition getMetaData (d : input_data) : list hash := m_metaDataList d.
Definition sourceToIndices (source : string) (d : input_data) : list nat :=
  (equal_range String.ltb source (m_sourceMap d)).*2.
Definition trainIdToIndices (trainId : Z) (d : input_data) : list nat :=
  (equal_range Z.ltb trainId (m_trainIdMap d)).*2.
Definition indexToMetaData (index : nat) (d : input_data) : outcome hash :=
  match m_reverseMetaDataMap d !! index with Some metaData => Ret metaData | None => Throw LogicException end.

(** ** Multimaps *)

(** What std::less promises *)
Class TotalOrder {K} (ltb : K -> K -> bool) : Prop := {
  ltb_irrefl k : ltb k k = false;
  ltb_trans k1 k2 k3 : ltb k1 k2 = true -> ltb k2 k3 = true -> ltb k1 k3 = true;
  ltb_total k1 k2 : ltb k1 k2 = false -> ltb k2 k1 = false -> k1 = k2
}.

#[export] Instance Z_ltb_total : TotalOrder Z.ltb.
Proof. split; intros *; rewrite ?Z.ltb_lt, ?Z.ltb_ge; lia. Qed.

#[export] Instance String_ltb_total : TotalOrder String.ltb.
Proof.
  assert (forall k1 k2, String.ltb k1 k2 = true <-> String_as_OT.lt k1 k2) as L.
  { intros k1 k2. rewrite <- String_as_OT.cmp_lt. unfold String.ltb, String_as_OT.cmp.
    by destruct (String.compare k1 k2). }
  split.
  - intros k. destruct (String.ltb k k) eqn:E; [|done]. apply L in E. by apply String_as_OT.lt_not_eq in E.
  - intros k1 k2 k3 H1%L H2%L. apply L. by eapply String_as_OT.lt_trans.
  - intros k1 k2 H1 H2. unfold String.ltb in *. pose proof (String.compare_antisym k1 k2) as A.
    destruct (String.compare k1 k2) eqn:E; [by apply String.compare_eq_iff|done|].
    by destruct (String.compare k2 k1).
Qed.

Section multimap_laws.
Context {K V : Type} {ltb : K -> K -> bool} `{order : !TotalOrder ltb} `{EqDecision K}.
Implicit Types (k : K) (v : V) (m l : list (K * V)).

Definition not_below (p q : K * V) : Prop := ltb q.1 p.1 = false.
Definition in_order m : Prop := StronglySorted not_below m.
Definition with_key k (p : K * V) : Prop := p.1 = k.
#[local] Instance with_key_dec k p : Decision (with_key k p).
Proof. unfold with_key. apply _. Defined.

Lemma ltb_not_below k1 k2 k3 : ltb k1 k2 = true -> ltb k3 k2 = false -> ltb k1 k3 = true.
Proof.
  intros H1 H2. destruct (ltb k1 k3) eqn:E; [done|]. destruct (ltb k3 k1) eqn:E'.
  - by rewrite (ltb_trans k3 k1 k2) in H2.
  - rewrite (ltb_total k1 k3 E E') in H1. congruence.
Qed.

Lemma emplace_elem k v m p : p ∈ emplace ltb k v m <-> p = (k, v) \/ p ∈ m.
Proof.
  induction m as [|[k' v'] m IH]; cbn; [rewrite elem_of_cons; tauto|].
  destruct (ltb k k'); rewrite !elem_of_cons, ?IH; tauto.
Qed.

Lemma emplace_in_order k v m : in_order m -> in_order (emplace ltb k v m).
Proof.
  unfold in_order. induction m as [|[k' v'] m IH]; cbn; intros S; [by repeat constructor|].
  apply StronglySorted_inv in S as [S F]. destruct (ltb k k') eqn:E.
  - constructor; [by constructor|]. constructor.
    + unfold not_below. cbn. destruct (ltb k' k) eqn:E'; [|done].
      pose proof (ltb_trans k k' k E E'). pose proof (ltb_irrefl k). congruence.
    + eapply Forall_impl; [exact F|]. intros [k'' v'']. unfold not_below. cbn. intros N.
      destruct (ltb k'' k) eqn:E'; [|done]. by rewrite (ltb_trans k'' k k') in N.
  - constructor; [by apply IH|]. apply Forall_forall. intros p [->|H]%emplace_elem; [done|].
    rewrite Forall_forall in F. by apply F.
Qed.

Lemma filter_below k m : Forall (fun p => ltb k p.1 = true) m -> filter (with_key k) m = [].
Proof.
  induction 1 as [|[k' v'] m H _ IH]; [done|]. rewrite filter_cons, decide_False; [done|].
  unfold with_key. cbn in *. intros ->. by rewrite ltb_irrefl in H.
Qed.

Lemma emplace_filter k k' v m : in_order m ->
  filter (with_key k') (emplace ltb k v m) = filter (with_key k') m ++ (if decide (k = k') then [(k, v)] else []).
Proof.
  unfold in_order. induction m as [|[k1 v1] m IH]; cbn [emplace]; intros S.
  - rewrite filter_cons. cbn. unfold with_key at 1. cbn. by destruct (decide (k = k')).
  - apply StronglySorted_inv in S as [S F]. destruct (ltb k k1) eqn:E.
    + rewrite filter_cons. unfold with_key at 1. cbn [fst]. destruct (decide (k = k')) as [->|N]; [|by rewrite app_nil_r].
      rewrite filter_below; [done|]. constructor; [done|]. eapply Forall_impl; [exact F|].
      intros [k2 v2] N. unfold not_below in N. cbn in *. by apply (ltb_not_below k' k1 k2).
    + rewrite !filter_cons. rewrite IH by done. by destruct (decide (with_key k' (k1, v1))).
Qed.

Lemma equal_range_filter k m : in_order m -> equal_range ltb k m = filter (with_key k) m.
Proof.
  unfold equal_range, in_order. induction m as [|[k1 v1] m IH]; intros S; [done|]. cbn [lower_bound].
  apply StronglySorted_inv in S as [S F]. destruct (ltb k1 k) eqn:E.
  { rewrite IH, filter_cons, decide_False; [done| |done]. unfold with_key. cbn. intros ->. by rewrite ltb_irrefl in E. }
  clear IH. assert (Forall (fun p => ltb p.1 k = false) m) as G.
  { eapply Forall_impl; [exact F|]. intros [k2 v2] N. unfold not_below in N. cbn in *.
    destruct (ltb k2 k) eqn:E2; [|done]. by rewrite (ltb_not_below k2 k k1) in N. }
  assert (Forall (fun p => ltb p.1 k = false) ((k1, v1) :: m)) as G' by by constructor.
  assert (StronglySorted not_below ((k1, v1) :: m)) as S' by by constructor.
  revert G' S'. generalize ((k1, v1) :: m). clear -order. intros m. induction m as [|[k1 v1] m IH]; intros G S; [done|].
  apply StronglySorted_inv in S as [S F]. inversion_clear G as [|? ? E G']. cbn in E. cbn [until_upper_bound].
  rewrite filter_cons. unfold with_key at 1. cbn [fst]. destruct (ltb k k1) eqn:E'.
  - rewrite decide_False by (unfold with_key; cbn; intros ->; by rewrite ltb_irrefl in E'). symmetry. apply filter_below.
    eapply Forall_impl; [exact F|]. intros [k2 v2] N. unfold not_below in N. cbn in *. by apply (ltb_not_below k k1 k2).
  - rewrite decide_True by (unfold with_key; cbn; symmetry; by apply ltb_total). by rewrite IH.
Qed.

(** What is found under a key is what has been entered under it, in this order. *)
Lemma equal_range_emplaced k l :
  let m := foldl (fun m p => emplace ltb p.1 p.2 m) [] l in
  in_order m /\ equal_range ltb k m = filter (with_key k) l.
Proof.
  cbn. assert (in_order (foldl (fun m p => emplace ltb p.1 p.2 m) [] l) /\
    filter (with_key k) (foldl (fun m p => emplace ltb p.1 p.2 m) [] l) = filter (with_key k) l) as [S H].
  { induction l as [|[k1 v1] l [S IH]] using rev_ind; [split; [constructor|done]|]. rewrite foldl_snoc. cbn.
    split; [by apply emplace_in_order|]. rewrite emplace_filter, filter_app, IH by done. f_equal. }
  split; [done|]. by rewrite equal_range_filter.
Qed.
End multimap_laws.

(** ** Preparation *)

(** What is recorded of a list of keys: each with its index *)
Definition indexed {K} (l : list K) : list (K * nat) := zip l (seq 0 (length l)).
Definition entries {K} (ltb : K -> K -> bool) (l : list K) : list (K * nat) :=
  foldl (fun m p => emplace ltb p.1 p.2 m) [] (indexed l).

Lemma indexed_snoc {K} (l : list K) x : indexed (l ++ [x]) = indexed l ++ [(x, length l)].
Proof.
  unfold indexed. rewrite length_app, seq_app. cbn. by rewrite zip_with_app by by rewrite length_seq.
Qed.
Lemma entries_snoc {K} (ltb : K -> K -> bool) l x : entries ltb (l ++ [x]) = emplace ltb x (length l) (entries ltb l).
Proof. unfold entries. by rewrite indexed_snoc, foldl_snoc. Qed.

Lemma filter_on {A} (P Q : A -> Prop) `{!forall x, Decision (P x)} `{!forall x, Decision (Q x)} (l : list A) :
  (forall x, x ∈ l -> P x <-> Q x) -> filter P l = filter Q l.
Proof.
  induction l as [|x l IH]; intros E; [done|]. rewrite !filter_cons, IH by (intros y Hy; apply E; by right).
  pose proof (E x (list_elem_of_here x l)) as Hx.
  destruct (decide (P x)), (decide (Q x)); tauto.
Qed.

(** The indices at which [k] stands *)
Definition indices `{EqDecision K} (k : K) (l : list K) : list nat := filter (fun i => l !! i = Some k) (seq 0 (length l)).

Lemma indices_snoc `{EqDecision K} (k x : K) l : indices k (l ++ [x]) = indices k l ++ (if decide (x = k) then [length l] else []).
Proof.
  unfold indices. rewrite length_app, seq_app, filter_app. f_equal.
  - apply filter_on. intros i Hi. apply elem_of_seq in Hi. by rewrite lookup_app_l by lia.
  - change (seq (0 + length l) (length [x])) with [length l]. rewrite filter_cons, filter_nil, list_lookup_middle by done.
    destruct (decide (x = k)) as [->|N]; [by rewrite decide_True|]. rewrite decide_False; [done|]. by intros [= ->].
Qed.

Lemma entries_found `{EqDecision K} (ltb : K -> K -> bool) `{!TotalOrder ltb} (k : K) l :
  (equal_range ltb k (entries ltb l)).*2 = indices k l.
Proof.
  unfold entries. rewrite (proj2 (equal_range_emplaced k (indexed l))).
  induction l as [|x l IH] using rev_ind; [done|].
  rewrite indexed_snoc, indices_snoc, filter_app, fmap_app, IH. f_equal.
  rewrite filter_cons, filter_nil. unfold with_key at 1. cbn. by destruct (decide (x = k)).
Qed.

Section prepared.
Context (format_float : pod -> Z -> string) (format_complex : cpx -> Z * Z -> string)
        (type_name : nat -> string).
Context (m_channelId : nat).

Abbreviation read_Hash := (read_Hash format_float format_complex type_name).
Abbreviation prepare_loop := (prepare_loop format_float format_complex type_name m_channelId).
Abbreviation prepareData := (prepareData format_float format_complex type_name m_channelId).

(** A buffer from which a Hash is read; one at which reading fails with an exception of Karabo *)
Definition readable (bs : BufferSet) (h : hash) : Prop :=
  exists bs', load_multi format_float format_complex type_name [] bs = Ret (h, bs').
Definition unreadable (bs : BufferSet) : Prop :=
  exists e, load_multi format_float format_complex type_name [] bs = Throw e /\ is_karabo_exception e = true.
Definition described (metaData : hash) (info : string * Timestamp) : Prop :=
  getSource metaData = Ret info.1 /\ getTimestamp metaData = Ret info.2.

(** The cached data when [items] have been read and [todo] is left *)
Definition prepared (done todo hs : list hash) (infos : list (string * Timestamp)) (rest : list (option hash)) : input_data :=
  mkInputData (done ++ todo) ((Some <$> hs) ++ rest) (entries String.ltb infos.*1) (entries Z.ltb (m_timeId <$> infos.*2))
    (map_seq 0 done).

(** Reading has moved the positions in the first [i] buffers of a chunk. *)
Definition advanced (i k : nat) (x : chunk) (m m' : memory) : Prop :=
  (exists bufs, chunk_at m_channelId k m' = Ret (with_data bufs x) /\ length bufs = length (k_data x) /\
    forall j, (i <= j)%nat -> bufs !! j = k_data x !! j) /\
  forall c' k', (c', k') <> (m_channelId, k) -> chunk_at c' k' m' = chunk_at c' k' m.

Lemma advanced_refl i k x m : chunk_at m_channelId k m = Ret x -> advanced i k x m m.
Proof. intros H. split; [|done]. exists (k_data x). rewrite H. by destruct x. Qed.

Lemma read_item i k x m0 m bs h :
  advanced i k x m0 m -> k_data x !! i = Some bs -> readable bs h ->
  exists m', read_Hash i m_channelId k m = Ret (h, m') /\ advanced (S i) k x m0 m'.
Proof.
  intros [(bufs & H & L & E) F] Hi [bs' R]. unfold read_Hash, Memory.read_Hash. rewrite H. cbn.
  pose proof (E i (le_n _)) as Ei. rewrite Hi in Ei. rewrite (proj2 (at_ret _ _ _) Ei). cbn. rewrite R. cbn.
  destruct (on_chunk_intro (fun k => Ret (with_data (<[i:=bs']> (k_data k)) k)) m_channelId k m _ _ H eq_refl) as (m' & Hm & H').
  rewrite Hm. cbn. exists m'. split; [done|]. split.
  - exists (<[i:=bs']> bufs). split; [exact H'|]. rewrite length_insert. split; [done|].
    intros j Hj. rewrite list_lookup_insert_ne by lia. apply E. lia.
  - intros c' k' N. rewrite (on_chunk_other _ _ _ _ _ _ _ Hm N). by apply F.
Qed.

Lemma read_bad i k x m0 m bs e :
  advanced i k x m0 m -> k_data x !! i = Some bs -> load_multi format_float format_complex type_name [] bs = Throw e ->
  read_Hash i m_channelId k m = Throw e.
Proof.
  intros [(bufs & H & L & E) F] Hi R. unfold read_Hash, Memory.read_Hash. rewrite H. cbn.
  pose proof (E i (le_n _)) as Ei. rewrite Hi in Ei. rewrite (proj2 (at_ret _ _ _) Ei). cbn. by rewrite R.
Qed.

Lemma length_prepared done todo hs infos rest :
  length (m_dataList (prepared done todo hs infos rest)) = (length hs + length rest)%nat.
Proof. cbn. by rewrite length_app, length_fmap. Qed.

Lemma set_item done todo hs infos r rest v : 
  with_dataList (<[length hs := v]> (m_dataList (prepared done todo hs infos (r :: rest)))) (prepared done todo hs infos (r :: rest)) =
  prepared done todo hs infos (v :: rest).
Proof.
  unfold prepared, with_dataList. cbn [m_dataList m_metaDataList m_sourceMap m_trainIdMap m_reverseMetaDataMap]. f_equal.
  rewrite insert_app_r_alt by by rewrite length_fmap. rewrite length_fmap, Nat.sub_diag. done.
Qed.

Lemma record_prepared metaData info done todo hs infos h rest m :
  length done = length hs -> length infos = length hs -> described metaData info ->
  record_item (length hs) metaData (prepared done (metaData :: todo) hs infos (Some h :: rest)) m =
    (prepared (done ++ [metaData]) todo (hs ++ [h]) (infos ++ [info]) rest, m, Ret tt).
Proof.
  intros Ld Li [Hs Ht]. unfold record_item. rewrite Hs. cbn [given]. rewrite Ht. cbn [given].
  unfold emplace_reverse, emplace_train, emplace_source, prepared. cbn.
  rewrite (proj2 (lookup_map_seq_None _ _ _)) by (right; lia).
  do 2 f_equal. rewrite !fmap_app, <- !app_assoc. cbn. rewrite !entries_snoc, !length_fmap, Li. f_equal.
  rewrite map_seq_snoc. by rewrite Ld.
Qed.

Lemma prepare_good i k x m0 m bs h metaData info done todo hs infos r rest :
  advanced i k x m0 m -> k_data x !! i = Some bs -> readable bs h -> described metaData info ->
  i = length hs -> length done = length hs -> length infos = length hs ->
  exists m', advanced (S i) k x m0 m' /\
    prepare_loop k (metaData :: todo) i (prepared done (metaData :: todo) hs infos (r :: rest)) m =
    prepare_loop k todo (S i) (prepared (done ++ [metaData]) todo (hs ++ [h]) (infos ++ [info]) rest) m'.
Proof.
  intros A Hi R D -> Ld Li. destruct (read_item _ _ _ _ _ _ _ A Hi R) as (m' & Hm & A').
  exists m'. split; [done|]. cbn [InputData.prepare_loop]. rewrite length_prepared. cbn [length].
  rewrite (proj2 (Nat.ltb_lt _ _)) by lia. cbn [negb]. rewrite set_item, Hm, set_item.
  by rewrite (record_prepared metaData info).
Qed.

Lemma prepare_bad k x m0 m bs metaData info done todo hs infos r rest :
  advanced (length hs) k x m0 m -> k_data x !! length hs = Some bs -> unreadable bs -> described metaData info ->
  length done = length hs -> length infos = length hs ->
  exists rest', length rest' = length rest /\
    prepare_loop k (metaData :: todo) (length hs) (prepared done (metaData :: todo) hs infos (r :: rest)) m =
    prepare_loop k todo (length hs) (prepared done todo hs infos rest') m.
Proof.
  intros A Hi (e & R & K) [Hs Ht] Ld Li. cbn [InputData.prepare_loop]. rewrite length_prepared. cbn [length].
  rewrite (proj2 (Nat.ltb_lt _ _)) by lia. cbn [negb]. rewrite set_item, (read_bad _ _ _ _ _ _ _ A Hi R), K.
  exists (take (length rest) (None :: rest)). split; [rewrite length_take; cbn; lia|].
  unfold skip_item. rewrite Hs. cbn [given]. rewrite set_item. rewrite length_prepared. f_equal. unfold with_metaDataList, with_dataList, prepared.
  cbn. f_equal.
  - by rewrite <- Ld, delete_middle.
  - rewrite resize_le by (rewrite length_app, length_fmap; cbn; lia).
    rewrite take_app_ge by (rewrite length_fmap; lia). rewrite length_fmap. f_equal. f_equal. lia.
Qed.

Lemma prepare_goods k x m0 todo : forall news metas infos' hs done infos rest m,
  advanced (length hs) k x m0 m -> Forall2 readable (take (length news) (drop (length hs) (k_data x))) news ->
  Forall2 described metas infos' -> length metas = length news -> length done = length hs -> length infos = length hs ->
  (length news <= length rest)%nat ->
  exists m', advanced (length (hs ++ news)) k x m0 m' /\
    prepare_loop k (metas ++ todo) (length hs) (prepared done (metas ++ todo) hs infos rest) m =
    prepare_loop k todo (length (hs ++ news))
      (prepared (done ++ metas) todo (hs ++ news) (infos ++ infos') (drop (length news) rest)) m'.
Proof.
  induction news as [|h news IH]; intros metas infos' hs done infos rest m A R D Lm Ld Li Lr.
  - destruct metas; [|discriminate Lm]. inversion_clear D. exists m. rewrite !app_nil_r. by split.
  - destruct metas as [|metaData metas]; [discriminate Lm|]. destruct rest as [|r rest]; [cbn in Lr; lia|].
    inversion D as [|? info ? infos'' D1 D']; subst. clear D.
    destruct (drop (length hs) (k_data x)) as [|bs l] eqn:E; [inversion R|].
    cbn in R. inversion R as [|? ? ? ? R1 R']; subst. clear R.
    assert (k_data x !! length hs = Some bs) as Hi by (rewrite <- (Nat.add_0_r (length hs)), <- lookup_drop; by rewrite E).
    destruct (prepare_good _ k x m0 m bs h metaData info done (metas ++ todo) hs infos r rest A Hi R1 D1 eq_refl Ld Li)
      as (m1 & A1 & E1).
    assert (length (hs ++ [h]) = S (length hs)) as L1 by (rewrite length_app; cbn; lia).
    destruct (IH metas infos'' (hs ++ [h]) (done ++ [metaData]) (infos ++ [info]) rest m1) as (m' & A' & E').
    { by rewrite L1. }
    { rewrite L1. replace (drop (S (length hs)) (k_data x)) with l; [done|].
      rewrite <- Nat.add_1_r, <- drop_drop, E. done. }
    { done. } { cbn in Lm. lia. } { rewrite !length_app. cbn. lia. } { rewrite !length_app. cbn. lia. } { cbn in Lr. lia. }
    rewrite L1, <- !app_assoc in E'. rewrite <- !app_assoc in A'. exists m'. split; [exact A'|].
    cbn [app] in *. by rewrite E1, E'.
Qed.

Lemma prepare_bads k x m0 : forall todo hs done infos rest m,
  advanced (length hs) k x m0 m -> (forall bs, k_data x !! length hs = Some bs -> unreadable bs) ->
  Forall (fun metaData => exists info, described metaData info) todo -> length done = length hs -> length infos = length hs ->
  length rest = length todo -> (length hs + length todo <= length (k_data x))%nat ->
  prepare_loop k todo (length hs) (prepared done todo hs infos rest) m = (prepared done [] hs infos [], m, Ret tt).
Proof.
  induction todo as [|metaData todo IH]; intros hs done infos rest m A U D Ld Li Lr Lx.
  - by destruct rest.
  - destruct rest as [|r rest]; [discriminate Lr|]. inversion_clear D as [|? ? [info D1] D'].
    destruct (lookup_lt_is_Some_2 (k_data x) (length hs)) as [bs Hbs]; [cbn in Lx; lia|].
    destruct (prepare_bad k x m0 m bs metaData info done todo hs infos r rest A Hbs (U bs Hbs) D1 Ld Li) as (rest' & Lr' & ->).
    apply IH; try done; cbn in Lr, Lx; lia.
Qed.

(** C24: What prepareData offers to the handlers: the items of the chunk up to the first one that cannot be
    read, in order, with their meta data.  The indices found for a source and for a train id
    are those of the items with this source and train id, in increasing order, and the meta data
    is found for each index.  (An item that cannot be read makes all that follow it be skipped.) *)
Theorem prepareData_spec (k : nat) (x : chunk) (m : memory) (d : input_data) (hs : list hash)
    (infos : list (string * Timestamp)) :
  let n := length hs in
  chunk_at m_channelId k m = Ret x -> length (k_data x) = length (k_meta x) ->
  Forall2 described (k_meta x) infos ->
  Forall2 readable (take n (k_data x)) hs -> (forall bs, k_data x !! n = Some bs -> unreadable bs) ->
  exists d' m', prepareData k d m = (d', m', Ret tt) /\ advanced n k x m m' /\
    getMetaData d' = take n (k_meta x) /\ size d' = n /\
    (forall i h metaData, hs !! i = Some h -> k_meta x !! i = Some metaData ->
      read_with_meta i d' = Ret (Some h, metaData) /\ indexToMetaData i d' = Ret metaData) /\
    (forall source, sourceToIndices source d' = indices source (take n infos.*1)) /\
    (forall tid, trainIdToIndices tid d' = indices tid (take n (m_timeId <$> infos.*2))).
Proof.
  intros n H L D R U. pose proof (Forall2_length _ _ _ D) as Li. pose proof (Forall2_length _ _ _ R) as Ln.
  rewrite length_take in Ln. pose proof (Forall2_take _ _ _ n D) as D1.
  pose proof (Forall2_length _ _ _ D1) as Lt. rewrite !length_take in Lt.
  destruct (prepare_goods k x m (drop n (k_meta x)) hs (take n (k_meta x)) (take n infos) [] [] []
    (resize (length (k_meta x)) None (m_dataList d)) m (advanced_refl _ _ _ _ H)) as (m' & A & E);
    [by rewrite drop_0|exact D1|rewrite length_take; lia|done|done|rewrite length_resize; lia|].
  cbn [app length] in A, E.
  assert (prepareData k d m = (prepared (take n (k_meta x)) [] hs (take n infos) [], m', Ret tt)) as EP.
  { unfold InputData.prepareData, Memory.getMetaData. rewrite H. cbn [fmap outcome_fmap given].
    rewrite take_drop in E. unfold prepared in E at 1. cbn in E. etransitivity; [exact E|].
    apply (prepare_bads k x m); try done.
    - rewrite Forall_forall. intros metaData HM. apply list_elem_of_lookup in HM as [j Hj].
      destruct (Forall2_lookup_l _ _ _ _ _ (Forall2_drop _ _ _ n D) Hj) as (info & _ & Hd). by exists info.
    - rewrite length_take. lia.
    - rewrite length_take. lia.
    - rewrite !length_drop, length_resize. done.
    - rewrite length_drop. lia. }
  exists (prepared (take n (k_meta x)) [] hs (take n infos) []), m'.
  split_and!; [exact EP|exact A| | | | |].
  - cbn. by rewrite app_nil_r.
  - unfold size. rewrite length_prepared. cbn. lia.
  - intros i h metaData Hh Hm. assert (i < n)%nat as Hi by by apply lookup_lt_Some in Hh.
    assert (take n (k_meta x) !! i = Some metaData) as Hm' by by rewrite lookup_take_lt.
    split.
    + unfold read_with_meta. cbn. rewrite !app_nil_r. rewrite (proj2 (at_ret _ _ _) Hm'). cbn.
      rewrite (proj2 (at_ret (Some <$> hs) i (Some h))); [done|]. by rewrite list_lookup_fmap, Hh.
    + unfold indexToMetaData. cbn. by rewrite lookup_map_seq_0, Hm'.
  - intros source. unfold sourceToIndices, prepared. cbn [m_sourceMap]. by rewrite (entries_found String.ltb), fmap_take.
  - intros tid. unfold trainIdToIndices, prepared. cbn [m_trainIdMap]. by rewrite (entries_found Z.ltb), !fmap_take.
Qed.
End prepared.

(** ** Examples *)

Definition buffer_of (codes : list nat) : BufferSet :=
  mkBufferSet [mkBuffer [] (ascii_of_nat <$> codes) (Z.of_nat (length codes)) COPY] 0 true.
(** The Hash with the key "x" for [b]; the same with a type that does not exist *)
Definition flag_buffer (b : bool) : BufferSet :=
  buffer_of ([1; 0; 0; 0; 1; 120; 0; 0; 0; 0; 0; 0; 0; 0] ++ [if b then 1 else 0])%nat.
Definition bad_buffer : BufferSet := buffer_of [1; 0; 0; 0; 1; 120; 99; 0; 0; 0; 0; 0; 0; 0; 1]%nat.
Definition flag_hash (b : bool) : hash := [mkNode "x" [] (VBool b)].
Definition example_meta (source : string) (tid : Z) : hash := (MetaData source (mkTimestamp (mkEpochstamp 0 0) tid)).1.

Definition example_chunk : chunk :=
  mkChunk [flag_buffer true; flag_buffer false; flag_buffer true; bad_buffer; flag_buffer true]
    [example_meta "b" 1; example_meta "a" 2; example_meta "b" 2; example_meta "a" 3; example_meta "a" 4] false 1.
Definition no_float (_ : pod) (_ : Z) : string := "".
Definition no_complex (_ : cpx) (_ : Z * Z) : string := "".
Definition no_type (_ : nat) : string := "".

Lemma prepareData_spec_witness :
  exists d m, prepareData no_float no_complex no_type 0 0 no_data [mkChannel 1 [example_chunk]] = (d, m, Ret tt) /\
    size d = 3%nat /\ sourceToIndices "b" d = [0; 2]%nat /\ sourceToIndices "a" d = [1]%nat /\
    trainIdToIndices 2 d = [1; 2]%nat.
Proof.
  destruct (prepareData_spec no_float no_complex no_type 0 0 example_chunk [mkChannel 1 [example_chunk]] no_data
    [flag_hash true; flag_hash false; flag_hash true]
    (zip ["b"; "a"; "b"; "a"; "a"]%string (mkTimestamp (mkEpochstamp 0 0) <$> [1; 2; 2; 3; 4]))) as (d & m & E & _ & _ & Hs & _ & Ha & Ht).
  - reflexivity.
  - reflexivity.
  - repeat constructor.
  - repeat constructor; eexists; vm_compute; reflexivity.
  - intros bs [= <-]. eexists. split; [vm_compute; reflexivity|reflexivity].
  - exists d, m. split; [exact E|]. split; [exact Hs|]. rewrite !Ha, Ht. vm_compute. repeat split.
Defined.
