(* ===== verification/InputLinks.v ===== *)
(** The connections of an input channel to output channels (xms/InputChannel.cc): connecting,
    disconnecting, loss of a connection, the answers to those who asked for a connection and the
    notifications of the connection tracker. *)

From Stdlib Require Import ZArith Lia Ascii String.
From stdpp Require Import base numbers list strings gmap.
From S2P Require Import Prelude Types Strings OrderedMap Hash HashAccess StdMap Messages Effect.
Import Types.

Open Scope Z_scope.

(** ** Data *)

(** karabo::net::ErrorCode: no error, those that the code makes itself, and others *)
Inductive error_code : Type :=
| success | protocol_not_supported | invalid_argument | argument_out_of_domain
| connection_already_in_progress | operation_canceled | other_error (n : nat).
#[export] Instance error_code_eq_dec : EqDecision error_code.
Proof. solve_decision. Defined.

Inductive ConnectionStatus : Type := DISCONNECTED | CONNECTING | CONNECTED | DISCONNECTING.
#[export] Instance ConnectionStatus_eq_dec : EqDecision ConnectionStatus.
Proof. solve_decision. Defined.

(** What is posted on m_connectStrand: the handler of a call of connect (a number), m_connectionTracker *)
Inductive notice : Type :=
| Answer (handler : nat) (ec : error_code)
| Track (outputChannel : string) (status : ConnectionStatus).

(** What connect binds to the handler of startAsync *)
Record attempt := mkAttempt { a_info : hash; a_id : Z; a_handler : option nat }.

(** The pair of TCP connection and channel is a number. *)
Record links := mkLinks {
  m_configuredOutputChannels : list (string * hash);
  m_openConnections : list (string * nat);
  m_connectionsBeingSetup : list (string * (Z * option nat));
  m_eosChannels : gset nat;
  l_attempts : list attempt;   (** connections whose startAsync has not called its handler *)
  l_next : nat;                (** the number of the next channel *)
  l_alive : gset nat;          (** channels that are not destroyed *)
  l_open : gset nat;
  l_reading : list nat;        (** channels with an asynchronous read under way *)
  l_wire : list (nat * hash);  (** the messages written: channel, message *)
  l_notices : list notice      (** what has been posted on m_connectStrand *)
}.
Definition no_links : links := mkLinks [] [] [] ∅ [] 0 ∅ ∅ [] [] [].

(** Assignments to the members *)
Definition set_configured v (l : links) : links :=
  mkLinks v (m_openConnections l) (m_connectionsBeingSetup l) (m_eosChannels l) (l_attempts l) (l_next l) (l_alive l) (l_open l)
    (l_reading l) (l_wire l) (l_notices l).
Definition set_connections v (l : links) : links :=
  mkLinks (m_configuredOutputChannels l) v (m_connectionsBeingSetup l) (m_eosChannels l) (l_attempts l) (l_next l) (l_alive l)
    (l_open l) (l_reading l) (l_wire l) (l_notices l).
Definition set_setup v (l : links) : links :=
  mkLinks (m_configuredOutputChannels l) (m_openConnections l) v (m_eosChannels l) (l_attempts l) (l_next l) (l_alive l) (l_open l)
    (l_reading l) (l_wire l) (l_notices l).
Definition set_eosChannels v (l : links) : links :=
  mkLinks (m_configuredOutputChannels l) (m_openConnections l) (m_connectionsBeingSetup l) v (l_attempts l) (l_next l) (l_alive l)
    (l_open l) (l_reading l) (l_wire l) (l_notices l).
Definition set_attempts v (l : links) : links :=
  mkLinks (m_configuredOutputChannels l) (m_openConnections l) (m_connectionsBeingSetup l) (m_eosChannels l) v (l_next l) (l_alive l)
    (l_open l) (l_reading l) (l_wire l) (l_notices l).
Definition set_sockets next alive open (l : links) : links :=
  mkLinks (m_configuredOutputChannels l) (m_openConnections l) (m_connectionsBeingSetup l) (m_eosChannels l) (l_attempts l)
    next alive open (l_reading l) (l_wire l) (l_notices l).
Definition set_reading v (l : links) : links :=
  mkLinks (m_configuredOutputChannels l) (m_openConnections l) (m_connectionsBeingSetup l) (m_eosChannels l) (l_attempts l)
    (l_next l) (l_alive l) (l_open l) v (l_wire l) (l_notices l).
Definition set_wire v (l : links) : links :=
  mkLinks (m_configuredOutputChannels l) (m_openConnections l) (m_connectionsBeingSetup l) (m_eosChannels l) (l_attempts l)
    (l_next l) (l_alive l) (l_open l) (l_reading l) v (l_notices l).
Definition notify (n : list notice) (l : links) : links :=
  mkLinks (m_configuredOutputChannels l) (m_openConnections l) (m_connectionsBeingSetup l) (m_eosChannels l) (l_attempts l)
    (l_next l) (l_alive l) (l_open l) (l_reading l) (l_wire l) (l_notices l ++ n).

(** channel->close() *)
Definition close_channel (tcp : nat) (l : links) : links := set_sockets (l_next l) (l_alive l) (l_open l ∖ {[tcp]}) l.
(** A synchronous write that succeeds *)
Definition write_to (tcp : nat) (message : hash) (l : links) : links := set_wire (l_wire l ++ [(tcp, message)]) l.

(** Hash(path1, value1, path2, value2, ...) for values that are not Hashes *)
Fixpoint hash_with (l : list (string * value)) (h : hash) : outcome hash :=
  match l with
  | [] => Ret h
  | (path, v) :: l => let '(h, r) := set path v k_defaultSep h in _ ← r; hash_with l h
  end.

(** ** Operations *)

Section links.
(** Configuration of the input channel; [hasTracker]: m_connectionTracker is set; [split]: boost::split at colons *)
Context (m_instanceId m_dataDistribution m_onSlowness : string) (m_maxQueueLength : Z) (hasTracker : bool)
        (split : string -> list string).

Definition postConnectionTracker (outputChannel : string) (status : ConnectionStatus) (l : links) : links :=
  if hasTracker then notify [Track outputChannel status] l else l.

(** Posts a handler if there is one. *)
Definition answer (handler : option nat) (ec : error_code) (l : links) : links :=
  match handler with Some h => notify [Answer h ec] l | None => l end.

Definition prepareConnectionConfiguration (outputChannelInfo : hash) : outcome hash :=
  hostname ← get_string "hostname" outputChannelInfo;
  port ← get_unsigned "port" outputChannelInfo;
  h ← hash_with [("type", VString "client"); ("hostname", VString hostname); ("port", VPod PUInt32 port);
                 ("keepalive.enabled", VBool true)]%string [];
  let '(h, r) := setHash "Tcp" h k_defaultSep [] in _ ← r; Ret h.

(** m_openConnections.erase and the tracker *)
Definition eraseConnection (outputChannelString : string) (l : links) : links :=
  postConnectionTracker outputChannelString DISCONNECTED (set_connections (merase outputChannelString (m_openConnections l)) l).

(** connect, with a new connection; [random] is what m_random gives *)
Definition connect_new (outputChannelInfo : hash) (outputChannelString : string) (handler : option nat) (random : Z)
  : io links unit :=
  modify (fun l => set_setup (mset outputChannelString (random, handler) (m_connectionsBeingSetup l)) l) ;;
  modify (postConnectionTracker outputChannelString CONNECTING) ;;
  _ ← lift (prepareConnectionConfiguration outputChannelInfo);
  modify (fun l => set_attempts (l_attempts l ++ [mkAttempt outputChannelInfo random handler]) l).

Definition connect (outputChannelInfo : hash) (handler : option nat) (random : Z) : io links unit :=
  connectionType ← lift (get_string "connectionType" outputChannelInfo);
  if negb (String.eqb connectionType "tcp") then modify (answer handler protocol_not_supported) else
  hasString ← lift (has "outputChannelString" k_defaultSep outputChannelInfo);
  if negb hasString then modify (answer handler invalid_argument) else
  hasLocation ← lift (has "memoryLocation" k_defaultSep outputChannelInfo);
  if negb hasLocation then modify (answer handler argument_out_of_domain) else
  outputChannelString ← lift (get_string "outputChannelString" outputChannelInfo);
  configured ← reads (fun l => mfind outputChannelString (m_configuredOutputChannels l));
  match configured with
  | None => modify (answer handler argument_out_of_domain)
  | Some _ =>
      modify (fun l =>
        match mfind outputChannelString (m_openConnections l) with
        | Some _ => eraseConnection outputChannelString l
        | None => l
        end) ;;
      setup ← reads (fun l => mfind outputChannelString (m_connectionsBeingSetup l));
      match setup with
      | Some _ => modify (answer handler connection_already_in_progress)
      | None => connect_new outputChannelInfo outputChannelString handler random
      end
  end.

Definition disconnectImpl (outputChannelString : string) (l : links) : links :=
  match mfind outputChannelString (m_connectionsBeingSetup l) with
  | Some (_, handler) =>
      let l := set_setup (merase outputChannelString (m_connectionsBeingSetup l)) l in
      postConnectionTracker outputChannelString DISCONNECTED (answer handler operation_canceled l)
  | None =>
      match mfind outputChannelString (m_openConnections l) with
      | None => l
      | Some tcp => eraseConnection outputChannelString (close_channel tcp l)
      end
  end.

(** The loop of disconnect over the configured channels *)
Fixpoint disconnect_matching (hostname : string) (port : Z) (configured : list (string * hash)) : io links unit :=
  match configured with
  | [] => mret tt
  | (outputChannelString, info) :: configured =>
      h ← lift (get_string "hostname" info);
      if negb (String.eqb h hostname) then disconnect_matching hostname port configured else
      p ← lift (get_unsigned "port" info);
      if negb (p =? port) then disconnect_matching hostname port configured else
      modify (disconnectImpl outputChannelString)
  end.

Definition disconnect (outputChannelInfo : hash) : io links unit :=
  hasString ← lift (has "outputChannelString" k_defaultSep outputChannelInfo);
  if hasString : bool then
    outputChannelString ← lift (get_string "outputChannelString" outputChannelInfo);
    modify (disconnectImpl outputChannelString)
  else
    hostname ← lift (get_string "hostname" outputChannelInfo);
    port ← lift (get_unsigned "port" outputChannelInfo);
    configured ← reads m_configuredOutputChannels;
    disconnect_matching hostname port configured.

Definition disconnectAll (l : links) : links := foldl (fun l s => disconnectImpl s l) l (m_openConnections l).*1.

(** The hello message *)
Definition hello (outputChannelInfo : hash) : outcome hash :=
  memoryLocation ← get_string "memoryLocation" outputChannelInfo;
  hash_with [("reason", VString "hello"); ("instanceId", VString m_instanceId); ("memoryLocation", VString memoryLocation);
             ("dataDistribution", VString m_dataDistribution); ("onSlowness", VString m_onSlowness);
             ("maxQueueLength", VPod PUInt32 m_maxQueueLength)]%string [].

(** The first part of onConnect: to read and to write hello, which may fail ([sent]); the error code afterwards *)
Definition say_hello (ec : error_code) (outputChannelInfo : hash) (tcp : nat) (sent : bool) : io links error_code :=
  if bool_decide (ec = success) then
    catching (
      modify (fun l => set_reading (l_reading l ++ [tcp]) l) ;;
      message ← lift (hello outputChannelInfo);
      if sent then modify (write_to tcp message) ;; mret success else lift (Throw IOException) (* of the network *))
      (fun _ => mret operation_canceled)
  else mret ec.

Definition onConnect (ec : error_code) (outputChannelInfo : hash) (tcp : nat) (connectId : Z) (handler : option nat)
    (sent : bool) : io links unit :=
  ec ← say_hello ec outputChannelInfo tcp sent;
  outputChannelString ← lift (get_string "outputChannelString" outputChannelInfo);
  setup ← reads (fun l => mfind outputChannelString (m_connectionsBeingSetup l));
  match setup with
  | None => mret tt
  | Some (id, _) =>
      if negb (id =? connectId) then mret tt else
      modify (fun l => set_setup (merase outputChannelString (m_connectionsBeingSetup l)) l) ;;
      modify (fun l =>
        if bool_decide (ec = success) then set_connections (mset outputChannelString tcp (m_openConnections l)) l else l) ;;
      modify (postConnectionTracker outputChannelString (if bool_decide (ec = success) then CONNECTED else DISCONNECTED)) ;;
      modify (answer handler ec)
  end.

(** onConnectWrap when the input channel is destroyed: the handler is called here *)
Definition onConnect_dead (handler : option nat) (l : links) : links := answer handler operation_canceled l.

(** onTcpChannelError in its two regions: the end-of-stream marks and whether the end of stream is to
    be set; the connection (and its tracker) *)
Definition eos_error (channel : option nat) (l : links) : links * bool :=
  let kept := filter (fun c => c ∈ l_alive l /\ Some c <> channel) (m_eosChannels l) in
  let l := set_eosChannels kept l in
  (l, negb (bool_decide (m_openConnections l = [])) && Nat.eqb (base.size kept) (length (m_openConnections l))).

Definition find_connection (tcp : nat) (l : list (string * nat)) : option string :=
  fst <$> List.find (fun p => Nat.eqb p.2 tcp) l.

Definition connection_error (tcp : nat) (l : links) : links :=
  match find_connection tcp (m_openConnections l) with
  | Some outputChannelString => eraseConnection outputChannelString l
  | None => l   (** connection->stop(), which has no effect on the channel *)
  end.

(** The handling of an end-of-stream message: whether it is the last one *)
Definition eos_received (tcp : nat) (l : links) : links * bool :=
  let l := set_eosChannels ({[tcp]} ∪ m_eosChannels l) l in
  (l, negb (Nat.ltb (base.size (m_eosChannels l)) (length (m_openConnections l)))).

Definition updateOutputChannelConfiguration (outputChannelString : string) (config : hash) (l : links) : links :=
  set_configured (mset outputChannelString config (m_configuredOutputChannels l)) l.

(** The loop that fills m_configuredOutputChannels *)
Definition configure_one (outputChannelString : string) : io links unit :=
  if Nat.eqb (length (split outputChannelString)) 2 then
    modify (fun l => set_configured (mset outputChannelString [] (m_configuredOutputChannels l)) l)
  else lift (Throw ParameterException).

Definition parseOutputChannelConfiguration (config : hash) : io links unit :=
  given ← lift (has "connectedOutputChannels" k_defaultSep config);
  if given : bool then
    v ← lift (get (Tvector string_) "connectedOutputChannels" k_defaultSep config);
    connectedOutputChannels ← lift (match v with VVecString l => Ret l | _ => Undef (* not reached *) end);
    modify (set_configured []) ;;
    for_each connectedOutputChannels configure_one ;;
    modify (fun l => set_connections (filter (fun p => p.1 ∈ connectedOutputChannels) (m_openConnections l)) l)
  else mret tt.

Definition getConnectedOutputChannels (l : links) : list (string * hash) := m_configuredOutputChannels l.

(** getConnectionStatus; closed connections are erased. *)
Fixpoint connection_status (configured : list string) (l : links) : list (string * ConnectionStatus) * links :=
  match configured with
  | [] => ([], l)
  | outputChannel :: configured =>
      let '(status, l) :=
        match mfind outputChannel (m_openConnections l) with
        | Some tcp => if bool_decide (tcp ∈ l_open l) then (CONNECTED, l) else (DISCONNECTED, eraseConnection outputChannel l)
        | None =>
            match mfind outputChannel (m_connectionsBeingSetup l) with
            | Some _ => (CONNECTING, l)
            | None => (DISCONNECTED, l)
            end
        end in
      let '(result, l) := connection_status configured l in
      (mset outputChannel status result, l)
  end.
Definition getConnectionStatus (l : links) : list (string * ConnectionStatus) * links :=
  connection_status (m_configuredOutputChannels l).*1 l.

(** ** Steps *)

Inductive link_action : Type :=
| Connect (outputChannelInfo : hash) (handler : option nat) (random : Z)
| Established (i : nat) (ec : error_code) (sent : bool)               (** the handler of startAsync *)
| Disconnect (outputChannelInfo : hash)
| DisconnectFrom (outputChannelString : string)
| Configure (config : hash)                                           (** in reconfigure *)
| UpdateConfiguration (outputChannelString : string) (config : hash)
| Status                                                              (** getConnectionStatus *)
| EosReceived (tcp : nat)                                             (** regions of onTcpChannelRead and onTcpChannelError *)
| ErrorEos (channel : option nat)
| ErrorErase (tcp : nat)
| CloseSocket (tcp : nat)                                             (** by the peer *)
| DestroyChannel (tcp : nat).                                         (** the last pointer goes *)

Definition done (l : links) : links * outcome unit := (l, Ret tt).

(** A new channel of an established connection *)
Definition establish (ec : error_code) (l : links) : links :=
  if bool_decide (ec = success)
  then set_sockets (S (l_next l)) ({[l_next l]} ∪ l_alive l) ({[l_next l]} ∪ l_open l) l else l.

Definition exec_link (a : link_action) (l : links) : option (links * outcome unit) :=
  match a with
  | Connect outputChannelInfo handler random => Some (connect outputChannelInfo handler random l)
  | Established i ec sent =>
      x ← l_attempts l !! i;
      Some (onConnect ec (a_info x) (l_next l) (a_id x) (a_handler x) sent
              (establish ec (set_attempts (delete i (l_attempts l)) l)))
  | Disconnect outputChannelInfo => Some (disconnect outputChannelInfo l)
  | DisconnectFrom outputChannelString => Some (done (disconnectImpl outputChannelString l))
  | Configure config => Some (parseOutputChannelConfiguration config l)
  | UpdateConfiguration outputChannelString config =>
      Some (done (updateOutputChannelConfiguration outputChannelString config l))
  | Status => Some (done (getConnectionStatus l).2)
  | EosReceived tcp => Some (done (eos_received tcp l).1)
  | ErrorEos channel => Some (done (eos_error channel l).1)
  | ErrorErase tcp => Some (done (connection_error tcp l))
  | CloseSocket tcp => Some (done (close_channel tcp l))
  | DestroyChannel tcp =>
      if bool_decide (tcp ∈ (m_openConnections l).*2) then None
      else Some (done (set_sockets (l_next l) (l_alive l ∖ {[tcp]}) (l_open l ∖ {[tcp]}) l))
  end.

(** A run, with the handlers given to the calls of connect that have returned *)
Definition called (a : link_action) (r : outcome unit) : list nat :=
  match a, r with Connect _ (Some h) _, Ret _ => [h] | _, _ => [] end.
Fixpoint run_links (acts : list link_action) (l : links) (calls : list nat) : option (links * list nat) :=
  match acts with
  | [] => Some (l, calls)
  | a :: acts =>
      '(l, r) ← exec_link a l;
      match r with
      | Ret _ | Throw _ => run_links acts l (calls ++ called a r)
      | Undef | OutOfFuel => None
      end
  end.
End links.

(** ** Looking up *)

(** A call that returns or throws an exception of the framework *)
Definition replies {A} (o : outcome A) : Prop :=
  match o with Ret _ => True | Throw e => is_karabo_exception e = true | Undef | OutOfFuel => False end.

Lemma replies_std {A} (o : outcome A) e : replies o -> o = Throw e -> is_std e = true.
Proof. intros H ->. by destruct e. Qed.

Lemma get_replies t path m : plain path ->
  replies (get t path k_defaultSep m) /\ forall v, get t path k_defaultSep m = Ret v -> type v = t.
Proof.
  intros [H1 H2]. unfold get, getNode, getLastHash. rewrite H1. cbn. rewrite H2. cbn. unfold container_getNode, getValue.
  destruct (afind path m) as [n|]; cbn; [|done]. case_decide; cbn; [|done]. split; [done|]. by intros v [= <-].
Qed.

Lemma get_string_replies path m : plain path -> replies (get_string path m).
Proof.
  intros P. pose proof (get_string_answers path m P) as A. unfold get_string in *.
  destruct (get_replies (Tscalar string_) path m P) as [R _].
  destruct (get (Tscalar string_) path k_defaultSep m) as [v| | |]; cbn in *; try done. by destruct v.
Qed.

Lemma get_unsigned_replies path m : plain path -> replies (get_unsigned path m).
Proof.
  intros P. pose proof (get_unsigned_answers path m P) as A. unfold get_unsigned in *.
  destruct (get_replies (Tscalar (pod_scalar PUInt32)) path m P) as [R _].
  destruct (get (Tscalar (pod_scalar PUInt32)) path k_defaultSep m) as [v| | |]; cbn in *; try done. by destruct v.
Qed.

(** The keys of the messages *)
Ltac plain_key := split; [intros; reflexivity|reflexivity].
Create HintDb messages.
#[export] Hint Extern 1 (plain _) => plain_key : messages.

Section messages.
Context (m_instanceId m_dataDistribution m_onSlowness : string) (m_maxQueueLength : Z).

Definition hello_message (memoryLocation : string) : hash :=
  [mkNode "reason" [] (VString "hello"); mkNode "instanceId" [] (VString m_instanceId);
   mkNode "memoryLocation" [] (VString memoryLocation); mkNode "dataDistribution" [] (VString m_dataDistribution);
   mkNode "onSlowness" [] (VString m_onSlowness); mkNode "maxQueueLength" [] (VPod PUInt32 m_maxQueueLength)].

Lemma hello_spec info :
  hello m_instanceId m_dataDistribution m_onSlowness m_maxQueueLength info =
    (memoryLocation ← get_string "memoryLocation" info; Ret (hello_message memoryLocation)).
Proof. unfold hello. by destruct (get_string "memoryLocation" info). Qed.

Lemma replies_bind {A B} (o : outcome A) (f : A -> outcome B) : replies o -> (forall x, replies (f x)) -> replies (o ≫= f).
Proof. destruct o; cbn; auto. Qed.

Lemma configuration_replies info : replies (prepareConnectionConfiguration info).
Proof.
  apply replies_bind; [apply get_string_replies; auto with messages|]. intros h.
  apply replies_bind; [apply get_unsigned_replies; auto with messages|]. intros p. vm_compute. exact I.
Qed.
End messages.

(** ** Answers *)

#[local] Arguments occ : simpl never.
#[local] Arguments get_string : simpl never.
#[local] Arguments get_unsigned : simpl never.
#[local] Arguments prepareConnectionConfiguration : simpl never.

Definition answers_to (h : nat) (n : notice) : Z := match n with Answer h' _ => one h h' | Track _ _ => 0 end.
Definition waits_for (h : nat) (handler : option nat) : Z := match handler with Some h' => one h h' | None => 0 end.
(** How often a handler has been called, and how often it still has to be *)
Definition answered (h : nat) (l : links) : Z := zsum (answers_to h) (l_notices l).
Definition waiting (h : nat) (l : links) : Z := msum (fun e => waits_for h e.2) (m_connectionsBeingSetup l).

(** Every call of connect that has returned is answered or will be; who waits has an attempt of its own. *)
Record books (used : list Z) (calls : list nat) (l : links) : Prop := {
  b_unique : unique_keys (m_connectionsBeingSetup l);
  b_ids : NoDup (a_id <$> l_attempts l);
  b_match s id handler : mfind s (m_connectionsBeingSetup l) = Some (id, handler) ->
    exists a, a ∈ l_attempts l /\ a_id a = id /\ a_handler a = handler /\
      get_string "outputChannelString" (a_info a) = Ret s;
  b_count h : answered h l + waiting h l = occ h calls;
  b_used a : a ∈ l_attempts l -> a_id a ∈ used
}.

Definition same_books (l l' : links) : Prop :=
  m_connectionsBeingSetup l' = m_connectionsBeingSetup l /\ l_attempts l' = l_attempts l /\
  forall h, answered h l' = answered h l.

#[export] Instance same_books_preorder : PreOrder same_books.
Proof.
  split; [by intros ?|]. intros l1 l2 l3 (? & ? & H1) (? & ? & H2).
  split_and!; [congruence|congruence|]. intros h. by rewrite H2, H1.
Qed.

Lemma books_same used calls l l' : same_books l l' -> books used calls l -> books used calls l'.
Proof.
  intros (Es & Ea & En) [H1 H2 H3 H4 H5]. split; rewrite ?Es, ?Ea; try done.
  intros h. unfold waiting. rewrite Es, En. apply H4.
Qed.

Lemma books_used used used' calls l : used ⊆ used' -> books used calls l -> books used' calls l.
Proof. intros U [H1 H2 H3 H4 H5]. split; try done. intros a Ha. by apply U, H5. Qed.

Lemma occ_handler h handler : occ h (option_list handler) = waits_for h handler.
Proof. destruct handler; cbn; [rewrite occ_cons, occ_nil; lia|by rewrite occ_nil]. Qed.

Section answers.
Context (hasTracker : bool).

Lemma answered_answer h handler ec l : answered h (answer handler ec l) = answered h l + waits_for h handler.
Proof.
  unfold answered, answer, waits_for. destruct handler as [h'|]; [|lia]. cbn. rewrite zsum_app. cbn. lia.
Qed.

Lemma track_same s st l : same_books l (postConnectionTracker hasTracker s st l).
Proof.
  unfold postConnectionTracker, same_books, answered. destruct hasTracker; [|done]. cbn. split_and!; [done|done|].
  intros h. rewrite zsum_app. cbn. lia.
Qed.

Lemma erase_same s l : same_books l (eraseConnection hasTracker s l).
Proof. unfold eraseConnection. etransitivity; [|apply track_same]. done. Qed.

Lemma answer_books used calls handler ec l :
  books used calls l -> books used (calls ++ option_list handler) (answer handler ec l).
Proof.
  intros [H1 H2 H3 H4 H5].
  assert (m_connectionsBeingSetup (answer handler ec l) = m_connectionsBeingSetup l /\
    l_attempts (answer handler ec l) = l_attempts l) as [Es Ea] by by destruct handler.
  split; rewrite ?Es, ?Ea; try done. intros h. unfold waiting. rewrite Es, answered_answer, occ_app.
  rewrite <- H4, occ_handler. unfold waiting. lia.
Qed.

(** Giving up or finishing what waits *)
Lemma settle_books used calls s id handler ec l :
  books used calls l -> mfind s (m_connectionsBeingSetup l) = Some (id, handler) ->
  books used calls (answer handler ec (set_setup (merase s (m_connectionsBeingSetup l)) l)).
Proof.
  intros [H1 H2 H3 H4 H5] F.
  set (l1 := set_setup (merase s (m_connectionsBeingSetup l)) l).
  assert (m_connectionsBeingSetup (answer handler ec l1) = merase s (m_connectionsBeingSetup l) /\
    l_attempts (answer handler ec l1) = l_attempts l) as [Es Ea] by by destruct handler.
  split; rewrite ?Es, ?Ea; try done.
  - by apply merase_unique.
  - intros s' id' hd'. rewrite mfind_merase. destruct (String.eqb s s'); [done|]. apply H3.
  - intros h. unfold waiting. rewrite Es, answered_answer. rewrite <- H4. unfold waiting.
    rewrite (msum_merase (fun e => waits_for h e.2) _ _ _ H1 F). cbn. unfold l1, answered. cbn. lia.
Qed.

Lemma disconnect_books used calls s l : books used calls l -> books used calls (disconnectImpl hasTracker s l).
Proof.
  intros B. unfold disconnectImpl. destruct (mfind s (m_connectionsBeingSetup l)) as [[id handler]|] eqn:F.
  - eapply books_same; [apply track_same|]. by eapply settle_books.
  - destruct (mfind s (m_openConnections l)) as [tcp|]; [|done].
    eapply books_same; [apply erase_same|]. eapply books_same; [|exact B]. done.
Qed.

Lemma connect_new_books used calls info s handler random l :
  books used calls l -> random ∉ used -> mfind s (m_connectionsBeingSetup l) = None ->
  get_string "outputChannelString" info = Ret s -> (exists c, prepareConnectionConfiguration info = Ret c) ->
  exists l', connect_new hasTracker info s handler random l = (l', Ret tt) /\
    books (random :: used) (calls ++ option_list handler) l'.
Proof.
  intros [H1 H2 H3 H4 H5] Fr F Hs [c Hc].
  set (l1 := set_setup (mset s (random, handler) (m_connectionsBeingSetup l)) l).
  set (l2 := postConnectionTracker hasTracker s CONNECTING l1).
  exists (set_attempts (l_attempts l2 ++ [mkAttempt info random handler]) l2).
  split; [unfold connect_new, mbind, io_bind, modify, lift; rewrite Hc; exact eq_refl|]. clear c Hc.
  destruct (track_same s CONNECTING l1) as (Es & Ea & En). fold l2 in Es, Ea, En.
  split; cbn [set_attempts m_connectionsBeingSetup l_attempts]; rewrite ?Es, ?Ea.
  - by apply mset_unique.
  - rewrite fmap_app. cbn. apply NoDup_app. split_and!; [done| |apply NoDup_singleton].
    intros x Hx ->%list_elem_of_singleton. apply Fr. apply list_elem_of_fmap in Hx as (a & -> & Ha). by apply H5.
  - intros s' id' hd'. unfold l1. cbn. rewrite mfind_mset. destruct (String.eqb s s') eqn:E.
    + apply String.eqb_eq in E as <-. intros [= <- <-]. eexists. split; [apply elem_of_app; right; by apply list_elem_of_singleton|done].
    + intros M. destruct (H3 _ _ _ M) as (a & Ha & R). exists a. split; [apply elem_of_app; by left|done].
  - intros h. pose proof (En h) as Eh. unfold answered, waiting in *.
    cbn [set_attempts m_connectionsBeingSetup l_notices]. rewrite Eh, Es. unfold l1. cbn [set_setup m_connectionsBeingSetup l_notices].
    rewrite msum_mset_new by done. rewrite occ_app, <- H4. unfold answered, waiting.
    rewrite occ_handler. cbn [snd]. lia.
  - intros a [Ha| ->%list_elem_of_singleton]%elem_of_app; cbn; [right; by apply H5|by left].
Qed.
End answers.

(** ** Calls that keep a property of the state, also if they throw *)

Definition keeps {A} (P : links -> Prop) (x : io links A) : Prop :=
  forall l, P l -> let '(l', r) := x l in P l' /\ replies r.

Lemma keeps_ret {A} P (a : A) : keeps P (mret a).
Proof. by intros l H. Qed.
Lemma keeps_lift {A} P (o : outcome A) : replies o -> keeps P (lift o).
Proof. by intros R l H. Qed.
Lemma keeps_reads {A} P (f : links -> A) : keeps P (reads f).
Proof. by intros l H. Qed.
Lemma keeps_modify P (f : links -> links) : (forall l, P l -> P (f l)) -> keeps P (modify f).
Proof. intros F l H. split; [by apply F|done]. Qed.

Lemma keeps_bind {A B} P (x : io links A) (f : A -> io links B) :
  keeps P x -> (forall l l' a, x l = (l', Ret a) -> keeps P (f a)) -> keeps P (x ≫= f).
Proof.
  intros K F l H. specialize (K l H). unfold mbind, io_bind. destruct (x l) as [l1 [a| | |]] eqn:E; try exact K.
  apply (F _ _ _ E), K.
Qed.

Lemma keeps_bind' {A B} P (x : io links A) (f : A -> io links B) :
  keeps P x -> (forall a, keeps P (f a)) -> keeps P (x ≫= f).
Proof. intros K F. by apply keeps_bind. Qed.

Lemma keeps_for_each {A} P (f : A -> io links unit) (l : list A) : (forall x, keeps P (f x)) -> keeps P (for_each l f).
Proof. intros F. induction l as [|x l IH]; [apply keeps_ret|]. apply keeps_bind'; [apply F|auto]. Qed.

#[export] Hint Resolve keeps_ret keeps_lift keeps_reads keeps_for_each get_string_replies get_unsigned_replies : messages.

Lemma has_replies path m : plain path -> replies (has path k_defaultSep m).
Proof. intros P. by rewrite has_plain. Qed.
#[export] Hint Resolve has_replies : messages.

Section answered.
Context (m_instanceId m_dataDistribution m_onSlowness : string) (m_maxQueueLength : Z) (hasTracker : bool)
        (split : string -> list string).
Abbreviation connect := (connect hasTracker).
Abbreviation onConnect := (onConnect m_instanceId m_dataDistribution m_onSlowness m_maxQueueLength hasTracker).
Abbreviation exec_link := (exec_link m_instanceId m_dataDistribution m_onSlowness m_maxQueueLength hasTracker split).

Lemma same_keeps used calls (f : links -> links) : (forall l, same_books l (f l)) -> keeps (books used calls) (modify f).
Proof. intros F. apply keeps_modify. intros l. by apply books_same. Qed.

Lemma disconnect_keeps used calls info : keeps (books used calls) (disconnect hasTracker info).
Proof.
  unfold disconnect. apply keeps_bind'; [auto with messages|]. intros [].
  - apply keeps_bind'; [auto with messages|]. intros s. apply keeps_modify. intros l. apply disconnect_books.
  - apply keeps_bind'; [auto with messages|]. intros hostname. apply keeps_bind'; [auto with messages|]. intros port.
    apply keeps_bind'; [auto with messages|]. intros configured.
    induction configured as [|[s i] configured IH]; cbn [disconnect_matching]; [auto with messages|].
    apply keeps_bind'; [auto with messages|]. intros h. destruct (negb _); [done|].
    apply keeps_bind'; [auto with messages|]. intros p. destruct (negb _); [done|].
    apply keeps_modify. intros l. apply disconnect_books.
Qed.

Lemma configure_keeps used calls config : keeps (books used calls) (parseOutputChannelConfiguration split config).
Proof.
  unfold parseOutputChannelConfiguration. apply keeps_bind'; [auto with messages|]. intros []; [|auto with messages].
  destruct (get_replies (Tvector string_) "connectedOutputChannels" config) as [R T]; [auto with messages|].
  apply keeps_bind; [by apply keeps_lift|]. intros l l' v [= _ E]. specialize (T v E).
  apply keeps_bind'; [apply keeps_lift; by destruct v as [|[]|[]| | | | |[]|[]| | | | | | | | |]|]. intros channels.
  apply keeps_bind'; [by apply same_keeps|]. intros _.
  apply keeps_bind'; [|by intros _; apply same_keeps].
  apply keeps_for_each. intros s. unfold configure_one. destruct (Nat.eqb _ 2); [by apply same_keeps|by apply keeps_lift].
Qed.

Lemma status_books used calls (configured : list string) l :
  books used calls l -> books used calls (connection_status hasTracker configured l).2.
Proof.
  revert l. induction configured as [|s configured IH]; intros l B; [done|]. cbn [connection_status].
  assert (forall st l1, books used calls l1 -> books used calls
    (let '(result, l2) := connection_status hasTracker configured l1 in (mset s st result, l2)).2) as G.
  { intros st l1 B1. specialize (IH l1 B1). by destruct (connection_status hasTracker configured l1). }
  destruct (mfind s (m_openConnections l)); [|destruct (mfind s (m_connectionsBeingSetup l)); by apply G].
  case_bool_decide; apply G; [done|]. eapply books_same; [apply erase_same|done].
Qed.

(** What is asked of a call of connect: an address, and a random number that has not been drawn before *)
Definition addressed (used : list Z) (a : link_action) : Prop :=
  match a with
  | Connect info _ random => (exists c, prepareConnectionConfiguration info = Ret c) /\ random ∉ used
  | _ => True
  end.
Definition drawn (a : link_action) (used : list Z) : list Z :=
  match a with Connect _ _ random => random :: used | _ => used end.

Lemma connect_books used calls info handler random l l' r :
  books used calls l -> addressed used (Connect info handler random) -> connect info handler random l = (l', r) ->
  replies r /\ books (random :: used) (calls ++ called (Connect info handler random) r) l'.
Proof.
  intros B [Hc Fr]. assert (books (random :: used) calls l) as B' by (eapply books_used; [|exact B]; intros x Hx; by right).
  assert (forall ec l0, books used calls l0 -> modify (answer handler ec) l0 = (l', r) ->
    replies r /\ books (random :: used) (calls ++ called (Connect info handler random) r) l') as Now.
  { intros ec l0 B0 [= <- <-]. split; [done|]. cbn [called]. apply (answer_books _ _ handler ec l0).
    eapply books_used; [|exact B0]. intros x Hx. by right. }
  unfold InputLinks.connect, mbind, io_bind, lift at 1.
  pose proof (get_string_replies "connectionType" info ltac:(auto with messages)) as R1.
  destruct (get_string "connectionType" info) as [ct| | |]; try done;
    [|intros [= <- <-]; split; [done|]; destruct handler; cbn [called]; by rewrite app_nil_r].
  destruct (negb (String.eqb ct "tcp")); [by apply Now|]. rewrite !has_plain by auto with messages. cbn [lift].
  destruct (negb (ahas "outputChannelString" info)); [by apply Now|].
  destruct (negb (ahas "memoryLocation" info)); [by apply Now|]. unfold lift.
  pose proof (get_string_replies "outputChannelString" info ltac:(auto with messages)) as R2.
  destruct (get_string "outputChannelString" info) as [s| | |] eqn:Es; try done;
    [|intros [= <- <-]; split; [done|]; destruct handler; cbn [called]; by rewrite app_nil_r].
  cbn [reads modify]. destruct (mfind s (m_configuredOutputChannels l)); [|by apply Now].
  set (l1 := match mfind s (m_openConnections l) with Some _ => _ | None => _ end).
  assert (books used calls l1) as B1.
  { unfold l1. destruct (mfind s (m_openConnections l)); [|done]. eapply books_same; [apply erase_same|done]. }
  destruct (mfind s (m_connectionsBeingSetup l1)) eqn:F; [by apply Now|].
  destruct (connect_new_books hasTracker used calls info s handler random l1 B1 Fr F Es Hc) as (l2 & -> & B2).
  intros [= <- <-]. split; [done|]. exact B2.
Qed.

(** *** The end of an attempt *)

Lemma caught_ret {A} P (x : io links A) (a0 : A) l :
  keeps P x -> P l -> exists l' a, catching x (fun _ => mret a0) l = (l', Ret a) /\ P l'.
Proof.
  intros K H. specialize (K l H). unfold catching. destruct (x l) as [l1 [a|e| |]]; destruct K as [Hl R]; try done.
  - by exists l1, a.
  - rewrite (replies_std (A := A) (Throw e) e R eq_refl). by exists l1, a0.
Qed.

Lemma say_hello_spec l0 ec info tcp sent : exists l1 ec1,
  say_hello m_instanceId m_dataDistribution m_onSlowness m_maxQueueLength ec info tcp sent l0 = (l1, Ret ec1) /\
  same_books l0 l1.
Proof.
  assert (forall f : links -> links, (forall l, same_books l (f l)) -> keeps (same_books l0) (modify f)) as M.
  { intros f F. apply keeps_modify. intros l S. etransitivity; [exact S|apply F]. }
  unfold say_hello. case_bool_decide; [|by exists l0, ec].
  apply caught_ret; [|done].
  apply keeps_bind'; [by apply M|]. intros _. apply keeps_bind'.
  { apply keeps_lift. rewrite hello_spec. apply replies_bind; [auto with messages|done]. }
  intros message. destruct sent; [|by apply keeps_lift].
  apply keeps_bind'; [by apply M|]. intros _. apply keeps_ret.
Qed.

(** The books while the attempt [x] is ending: someone may still wait for it. *)
Definition ending (x : attempt) (used : list Z) (calls : list nat) (l : links) : Prop :=
  exists l0, books used calls l0 /\ m_connectionsBeingSetup l = m_connectionsBeingSetup l0 /\
    (forall h, answered h l = answered h l0) /\ (forall a, a ∈ l_attempts l0 <-> a = x \/ a ∈ l_attempts l) /\
    NoDup (a_id <$> l_attempts l) /\ a_id x ∉ a_id <$> l_attempts l.

Lemma ending_start used calls l i x :
  books used calls l -> l_attempts l !! i = Some x -> ending x used calls (set_attempts (delete i (l_attempts l)) l).
Proof.
  intros B Hx. pose proof (delete_Permutation _ _ _ Hx) as Hp. pose proof (b_ids _ _ _ B) as Hd.
  rewrite Hp in Hd. apply NoDup_cons in Hd as [Hn Hd].
  exists l. split_and!; try done. intros a. cbn. rewrite Hp at 1. apply elem_of_cons.
Qed.

Lemma ending_same x used calls l l' : same_books l l' -> ending x used calls l -> ending x used calls l'.
Proof.
  intros (Es & Ea & En) (l0 & B & H1 & H2 & H3). exists l0. rewrite Es, Ea. split_and!; try apply H3; try done.
  intros h. by rewrite En.
Qed.

(** Nobody waits for it *)
Lemma ending_unawaited x used calls l : ending x used calls l ->
  (forall s id handler, mfind s (m_connectionsBeingSetup l) = Some (id, handler) ->
     get_string "outputChannelString" (a_info x) = Ret s -> id <> a_id x) ->
  books used calls l.
Proof.
  intros (l0 & [H1 H2 H3 H4 H5] & Es & En & Ea & Hd & Hn) N. split; [by rewrite Es|done| | |].
  - intros s id handler F. pose proof F as F'. rewrite Es in F'. destruct (H3 _ _ _ F') as (a & Ha & Hi & Hh & Hs).
    exists a. split_and!; try done. apply Ea in Ha as [->|Ha]; [|done]. by destruct (N _ _ _ F Hs).
  - intros h. unfold waiting. rewrite En, Es. apply H4.
  - intros a Ha. apply H5, Ea. by right.
Qed.

(** Who waits for it is told. *)
Lemma ending_awaited x used calls l s id handler ec : ending x used calls l ->
  get_string "outputChannelString" (a_info x) = Ret s -> mfind s (m_connectionsBeingSetup l) = Some (id, handler) ->
  id = a_id x ->
  books used calls (answer (a_handler x) ec (set_setup (merase s (m_connectionsBeingSetup l)) l)).
Proof.
  intros (l0 & B & Es & En & Ea & Hd & Hn) Hs F ->. pose proof F as F'. rewrite Es in F'.
  assert (handler = a_handler x) as ->.
  { destruct (b_match _ _ _ B _ _ _ F') as (a & Ha & Hi & <- & _). apply Ea in Ha as [->|Ha]; [done|].
    destruct Hn. rewrite <- Hi. by apply list_elem_of_fmap_2. }
  pose proof (settle_books used calls s _ _ ec l0 B F') as [H1 H2 H3 H4 H5].
  set (l1 := answer (a_handler x) ec (set_setup (merase s (m_connectionsBeingSetup l)) l)).
  set (l2 := answer (a_handler x) ec (set_setup (merase s (m_connectionsBeingSetup l0)) l0)) in *.
  assert (m_connectionsBeingSetup l1 = m_connectionsBeingSetup l2 /\ l_attempts l1 = l_attempts l /\
    l_attempts l2 = l_attempts l0) as (E1 & E2 & E3)
    by (unfold l1, l2; destruct (a_handler x); cbn; by rewrite Es).
  split; rewrite ?E1, ?E2; try done.
  - intros s' id' handler' F1. destruct (H3 _ _ _ F1) as (a & Ha & Hi & Hh & Hs'). exists a.
    split_and!; try done. rewrite E3 in Ha. apply Ea in Ha as [->|Ha]; [|done].
    rewrite Hs in Hs'. injection Hs' as <-. exfalso. revert F1.
    unfold l2. destruct (a_handler x); cbn; by rewrite mfind_merase, String.eqb_refl.
  - intros h. rewrite <- H4. unfold waiting. rewrite E1. unfold l1, l2. rewrite !answered_answer.
    unfold answered in *. cbn. by rewrite En.
  - intros a Ha. apply (H5 a). rewrite E3. apply Ea. by right.
Qed.

Lemma established_books used calls l i x ec sent l' r :
  books used calls l -> l_attempts l !! i = Some x ->
  onConnect ec (a_info x) (l_next l) (a_id x) (a_handler x) sent
    (establish ec (set_attempts (delete i (l_attempts l)) l)) = (l', r) ->
  replies r /\ books used calls l'.
Proof.
  intros B Hx. pose proof (ending_start used calls l i x B Hx) as E0.
  set (l0 := establish ec (set_attempts (delete i (l_attempts l)) l)).
  assert (ending x used calls l0) as E1 by (eapply ending_same; [|exact E0]; unfold l0, establish; by case_bool_decide).
  clearbody l0. clear E0 B Hx. unfold InputLinks.onConnect, mbind, io_bind.
  destruct (say_hello_spec l0 ec (a_info x) (l_next l) sent) as (l1 & ec1 & -> & S).
  apply (ending_same _ _ _ _ _ S) in E1. clear S l0. unfold lift.
  pose proof (get_string_replies "outputChannelString" (a_info x) ltac:(auto with messages)) as R.
  destruct (get_string "outputChannelString" (a_info x)) as [s| | |] eqn:Es; try done.
  2:{ intros [= <- <-]. split; [done|]. apply (ending_unawaited x); [done|]. congruence. }
  cbn [reads]. destruct (mfind s (m_connectionsBeingSetup l1)) as [[id handler]|] eqn:F.
  2:{ intros [= <- <-]. split; [done|]. apply (ending_unawaited x); [done|]. congruence. }
  destruct (Z.eqb_spec id (a_id x)) as [Eid|Nid]; cbn [negb].
  2:{ intros [= <- <-]. split; [done|]. apply (ending_unawaited x); [done|]. congruence. }
  cbn [modify]. intros [= <- <-]. split; [done|].
  eapply books_same; [|exact (ending_awaited x used calls l1 s id handler ec1 E1 Es F Eid)].
  set (l2 := set_setup _ l1). set (l3 := if bool_decide (ec1 = success) then _ else l2).
  assert (same_books l2 l3) as S23 by (unfold l3; by case_bool_decide).
  set (l4 := postConnectionTracker _ _ _ l3).
  assert (same_books l2 l4) as S24 by (etransitivity; [exact S23|apply track_same]).
  destruct S24 as (G1 & G2 & G3). unfold answer. destruct (a_handler x); cbn; split_and!; try done.
  intros h'. unfold answered in *. cbn. rewrite !zsum_app. by rewrite G3.
Qed.

(** ** Runs *)

(** The states that calls and events lead to, with the random numbers drawn and the handlers given
    to the calls of connect that have returned *)
Inductive linked : list Z -> list nat -> links -> Prop :=
| linked_start : linked [] [] no_links
| linked_step used calls l a l' r :
    linked used calls l -> addressed used a -> exec_link a l = Some (l', r) ->
    linked (drawn a used) (calls ++ called a r) l'.

Lemma step_books used calls l a l' r :
  books used calls l -> addressed used a -> exec_link a l = Some (l', r) ->
  replies r /\ books (drawn a used) (calls ++ called a r) l'.
Proof.
  intros B V E.
  assert (forall x : io links unit, keeps (books used calls) x -> (l', r) = x l ->
    called a r = [] -> drawn a used = used -> replies r /\ books (drawn a used) (calls ++ called a r) l') as K.
  { intros x K Ex Hc Hd. specialize (K l B). rewrite <- Ex in K. rewrite Hc, Hd, app_nil_r. by destruct K. }
  assert (forall f : links -> links, (forall l, books used calls l -> books used calls (f l)) ->
    (l', r) = done (f l) -> called a r = [] -> drawn a used = used ->
    replies r /\ books (drawn a used) (calls ++ called a r) l') as F
    by (intros f Hf Ef; apply (K (modify f)); [by apply keeps_modify|exact Ef]).
  destruct a; cbn [InputLinks.exec_link] in E.
  - injection E as E. by eapply connect_books.
  - destruct (l_attempts l !! i) as [x|] eqn:Hx; [|discriminate]. injection E as E.
    cbn [drawn called]. rewrite app_nil_r. by eapply established_books.
  - injection E as E. by apply (K _ (disconnect_keeps _ _ outputChannelInfo)).
  - injection E as <- <-. apply (F (disconnectImpl hasTracker outputChannelString)); try done.
    intros l1. apply disconnect_books.
  - injection E as E. by apply (K _ (configure_keeps _ _ config)).
  - injection E as <- <-. apply (F (updateOutputChannelConfiguration outputChannelString config)); try done.
    intros l1. by apply books_same.
  - injection E as <- <-. apply (F (fun l => (getConnectionStatus hasTracker l).2)); try done.
    intros l1. apply status_books.
  - injection E as <- <-. apply (F (fun l => (eos_received tcp l).1)); try done. intros l1. by apply books_same.
  - injection E as <- <-. apply (F (fun l => (eos_error channel l).1)); try done. intros l1. by apply books_same.
  - injection E as <- <-. apply (F (connection_error hasTracker tcp)); try done. intros l1. apply books_same.
    unfold connection_error. destruct (find_connection tcp _); [apply erase_same|done].
  - injection E as <- <-. apply (F (close_channel tcp)); try done. intros l1. by apply books_same.
  - case_bool_decide; [discriminate|]. injection E as <- <-.
    apply (F (fun l => set_sockets (l_next l) (l_alive l ∖ {[tcp]}) (l_open l ∖ {[tcp]}) l)); try done.
    intros l1. by apply books_same.
Qed.

Lemma linked_books used calls l : linked used calls l -> books used calls l.
Proof.
  induction 1 as [|used calls l a l' r _ B V E]; [|by eapply step_books].
  split; cbn; try done; [constructor|constructor|intros a Ha; by apply elem_of_nil in Ha].
Qed.

(** Whatever is called and happens, in whatever order: no call is undefined; the handlers that have
    been called, and those that still wait for their connection, are together those given to
    connect, each as often as it was given; and once no connection is being established, none
    waits any more, so that every handler has been called exactly once for each call.  (That is as long
    as every call of connect has the address of the output channel, random numbers do not
    repeat, and the input channel is not destroyed.) *)
Theorem connect_answered used calls l :
  linked used calls l ->
  (forall a l' r, addressed used a -> exec_link a l = Some (l', r) -> replies r) /\
  (forall h, answered h l + waiting h l = occ h calls) /\
  (l_attempts l = [] -> m_connectionsBeingSetup l = [] /\ forall h, answered h l = occ h calls).
Proof.
  intros B%linked_books. split_and!.
  - intros a l' r V E. by eapply step_books.
  - apply B.
  - intros Ha. destruct (m_connectionsBeingSetup l) as [|[s [id handler]] m] eqn:Em.
    + split; [done|]. intros h. pose proof (b_count _ _ _ B h) as C. unfold waiting in C. rewrite Em in C. cbn in C. lia.
    + destruct (b_match _ _ _ B s id handler) as (a & Hin & _).
      { rewrite Em. cbn. by rewrite String.eqb_refl. }
      rewrite Ha in Hin. by apply elem_of_nil in Hin.
Qed.
End answered.

(** ** Examples *)

Definition example_address : hash :=
  [mkNode "connectionType" [] (VString "tcp"); mkNode "outputChannelString" [] (VString "dev:out");
   mkNode "memoryLocation" [] (VString "remote"); mkNode "hostname" [] (VString "host"); mkNode "port" [] (VPod PUInt32 1234)].
Definition no_split (s : string) : list string := [s; s].
Abbreviation example_run := (run_links "me" "copy" "drop" 10 true no_split).
Definition configure_example : link_action :=
  Configure [mkNode "connectedOutputChannels" [] (VVecString ["dev:out"%string])].

(** Connecting, with the notices in the order in which they are posted. *)
Example connected_example :
  (l ← example_run [configure_example; Connect example_address (Some 1%nat) 7; Established 0 success true] no_links [];
   Some (l_notices l.1, (m_openConnections l.1).*1)) =
  Some ([Track "dev:out" CONNECTING; Track "dev:out" CONNECTED; Answer 1 success], ["dev:out"%string]).
Proof. vm_compute. reflexivity. Qed.

(** A handler cancelled by disconnect is called again if the channel is destroyed before the
    connection is established: onConnectWrap cannot know about the cancellation. *)
Example called_twice :
  (l ← example_run [configure_example; Connect example_address (Some 1%nat) 7; DisconnectFrom "dev:out"] no_links [];
   Some (answered 1 (foldr (fun x => onConnect_dead (a_handler x)) l.1 (l_attempts l.1)), l.2)) = Some (2, [1%nat]).
Proof. vm_compute. reflexivity. Qed.

(** Without a host name connect throws, but has entered the attempt, so all later calls are refused. *)
Definition no_address : hash := filter (fun n => nKey n <> "hostname"%string) example_address.
Example refused_forever :
  (l ← example_run [configure_example; Connect no_address (Some 1%nat) 7; Connect example_address (Some 2%nat) 8] no_links [];
   Some (l_notices l.1, l_attempts l.1)) =
  Some ([Track "dev:out" CONNECTING; Answer 2 connection_already_in_progress], []).
Proof. vm_compute. reflexivity. Qed.
